(* ===== verification/_CoqProject ===== *)
-Q . S2P
Prelude.v
Rpc.v
Persister.v
RaftState.v
RaftRpc.v
RaftLeader.v
RaftInv.v
RaftAppend.v
RaftPeer.v
RaftOps.v
RaftProps.v
RaftReplication.v
RaftLogs.v
RaftNet.v
RaftFlaws.v
RaftElection.v
ElectionSafety.v
LogMatching.v
KvServer.v
Rsm.v
KvClerk.v
KvRaft.v
RsmReplies.v
RsmSrv.v
ShardCfg.v
ShardGrp.v
ShardMove.v
ShardRsm.v
ShardCtrler.v
ShardWorld.v
KvSrv.v
MrCoordinator.v
MrWorker.v
MrTasks.v
MrSequential.v
MrJob.v
GoText.v
LabGob.v
MrApps.v
Porcupine.v
PorcBitset.v
PorcList.v
PorcLin.v
PorcSearch.v
PorcCheck.v
PorcPartial.v
PorcVis.v
PorcLocal.v
KvHistory.v
KvSystem.v
KvLin.v
LabRpc.v
LabRpcProps.v
Tester.v
TesterProps.v
TesterClients.v
RfTest.v
RfTestProps.v
ShardTest.v
ShardService.v
KvTest.v
KvTestProps.v
KvAppends.v
Annot.v
AnnotProps.v
