(* ===== verification/Prelude.v ===== *)
(** * Verification of the 6.5840 labs: MapReduce, Raft, replicated and sharded key/value stores

    The repository holds one student's solutions of the MIT 6.5840 labs, in two trees:
    src/src (2024: MapReduce, a single-server key/value service) and src/lec-2025/src (2025:
    Raft, a replicated state machine, a replicated key/value service, a sharded key/value
    service), each with the course's simulated network and testers.  This library translates
    the solutions, and the simulated network they run on, into Rocq functions and proves what
    makes them correct; where the code is wrong it proves that instead.

    ** The program and its models

    Raft, [lec-2025/src/raft1/raft.go].  [RaftState] has the state of a peer ([Raft], one
    field per Go field), [persist], [readPersist], [Snapshot], [Make]; [RaftRpc] the handlers
    [RequestVote], [AppendEntries], [InstallSnapshot]; [RaftLeader] elections, [Start],
    [commit], the handlers of replies, [BroadcastAppendEntries], the tickers and [applier].
    [Persister] models [tester1/persister.go].  [RaftInv] states the invariant of a peer,
    [RaftAppend] and [RaftPeer] prove that the operations preserve it, [RaftOps] collects them
    into one step function, [RaftProps] and [RaftReplication] state the theorems about one
    peer, [RaftLogs] what the operations do to the log a peer had before its snapshots.
    [RaftNet] is a cluster: peers, messages in flight that may be lost, delayed and reordered,
    elections in progress, crashes.  [RaftElection], [ElectionSafety] and [LogMatching] prove
    invariants of clusters by induction on steps; [RaftFlaws] runs clusters into states that
    Raft should exclude.

    The replicated state machine, [kvraft1/rsm/rsm.go].  [Rsm]: [reader], [Submit] cut at the
    points where it blocks, [trySnapShot], over any service that implements the class
    [StateMachine]; the channels of waiting calls are a shared store.  [RsmReplies] says what the
    caller of [Submit] gets.  [RsmSrv] models the counter of the tests of this layer
    ([rsm/server.go], [rsm/test.go]) as a second service.

    The replicated key/value service, [kvraft1/server.go] and [client.go], [kvsrv1/rpc/rpc.go].
    [Rpc] has the messages, [KvServer] the server and the checker's sequential model of
    [models1/kv.go], [KvClerk] the retry loops of the client, [KvRaft] the instance of
    [StateMachine] and so the theorems of [Rsm] for this service.

    The sharded key/value service, [shardkv1].  [ShardCfg] models [shardcfg/shardcfg.go],
    [ShardGrp] the server of a group ([shardgrp/server.go], [shardrpc]), [ShardMove] the moves
    of one shard between groups, [ShardRsm] a group on the replicated state machine,
    [ShardCtrler] the clerks and the controller ([shardgrp/client.go],
    [shardctrler/shardctrler.go], [client.go]) against the classes [IKVClerk] and [IShardGrp],
    [ShardWorld] instances of these classes and a whole reconfiguration; [ShardTest] how the tests
    set the service up and let groups join and leave ([shardkv1/test.go]), [ShardService] that the
    whole service refines a single key/value server.

    The simulated network, [labrpc/labrpc.go].  [LabRpc] models calls, the goroutines that
    carry them out and the calls of the tester; [LabRpcProps] proves what callers may rely on.
    [LabGob] models the checks of [labgob/labgob.go], the codec the network uses.

    The test harness, [tester1] ([group.go], [srv.go], [clnts.go], part of [config.go]).
    [Tester] models how servers are started, stopped, connected and partitioned on that network
    and what its clients do; [TesterProps] and [TesterClients] show what can reach what.  The
    oracle of the Raft tests, [raft1/server.go] and [raft1/test.go]: [RfTest], which compares
    what the peers deliver, and [RfTestProps].  The clients and checks of the key/value tests,
    [kvtest1]: [KvTest], with [KvTestProps] and [KvAppends] on when they accept.  The timeline a
    test writes, [tester1/annotation.go]: [Annot] and [AnnotProps].

    The single-server key/value service, [src/src/kvsrv] and [models/kv.go]: [KvSrv] has the
    server and the clerk, [KvSystem] any number of clerks, a network and the server as one step
    function, [KvLin] that it is linearizable.

    MapReduce, [src/src/mr] and [main/mrsequential.go].  [MrCoordinator] models the scheduler,
    [MrWorker] the workers over a directory, [MrSequential] the sequential program; [MrTasks]
    proves what one task does, [MrJob] puts coordinator and workers together.  [MrApps] has the
    applications of [mrapps] (word count, inverted index and others), [GoText] the text
    functions of Go they use.

    The linearizability checker, [src/src/porcupine], and the model [models/kv.go] the testers
    run it with.  [Porcupine] models the bit sets, the doubly linked list of calls and returns
    on a heap, the backtracking search and the loop over partitions; [PorcBitset] and
    [PorcList] show that bit sets are sets and that [unlift] undoes [lift]; [PorcLin] defines
    linearizations; [PorcSearch] is the induction on the search, [PorcCheck] the verdict,
    [PorcPartial] the partial linearizations a check leaves, also one that is stopped, [PorcVis]
    the data of the visualization made of them ([visualization.go]), [PorcLocal] linearizability
    key by key, [KvHistory] the model with its [Partition].

    ** What the theorems show

    One Raft peer: the invariant, recovery from crashes, monotone terms, one vote per term,
    when votes and entries are accepted, what [commit], [applier] and [Snapshot] do (C1 to C10).
    Clusters: C11 and C12 (election safety and log matching, given that no server votes twice),
    and C13 to C15: [AppendEntries] forgets the vote of the current term, so a cluster can apply
    different commands; the commit index can go back; the reply to an old request can commit an
    entry.  (What a broadcast sends, the invariant of a cluster and two leaders of one term are
    unnumbered theorems.)  The replicated service: it refines the checker's model, replicas
    agree, a call gets its own result, handlers reply with what was asked for, a clerk's [Put]
    takes effect as its answer says (C16 to C20).  The sharded service: balancing terminates and
    balances, moves are fenced and lose nothing (C21 to C24), and with groups that join and leave
    it answers like one server (C29); unnumbered theorems of [ShardMove] and [ShardRsm] show its
    flaws, [ShardWorld] has a single reconfiguration.  The single-server service executes a
    request exactly once (C30), and as a whole it is linearizable (C25).  MapReduce: the scheduler
    is safe and a job completes, a finished distributed job has computed what the sequential
    program computes, and a distributed word count has counted words (C31 to C33, C26).  The
    checker: its search ends and answers whether a history is linearizable, its verdict about a
    history of the key/value service, taken key by key, holds for the whole store, and what its
    visualization shows is true (C34 to C36).  The network: a call runs its handler at most once
    (C37; that a reliable network delivers is an unnumbered theorem).  The harness: servers reach
    each other as the tester connected them, a partition isolates the leader in a minority, the
    oracle of the Raft tests accepts exactly the servers that deliver in order and agree, the
    key/value tests raise no false alarm, and the timeline shows the faults there were (C28, C27,
    C38, C39, C40).  labgob's check of types ends and complains once, and the counter of the RSM
    tests counts: unnumbered theorems of [LabGob] and [RsmSrv].

    ** Conventions

    A panic, [log.Fatalf] and an exhausted fuel are [None].  Terms, indices and client ids are
    [Z] without wrap-around (they grow by one per operation); versions are [uint64] with it
    ([u64]).  A goroutine is cut at its blocking points and the pieces are events of a step
    function, so that a theorem about all sequences of events covers all interleavings.  Random
    numbers, clocks and the order of map iteration are arguments of the events.  Fuel:
    [conflict_scan] has one unit per index between [PrevLogIndex] and the snapshot, which is
    all it can visit; [balance_fuel] is [NShards * NShards], since each move lowers the sum of
    the squared loads; the clerks' loops have one unit per RPC, and their theorems say how many
    answered RPCs are enough; the sequential program's loop has one unit per pair; the checker's
    search has one unit per iteration, and [search_cost] iterations are enough; [checkType] has
    one unit per level of types, and more than there are types are enough; the retry loops of the
    key/value tests have one unit per [Put], and a lemma says how many are enough.

    Encoders are classes with a round-trip law ([Gob], [Json], [CfgJson], [KvJson]); each has a
    concrete instance, with which the witnesses of the theorems run.

    ** Not modelled

    Of the testers, what depends on elapsed time: the polling loops [one] and [wait] of
    [raft1/test.go], the tests of [shardkv1/test.go] that shut groups down or run two controllers,
    the statistics and time limits of [config.go]; and [kvraft1/test.go], which only makes servers
    and titles.  Of [porcupine], the HTML page and writing it.  The testers of the labs of 2024
    (the [config.go] files of src/src) serve the skeletons below, except that of [kvsrv].
    [encoding/gob] is a parameter; that gob leaves a field alone whose new value is zero
    is modelled where a reply is reused ([KvSrv.gob_into]).  Of [mrapps], the applications that
    measure processes and times ([mtiming.go], [rtiming.go], [jobcount.go]).  The skeletons of
    labs that were not solved (src/src/raft, kvraft, shardkv, shardctrler, lec-2025's kvsrv1,
    lock and mr) have no code to model. *)

From Stdlib Require Export ZArith Lia.
From Stdlib Require DecimalString DecimalZ.
From Stdlib Require Import Ascii.
From stdpp Require Export prelude gmap strings list sorting.

(** Nothing here is specific to one component: the Go primitives the sources use (slice
    indexing that panics, [uint64] wrap-around, buffered channels of capacity one, FNV-1a,
    decimal printing), the lemmas about them, and the tactics of the development. *)

Declare Scope go_scope.
Delimit Scope go_scope with go.
Open Scope Z_scope.

Create HintDb golab discriminated.
Create Rewrite HintDb zlen.

(** ** Bytes and crashes

    A Go [[]byte] is a list of bytes.  A Go statement that panics, or that ends the process
    with [log.Fatalf], makes the whole [option] computation [None]. *)

Abbreviation bytes := (list Byte.byte).

#[export] Instance byte_eq_dec : EqDecision Byte.byte := Byte.byte_eq_dec.

(** The length of a slice, as the Go [int] that [len] returns. *)
Definition zlen {A} (l : list A) : Z := Z.of_nat (length l).

(** [l[i]]: out of range (negative or too large) panics. *)
Definition slice_get {A} (l : list A) (i : Z) : option A :=
  if i <? 0 then None else l !! Z.to_nat i.

(** [l[i] = x]: out of range panics. *)
Definition slice_set {A} (l : list A) (i : Z) (x : A) : option (list A) :=
  if (i <? 0) || (zlen l <=? i) then None else Some (<[Z.to_nat i := x]> l).

(** [l[i:]]: panics unless [0 <= i <= len(l)]. *)
Definition slice_from {A} (l : list A) (i : Z) : option (list A) :=
  if (i <? 0) || (zlen l <? i) then None else Some (drop (Z.to_nat i) l).

(** [l[:i]]: panics unless [0 <= i <= len(l)] (no slice of the sources is re-extended into
    its spare capacity). *)
Definition slice_to {A} (l : list A) (i : Z) : option (list A) :=
  if (i <? 0) || (zlen l <? i) then None else Some (take (Z.to_nat i) l).

Arguments zlen : simpl never.
Arguments slice_get : simpl never.
Arguments slice_set : simpl never.
Arguments slice_from : simpl never.
Arguments slice_to : simpl never.

Notation "l ! i" := (slice_get l i) (at level 20, no associativity) : go_scope.

Lemma zlen_nonneg {A} (l : list A) : 0 <= zlen l.
Proof. unfold zlen. lia. Qed.

Lemma zlen_app {A} (l k : list A) : zlen (l ++ k) = zlen l + zlen k.
Proof. unfold zlen. rewrite length_app. lia. Qed.

Lemma zlen_cons {A} (x : A) l : zlen (x :: l) = 1 + zlen l.
Proof. unfold zlen. simpl. lia. Qed.

Lemma zlen_nil {A} : zlen (@nil A) = 0.
Proof. reflexivity. Qed.

Lemma zlen_insert {A} (l : list A) i x : zlen (<[i := x]> l) = zlen l.
Proof. unfold zlen. by rewrite length_insert. Qed.

Lemma zlen_take {A} (l : list A) i : 0 <= i <= zlen l -> zlen (take (Z.to_nat i) l) = i.
Proof. unfold zlen. rewrite length_take. lia. Qed.

Lemma zlen_drop {A} (l : list A) i : 0 <= i <= zlen l -> zlen (drop (Z.to_nat i) l) = zlen l - i.
Proof. unfold zlen. rewrite length_drop. lia. Qed.

#[export] Hint Rewrite @zlen_app @zlen_cons @zlen_nil @zlen_insert : zlen.

Lemma slice_get_Some {A} (l : list A) i x :
  slice_get l i = Some x <-> 0 <= i /\ l !! Z.to_nat i = Some x.
Proof. unfold slice_get. destruct (Z.ltb_spec i 0) as [?|?]; intuition (congruence || lia). Qed.

Lemma slice_get_lt {A} (l : list A) i x : slice_get l i = Some x -> 0 <= i < zlen l.
Proof. rewrite slice_get_Some. intros [? ?%lookup_lt_Some]. unfold zlen. lia. Qed.

Lemma slice_get_total {A} (l : list A) i : 0 <= i < zlen l -> is_Some (slice_get l i).
Proof.
  unfold zlen, slice_get. intros ?. destruct (Z.ltb_spec i 0); [lia|].
  apply lookup_lt_is_Some_2. lia.
Qed.

Lemma slice_set_Some {A} (l : list A) i x :
  0 <= i < zlen l -> slice_set l i x = Some (<[Z.to_nat i := x]> l).
Proof.
  intros ?. unfold slice_set. destruct (Z.ltb_spec i 0), (Z.leb_spec (zlen l) i); auto; lia.
Qed.

Lemma slice_set_inv {A} (l l' : list A) i x :
  slice_set l i x = Some l' -> 0 <= i < zlen l /\ l' = <[Z.to_nat i := x]> l.
Proof.
  unfold slice_set. destruct (Z.ltb_spec i 0), (Z.leb_spec (zlen l) i); simpl; naive_solver lia.
Qed.

Lemma slice_from_Some {A} (l : list A) i :
  0 <= i <= zlen l -> slice_from l i = Some (drop (Z.to_nat i) l).
Proof.
  intros ?. unfold slice_from. destruct (Z.ltb_spec i 0), (Z.ltb_spec (zlen l) i); auto; lia.
Qed.

Lemma slice_to_Some {A} (l : list A) i :
  0 <= i <= zlen l -> slice_to l i = Some (take (Z.to_nat i) l).
Proof.
  intros ?. unfold slice_to. destruct (Z.ltb_spec i 0), (Z.ltb_spec (zlen l) i); auto; lia.
Qed.

Lemma slice_get_insert {A} (l : list A) i j x y :
  slice_get (<[Z.to_nat i := x]> l) j = Some y -> 0 <= i ->
  (i = j /\ x = y) \/ (i <> j /\ slice_get l j = Some y).
Proof.
  rewrite !slice_get_Some. intros [? Hy] ?. apply list_lookup_insert_Some in Hy as [Hy|Hy].
  - left. lia || (destruct Hy as (? & ? & ?); split; [lia|done]).
  - right. destruct Hy. split; [lia|done].
Qed.

(** ** Running a sequence of steps that can fail *)

Definition run_steps {S E} (f : S -> E -> option S) (s : S) (es : list E) : option S :=
  foldl (fun o e => x ← o; f x e) (Some s) es.

Lemma run_steps_cons {S E} (f : S -> E -> option S) s e es :
  run_steps f s (e :: es) = x ← f s e; run_steps f x es.
Proof. unfold run_steps. simpl. destruct (f s e); simpl; [done|]. by induction es. Qed.

Lemma run_steps_app {S E} (f : S -> E -> option S) s es es' :
  run_steps f s (es ++ es') = x ← run_steps f s es; run_steps f x es'.
Proof.
  revert s. induction es as [|e es IH]; intros s; [done|].
  rewrite <- app_comm_cons, !run_steps_cons. destruct (f s e); simpl; [apply IH|done].
Qed.

(** A property every step preserves holds at the end. *)
Lemma run_steps_ind {S E} (f : S -> E -> option S) (P : S -> Prop) (Q : E -> Prop) s es s' :
  (forall s e s', P s -> Q e -> f s e = Some s' -> P s') ->
  P s -> Forall Q es -> run_steps f s es = Some s' -> P s'.
Proof.
  intros Hstep. revert s. induction es as [|e es IH]; intros s Hs Hq Hr; [by injection Hr as <-|].
  apply Forall_cons in Hq as [He Hes]. rewrite run_steps_cons in Hr.
  apply bind_Some in Hr as (s1 & H1 & Hr). eauto.
Qed.

(** ** Deleting an element *)

Lemma Forall_delete {A} (P : A -> Prop) (l : list A) k : Forall P l -> Forall P (delete k l).
Proof. rewrite delete_take_drop. intros Hl. apply Forall_app. auto using Forall_take, Forall_drop. Qed.

Lemma omap_delete_perm {A B} (f : A -> option B) (l : list A) k x :
  l !! k = Some x -> omap f l ≡ₚ option_list (f x) ++ omap f (delete k l).
Proof.
  intros Hk. rewrite delete_take_drop. rewrite <- (take_drop_middle l k x Hk) at 1.
  rewrite !omap_app. simpl. destruct (f x); simpl; [|done]. by rewrite Permutation_middle.
Qed.

Lemma NoDup_omap_delete {A B} (f : A -> option B) (l : list A) k :
  NoDup (omap f l) -> NoDup (omap f (delete k l)).
Proof.
  destruct (l !! k) as [x|] eqn:Hk.
  - rewrite (omap_delete_perm f l k x Hk). by intros (_ & _ & ?)%NoDup_app.
  - by rewrite delete_take_drop, take_ge, drop_ge, app_nil_r by (apply lookup_ge_None in Hk; lia).
Qed.

(** ** Machine integers *)

(** [uint64] arithmetic wraps around. *)
Definition u64 (z : Z) : Z := z mod 2 ^ 64.

(** [uint32] arithmetic wraps around. *)
Definition u32 (z : Z) : Z := z mod 2 ^ 32.

Lemma u64_range z : 0 <= u64 z < 2 ^ 64.
Proof. apply Z.mod_pos_bound. lia. Qed.

Lemma u64_small z : 0 <= z < 2 ^ 64 -> u64 z = z.
Proof. apply Z.mod_small. Qed.

(** A [uint64] counter that has been incremented, fewer than 2^64 times, is not where it was. *)
Lemma u64_moved v j : 0 <= v < 2 ^ 64 -> 0 <= j < 2 ^ 64 - 1 -> u64 (v + 1 + j) <> v.
Proof.
  intros Hv Hj Heq. unfold u64 in Heq.
  assert (Hm : (1 + j) mod 2 ^ 64 = 0).
  { rewrite <- (Z.mod_small v (2 ^ 64)) in Heq at 2 by lia. rewrite <- Z.add_assoc in Heq.
    replace (1 + j) with (v + (1 + j) - v) by lia.
    rewrite Zminus_mod, Heq, Z.sub_diag. done. }
  rewrite Z.mod_small in Hm by lia. lia.
Qed.

Lemma u64_add_l a b : u64 (u64 a + b) = u64 (a + b).
Proof. apply Zplus_mod_idemp_l. Qed.

(** ** Hashing: [hash/fnv]'s [New32a] *)

Definition fnv_offset32 : Z := 2166136261.
Definition fnv_prime32 : Z := 16777619.

(** One [Write] of the bytes of a string, from the hash [h]. *)
Fixpoint fnv32a_write (h : Z) (s : string) : Z :=
  match s with
  | EmptyString => h
  | String c s' =>
      fnv32a_write (u32 (Z.lxor h (Z.of_N (Ascii.N_of_ascii c)) * fnv_prime32)) s'
  end.

(** [h := fnv.New32a(); h.Write([]byte(s)); h.Sum32()]. *)
Definition fnv32a (s : string) : Z := fnv32a_write fnv_offset32 s.

Lemma fnv32a_write_range h s : 0 <= h < 2 ^ 32 -> 0 <= fnv32a_write h s < 2 ^ 32.
Proof.
  revert h. induction s as [|c s IH]; intros h Hh; simpl; [done|].
  apply IH. apply Z.mod_pos_bound. lia.
Qed.

Lemma fnv32a_range s : 0 <= fnv32a s < 2 ^ 32.
Proof. apply fnv32a_write_range. unfold fnv_offset32. lia. Qed.

(** ** Decimal numbers: [fmt.Sprint] and [strconv.Atoi] on integers *)

Definition Sprint (n : Z) : string := DecimalString.NilZero.string_of_int (Z.to_int n).

(** [n, _ := strconv.Atoi(s)]: 0 for a string that is not a number, with an optional sign in
    front. *)
Definition Atoi (s : string) : Z :=
  match s with
  | String "+"%char s' =>
      match DecimalString.NilZero.uint_of_string s' with
      | Some d => Z.of_uint d
      | None => 0
      end
  | _ =>
      match DecimalString.NilZero.int_of_string s with
      | Some d => Z.of_int d
      | None => 0
      end
  end.

Lemma to_int_not_nil n :
  Z.to_int n <> Decimal.Pos Decimal.Nil /\ Z.to_int n <> Decimal.Neg Decimal.Nil.
Proof.
  split; intros Heq; pose proof (f_equal Z.of_int Heq) as Hz; rewrite DecimalZ.of_to in Hz;
    simpl in Hz; subst n; discriminate Heq.
Qed.

Lemma Sprint_int n : DecimalString.NilZero.int_of_string (Sprint n) = Some (Z.to_int n).
Proof. apply DecimalString.NilZero.isi; apply to_int_not_nil. Qed.

Lemma Sprint_inj n m : Sprint n = Sprint m -> n = m.
Proof.
  intros Heq. apply (f_equal DecimalString.NilZero.int_of_string) in Heq.
  rewrite !Sprint_int in Heq. injection Heq as Heq. by apply DecimalZ.to_int_inj.
Qed.

Lemma Atoi_Sprint n : Atoi (Sprint n) = n.
Proof.
  assert (Hplus : forall s', Sprint n <> String "+"%char s').
  { intros s' Heq. pose proof (Sprint_int n) as Hi. rewrite Heq in Hi. simpl in Hi.
    unfold DecimalString.NilZero.int_of_string in Hi. simpl in Hi.
    by destruct (DecimalString.NilEmpty.uint_of_string s'). }
  unfold Atoi. pose proof (Sprint_int n) as Hi. pose proof (DecimalZ.of_to n) as Ho.
  destruct (Sprint n) as [|c s']; [by rewrite Hi|].
  destruct c as [[] [] [] [] [] [] [] []]; try (rewrite Hi; exact Ho). by destruct (Hplus s').
Qed.

(** ** Channels

    [heartbeatCh], [startCh] and [applySignal] are channels of capacity one whose messages
    are indistinguishable, so a channel is whether its buffer holds a message.  The
    non-blocking send [select { case ch <- v: default: }] leaves a message there either way. *)

Definition try_send (full : bool) : bool := true.

(** ** Sorting: [slices.Sort] on integers *)

Definition sort_Z (l : list Z) : list Z := merge_sort Z.le l.

Lemma sort_Z_Permutation l : sort_Z l ≡ₚ l.
Proof. apply merge_sort_Permutation. Qed.

Lemma sort_Z_Sorted l : Sorted Z.le (sort_Z l).
Proof. apply Sorted_merge_sort. intros x y. lia. Qed.

Lemma sort_Z_StronglySorted l : StronglySorted Z.le (sort_Z l).
Proof. apply StronglySorted_merge_sort; [exact _ | intros x y; lia]. Qed.

Lemma zlen_sort_Z l : zlen (sort_Z l) = zlen l.
Proof. unfold zlen. by rewrite sort_Z_Permutation. Qed.

(** ** Tactics

    [go_cases] splits on every boolean comparison and [option] step that an executed Go
    statement depends on, and turns the comparisons into inequalities for [lia]. *)

Ltac go_bool :=
  repeat match goal with
  | H : andb _ _ = true |- _ => apply andb_prop in H; destruct H
  | H : orb _ _ = false |- _ => apply orb_false_elim in H; destruct H
  | H : negb _ = true |- _ => apply negb_true_iff in H
  | H : negb _ = false |- _ => apply negb_false_iff in H
  | H : (_ <? _) = true |- _ => apply Z.ltb_lt in H
  | H : (_ <? _) = false |- _ => apply Z.ltb_ge in H
  | H : (_ <=? _) = true |- _ => apply Z.leb_le in H
  | H : (_ <=? _) = false |- _ => apply Z.leb_gt in H
  | H : (_ =? _) = true |- _ => apply Z.eqb_eq in H
  | H : (_ =? _) = false |- _ => apply Z.eqb_neq in H
  | H : (_ >? _) = true |- _ => rewrite Z.gtb_ltb in H; apply Z.ltb_lt in H
  | H : (_ >? _) = false |- _ => rewrite Z.gtb_ltb in H; apply Z.ltb_ge in H
  | H : (_ >=? _) = true |- _ => rewrite Z.geb_leb in H; apply Z.leb_le in H
  | H : (_ >=? _) = false |- _ => rewrite Z.geb_leb in H; apply Z.leb_gt in H
  end.

(** Split on the condition of the first [if] of the goal. *)
Ltac go_if :=
  match goal with
  | |- context [if ?b then _ else _] => destruct b eqn:?; cbv beta iota; go_bool
  end.

(** Split on the condition of the first [if] of hypothesis [H]. *)
Ltac go_if_in H :=
  match type of H with
  | context [if ?b then _ else _] => destruct b eqn:?; cbv beta iota in H; go_bool
  end.

(** Run [H : x ← e; k = Some r] one step: the bound value and its equation. *)
Ltac go_bind H :=
  match type of H with
  | mbind _ ?e = Some _ =>
      let x := fresh "x" in let E := fresh "E" in
      destruct e as [x|] eqn:E; simpl in H; [|discriminate H]
  end.

(** Run the equation [H] of an executed critical section to its end, in every branch. *)
Ltac run_branches H :=
  first
    [ go_if_in H; run_branches H
    | let x := fresh "x" in let E := fresh "E" in
      apply bind_Some in H as (x & E & H); cbv beta zeta in H; run_branches E; run_branches H
    | simplify_eq/= ].
