(* ===== verification/Rpc.v ===== *)
(** * The key/value RPC vocabulary

    [lec-2025/src/kvsrv1/rpc/rpc.go]: the error strings, the version numbers and the argument
    and reply structs of [Get] and [Put], used by the replicated store ([kvraft1]) and the
    sharded store ([shardkv1]). *)

From S2P Require Import Prelude.

(** The constants of type [Err]; [ErrNone] is the zero value of a reply nobody filled in. *)
Inductive Err :=
  | ErrNone
  | OK
  | ErrNoKey
  | ErrVersion
  | ErrMaybe
  | ErrWrongLeader
  | ErrWrongGroup.

#[export] Instance Err_eq_dec : EqDecision Err.
Proof. solve_decision. Defined.

(** The text of an [Err]. *)
Definition err_string (e : Err) : string :=
  match e with
  | ErrNone => ""
  | OK => "OK"
  | ErrNoKey => "ErrNoKey"
  | ErrVersion => "ErrVersion"
  | ErrMaybe => "ErrMaybe"
  | ErrWrongLeader => "ErrWrongLeader"
  | ErrWrongGroup => "ErrWrongGroup"
  end.

(** [Tversion] is a [uint64]: always reduced with [u64]. *)
Abbreviation Tversion := Z.

Record PutArgs := mkPutArgs { pa_Key : string; pa_Value : string; pa_Version : Tversion }.
Record PutReply := mkPutReply { pr_Err : Err }.
Record GetArgs := mkGetArgs { ga_Key : string }.
Record GetReply := mkGetReply { gr_Value : string; gr_Version : Tversion; gr_Err : Err }.

(** The struct the servers keep per key, [ValueEntry] in [kvraft1/server.go] and
    [shardkv1/shardgrp/server.go]. *)
Record ValueEntry := mkValueEntry { ve_Value : string; ve_Version : Tversion }.

#[export] Instance ValueEntry_eq_dec : EqDecision ValueEntry.
Proof. solve_decision. Defined.

#[export] Instance ValueEntry_countable : Countable ValueEntry.
Proof.
  refine (inj_countable' (fun e => (ve_Value e, ve_Version e))
                         (fun p => mkValueEntry p.1 p.2) _).
  by intros [].
Defined.

#[export] Instance GetArgs_eq_dec : EqDecision GetArgs.
Proof. solve_decision. Defined.

#[export] Instance GetArgs_countable : Countable GetArgs.
Proof. refine (inj_countable' ga_Key mkGetArgs _). by intros []. Defined.

#[export] Instance PutArgs_eq_dec : EqDecision PutArgs.
Proof. solve_decision. Defined.

#[export] Instance PutArgs_countable : Countable PutArgs.
Proof.
  refine (inj_countable' (fun a => (pa_Key a, pa_Value a, pa_Version a))
                         (fun '(k, v, n) => mkPutArgs k v n) _).
  by intros [].
Defined.

(** The interface [kvtest.IKVClerk] ([lec-2025/src/kvtest1/kvtest.go]) as operations on the
    state [S] the clerk talks to; [None] is a call that does not return. *)
Class IKVClerk (S : Type) := {
  ck_Get : S -> string -> option (S * (string * Tversion * Err));
  ck_Put : S -> string -> string -> Tversion -> option (S * Err);
}.
