(* ===== verification/Persister.v ===== *)
(** * Stable storage and serialisation

    [lec-2025/src/tester1/persister.go]: the object that survives a crash.  [labgob] wraps
    Go's [encoding/gob]; the wire format is a parameter of the development, the class [Gob],
    and what the callers rely on is the class [GobLaws]. *)

From S2P Require Import Prelude.

Record Persister := mkPersister { raftstate : bytes; snapshot : bytes }.

Definition MakePersister : Persister := mkPersister [] [].

(** [make] and [copy]: a fresh slice with the same elements. *)
Definition clone (orig : bytes) : bytes := orig.

Definition Persister_Copy (ps : Persister) : Persister :=
  mkPersister (raftstate ps) (snapshot ps).

Definition ReadRaftState (ps : Persister) : bytes := clone (raftstate ps).

Definition RaftStateSize (ps : Persister) : Z := zlen (raftstate ps).

Definition Save (ps : Persister) (st snap : bytes) : Persister :=
  mkPersister (clone st) (clone snap).

Definition ReadSnapshot (ps : Persister) : bytes := clone (snapshot ps).

Definition SnapshotSize (ps : Persister) : Z := zlen (snapshot ps).

(** ** The codec

    [gob_encode x] is the content of a buffer after one encoder has written the fields of
    [x]; [gob_decode b] is the value one decoder reads from [b], [None] when some [Decode]
    returns an error. *)

Class Gob (A : Type) := {
  gob_encode : A -> bytes;
  gob_decode : bytes -> option A;
}.

(** The documented contract of [encoding/gob] for registered types: a decoder reads back what
    an encoder wrote, and an encoder writes something. *)
Class GobLaws (A : Type) `{Gob A} : Prop := {
  gob_roundtrip : forall a : A, gob_decode (gob_encode a) = Some a;
  gob_nonempty : forall a : A, gob_encode a <> [];
}.

(** ** A concrete codec

    Used to evaluate the model on concrete inputs: the bits of stdpp's [encode], one per
    byte. *)

Fixpoint positive_bytes (p : positive) : bytes :=
  match p with
  | xH => [Byte.x02]
  | xO p => Byte.x00 :: positive_bytes p
  | xI p => Byte.x01 :: positive_bytes p
  end.

Fixpoint bytes_positive (b : bytes) : option positive :=
  match b with
  | [Byte.x02] => Some xH
  | Byte.x00 :: b' => xO <$> bytes_positive b'
  | Byte.x01 :: b' => xI <$> bytes_positive b'
  | _ => None
  end.

Lemma bytes_positive_bytes p : bytes_positive (positive_bytes p) = Some p.
Proof. induction p as [p IH|p IH|]; simpl; [by rewrite IH|by rewrite IH|done]. Qed.

Definition countable_gob (A : Type) `{Countable A} : Gob A := {|
  gob_encode x := positive_bytes (encode x);
  gob_decode b := p ← bytes_positive b; decode p;
|}.

Lemma countable_gob_laws (A : Type) `{Countable A} : @GobLaws A (countable_gob A).
Proof.
  constructor; simpl; intros a.
  - rewrite bytes_positive_bytes. simpl. apply decode_encode.
  - by destruct (encode a).
Qed.
