(* ===== verification/RaftState.v ===== *)
(** * One Raft peer: its state, its log, its persistence

    [lec-2025/src/raft1/raft.go], lines 25 to 250, and the message type of
    [lec-2025/src/raftapi/raftapi.go].  The record [Raft] has the fields of the Go struct;
    every operation under [rf.mu] is a function from the struct to the struct.  [Cmd] is the
    dynamic type of [Command], [None] its [nil]. *)

From S2P Require Import Prelude Persister.

Section RaftState.
Context {Cmd : Type}.

Record Entry := mkEntry { ent_Term : Z; ent_Command : option Cmd }.

Inductive RaftRole := Leader | Follower | Candidate.

#[export] Instance RaftRole_eq_dec : EqDecision RaftRole.
Proof. solve_decision. Defined.

(** The five values [persist] encodes, in its order. *)
Record Persisted := mkPersisted {
  ps_currentTerm : Z;
  ps_votedFor : Z;
  ps_logs : list Entry;
  ps_lastIncludedIndex : Z;
  ps_lastIncludedTerm : Z;
}.

Context `{Gob Persisted}.

(** [peers] lists the endpoints; [heartbeatCh], [startCh] and [applySignal] say whether the
    one-message buffer is full; [applyCh] is an output of the operations that send on it. *)
Record Raft := mkRaft {
  peers : list Z;
  persister : Persister;
  me : Z;
  dead : Z;
  currentTerm : Z;
  votedFor : Z;
  logs : list Entry;
  state : RaftRole;
  heartbeatCh : bool;
  commitIndex : Z;
  lastApplied : Z;
  applySignal : bool;
  nextIndex : list Z;
  matchIndex : list Z;
  startCh : bool;
  lastIncludedIndex : Z;
  lastIncludedTerm : Z;
}.

(** [raftapi.ApplyMsg]: the two shapes the code builds. *)
Inductive ApplyMsg :=
  | CommandMsg (Command : option Cmd) (CommandIndex CommandTerm : Z)
  | SnapshotMsg (Snapshot : bytes) (SnapshotTerm SnapshotIndex : Z).

(** ** Assignments to the fields *)

Definition set_persister (v : Persister) (rf : Raft) : Raft :=
  mkRaft (peers rf) v (me rf) (dead rf) (currentTerm rf) (votedFor rf) (logs rf) (state rf)
    (heartbeatCh rf) (commitIndex rf) (lastApplied rf) (applySignal rf) (nextIndex rf)
    (matchIndex rf) (startCh rf) (lastIncludedIndex rf) (lastIncludedTerm rf).
Definition set_dead (v : Z) (rf : Raft) : Raft :=
  mkRaft (peers rf) (persister rf) (me rf) v (currentTerm rf) (votedFor rf) (logs rf)
    (state rf) (heartbeatCh rf) (commitIndex rf) (lastApplied rf) (applySignal rf)
    (nextIndex rf) (matchIndex rf) (startCh rf) (lastIncludedIndex rf) (lastIncludedTerm rf).
Definition set_currentTerm (v : Z) (rf : Raft) : Raft :=
  mkRaft (peers rf) (persister rf) (me rf) (dead rf) v (votedFor rf) (logs rf) (state rf)
    (heartbeatCh rf) (commitIndex rf) (lastApplied rf) (applySignal rf) (nextIndex rf)
    (matchIndex rf) (startCh rf) (lastIncludedIndex rf) (lastIncludedTerm rf).
Definition set_votedFor (v : Z) (rf : Raft) : Raft :=
  mkRaft (peers rf) (persister rf) (me rf) (dead rf) (currentTerm rf) v (logs rf) (state rf)
    (heartbeatCh rf) (commitIndex rf) (lastApplied rf) (applySignal rf) (nextIndex rf)
    (matchIndex rf) (startCh rf) (lastIncludedIndex rf) (lastIncludedTerm rf).
Definition set_logs (v : list Entry) (rf : Raft) : Raft :=
  mkRaft (peers rf) (persister rf) (me rf) (dead rf) (currentTerm rf) (votedFor rf) v
    (state rf) (heartbeatCh rf) (commitIndex rf) (lastApplied rf) (applySignal rf)
    (nextIndex rf) (matchIndex rf) (startCh rf) (lastIncludedIndex rf) (lastIncludedTerm rf).
Definition set_state (v : RaftRole) (rf : Raft) : Raft :=
  mkRaft (peers rf) (persister rf) (me rf) (dead rf) (currentTerm rf) (votedFor rf)
    (logs rf) v (heartbeatCh rf) (commitIndex rf) (lastApplied rf) (applySignal rf)
    (nextIndex rf) (matchIndex rf) (startCh rf) (lastIncludedIndex rf) (lastIncludedTerm rf).
Definition set_heartbeatCh (v : bool) (rf : Raft) : Raft :=
  mkRaft (peers rf) (persister rf) (me rf) (dead rf) (currentTerm rf) (votedFor rf)
    (logs rf) (state rf) v (commitIndex rf) (lastApplied rf) (applySignal rf) (nextIndex rf)
    (matchIndex rf) (startCh rf) (lastIncludedIndex rf) (lastIncludedTerm rf).
Definition set_commitIndex (v : Z) (rf : Raft) : Raft :=
  mkRaft (peers rf) (persister rf) (me rf) (dead rf) (currentTerm rf) (votedFor rf)
    (logs rf) (state rf) (heartbeatCh rf) v (lastApplied rf) (applySignal rf) (nextIndex rf)
    (matchIndex rf) (startCh rf) (lastIncludedIndex rf) (lastIncludedTerm rf).
Definition set_lastApplied (v : Z) (rf : Raft) : Raft :=
  mkRaft (peers rf) (persister rf) (me rf) (dead rf) (currentTerm rf) (votedFor rf)
    (logs rf) (state rf) (heartbeatCh rf) (commitIndex rf) v (applySignal rf) (nextIndex rf)
    (matchIndex rf) (startCh rf) (lastIncludedIndex rf) (lastIncludedTerm rf).
Definition set_applySignal (v : bool) (rf : Raft) : Raft :=
  mkRaft (peers rf) (persister rf) (me rf) (dead rf) (currentTerm rf) (votedFor rf)
    (logs rf) (state rf) (heartbeatCh rf) (commitIndex rf) (lastApplied rf) v (nextIndex rf)
    (matchIndex rf) (startCh rf) (lastIncludedIndex rf) (lastIncludedTerm rf).
Definition set_nextIndex (v : list Z) (rf : Raft) : Raft :=
  mkRaft (peers rf) (persister rf) (me rf) (dead rf) (currentTerm rf) (votedFor rf)
    (logs rf) (state rf) (heartbeatCh rf) (commitIndex rf) (lastApplied rf) (applySignal rf)
    v (matchIndex rf) (startCh rf) (lastIncludedIndex rf) (lastIncludedTerm rf).
Definition set_matchIndex (v : list Z) (rf : Raft) : Raft :=
  mkRaft (peers rf) (persister rf) (me rf) (dead rf) (currentTerm rf) (votedFor rf)
    (logs rf) (state rf) (heartbeatCh rf) (commitIndex rf) (lastApplied rf) (applySignal rf)
    (nextIndex rf) v (startCh rf) (lastIncludedIndex rf) (lastIncludedTerm rf).
Definition set_startCh (v : bool) (rf : Raft) : Raft :=
  mkRaft (peers rf) (persister rf) (me rf) (dead rf) (currentTerm rf) (votedFor rf)
    (logs rf) (state rf) (heartbeatCh rf) (commitIndex rf) (lastApplied rf) (applySignal rf)
    (nextIndex rf) (matchIndex rf) v (lastIncludedIndex rf) (lastIncludedTerm rf).
Definition set_lastIncludedIndex (v : Z) (rf : Raft) : Raft :=
  mkRaft (peers rf) (persister rf) (me rf) (dead rf) (currentTerm rf) (votedFor rf)
    (logs rf) (state rf) (heartbeatCh rf) (commitIndex rf) (lastApplied rf) (applySignal rf)
    (nextIndex rf) (matchIndex rf) (startCh rf) v (lastIncludedTerm rf).
Definition set_lastIncludedTerm (v : Z) (rf : Raft) : Raft :=
  mkRaft (peers rf) (persister rf) (me rf) (dead rf) (currentTerm rf) (votedFor rf)
    (logs rf) (state rf) (heartbeatCh rf) (commitIndex rf) (lastApplied rf) (applySignal rf)
    (nextIndex rf) (matchIndex rf) (startCh rf) (lastIncludedIndex rf) v.

(** ** Queries *)

Definition GetState (rf : Raft) : Z * bool :=
  (currentTerm rf, bool_decide (state rf = Leader)).

Definition getFirstLogIndex (rf : Raft) : Z := lastIncludedIndex rf.

Definition getLastLogIndex (rf : Raft) : Z := lastIncludedIndex rf + zlen (logs rf) - 1.

Definition getLogTerm (rf : Raft) (raftIndex : Z) : option Z :=
  let firstIndex := getFirstLogIndex rf in
  if raftIndex =? firstIndex then ent_Term <$> slice_get (logs rf) 0
  else
    let sliceIndex := raftIndex - firstIndex in
    if (sliceIndex <? 0) || (zlen (logs rf) <=? sliceIndex) then Some (-1)
    else ent_Term <$> slice_get (logs rf) sliceIndex.

Definition matchLog (rf : Raft) (index term : Z) : option bool :=
  if (index <=? getFirstLogIndex rf) || (getLastLogIndex rf <? index) then Some false
  else t ← getLogTerm rf index; Some (t =? term).

Definition PersistBytes (rf : Raft) : Z := RaftStateSize (persister rf).

Definition Kill (rf : Raft) : Raft := set_dead 1 rf.

Definition killed (rf : Raft) : bool := dead rf =? 1.

(** ** Persistence *)

Definition persisted_of (rf : Raft) : Persisted :=
  mkPersisted (currentTerm rf) (votedFor rf) (logs rf) (lastIncludedIndex rf)
              (lastIncludedTerm rf).

Definition encodeState (rf : Raft) : bytes := gob_encode (persisted_of rf).

Definition persist (rf : Raft) : Raft :=
  set_persister (Save (persister rf) (gob_encode (persisted_of rf))
                      (ReadSnapshot (persister rf))) rf.

Definition readPersist (data : bytes) (rf : Raft) : Raft :=
  if zlen data <? 1 then rf
  else match gob_decode data with
       | None => rf
       | Some p =>
           set_lastIncludedTerm (ps_lastIncludedTerm p)
             (set_lastIncludedIndex (ps_lastIncludedIndex p)
               (set_logs (ps_logs p)
                 (set_votedFor (ps_votedFor p)
                   (set_currentTerm (ps_currentTerm p) rf))))
       end.

(** [rf.logs[0].Term = t; rf.logs[0].Command = nil]. *)
Definition set_dummy_head (t : Z) (l : list Entry) : option (list Entry) :=
  slice_set l 0 (mkEntry t None).

(** The service hands over a snapshot that covers the log through [index]. *)
Definition Snapshot (rf : Raft) (index : Z) (snap : bytes) : option Raft :=
  if index <=? lastIncludedIndex rf then Some rf
  else
    let relativeIndex := index - lastIncludedIndex rf in
    rf ←
      (if relativeIndex <? zlen (logs rf) then
         e ← slice_get (logs rf) relativeIndex;
         newLogs ← slice_from (logs rf) relativeIndex;
         Some (set_logs newLogs (set_lastIncludedTerm (ent_Term e) rf))
       else
         Some (set_logs [mkEntry (lastIncludedTerm rf) None] (set_lastIncludedIndex 0 rf)));
    let rf := set_lastIncludedIndex index rf in
    l ← set_dummy_head (lastIncludedTerm rf) (logs rf);
    let rf := set_logs l rf in
    let rf := if commitIndex rf <? lastIncludedIndex rf
              then set_commitIndex (lastIncludedIndex rf) rf else rf in
    let rf := if lastApplied rf <? lastIncludedIndex rf
              then set_lastApplied (lastIncludedIndex rf) rf else rf in
    Some (set_persister (Save (persister rf) (encodeState rf) snap) rf).

(** [Make], up to the three goroutines it starts. *)
Definition Make (prs : list Z) (self : Z) (pst : Persister) : Raft :=
  let rf := {|
    peers := prs; persister := pst; me := self; dead := 0;
    currentTerm := 0; votedFor := -1; logs := [mkEntry 0 None]; state := Follower;
    heartbeatCh := false; commitIndex := 0; lastApplied := 0; applySignal := false;
    nextIndex := replicate (length prs) 1; matchIndex := replicate (length prs) 0;
    startCh := false; lastIncludedIndex := 0; lastIncludedTerm := 0 |} in
  let rf := readPersist (ReadRaftState pst) rf in
  let rf := set_commitIndex (lastIncludedIndex rf) rf in
  set_lastApplied (lastIncludedIndex rf) rf.

End RaftState.

Arguments Entry : clear implicits.
Arguments Persisted : clear implicits.
Arguments Raft : clear implicits.
Arguments ApplyMsg : clear implicits.
