(* ===== verification/RaftRpc.v ===== *)
(** * The RPC handlers of a Raft peer

    [lec-2025/src/raft1/raft.go], lines 253 to 559: [RequestVote], [AppendEntries] and
    [InstallSnapshot], each the whole handler between [rf.mu.Lock()] and its return.  [None]
    is a panic.  A handler that sends on [applyCh] returns the message as well. *)

From S2P Require Import Prelude Persister RaftState.

Section RaftRpc.
Context {Cmd : Type} `{Gob (Persisted Cmd)}.
Implicit Types rf : Raft Cmd.

(** ** RequestVote *)

Record RequestVoteArgs := mkRequestVoteArgs {
  rva_Term : Z; rva_CandidateId : Z; rva_LastLogIndex : Z; rva_LastLogTerm : Z }.

Record RequestVoteReply := mkRequestVoteReply { rvr_Term : Z; rvr_VoteGranted : bool }.

Definition RequestVote rf (args : RequestVoteArgs) : option (Raft Cmd * RequestVoteReply) :=
  if rva_Term args <? currentTerm rf then
    Some (rf, mkRequestVoteReply (currentTerm rf) false)
  else
    let rf :=
      if currentTerm rf <? rva_Term args
      then persist (set_state Follower (set_currentTerm (rva_Term args) (set_votedFor (-1) rf)))
      else rf in
    if (votedFor rf =? rva_CandidateId args) || (votedFor rf =? -1) then
      let lastLogIndex := getLastLogIndex rf in
      lastLogTerm ← getLogTerm rf lastLogIndex;
      let voteFlag :=
        (lastLogTerm <? rva_LastLogTerm args)
        || ((lastLogTerm =? rva_LastLogTerm args) && (lastLogIndex <=? rva_LastLogIndex args)) in
      if voteFlag then
        let rf := persist (set_state Follower (set_currentTerm (rva_Term args)
                             (set_votedFor (rva_CandidateId args) rf))) in
        let rf := set_heartbeatCh (try_send (heartbeatCh rf)) rf in
        Some (rf, mkRequestVoteReply (currentTerm rf) true)
      else Some (rf, mkRequestVoteReply (currentTerm rf) false)
    else Some (rf, mkRequestVoteReply (currentTerm rf) false).

(** ** AppendEntries *)

Record AppendEntriesArgs := mkAppendEntriesArgs {
  aea_Term : Z; aea_LeaderId : Z; aea_PrevLogIndex : Z; aea_PrevLogTerm : Z;
  aea_LeaderCommit : Z; aea_Entries : list (Entry Cmd) }.

Record AppendEntriesReply := mkAppendEntriesReply {
  aer_Term : Z; aer_Success : bool; aer_ConflictLogIndex : Z; aer_ConflictLogTerm : Z }.

Definition notifyApplier rf : Raft Cmd := set_applySignal (try_send (applySignal rf)) rf.

(** The loop of lines 390 to 417.  [rest] is [args.Entries[entriesIndex:]]. *)
Fixpoint reconcile rf (rest : list (Entry Cmd)) (insertIndex : Z) : option (Raft Cmd) :=
  match rest with
  | [] => Some rf
  | e :: rest' =>
      if getLastLogIndex rf <? insertIndex then
        Some (persist (set_logs (logs rf ++ rest) rf))
      else
        t ← getLogTerm rf insertIndex;
        if negb (t =? ent_Term e) then
          l ← slice_to (logs rf) (insertIndex - getFirstLogIndex rf);
          Some (persist (set_logs (l ++ rest) rf))
        else reconcile rf rest' (insertIndex + 1)
  end.

(** The commit index a follower takes over: lines 376 to 380 and 422 to 426. *)
Definition follow_commit rf (args : AppendEntriesArgs) : Raft Cmd :=
  let indexOfLastNewEntry := aea_PrevLogIndex args + zlen (aea_Entries args) in
  notifyApplier
    (if aea_LeaderCommit args <? indexOfLastNewEntry
     then set_commitIndex (aea_LeaderCommit args) rf
     else set_commitIndex indexOfLastNewEntry rf).

(** The loop of lines 434 to 438, from [tempIndex]; [fuel] bounds the iterations. *)
Fixpoint conflict_scan (fuel : nat) rf (conflictTerm tempIndex : Z) : option Z :=
  if lastIncludedIndex rf <? tempIndex then
    match fuel with
    | O => None
    | S fuel =>
        t ← getLogTerm rf tempIndex;
        if t <? conflictTerm then Some tempIndex
        else conflict_scan fuel rf conflictTerm (tempIndex - 1)
    end
  else Some tempIndex.

Definition AppendEntries rf (args : AppendEntriesArgs)
    : option (Raft Cmd * AppendEntriesReply) :=
  let term := currentTerm rf in
  if aea_Term args <? currentTerm rf then Some (rf, mkAppendEntriesReply term false 0 0)
  else
    let rf := persist (set_votedFor (-1) (set_state Follower
                        (set_currentTerm (aea_Term args) rf))) in
    let rf := set_heartbeatCh (try_send (heartbeatCh rf)) rf in
    let lastLogIndex := getLastLogIndex rf in
    lastLogTerm ← getLogTerm rf lastLogIndex;
    if (aea_PrevLogIndex args =? lastLogIndex) && (aea_PrevLogTerm args =? lastLogTerm) then
      let rf := persist (set_logs (logs rf ++ aea_Entries args) rf) in
      Some (follow_commit rf args, mkAppendEntriesReply term true 0 0)
    else if (aea_PrevLogIndex args <=? getLastLogIndex rf)
            && (getFirstLogIndex rf <=? aea_PrevLogIndex args) then
      prevTerm ← getLogTerm rf (aea_PrevLogIndex args);
      if aea_PrevLogTerm args =? prevTerm then
        rf ← reconcile rf (aea_Entries args) (aea_PrevLogIndex args + 1);
        Some (follow_commit rf args, mkAppendEntriesReply term true 0 0)
      else
        tempIndex ← conflict_scan (Z.to_nat (aea_PrevLogIndex args - lastIncludedIndex rf)) rf
                      prevTerm (aea_PrevLogIndex args - 1);
        Some (rf, mkAppendEntriesReply term false (tempIndex + 1) prevTerm)
    else if aea_PrevLogIndex args <? getFirstLogIndex rf then
      firstTerm ← getLogTerm rf (getFirstLogIndex rf);
      Some (rf, mkAppendEntriesReply term false (getFirstLogIndex rf) firstTerm)
    else if getLastLogIndex rf <? aea_PrevLogIndex args then
      lastTerm ← getLogTerm rf (getLastLogIndex rf);
      Some (rf, mkAppendEntriesReply term false (getLastLogIndex rf + 1) lastTerm)
    else Some (rf, mkAppendEntriesReply term false 0 0).

(** ** InstallSnapshot *)

Record InstallSnapshotArgs := mkInstallSnapshotArgs {
  isa_Term : Z; isa_LeaderId : Z; isa_LastIncludedIndex : Z; isa_LastIncludedTerm : Z;
  isa_Data : bytes }.

Record InstallSnapshotReply := mkInstallSnapshotReply { isr_Term : Z }.

(** No path of the handler assigns [reply.Term]: the reply keeps its zero value. *)
Definition InstallSnapshot rf (args : InstallSnapshotArgs)
    : option (Raft Cmd * InstallSnapshotReply * option (ApplyMsg Cmd)) :=
  let reply := mkInstallSnapshotReply 0 in
  if isa_Term args <? currentTerm rf then Some (rf, reply, None)
  else
    let rf :=
      if currentTerm rf <? isa_Term args
      then persist (set_votedFor (-1) (set_state Follower (set_currentTerm (isa_Term args) rf)))
      else rf in
    if isa_LastIncludedIndex args <=? commitIndex rf then Some (rf, reply, None)
    else
      hasEntry ← matchLog rf (isa_LastIncludedIndex args) (isa_LastIncludedTerm args);
      rf ←
        (if (hasEntry : bool) then
           let relativeIndex := isa_LastIncludedIndex args - lastIncludedIndex rf in
           e ← slice_get (logs rf) relativeIndex;
           newLogs ← slice_from (logs rf) relativeIndex;
           Some (set_logs newLogs (set_lastIncludedTerm (ent_Term e) rf))
         else Some (set_logs [mkEntry (isa_LastIncludedTerm args) None] rf));
      head ← slice_get (logs rf) 0;
      l ← set_dummy_head (ent_Term head) (logs rf);
      let rf := set_logs l rf in
      let rf := set_commitIndex (isa_LastIncludedIndex args) rf in
      let rf := set_lastApplied (isa_LastIncludedIndex args) rf in
      let rf := set_lastIncludedIndex (isa_LastIncludedIndex args) rf in
      let rf := set_lastIncludedTerm (isa_LastIncludedTerm args) rf in
      let rf := set_persister (Save (persister rf) (encodeState rf) (isa_Data args)) rf in
      Some (rf, reply,
            Some (SnapshotMsg (isa_Data args) (isa_LastIncludedTerm args)
                              (isa_LastIncludedIndex args))).

End RaftRpc.

Arguments AppendEntriesArgs : clear implicits.
