(* ===== verification/RaftLeader.v ===== *)
(** * The candidate, the leader and the background goroutines of a Raft peer

    [lec-2025/src/raft1/raft.go], lines 604 to 1042.  A goroutine is cut at the points where
    it releases [rf.mu] or waits: each definition below is one critical section. *)

From S2P Require Import Prelude Persister RaftState RaftRpc.

Section RaftLeader.
Context {Cmd : Type} `{Gob (Persisted Cmd)}.
Implicit Types rf : Raft Cmd.

(** ** Elections *)

(** The variables the goroutines of one [StartElection] share, with the arguments they all
    send. *)
Record Election := mkElection {
  el_args : RequestVoteArgs; el_votes : Z; el_electedFlag : bool }.

(** Lines 605 to 628: become a candidate of the next term and vote for oneself. *)
Definition StartElection rf : option (Raft Cmd * Election) :=
  let rf := set_state Candidate rf in
  let rf := set_currentTerm (currentTerm rf + 1) rf in
  let rf := persist (set_votedFor (me rf) rf) in
  lastTerm ← getLogTerm rf (getLastLogIndex rf);
  Some (rf, mkElection
              (mkRequestVoteArgs (currentTerm rf) (me rf) (getLastLogIndex rf) lastTerm) 1 false).

(** The servers of the loop [for i := range rf.peers] that skips [rf.me]. *)
Definition other_peers rf : list Z :=
  filter (fun i => i <> me rf) (Z.of_nat <$> seq 0 (length (peers rf))).

(** Lines 675 to 681: the state of a new leader. *)
Definition become_leader rf : option (Raft Cmd) :=
  let rf := set_state Leader rf in
  let currentLastIndex := getLastLogIndex rf in
  let rf := set_nextIndex (replicate (length (peers rf)) (currentLastIndex + 1)) rf in
  let rf := set_matchIndex (replicate (length (peers rf)) 0) rf in
  m ← slice_set (matchIndex rf) (me rf) currentLastIndex;
  Some (set_matchIndex m rf).

(** Lines 639 to 689: one [RequestVote] reply.  The flag says that the goroutine goes on to
    [BroadcastAppendEntries]. *)
Definition handleRequestVoteReply rf (el : Election) (reply : RequestVoteReply)
    : option (Raft Cmd * Election * bool) :=
  if negb (bool_decide (state rf = Candidate)) || negb (currentTerm rf =? rva_Term (el_args el))
  then Some (rf, el, false)
  else if currentTerm rf <? rvr_Term reply then
    Some (persist (set_votedFor (-1) (set_state Follower
            (set_currentTerm (rvr_Term reply) rf))), el, false)
  else if rvr_VoteGranted reply then
    let el := mkElection (el_args el) (el_votes el + 1) (el_electedFlag el) in
    if Z.quot (zlen (peers rf)) 2 <? el_votes el then
      if el_electedFlag el then Some (rf, el, false)
      else
        rf ← become_leader rf;
        Some (rf, mkElection (el_args el) (el_votes el) true, true)
    else Some (rf, el, false)
  else Some (rf, el, false).

(** ** Replication *)

(** [Start]: the index, the term and whether this peer is the leader. *)
Definition Start rf (command : option Cmd) : option (Raft Cmd * (Z * Z * bool)) :=
  let isLeader := bool_decide (state rf = Leader) in
  let term := currentTerm rf in
  if isLeader then
    let index := getLastLogIndex rf + 1 in
    let rf := persist (set_logs (logs rf ++ [mkEntry (currentTerm rf) command]) rf) in
    n ← slice_get (matchIndex rf) (me rf);
    m ← slice_set (matchIndex rf) (me rf) (n + 1);
    let rf := set_matchIndex m rf in
    let rf := set_startCh (try_send (startCh rf)) rf in
    Some (rf, (index, term, true))
  else Some (rf, (-1, term, false)).

(** [commit]: the index that a majority of [matchIndex] has reached. *)
Definition commit rf : option (Raft Cmd) :=
  if negb (bool_decide (state rf = Leader)) then Some rf
  else
    let newMatchIndex := sort_Z (matchIndex rf) in
    let targetIndex := Z.quot (zlen newMatchIndex - 1) 2 in
    n ← slice_get newMatchIndex targetIndex;
    if commitIndex rf <? n then
      t ← getLogTerm rf n;
      if t =? currentTerm rf then Some (notifyApplier (set_commitIndex n rf)) else Some rf
    else Some rf.

Definition handleAppendEntriesReply rf (server : Z) (args : AppendEntriesArgs Cmd)
    (reply : AppendEntriesReply) : option (Raft Cmd) :=
  if currentTerm rf <? aer_Term reply then
    Some (persist (set_votedFor (-1) (set_state Follower
            (set_currentTerm (aer_Term reply) rf))))
  else
    next ← slice_get (nextIndex rf) server;
    if negb (aea_PrevLogIndex args =? next - 1) then Some rf
    else if aer_Success reply then
      nx ← slice_set (nextIndex rf) server (aea_PrevLogIndex args + zlen (aea_Entries args) + 1);
      let rf := set_nextIndex nx rf in
      m ← slice_set (matchIndex rf) server (aea_PrevLogIndex args + zlen (aea_Entries args));
      commit (set_matchIndex m rf)
    else if 0 <? aer_ConflictLogIndex reply then
      if aer_ConflictLogIndex reply <? next then
        nx ← slice_set (nextIndex rf) server (aer_ConflictLogIndex reply);
        Some (set_nextIndex nx rf)
      else Some rf
    else
      nx ← slice_set (nextIndex rf) server 1;
      Some (set_nextIndex nx rf).

Definition handleInstallSnapshotReply rf (server : Z) (args : InstallSnapshotArgs)
    (reply : InstallSnapshotReply) : option (Raft Cmd) :=
  if currentTerm rf <? isr_Term reply then
    Some (persist (set_votedFor (-1) (set_state Follower
            (set_currentTerm (isr_Term reply) rf))))
  else
    mi ← slice_get (matchIndex rf) server;
    if mi <? isa_LastIncludedIndex args then
      m ← slice_set (matchIndex rf) server (isa_LastIncludedIndex args);
      let rf := set_matchIndex m rf in
      nx ← slice_set (nextIndex rf) server (isa_LastIncludedIndex args + 1);
      Some (set_nextIndex nx rf)
    else Some rf.

(** What one goroutine of [BroadcastAppendEntries] sends. *)
Inductive Outgoing :=
  | SendNothing
  | SendAppendEntries (args : AppendEntriesArgs Cmd)
  | SendInstallSnapshot (args : InstallSnapshotArgs).

(** [for j := from; j < from + n; j++ { append(.., rf.logs[j - rf.lastIncludedIndex]) }]. *)
Fixpoint collect_entries rf (from : Z) (n : nat) : option (list (Entry Cmd)) :=
  match n with
  | O => Some []
  | S n =>
      e ← slice_get (logs rf) (from - lastIncludedIndex rf);
      es ← collect_entries rf (from + 1) n;
      Some (e :: es)
  end.

Definition batchSize : Z := 200.

(** Lines 898 to 963, up to the RPC, for one [server]. *)
Definition BroadcastAppendEntries rf (server : Z) : option (Raft Cmd * Outgoing) :=
  if negb (bool_decide (state rf = Leader)) then Some (rf, SendNothing)
  else
    next ← slice_get (nextIndex rf) server;
    rf ←
      (if next <=? 0 then nx ← slice_set (nextIndex rf) server 1; Some (set_nextIndex nx rf)
       else Some rf);
    next ← slice_get (nextIndex rf) server;
    if getFirstLogIndex rf <? next then
      prevTerm ← getLogTerm rf (next - 1);
      let lastLogIndex := getLastLogIndex rf in
      let endIndex :=
        if lastLogIndex + 1 <? next + batchSize then lastLogIndex + 1 else next + batchSize in
      (* make([]Entry, 0, n) panics on a negative capacity *)
      if endIndex - next <? 0 then None
      else
        entries ← collect_entries rf next (Z.to_nat (endIndex - next));
        Some (rf, SendAppendEntries
                    (mkAppendEntriesArgs (currentTerm rf) (me rf) (next - 1) prevTerm
                                         (commitIndex rf) entries))
    else
      Some (rf, SendInstallSnapshot
                  (mkInstallSnapshotArgs (currentTerm rf) (me rf) (lastIncludedIndex rf)
                     (lastIncludedTerm rf) (ReadSnapshot (persister rf)))).

(** ** The goroutines *)

(** [ticker], when its timer fires: a peer that is not the leader starts an election. *)
Definition ticker_timeout rf : option (Raft Cmd * option Election) :=
  if killed rf then Some (rf, None)
  else if bool_decide (state rf = Leader) then Some (rf, None)
  else r ← StartElection rf; Some (r.1, Some r.2).

(** [ticker], when a heartbeat arrives first. *)
Definition ticker_heartbeat rf : option (Raft Cmd) :=
  if negb (killed rf) && heartbeatCh rf then Some (set_heartbeatCh false rf) else None.

(** [getRandomTimeout], in milliseconds, from what [rand.Int63()] returned. *)
Definition getRandomTimeout (r : Z) : Z := 250 + Z.rem r 200.

(** One iteration of [leaderTicker] and whether it broadcasts: when [byTimer], the heartbeat
    timer fired; otherwise the goroutine received from [startCh], or is still blocked. *)
Definition leaderTicker rf (byTimer : bool) : Raft Cmd * bool :=
  if killed rf then (rf, false)
  else if bool_decide (state rf = Leader) then
    if byTimer then (rf, true)
    else if startCh rf then (set_startCh false rf, true) else (rf, false)
  else (rf, false).

(** One iteration of [applier]: apply the next committed entry, or wait for a signal (which
    empties [applySignal]; with nothing pending the goroutine stays blocked). *)
Definition applier rf : option (Raft Cmd * option (ApplyMsg Cmd)) :=
  if killed rf then Some (rf, None)
  else if lastApplied rf <? commitIndex rf then
    let rf := set_lastApplied (lastApplied rf + 1) rf in
    entry ← slice_get (logs rf) (lastApplied rf - lastIncludedIndex rf);
    term ← getLogTerm rf (lastApplied rf);
    Some (rf, Some (CommandMsg (ent_Command entry) (lastApplied rf) term))
  else Some (set_applySignal false rf, None).

End RaftLeader.

Arguments Outgoing : clear implicits.
