(* ===== verification/RaftInv.v ===== *)
(** * The invariant of a Raft peer

    [raft_shape] bounds the indices a peer computes with and ties its log to its snapshot;
    [durable] says that stable storage holds exactly the persistent fields.  Every critical
    section of [raft.go] preserves both, and none of those that do not index [nextIndex] past
    the log can panic. *)

From S2P Require Import Prelude Persister RaftState RaftRpc RaftLeader.

Section RaftInv.
Context {Cmd : Type} `{Gob (Persisted Cmd)}.
Implicit Types rf : Raft Cmd.

Record raft_shape rf : Prop := {
  sh_me : 0 <= me rf < zlen (peers rf);
  sh_next : zlen (nextIndex rf) = zlen (peers rf);
  sh_match : zlen (matchIndex rf) = zlen (peers rf);
  sh_head : exists c l, logs rf = mkEntry (lastIncludedTerm rf) c :: l;
  sh_first : 0 <= lastIncludedIndex rf <= lastApplied rf;
  sh_commit : 0 <= commitIndex rf <= getLastLogIndex rf;
  sh_term : 0 <= currentTerm rf;
}.

Definition fresh_persisted : Persisted Cmd := mkPersisted 0 (-1) [mkEntry 0 None] 0 0.

Definition durable rf : Prop :=
  raftstate (persister rf) = encodeState rf
  \/ raftstate (persister rf) = [] /\ persisted_of rf = fresh_persisted.

Record raft_wf rf : Prop := { wf_shape : raft_shape rf; wf_durable : durable rf }.

(** ** Terms of log entries *)

(** What [getLogTerm] returns when it does not panic. *)
Definition log_term rf (i : Z) : Z :=
  if (lastIncludedIndex rf <=? i) then
    from_option ent_Term (-1) (logs rf !! Z.to_nat (i - lastIncludedIndex rf))
  else -1.

Lemma getLogTerm_spec rf i : logs rf <> [] -> getLogTerm rf i = Some (log_term rf i).
Proof.
  intros Hne. unfold getLogTerm, log_term, getFirstLogIndex.
  destruct (logs rf) as [|e l] eqn:El; [done|]. clear Hne. rewrite <- El.
  destruct (Z.eqb_spec i (lastIncludedIndex rf)) as [->|].
  { rewrite Z.leb_refl, Z.sub_diag, El. done. }
  destruct (Z.ltb_spec (i - lastIncludedIndex rf) 0);
    destruct (Z.leb_spec (lastIncludedIndex rf) i); try lia; simpl; [done|].
  destruct (Z.leb_spec (zlen (logs rf)) (i - lastIncludedIndex rf)) as [Hge|Hlt].
  - rewrite lookup_ge_None_2; [done|]. unfold zlen in Hge. lia.
  - destruct (slice_get_total (logs rf) (i - lastIncludedIndex rf)) as [x Hx]; [lia|].
    rewrite Hx. apply slice_get_Some in Hx as [_ ->]. done.
Qed.

Lemma shape_logs_ne rf : raft_shape rf -> logs rf <> [].
Proof. intros [_ _ _ (c & l & ->)]. done. Qed.

Lemma shape_zlen_logs rf : raft_shape rf -> 1 <= zlen (logs rf).
Proof. intros [_ _ _ (c & l & ->)]. rewrite zlen_cons. pose proof (zlen_nonneg l). lia. Qed.

Lemma getLogTerm_shape rf i : raft_shape rf -> getLogTerm rf i = Some (log_term rf i).
Proof. eauto using getLogTerm_spec, shape_logs_ne. Qed.

Lemma log_term_range rf i :
  log_term rf i <> -1 -> lastIncludedIndex rf <= i <= getLastLogIndex rf.
Proof.
  unfold log_term, getLastLogIndex. destruct (Z.leb_spec (lastIncludedIndex rf) i); [|done].
  destruct (logs rf !! _) as [e|] eqn:E; simpl; [|done]. intros _.
  apply lookup_lt_Some in E. unfold zlen. lia.
Qed.

Lemma log_lookup_total rf i :
  lastIncludedIndex rf <= i <= getLastLogIndex rf ->
  exists e, slice_get (logs rf) (i - lastIncludedIndex rf) = Some e /\ log_term rf i = ent_Term e.
Proof.
  intros Hi. unfold getLastLogIndex in Hi.
  destruct (slice_get_total (logs rf) (i - lastIncludedIndex rf)) as [e He]; [lia|].
  exists e. split; [done|]. apply slice_get_Some in He as [_ He].
  unfold log_term. destruct (Z.leb_spec (lastIncludedIndex rf) i); [|lia]. by rewrite He.
Qed.

(** ** Field updates the invariant does not see *)

Lemma durable_persist rf : durable (persist rf).
Proof. left. reflexivity. Qed.

Lemma shape_persist rf : raft_shape rf -> raft_shape (persist rf).
Proof. by intros []; constructor. Qed.

Lemma wf_persist rf : raft_shape rf -> raft_wf (persist rf).
Proof. intros. constructor; [by apply shape_persist | apply durable_persist]. Qed.

(** Adopting a term and a vote as a follower or candidate, then [persist]. *)
Lemma wf_adopt rf t v r :
  raft_shape rf -> 0 <= t ->
  raft_wf (persist (set_votedFor v (set_state r (set_currentTerm t rf)))).
Proof. intros [] ?. apply wf_persist. by constructor. Qed.

Lemma wf_set_heartbeatCh b rf : raft_wf rf -> raft_wf (set_heartbeatCh b rf).
Proof. by intros [[] ?]; constructor; [constructor|]. Qed.

Lemma wf_set_startCh b rf : raft_wf rf -> raft_wf (set_startCh b rf).
Proof. by intros [[] ?]; constructor; [constructor|]. Qed.

Lemma wf_set_applySignal b rf : raft_wf rf -> raft_wf (set_applySignal b rf).
Proof. by intros [[] ?]; constructor; [constructor|]. Qed.

Lemma wf_set_dead b rf : raft_wf rf -> raft_wf (set_dead b rf).
Proof. by intros [[] ?]; constructor; [constructor|]. Qed.

Lemma wf_set_nextIndex l rf :
  zlen l = zlen (peers rf) -> raft_wf rf -> raft_wf (set_nextIndex l rf).
Proof. by intros ? [[] ?]; constructor; [constructor|]. Qed.

Lemma wf_set_matchIndex l rf :
  zlen l = zlen (peers rf) -> raft_wf rf -> raft_wf (set_matchIndex l rf).
Proof. by intros ? [[] ?]; constructor; [constructor|]. Qed.

Lemma wf_set_state r rf : raft_wf rf -> raft_wf (set_state r rf).
Proof. by intros [[] ?]; constructor; [constructor|]. Qed.

Lemma wf_set_commitIndex i rf :
  0 <= i <= getLastLogIndex rf -> raft_wf rf -> raft_wf (set_commitIndex i rf).
Proof. by intros ? [[] ?]; constructor; [constructor|]. Qed.

Lemma wf_notifyApplier rf : raft_wf rf -> raft_wf (notifyApplier rf).
Proof. apply wf_set_applySignal. Qed.

Lemma shape_set_logs l rf :
  raft_shape rf ->
  (exists c l', l = mkEntry (lastIncludedTerm rf) c :: l') ->
  commitIndex rf <= lastIncludedIndex rf + zlen l - 1 ->
  raft_shape (set_logs l rf).
Proof. intros [] ? ?. constructor; simpl; try done. unfold getLastLogIndex. simpl. lia. Qed.

End RaftInv.

#[export] Hint Resolve wf_adopt wf_set_heartbeatCh wf_set_startCh wf_set_applySignal
  wf_set_nextIndex wf_set_matchIndex wf_set_state wf_set_commitIndex wf_notifyApplier
  wf_persist shape_persist durable_persist wf_shape shape_logs_ne : golab.
