(* ===== verification/RaftAppend.v ===== *)
(** * What AppendEntries does to a follower's log

    [merge_log] is the reference description of how a follower merges the leader's entries:
    keep the entries that agree on the term, cut the log at the first disagreement, append
    what is missing.  The handler's two paths (the fast path at the end of the log and the
    index loop [reconcile]) both compute it. *)

From S2P Require Import Prelude Persister RaftState RaftRpc RaftLeader RaftInv.

Section MergeLog.
Context {Cmd : Type}.
Implicit Types l rest : list (Entry Cmd).

(** [l] is the follower's slice, [k] the position of the first of the leader's entries. *)
Fixpoint merge_log l (k : nat) rest : list (Entry Cmd) :=
  match rest with
  | [] => l
  | e :: rest' =>
      match l !! k with
      | None => l ++ rest
      | Some x =>
          if ent_Term x =? ent_Term e then merge_log l (S k) rest' else take k l ++ rest
      end
  end.

Lemma merge_log_end l rest : merge_log l (length l) rest = l ++ rest.
Proof.
  destruct rest as [|e rest]; simpl; [by rewrite app_nil_r|].
  by rewrite lookup_ge_None_2 by lia.
Qed.

Lemma merge_log_length l k rest :
  (k <= length l)%nat -> (k + length rest <= length (merge_log l k rest))%nat.
Proof.
  revert k. induction rest as [|e rest IH]; intros k Hk; simpl; [lia|].
  destruct (l !! k) as [x|] eqn:E.
  - apply lookup_lt_Some in E. destruct (Z.eqb_spec (ent_Term x) (ent_Term e)).
    + specialize (IH (S k)). lia.
    + rewrite length_app, length_take. simpl. lia.
  - apply lookup_ge_None in E. rewrite length_app. simpl. lia.
Qed.

(** The log up to the insertion point is untouched. *)
Lemma merge_log_prefix l k rest : (k <= length l)%nat -> take k (merge_log l k rest) = take k l.
Proof.
  revert k. induction rest as [|e rest IH]; intros k Hk; simpl; [done|].
  destruct (l !! k) as [x|] eqn:E.
  - pose proof (lookup_lt_Some _ _ _ E). destruct (Z.eqb_spec (ent_Term x) (ent_Term e)).
    + specialize (IH (S k)). apply (f_equal (take k)) in IH; [|lia].
      rewrite !take_take in IH. by replace (k `min` S k)%nat with k in IH by lia.
    + by rewrite take_app_le, take_take, Nat.min_id by (rewrite length_take; lia).
  - apply lookup_ge_None in E. by rewrite take_app_le by lia.
Qed.

(** Past it, the log has the terms of the leader's entries. *)
Lemma merge_log_terms l k rest j e :
  (k <= length l)%nat -> rest !! j = Some e ->
  exists x, merge_log l k rest !! (k + j)%nat = Some x /\ ent_Term x = ent_Term e.
Proof.
  revert k j. induction rest as [|e0 rest IH]; intros k j Hk Hj; [done|]. simpl.
  destruct (l !! k) as [x|] eqn:E.
  - pose proof (lookup_lt_Some _ _ _ E) as Hlt.
    destruct (Z.eqb_spec (ent_Term x) (ent_Term e0)) as [Ht|Ht].
    + destruct j as [|j]; simplify_eq/=.
      * exists x. split; [|done]. rewrite Nat.add_0_r.
        pose proof (merge_log_prefix l (S k) rest ltac:(lia)) as Hp.
        apply (f_equal (fun t => t !! k)) in Hp.
        by rewrite !lookup_take_lt, E in Hp by lia.
      * destruct (IH (S k) j) as (y & Hy & ?); [lia|done|].
        exists y. by rewrite Nat.add_succ_r.
    + exists e. split; [|done].
      rewrite lookup_app_r by (rewrite length_take; lia).
      rewrite length_take, Nat.min_l by lia. by replace (k + j - k)%nat with j by lia.
  - apply lookup_ge_None in E. exists e. split; [|done].
    rewrite lookup_app_r by lia. by replace (k + j - length l)%nat with j by lia.
Qed.

(** A retransmission whose entries the follower already has changes nothing: no entry
    behind them is lost. *)
Lemma merge_log_stale l k rest :
  (forall j e, rest !! j = Some e ->
     exists x, l !! (k + j)%nat = Some x /\ ent_Term x = ent_Term e) ->
  merge_log l k rest = l.
Proof.
  revert k. induction rest as [|e rest IH]; intros k Hall; simpl; [done|].
  destruct (Hall 0%nat e eq_refl) as (x & Hx & Ht). rewrite Nat.add_0_r in Hx.
  rewrite Hx, Ht, Z.eqb_refl. apply IH. intros j e' Hj.
  destruct (Hall (S j) e' Hj) as (y & Hy & ?). exists y. by rewrite Nat.add_succ_r in Hy.
Qed.

Lemma merge_log_head l k rest x l' :
  l = x :: l' -> (0 < k <= length l)%nat -> exists l'', merge_log l k rest = x :: l''.
Proof.
  intros -> Hk. pose proof (merge_log_prefix (x :: l') k rest ltac:(lia)) as Hp.
  destruct k as [|k]; [lia|]. simpl in Hp.
  destruct (merge_log (x :: l') (S k) rest) as [|y l'']; simplify_eq/=; eauto.
Qed.
End MergeLog.

Section AppendEntries.
Context {Cmd : Type} `{Gob (Persisted Cmd)}.
Implicit Types rf : Raft Cmd.

Lemma persist_id rf :
  raftstate (persister rf) = encodeState rf -> persist (set_logs (logs rf) rf) = rf.
Proof.
  destruct rf as [? [st sn] ? ? ? ? ? ? ? ? ? ? ? ? ? ? ?]. simpl. intros ->. reflexivity.
Qed.

(** The index loop computes [merge_log], and [persist]s it. *)
Lemma reconcile_spec rf rest i :
  logs rf <> [] -> raftstate (persister rf) = encodeState rf ->
  lastIncludedIndex rf <= i <= getLastLogIndex rf + 1 ->
  reconcile rf rest i =
    Some (persist (set_logs (merge_log (logs rf) (Z.to_nat (i - lastIncludedIndex rf)) rest) rf)).
Proof.
  intros Hne Hdur. revert i. induction rest as [|e rest IH]; intros i Hi; simpl.
  { by rewrite persist_id. }
  rewrite (getLogTerm_spec rf i Hne). unfold getLastLogIndex in *.
  destruct (Z.ltb_spec (lastIncludedIndex rf + zlen (logs rf) - 1) i).
  { rewrite lookup_ge_None_2; [done|]. unfold zlen in *. lia. }
  destruct (log_lookup_total rf i) as (x & Hx & Ht); [unfold getLastLogIndex; lia|].
  apply slice_get_Some in Hx as [_ Hx]. rewrite Hx. simpl. rewrite Ht.
  destruct (Z.eqb_spec (ent_Term x) (ent_Term e)); simpl.
  - rewrite IH by lia. do 3 f_equal. f_equal. lia.
  - unfold getFirstLogIndex. by rewrite slice_to_Some by (unfold zlen in *; lia).
Qed.

(** The state in which the handler compares logs: term adopted, timer reset. *)
Definition accept_leader rf (args : AppendEntriesArgs Cmd) : Raft Cmd :=
  set_heartbeatCh true
    (persist (set_votedFor (-1) (set_state Follower (set_currentTerm (aea_Term args) rf)))).

Lemma accept_leader_wf rf args :
  raft_wf rf -> 0 <= aea_Term args -> raft_wf (accept_leader rf args).
Proof. intros [] ?. apply wf_set_heartbeatCh. by apply wf_adopt. Qed.

Lemma log_term_accept rf args i : log_term (accept_leader rf args) i = log_term rf i.
Proof. done. Qed.

(** The follower's log when it accepts: positions are relative to the snapshot. *)
Definition merged rf (args : AppendEntriesArgs Cmd) : list (Entry Cmd) :=
  merge_log (logs rf) (Z.to_nat (aea_PrevLogIndex args + 1 - lastIncludedIndex rf))
            (aea_Entries args).

(** The handler's answer when the previous entry matches: both code paths. *)
Lemma AppendEntries_success rf args :
  raft_wf rf -> currentTerm rf <= aea_Term args ->
  lastIncludedIndex rf <= aea_PrevLogIndex args <= getLastLogIndex rf ->
  log_term rf (aea_PrevLogIndex args) = aea_PrevLogTerm args ->
  AppendEntries rf args =
    Some (follow_commit (persist (set_logs (merged rf args) (accept_leader rf args))) args,
          mkAppendEntriesReply (currentTerm rf) true 0 0).
Proof.
  intros [Hs _] Ht Hi Hp. unfold AppendEntries.
  destruct (Z.ltb_spec (aea_Term args) (currentTerm rf)); [lia|].
  change (set_heartbeatCh (try_send _) (persist _)) with (accept_leader rf args).
  set (rf1 := accept_leader rf args).
  assert (Hne : logs rf1 <> []) by (by apply (shape_logs_ne rf)).
  rewrite (getLogTerm_spec rf1 (getLastLogIndex rf1) Hne). simpl.
  change (getLastLogIndex rf1) with (getLastLogIndex rf).
  change (getFirstLogIndex rf1) with (lastIncludedIndex rf).
  go_if.
  - unfold merged. replace (Z.to_nat _) with (length (logs rf)).
    { by rewrite merge_log_end. }
    pose proof (zlen_nonneg (logs rf)). unfold getLastLogIndex, zlen in *. lia.
  - destruct (Z.leb_spec (aea_PrevLogIndex args) (getLastLogIndex rf)); [|lia].
    destruct (Z.leb_spec (lastIncludedIndex rf) (aea_PrevLogIndex args)); [|lia]. simpl.
    rewrite (getLogTerm_spec rf1 _ Hne). simpl. rewrite <- Hp.
    change (log_term rf1) with (log_term rf). rewrite Z.eqb_refl.
    rewrite (reconcile_spec rf1); [done|done|done|].
    change (getLastLogIndex rf1) with (getLastLogIndex rf).
    change (lastIncludedIndex rf1) with (lastIncludedIndex rf). lia.
Qed.

(** The backwards scan stops at the start of the run of terms that are not smaller. *)
Lemma conflict_scan_spec fuel rf ct temp :
  logs rf <> [] -> temp - lastIncludedIndex rf <= Z.of_nat fuel ->
  exists r, conflict_scan fuel rf ct temp = Some r
    /\ r <= temp /\ Z.min temp (lastIncludedIndex rf) <= r
    /\ (forall i, r < i <= temp -> ct <= log_term rf i)
    /\ (lastIncludedIndex rf < r -> log_term rf r < ct).
Proof.
  intros Hne. revert temp. induction fuel as [|fuel IH]; intros temp Hf; simpl;
    destruct (Z.ltb_spec (lastIncludedIndex rf) temp); try lia.
  1, 3: exists temp; repeat split; try done; lia.
  rewrite (getLogTerm_spec rf temp Hne). simpl.
  destruct (Z.ltb_spec (log_term rf temp) ct).
  { exists temp. repeat split; try done; lia. }
  destruct (IH (temp - 1)) as (r & -> & ? & ? & Hall & ?); [lia|].
  exists r. repeat split; try done; try lia.
  intros i Hi. destruct (decide (i = temp)) as [->|]; [done|]. apply Hall. lia.
Qed.

(** The previous entry is missing or has another term: the log is left alone and the reply
    carries the index the leader should retry from. *)
Lemma AppendEntries_reject rf args :
  raft_wf rf -> currentTerm rf <= aea_Term args ->
  ~ (lastIncludedIndex rf <= aea_PrevLogIndex args <= getLastLogIndex rf
     /\ log_term rf (aea_PrevLogIndex args) = aea_PrevLogTerm args) ->
  exists ci ct,
    AppendEntries rf args =
      Some (accept_leader rf args, mkAppendEntriesReply (currentTerm rf) false ci ct)
    /\ lastIncludedIndex rf <= ci
    /\ (getLastLogIndex rf < aea_PrevLogIndex args -> ci = getLastLogIndex rf + 1)
    /\ (aea_PrevLogIndex args < lastIncludedIndex rf -> ci = lastIncludedIndex rf)
    /\ (lastIncludedIndex rf <= aea_PrevLogIndex args <= getLastLogIndex rf ->
        ci <= aea_PrevLogIndex args /\ ct = log_term rf (aea_PrevLogIndex args)
        /\ forall i, ci <= i < aea_PrevLogIndex args -> ct <= log_term rf i).
Proof.
  intros [Hs _] Ht Hno. unfold AppendEntries. pose proof (shape_zlen_logs rf Hs) as Hlen.
  destruct (Z.ltb_spec (aea_Term args) (currentTerm rf)); [lia|].
  change (set_heartbeatCh (try_send _) (persist _)) with (accept_leader rf args).
  set (rf1 := accept_leader rf args).
  assert (Hne : logs rf1 <> []) by (by apply (shape_logs_ne rf)).
  rewrite (getLogTerm_spec rf1 (getLastLogIndex rf1) Hne). simpl.
  change (getLastLogIndex rf1) with (getLastLogIndex rf) in *.
  change (getFirstLogIndex rf1) with (lastIncludedIndex rf) in *.
  change (lastIncludedIndex rf1) with (lastIncludedIndex rf) in *.
  change (log_term rf1) with (log_term rf).
  assert (Hfl : lastIncludedIndex rf <= getLastLogIndex rf) by (unfold getLastLogIndex; lia).
  go_if.
  { exfalso. apply Hno. split; [lia|]. congruence. }
  go_if.
  - rewrite (getLogTerm_spec rf1 (aea_PrevLogIndex args) Hne). simpl.
    change (log_term rf1) with (log_term rf).
    go_if; [exfalso; apply Hno; split; [lia|congruence]|].
    destruct (conflict_scan_spec (Z.to_nat (aea_PrevLogIndex args - lastIncludedIndex rf)) rf1
                (log_term rf (aea_PrevLogIndex args)) (aea_PrevLogIndex args - 1) Hne)
      as (r & -> & ? & Hlo & Hall & _).
    { change (lastIncludedIndex rf1) with (lastIncludedIndex rf). lia. }
    change (lastIncludedIndex rf1) with (lastIncludedIndex rf) in Hlo.
    change (log_term rf1) with (log_term rf) in Hall.
    do 2 eexists. split; [reflexivity|]. repeat split; try lia.
    intros i ?. apply Hall. lia.
  - apply andb_false_iff in Heqb0.
    go_if; [|go_if].
    + rewrite (getLogTerm_spec rf1 (lastIncludedIndex rf) Hne). simpl.
      do 2 eexists. split; [reflexivity|]. repeat split; lia.
    + do 2 eexists. split; [reflexivity|]. repeat split; lia.
    + exfalso. destruct Heqb0; go_bool; lia.
Qed.

Lemma AppendEntries_stale rf args :
  aea_Term args < currentTerm rf ->
  AppendEntries rf args = Some (rf, mkAppendEntriesReply (currentTerm rf) false 0 0).
Proof. intros. unfold AppendEntries. by destruct (Z.ltb_spec (aea_Term args) (currentTerm rf)); [|lia]. Qed.

Lemma merged_zlen rf args :
  raft_shape rf ->
  lastIncludedIndex rf <= aea_PrevLogIndex args <= getLastLogIndex rf ->
  aea_PrevLogIndex args + zlen (aea_Entries args)
    <= lastIncludedIndex rf + zlen (merged rf args) - 1.
Proof.
  intros Hs Hi. unfold merged.
  pose proof (merge_log_length (logs rf)
    (Z.to_nat (aea_PrevLogIndex args + 1 - lastIncludedIndex rf)) (aea_Entries args)) as Hl.
  unfold getLastLogIndex, zlen in *. lia.
Qed.

Lemma merged_head rf args :
  raft_shape rf ->
  lastIncludedIndex rf <= aea_PrevLogIndex args <= getLastLogIndex rf ->
  exists c l, merged rf args = mkEntry (lastIncludedTerm rf) c :: l.
Proof.
  intros [_ _ _ (c & l & Hl)] Hi. unfold merged. exists c.
  eapply merge_log_head; [done|]. unfold getLastLogIndex, zlen in *. lia.
Qed.

(** Accepting entries re-establishes the invariant, also when the merge cut the log below the
    old commit index. *)
Lemma follow_commit_wf rf args :
  raft_wf rf -> 0 <= aea_Term args -> 0 <= aea_LeaderCommit args ->
  lastIncludedIndex rf <= aea_PrevLogIndex args <= getLastLogIndex rf ->
  raft_wf (follow_commit (persist (set_logs (merged rf args) (accept_leader rf args))) args).
Proof.
  intros [Hs _] ? ? Hi. pose proof (merged_zlen rf args Hs Hi) as Hz.
  pose proof (merged_head rf args Hs Hi) as Hh. pose proof (zlen_nonneg (aea_Entries args)).
  destruct Hs. unfold follow_commit. apply wf_notifyApplier.
  constructor; [|left; by destruct (_ <? _)].
  destruct (Z.ltb_spec (aea_LeaderCommit args) (aea_PrevLogIndex args + zlen (aea_Entries args)));
    constructor; simpl; try done; unfold getLastLogIndex; simpl; lia.
Qed.

(** [AppendEntries] never panics, and preserves the invariant. *)
Lemma AppendEntries_wf rf args :
  raft_wf rf -> 0 <= aea_LeaderCommit args ->
  exists rf' reply, AppendEntries rf args = Some (rf', reply) /\ raft_wf rf'.
Proof.
  intros Hwf ?. pose proof (sh_term _ (wf_shape _ Hwf)).
  destruct (Z.lt_ge_cases (aea_Term args) (currentTerm rf)).
  { rewrite AppendEntries_stale by done. eauto. }
  destruct (decide (lastIncludedIndex rf <= aea_PrevLogIndex args <= getLastLogIndex rf
                    /\ log_term rf (aea_PrevLogIndex args) = aea_PrevLogTerm args)) as [[]|Hno].
  - rewrite AppendEntries_success by done. do 2 eexists. split; [done|].
    apply follow_commit_wf; auto; lia.
  - destruct (AppendEntries_reject rf args) as (ci & ct & -> & _); [done..|].
    do 2 eexists. split; [done|]. apply accept_leader_wf; [done|lia].
Qed.

End AppendEntries.
