(* ===== verification/RaftPeer.v ===== *)
(** * Every critical section preserves the invariant

    For each operation of [raft.go]: it does not panic on a well-formed peer, and leaves a
    well-formed peer behind.  [BroadcastAppendEntries] is the exception: it panics exactly
    when [nextIndex] points past the end of the log. *)

From S2P Require Import Prelude Persister RaftState RaftRpc RaftLeader RaftInv RaftAppend.

Section RaftPeer.
Context {Cmd : Type} `{Gob (Persisted Cmd)}.
Implicit Types rf : Raft Cmd.

Lemma RequestVote_wf rf args :
  raft_wf rf ->
  exists rf' reply, RequestVote rf args = Some (rf', reply) /\ raft_wf rf'.
Proof.
  intros Hwf. pose proof (sh_term _ (wf_shape _ Hwf)). unfold RequestVote.
  go_if; [eauto|].
  set (rf1 := if currentTerm rf <? rva_Term args then _ else rf).
  assert (Hwf1 : raft_wf rf1).
  { subst rf1. destruct Hwf as [[] Hd]. go_if; [|by constructor].
    apply wf_persist. constructor; simpl; auto; lia. }
  clearbody rf1. go_if; [|eauto].
  rewrite (getLogTerm_shape rf1 _ (wf_shape _ Hwf1)). simpl. go_if; [|eauto].
  do 2 eexists. split; [done|]. destruct Hwf1 as [[] ?].
  apply wf_set_heartbeatCh, wf_persist. constructor; simpl; auto; lia.
Qed.

Lemma slice_tail_head (l : list (Entry Cmd)) i e :
  slice_get l i = Some e ->
  exists l', slice_from l i = Some (e :: l') /\ zlen (e :: l') = zlen l - i.
Proof.
  intros He. pose proof (slice_get_lt _ _ _ He).
  rewrite slice_from_Some by lia. apply slice_get_Some in He as [? He].
  pose proof (zlen_drop l i ltac:(lia)) as Hz.
  erewrite (drop_S _ _ _ He) in Hz |- *. eauto.
Qed.

Lemma Snapshot_wf rf index snap :
  raft_wf rf -> exists rf', Snapshot rf index snap = Some rf' /\ raft_wf rf'.
Proof.
  intros Hwf. pose proof (shape_zlen_logs _ (wf_shape _ Hwf)). destruct Hwf as [Hs Hd].
  unfold Snapshot. go_if; [by eauto using Build_raft_wf|].
  destruct Hs as [? ? ? ? ? Hc ?]. unfold getLastLogIndex in Hc. go_if.
  - destruct (slice_get_total (logs rf) (index - lastIncludedIndex rf)) as [e He]; [lia|].
    destruct (slice_tail_head _ _ _ He) as (l' & Hl & Hz). rewrite He, Hl. simpl.
    rewrite zlen_cons in Hz. pose proof (zlen_nonneg l'). eexists. split; [done|].
    constructor; [|by left].
    destruct (Z.ltb_spec (commitIndex rf) index); simpl;
      destruct (Z.ltb_spec (lastApplied rf) index);
      constructor; simpl; eauto; unfold getLastLogIndex; simpl; rewrite ?zlen_cons; lia.
  - simpl. eexists. split; [done|]. constructor; [|by left].
    destruct (Z.ltb_spec (commitIndex rf) index); simpl;
      destruct (Z.ltb_spec (lastApplied rf) index);
      constructor; simpl; eauto; unfold getLastLogIndex; simpl; autorewrite with zlen; lia.
Qed.

Lemma InstallSnapshot_wf rf args :
  raft_wf rf -> 0 <= isa_LastIncludedIndex args ->
  exists rf' reply msg,
    InstallSnapshot rf args = Some (rf', reply, msg) /\ raft_wf rf'.
Proof.
  intros Hwf ?. pose proof (sh_term _ (wf_shape _ Hwf)). unfold InstallSnapshot.
  go_if; [eauto|].
  set (rf1 := if currentTerm rf <? isa_Term args then _ else rf).
  assert (Hwf1 : raft_wf rf1).
  { subst rf1. destruct Hwf as [Hs Hd]. go_if; [|by constructor]. apply wf_adopt; [done|lia]. }
  clearbody rf1. clear Hwf. go_if; [eauto|]. unfold matchLog.
  destruct Hwf1 as [Hs Hd]. pose proof (shape_zlen_logs _ Hs).
  rewrite (getLogTerm_shape rf1 _ Hs). unfold getFirstLogIndex.
  match goal with |- context [if (?a || ?b)%bool then Some false else ?c] =>
    set (has := if (a || b)%bool then Some false else c) end.
  assert (Hhas : exists b : bool, has = Some b /\
     (b = true -> lastIncludedIndex rf1 < isa_LastIncludedIndex args <= getLastLogIndex rf1
      /\ log_term rf1 (isa_LastIncludedIndex args) = isa_LastIncludedTerm args)).
  { subst has. go_if; [by exists false|]. simpl. eexists. split; [done|].
    intros ?%Z.eqb_eq. lia. }
  destruct Hhas as (b & -> & Hb). simpl. destruct Hs as [? ? ? ? ? ? ?]. destruct b.
  - destruct Hb as [Hr Ht]; [done|].
    destruct (log_lookup_total rf1 (isa_LastIncludedIndex args)) as (e & He & Hte); [lia|].
    destruct (slice_tail_head _ _ _ He) as (l' & Hl & Hz). rewrite He, Hl. simpl.
    do 3 eexists. split; [done|]. constructor; [|by left].
    pose proof (zlen_nonneg l').
    constructor; simpl; eauto; unfold getLastLogIndex; simpl; rewrite ?zlen_cons; try lia.
    rewrite <- Ht, Hte. eauto.
  - simpl. do 3 eexists. split; [done|]. constructor; [|by left].
    constructor; simpl; eauto; unfold getLastLogIndex; simpl; autorewrite with zlen; lia.
Qed.

Lemma StartElection_wf rf :
  raft_wf rf -> exists rf' el, StartElection rf = Some (rf', el) /\ raft_wf rf'.
Proof.
  intros [Hs _]. unfold StartElection.
  set (rf1 := persist _).
  assert (Hwf1 : raft_wf rf1).
  { subst rf1. destruct Hs. apply wf_persist. constructor; simpl; auto; lia. }
  rewrite (getLogTerm_shape rf1 _ (wf_shape _ Hwf1)). simpl. eauto.
Qed.

Lemma become_leader_wf rf :
  raft_wf rf -> exists rf', become_leader rf = Some rf' /\ raft_wf rf' /\ state rf' = Leader.
Proof.
  intros [Hs Hd]. destruct Hs as [Hm Hn Hk ? ? ? ?]. unfold become_leader. simpl.
  assert (Hr : forall x : Z, zlen (replicate (length (peers rf)) x) = zlen (peers rf)).
  { intros x. unfold zlen. by rewrite length_replicate. }
  rewrite slice_set_Some by (rewrite Hr; lia). simpl.
  eexists. split; [done|]. split; [|done].
  apply wf_set_matchIndex; [simpl; by rewrite zlen_insert, Hr|].
  apply wf_set_matchIndex; [simpl; by rewrite Hr|].
  apply wf_set_nextIndex; [simpl; by rewrite Hr|]. apply wf_set_state. by constructor.
Qed.

Lemma handleRequestVoteReply_wf rf el reply :
  raft_wf rf ->
  exists rf' el' b, handleRequestVoteReply rf el reply = Some (rf', el', b) /\ raft_wf rf'.
Proof.
  intros Hwf. pose proof (sh_term _ (wf_shape _ Hwf)). unfold handleRequestVoteReply.
  go_if; [eauto|]. go_if; [do 3 eexists; split; [done|]; apply wf_adopt; [apply Hwf|lia]|].
  go_if; [|eauto]. simpl. go_if; [|eauto]. go_if; [eauto|].
  destruct (become_leader_wf rf Hwf) as (rf' & -> & ? & _). simpl. eauto.
Qed.

Lemma Start_wf rf c :
  raft_wf rf -> exists rf' r, Start rf c = Some (rf', r) /\ raft_wf rf'.
Proof.
  intros [Hs Hd]. unfold Start. go_if; [|eauto using Build_raft_wf]. simpl.
  destruct Hs as [? ? ? (c0 & l0 & Hl) ? Hc ?].
  destruct (slice_get_total (matchIndex rf) (me rf)) as [n Hn]; [lia|]. rewrite Hn. simpl.
  rewrite slice_set_Some by lia. simpl. do 2 eexists. split; [done|].
  apply wf_set_startCh, wf_set_matchIndex; [simpl; by rewrite zlen_insert|].
  apply wf_persist. constructor; simpl; eauto.
  - exists c0, (l0 ++ [mkEntry (currentTerm rf) c]). by rewrite Hl.
  - unfold getLastLogIndex in *. simpl. autorewrite with zlen. lia.
Qed.

Lemma commit_wf rf : raft_wf rf -> exists rf', commit rf = Some rf' /\ raft_wf rf'.
Proof.
  intros Hwf. unfold commit. go_if; [eauto|].
  destruct Hwf as [Hs Hd]. pose proof (sh_match _ Hs). pose proof (sh_me _ Hs).
  destruct (slice_get_total (sort_Z (matchIndex rf)) (Z.quot (zlen (sort_Z (matchIndex rf)) - 1) 2))
    as [n Hn].
  { rewrite zlen_sort_Z. split; [apply Z.quot_pos; lia|].
    pose proof (Z.quot_lt (zlen (matchIndex rf) - 1) 2). 
    destruct (decide (zlen (matchIndex rf) = 1)) as [->|]; [done|]. lia. }
  rewrite Hn. simpl. go_if; [|eauto using Build_raft_wf].
  rewrite (getLogTerm_shape rf n Hs). simpl. go_if; [|eauto using Build_raft_wf].
  eexists. split; [done|]. apply wf_notifyApplier, wf_set_commitIndex; [|by constructor].
  pose proof (sh_term _ Hs). pose proof (sh_commit _ Hs).
  pose proof (log_term_range rf n ltac:(lia)). lia.
Qed.

Lemma handleAppendEntriesReply_wf rf server args reply :
  raft_wf rf -> 0 <= server < zlen (peers rf) ->
  exists rf', handleAppendEntriesReply rf server args reply = Some rf' /\ raft_wf rf'.
Proof.
  intros Hwf Hsv. pose proof (wf_shape _ Hwf) as Hs. pose proof (sh_term _ Hs).
  pose proof (sh_next _ Hs). pose proof (sh_match _ Hs).
  unfold handleAppendEntriesReply.
  go_if; [eexists; split; [done|]; apply wf_adopt; [done|lia]|].
  destruct (slice_get_total (nextIndex rf) server) as [next ->]; [lia|]. simpl.
  go_if; [eauto|]. rewrite !slice_set_Some by (simpl; lia). simpl.
  assert (forall x, raft_wf (set_nextIndex (<[Z.to_nat server:=x]> (nextIndex rf)) rf)).
  { intros x. apply wf_set_nextIndex; [by rewrite zlen_insert|done]. }
  go_if; [|go_if; [go_if|]]; eauto.
  apply commit_wf, wf_set_matchIndex; [simpl; by rewrite zlen_insert|done].
Qed.

Lemma handleInstallSnapshotReply_wf rf server args reply :
  raft_wf rf -> 0 <= server < zlen (peers rf) ->
  exists rf', handleInstallSnapshotReply rf server args reply = Some rf' /\ raft_wf rf'.
Proof.
  intros Hwf Hsv. pose proof (wf_shape _ Hwf) as Hs. pose proof (sh_term _ Hs).
  pose proof (sh_next _ Hs). pose proof (sh_match _ Hs).
  unfold handleInstallSnapshotReply.
  go_if; [eexists; split; [done|]; apply wf_adopt; [done|lia]|].
  destruct (slice_get_total (matchIndex rf) server) as [m ->]; [lia|]. simpl.
  go_if; [|eauto]. rewrite !slice_set_Some by (simpl; lia). simpl. eexists. split; [done|].
  apply wf_set_nextIndex; [simpl; by rewrite zlen_insert|].
  apply wf_set_matchIndex; [simpl; by rewrite zlen_insert|done].
Qed.

Lemma applier_wf rf :
  raft_wf rf -> exists rf' msg, applier rf = Some (rf', msg) /\ raft_wf rf'.
Proof.
  intros Hwf. unfold applier. go_if; [eauto|].
  go_if; [|eauto using wf_set_applySignal]. destruct Hwf as [Hs Hd].
  set (rf1 := set_lastApplied _ rf).
  assert (Hs1 : raft_shape rf1) by (destruct Hs; constructor; simpl; auto; lia).
  destruct (log_lookup_total rf1 (lastApplied rf1)) as (e & He & _).
  { destruct Hs as [? ? ? ? ? [_ Hc] ?]. unfold getLastLogIndex in *. simpl. lia. }
  rewrite He. simpl. rewrite (getLogTerm_shape rf1 _ Hs1). simpl.
  do 2 eexists. split; [done|]. by constructor.
Qed.

Lemma collect_entries_spec rf from n :
  lastIncludedIndex rf <= from -> from + Z.of_nat n <= getLastLogIndex rf + 1 ->
  collect_entries rf from n =
    Some (take n (drop (Z.to_nat (from - lastIncludedIndex rf)) (logs rf))).
Proof.
  revert from. induction n as [|n IH]; intros from Hf Hn; simpl; [done|].
  destruct (log_lookup_total rf from) as (e & He & _); [lia|]. rewrite He. simpl.
  rewrite IH by lia. apply slice_get_Some in He as [_ He].
  rewrite (drop_S _ _ _ He). simpl. do 3 f_equal. f_equal. lia.
Qed.

(** A broadcast to [server] panics exactly when the leader believes the follower to be ahead
    of the leader's own log. *)
Lemma BroadcastAppendEntries_wf rf server next :
  raft_wf rf -> state rf = Leader -> slice_get (nextIndex rf) server = Some next ->
  (next <= getLastLogIndex rf + 1 ->
     exists rf' out, BroadcastAppendEntries rf server = Some (rf', out) /\ raft_wf rf')
  /\ (getLastLogIndex rf + 1 < next -> BroadcastAppendEntries rf server = None).
Proof.
  intros Hwf Hl Hnext. pose proof (wf_shape _ Hwf) as Hs.
  pose proof (slice_get_lt _ _ _ Hnext) as Hsv. pose proof (shape_zlen_logs _ Hs).
  pose proof (sh_first _ Hs). unfold BroadcastAppendEntries.
  rewrite bool_decide_true by done. simpl. rewrite Hnext. simpl.
  destruct (Z.leb_spec next 0).
  - rewrite slice_set_Some by lia. simpl.
    set (rf1 := set_nextIndex _ rf).
    assert (Hwf1 : raft_wf rf1).
    { apply wf_set_nextIndex; [|done]. rewrite zlen_insert. apply (sh_next _ Hs). }
    assert (Hg : slice_get (<[Z.to_nat server:=1]> (nextIndex rf)) server = Some 1).
    { apply slice_get_Some. split; [lia|]. apply list_lookup_insert_eq. unfold zlen in *. lia. }
    split; [intros _|unfold getLastLogIndex; lia].
    rewrite Hg. simpl. change (getFirstLogIndex rf1) with (lastIncludedIndex rf).
    go_if; [|eauto]. change (getLastLogIndex rf1) with (getLastLogIndex rf).
    rewrite (getLogTerm_shape rf1 _ (wf_shape _ Hwf1)). simpl. unfold batchSize, getLastLogIndex.
    destruct (Z.ltb_spec (lastIncludedIndex rf + zlen (logs rf) - 1 + 1) (1 + 200)) as [?|?];
      (go_if; [lia|]); rewrite (collect_entries_spec rf1); simpl; eauto;
      unfold getLastLogIndex; simpl; lia.
  - simpl. rewrite Hnext. simpl. unfold getFirstLogIndex, batchSize.
    split; intros Hlast; unfold getLastLogIndex in *.
    + go_if; [|eauto]. rewrite (getLogTerm_shape rf _ Hs). simpl.
      destruct (Z.ltb_spec (lastIncludedIndex rf + zlen (logs rf) - 1 + 1) (next + 200)) as [?|?];
        (go_if; [lia|]); rewrite (collect_entries_spec rf); simpl; eauto;
        unfold getLastLogIndex; simpl; lia.
    + destruct (Z.ltb_spec (lastIncludedIndex rf) next); [|lia].
      rewrite (getLogTerm_shape rf _ Hs). simpl.
      destruct (Z.ltb_spec (lastIncludedIndex rf + zlen (logs rf) - 1 + 1) (next + 200)); [|lia].
      go_if; [done|lia].
Qed.

(** ** Restart *)

Context `{!GobLaws (Persisted Cmd)}.

Lemma Make_persisted rf prs self :
  durable rf -> persisted_of (Make prs self (persister rf)) = persisted_of rf.
Proof.
  intros Hd. unfold Make, readPersist, ReadRaftState, clone. destruct Hd as [Hd|[Hd Hp]].
  - rewrite Hd. unfold encodeState. pose proof (gob_nonempty (persisted_of rf)).
    destruct (Z.ltb_spec (zlen (gob_encode (persisted_of rf))) 1) as [Hz|_].
    { destruct (gob_encode _); [done|]. rewrite zlen_cons in Hz. pose proof (zlen_nonneg l). lia. }
    rewrite gob_roundtrip. by destruct rf.
  - rewrite Hd, Hp. done.
Qed.

(** A crash: the peer is rebuilt by [Make] from its persister. *)
Definition restart rf : Raft Cmd := Make (peers rf) (me rf) (persister rf).

Lemma Make_persister prs self pst : persister (Make (Cmd:=Cmd) prs self pst) = pst.
Proof.
  unfold Make, readPersist. simpl. destruct (_ <? _); [done|]. by destruct (gob_decode _).
Qed.

Lemma Make_frame prs self pst (rf := Make (Cmd:=Cmd) prs self pst) :
  peers rf = prs /\ me rf = self /\ nextIndex rf = replicate (length prs) 1
  /\ matchIndex rf = replicate (length prs) 0
  /\ commitIndex rf = lastIncludedIndex rf /\ lastApplied rf = lastIncludedIndex rf
  /\ state rf = Follower.
Proof.
  subst rf. unfold Make, readPersist. simpl.
  destruct (_ <? _); [done|]. by destruct (gob_decode _).
Qed.

(** A first start, with an empty disk. *)
Lemma Make_fresh_wf prs self :
  0 <= self < zlen prs -> raft_wf (Make (Cmd:=Cmd) prs self MakePersister).
Proof.
  intros ?. constructor; [|by right]. constructor; simpl; try done; try lia.
  - unfold zlen. by rewrite length_replicate.
  - unfold zlen. by rewrite length_replicate.
  - eauto.
Qed.

Lemma restart_wf rf : raft_wf rf -> raft_wf (restart rf).
Proof.
  intros [Hs Hd]. pose proof (Make_persisted rf (peers rf) (me rf) Hd) as Hp.
  pose proof (shape_zlen_logs _ Hs) as Hz. unfold restart.
  destruct (Make_frame (peers rf) (me rf) (persister rf)) as (Hpe & Hme & Hn & Hm & Hc & Ha & _).
  set (rf' := Make (peers rf) (me rf) (persister rf)) in *.
  assert (Hlogs : logs rf' = logs rf) by (by injection Hp).
  assert (Ht : currentTerm rf' = currentTerm rf) by (by injection Hp).
  assert (Hi : lastIncludedIndex rf' = lastIncludedIndex rf) by (by injection Hp).
  assert (Hit : lastIncludedTerm rf' = lastIncludedTerm rf) by (by injection Hp).
  destruct Hs as [? ? ? ? ? ? ?]. constructor.
  - constructor; rewrite ?Hpe, ?Hme, ?Hn, ?Hm, ?Hc, ?Ha, ?Hi, ?Ht; try done.
    + unfold zlen. by rewrite length_replicate.
    + unfold zlen. by rewrite length_replicate.
    + by rewrite Hlogs, Hit.
    + lia.
    + unfold getLastLogIndex. rewrite Hlogs, Hi. lia.
  - unfold durable, encodeState. subst rf'. rewrite Make_persister, Hp. exact Hd.
Qed.

End RaftPeer.
