(* ===== verification/RaftOps.v ===== *)
(** * A peer as a state machine

    [PeerOp] names every critical section of [raft.go] with its inputs; [run_op] executes one
    of them, [run_ops] a sequence, crashes included.  The theorems quantify over all of
    them. *)

From S2P Require Import Prelude Persister RaftState RaftRpc RaftLeader RaftInv RaftAppend.
From S2P Require Import RaftPeer.

(** Name the peer in the result [x] of a handler: a pair or a triple. *)
Ltac destruct_outcome x :=
  match type of x with
  | (Raft _ * _ * _)%type => destruct x as [[? ?] ?]; simpl
  | (Raft _ * _)%type => destruct x as [? ?]; simpl
  end.

Section RaftOps.
Context {Cmd : Type} `{Gob (Persisted Cmd)}.
Implicit Types rf : Raft Cmd.

Inductive PeerOp :=
  | OpRequestVote (args : RequestVoteArgs)
  | OpAppendEntries (args : AppendEntriesArgs Cmd)
  | OpInstallSnapshot (args : InstallSnapshotArgs)
  | OpTimeout
  | OpHeartbeat
  | OpVoteReply (el : Election) (reply : RequestVoteReply)
  | OpStart (command : option Cmd)
  | OpBroadcast (server : Z)
  | OpAppendReply (server : Z) (args : AppendEntriesArgs Cmd) (reply : AppendEntriesReply)
  | OpInstallReply (server : Z) (args : InstallSnapshotArgs) (reply : InstallSnapshotReply)
  | OpSnapshot (index : Z) (snap : bytes)
  | OpApply
  | OpKill
  | OpRestart.

Definition run_op rf (op : PeerOp) : option (Raft Cmd) :=
  match op with
  | OpRequestVote args => fst <$> RequestVote rf args
  | OpAppendEntries args => fst <$> AppendEntries rf args
  | OpInstallSnapshot args => fst ∘ fst <$> InstallSnapshot rf args
  | OpTimeout => fst <$> ticker_timeout rf
  | OpHeartbeat => Some (set_heartbeatCh false rf)
  | OpVoteReply el reply => fst ∘ fst <$> handleRequestVoteReply rf el reply
  | OpStart c => fst <$> Start rf c
  | OpBroadcast server => fst <$> BroadcastAppendEntries rf server
  | OpAppendReply server args reply => handleAppendEntriesReply rf server args reply
  | OpInstallReply server args reply => handleInstallSnapshotReply rf server args reply
  | OpSnapshot index snap => Snapshot rf index snap
  | OpApply => fst <$> applier rf
  | OpKill => Some (Kill rf)
  | OpRestart => Some (restart rf)
  end.

Definition run_ops rf (ops : list PeerOp) : option (Raft Cmd) :=
  run_steps run_op rf ops.

(** What the callers guarantee: peers are numbered by the endpoints, and no message carries a
    negative commit index or snapshot index. *)
Definition op_ok (n : Z) (op : PeerOp) : Prop :=
  match op with
  | OpAppendEntries args => 0 <= aea_LeaderCommit args
  | OpInstallSnapshot args => 0 <= isa_LastIncludedIndex args
  | OpAppendReply server _ _ | OpInstallReply server _ _ => 0 <= server < n
  | OpBroadcast _ => False
  | _ => True
  end.

Lemma run_ops_cons rf op ops :
  run_ops rf (op :: ops) = rf ← run_op rf op; run_ops rf ops.
Proof. apply run_steps_cons. Qed.

Lemma ticker_timeout_wf rf :
  raft_wf rf -> exists rf' el, ticker_timeout rf = Some (rf', el) /\ raft_wf rf'.
Proof.
  intros Hwf. unfold ticker_timeout. go_if; [eauto|]. go_if; [eauto|].
  destruct (StartElection_wf rf Hwf) as (rf' & el & -> & ?). simpl. eauto.
Qed.

(** What no critical section ever does: change the membership, or go back to an older term. *)
Definition evolves rf rf' : Prop :=
  peers rf' = peers rf /\ me rf' = me rf /\ currentTerm rf <= currentTerm rf'.

#[export] Instance evolves_refl : Reflexive evolves.
Proof. intros rf. repeat split. lia. Qed.

#[export] Instance evolves_trans : Transitive evolves.
Proof. intros a b c (? & ? & ?) (? & ? & ?). repeat split; [congruence..|lia]. Qed.

Lemma RequestVote_evolves rf args rf' reply :
  RequestVote rf args = Some (rf', reply) -> evolves rf rf'.
Proof.
  unfold RequestVote. intros Hr. run_branches Hr; repeat split; simpl; lia.
Qed.

Lemma reconcile_evolves rf rest i rf' : reconcile rf rest i = Some rf' -> evolves rf rf'.
Proof.
  revert i. induction rest as [|e rest IH]; intros i Hr; simpl in Hr; [by simplify_eq|].
  go_if_in Hr; [by simplify_eq|]. go_bind Hr. go_if_in Hr; [|eauto]. go_bind Hr. by simplify_eq.
Qed.

Lemma follow_commit_evolves rf args : evolves rf (follow_commit rf args).
Proof. unfold follow_commit. go_if; repeat split; simpl; lia. Qed.

Lemma AppendEntries_evolves rf args rf' reply :
  AppendEntries rf args = Some (rf', reply) -> evolves rf rf'.
Proof.
  unfold AppendEntries. intros Hr. go_if_in Hr; [by simplify_eq|].
  set (rf1 := set_heartbeatCh _ _) in Hr.
  assert (Hev : evolves rf rf1) by (repeat split; simpl; lia).
  clearbody rf1. etrans; [exact Hev|].
  run_branches Hr; try done; try apply follow_commit_evolves.
  all: (etrans; [|apply follow_commit_evolves]);
    first [by eapply reconcile_evolves | by repeat split].
Qed.

Lemma InstallSnapshot_evolves rf args rf' reply msg :
  InstallSnapshot rf args = Some (rf', reply, msg) -> evolves rf rf'.
Proof.
  unfold InstallSnapshot. intros Hr. run_branches Hr; repeat split; simpl; lia.
Qed.

Lemma ticker_timeout_evolves rf rf' el : ticker_timeout rf = Some (rf', el) -> evolves rf rf'.
Proof.
  unfold ticker_timeout, StartElection. intros Hr. run_branches Hr; repeat split; simpl; lia.
Qed.

Lemma become_leader_evolves rf rf' : become_leader rf = Some rf' -> evolves rf rf'.
Proof. unfold become_leader. intros Hr. go_bind Hr. simplify_eq. by repeat split. Qed.

Lemma handleRequestVoteReply_evolves rf el reply rf' el' b :
  handleRequestVoteReply rf el reply = Some (rf', el', b) -> evolves rf rf'.
Proof.
  unfold handleRequestVoteReply. intros Hr.
  run_branches Hr; eauto using become_leader_evolves; repeat split; simpl; lia.
Qed.

Lemma Start_evolves rf c rf' r : Start rf c = Some (rf', r) -> evolves rf rf'.
Proof. unfold Start. intros Hr. run_branches Hr; repeat split; simpl; lia. Qed.

Lemma BroadcastAppendEntries_evolves rf s rf' out :
  BroadcastAppendEntries rf s = Some (rf', out) -> evolves rf rf'.
Proof. unfold BroadcastAppendEntries. intros Hr. run_branches Hr; repeat split; simpl; lia. Qed.

Lemma commit_evolves rf rf' : commit rf = Some rf' -> evolves rf rf'.
Proof. unfold commit. intros Hr. run_branches Hr; repeat split; simpl; lia. Qed.

Lemma handleAppendEntriesReply_evolves rf s args reply rf' :
  handleAppendEntriesReply rf s args reply = Some rf' -> evolves rf rf'.
Proof.
  unfold handleAppendEntriesReply. intros Hr.
  run_branches Hr; try (repeat split; simpl; lia).
  apply commit_evolves in Hr. etrans; [|exact Hr]. by repeat split.
Qed.

Lemma handleInstallSnapshotReply_evolves rf s args reply rf' :
  handleInstallSnapshotReply rf s args reply = Some rf' -> evolves rf rf'.
Proof.
  unfold handleInstallSnapshotReply. intros Hr. run_branches Hr; repeat split; simpl; lia.
Qed.

Lemma Snapshot_evolves rf i snap rf' : Snapshot rf i snap = Some rf' -> evolves rf rf'.
Proof. unfold Snapshot. intros Hr. run_branches Hr; repeat split; simpl; repeat (go_if; simpl); (done || lia). Qed.

Lemma applier_evolves rf rf' msg : applier rf = Some (rf', msg) -> evolves rf rf'.
Proof. unfold applier. intros Hr. run_branches Hr; repeat split; simpl; lia. Qed.

Lemma restart_evolves `{!GobLaws (Persisted Cmd)} rf : durable rf -> evolves rf (restart rf).
Proof.
  intros Hd. pose proof (Make_persisted rf (peers rf) (me rf) Hd) as Hp.
  destruct (Make_frame (peers rf) (me rf) (persister rf)) as (? & ? & _).
  unfold restart. repeat split; [done..|].
  apply (f_equal ps_currentTerm) in Hp. unfold persisted_of in Hp. simpl in Hp |- *. lia.
Qed.

Lemma run_op_evolves `{!GobLaws (Persisted Cmd)} rf op rf' :
  durable rf -> run_op rf op = Some rf' -> evolves rf rf'.
Proof.
  intros Hd Hr. destruct op; simpl in Hr;
    try (apply fmap_Some in Hr as (x & Hr & ->); destruct_outcome x);
    eauto using RequestVote_evolves, AppendEntries_evolves, InstallSnapshot_evolves,
      ticker_timeout_evolves, handleRequestVoteReply_evolves, Start_evolves,
      BroadcastAppendEntries_evolves, handleAppendEntriesReply_evolves,
      handleInstallSnapshotReply_evolves, Snapshot_evolves, applier_evolves;
    simplify_eq; try (by repeat split); by apply restart_evolves.
Qed.

Lemma commit_role rf rf' :
  commit rf = Some rf' -> state rf' = state rf /\ currentTerm rf' = currentTerm rf.
Proof. unfold commit. intros Hr. by run_branches Hr. Qed.

Lemma reconcile_role rf rest i rf' :
  reconcile rf rest i = Some rf' -> state rf' = state rf.
Proof.
  revert i. induction rest as [|e rest IH]; intros i Hr; simpl in Hr; [by simplify_eq|].
  go_if_in Hr; [by simplify_eq|]. go_bind Hr. go_if_in Hr; [|eauto]. go_bind Hr. by simplify_eq.
Qed.

Lemma run_op_wf `{!GobLaws (Persisted Cmd)} rf op :
  raft_wf rf -> op_ok (zlen (peers rf)) op ->
  exists rf', run_op rf op = Some rf' /\ raft_wf rf'.
Proof.
  intros Hwf Hok. destruct op; simpl in *.
  - destruct (RequestVote_wf rf args Hwf) as (? & ? & -> & ?); simpl; eauto.
  - destruct (AppendEntries_wf rf args Hwf Hok) as (? & ? & -> & ?); simpl; eauto.
  - destruct (InstallSnapshot_wf rf args Hwf Hok) as (? & ? & ? & -> & ?); simpl; eauto.
  - destruct (ticker_timeout_wf rf Hwf) as (? & ? & -> & ?); simpl; eauto.
  - eauto using wf_set_heartbeatCh.
  - destruct (handleRequestVoteReply_wf rf el reply Hwf) as (? & ? & ? & -> & ?); simpl; eauto.
  - destruct (Start_wf rf command Hwf) as (? & ? & -> & ?); simpl; eauto.
  - done.
  - by apply handleAppendEntriesReply_wf.
  - by apply handleInstallSnapshotReply_wf.
  - by apply Snapshot_wf.
  - destruct (applier_wf rf Hwf) as (? & ? & -> & ?); simpl; eauto.
  - eauto using wf_set_dead.
  - eauto using restart_wf.
Qed.

End RaftOps.

Arguments PeerOp : clear implicits.
