(* ===== verification/RaftProps.v ===== *)
(** * What holds of a single Raft peer

    The properties of [raft.go] that do not need the rest of the cluster, and the places
    where the code does not do what its comments promise. *)

From S2P Require Import Prelude Persister RaftState RaftRpc RaftLeader RaftInv RaftAppend.
From S2P Require Import RaftPeer RaftOps.

(** ** A concrete instance

    Commands are integers; used by the witnesses and the counterexamples. *)

#[export] Instance Entry_eq_dec {Cmd} `{EqDecision Cmd} : EqDecision (Entry Cmd).
Proof. solve_decision. Defined.

#[export] Instance Entry_countable {Cmd} `{Countable Cmd} : Countable (Entry Cmd).
Proof.
  refine (inj_countable' (fun e => (ent_Term e, ent_Command e))
                         (fun p => mkEntry p.1 p.2) _). by intros [].
Defined.

#[export] Instance Persisted_eq_dec {Cmd} `{EqDecision Cmd} : EqDecision (Persisted Cmd).
Proof. solve_decision. Defined.

#[export] Instance Persisted_countable {Cmd} `{Countable Cmd} : Countable (Persisted Cmd).
Proof.
  refine (inj_countable'
    (fun p => (ps_currentTerm p, ps_votedFor p, ps_logs p, ps_lastIncludedIndex p,
               ps_lastIncludedTerm p))
    (fun '(a, b, c, d, e) => mkPersisted a b c d e) _). by intros [].
Defined.

#[export] Instance Zgob : Gob (Persisted Z) := countable_gob (Persisted Z).
#[export] Instance Zgob_laws : GobLaws (Persisted Z) := countable_gob_laws (Persisted Z).

(** Three servers; a freshly started one. *)
Definition fresh3 (i : Z) : Raft Z := Make [0; 1; 2] i MakePersister.

Section RaftProps.
Context {Cmd : Type} `{Gob (Persisted Cmd)} `{!GobLaws (Persisted Cmd)}.
Implicit Types rf : Raft Cmd.

Lemma run_ops_wf rf ops :
  raft_wf rf -> Forall (op_ok (zlen (peers rf))) ops ->
  exists rf', run_ops rf ops = Some rf' /\ raft_wf rf' /\ evolves rf rf'.
Proof.
  intros Hwf Hok. revert rf Hwf Hok. induction ops as [|op ops IH]; intros rf Hwf Hok.
  { exists rf. done. }
  apply Forall_cons in Hok as [Hop Hops]. rewrite run_ops_cons.
  destruct (run_op_wf rf op Hwf Hop) as (rf1 & Hr & Hwf1). rewrite Hr. simpl.
  pose proof (run_op_evolves rf op rf1 (wf_durable _ Hwf) Hr) as Hev.
  destruct (IH rf1 Hwf1) as (rf' & ? & ? & ?).
  { destruct Hev as (-> & _). done. }
  exists rf'. split_and!; [done..|]. by etrans.
Qed.


(** C2.  Crash recovery: whatever a peer has done since it was first started, a crash followed
    by [Make] on the same persister brings back its term, its vote, its log and its snapshot
    position. *)
Theorem crash_recovery (prs : list Z) (self : Z) (ops : list (PeerOp Cmd)) (rf : Raft Cmd) :
  0 <= self < zlen prs -> Forall (op_ok (zlen prs)) ops ->
  run_ops (Make prs self MakePersister) ops = Some rf ->
  persisted_of (restart rf) = persisted_of rf
  /\ commitIndex (restart rf) = lastIncludedIndex rf
  /\ lastApplied (restart rf) = lastIncludedIndex rf.
Proof.
  intros Hs Hops Hr.
  destruct (run_ops_wf (Make prs self MakePersister) ops) as (rf' & Hr' & Hwf & _);
    [by apply Make_fresh_wf|done|]. simplify_eq.
  pose proof (Make_persisted rf (peers rf) (me rf) (wf_durable _ Hwf)) as Hp.
  destruct (Make_frame (peers rf) (me rf) (persister rf)) as (_ & _ & _ & _ & Hc & Ha & _).
  unfold restart. rewrite Hc, Ha. split; [done|].
  apply (f_equal ps_lastIncludedIndex) in Hp. done.
Qed.

(** C3.  Terms never go backwards, crashes included. *)
Theorem term_monotone (prs : list Z) (self : Z) (ops1 ops2 : list (PeerOp Cmd))
    (rf1 rf2 : Raft Cmd) :
  0 <= self < zlen prs -> Forall (op_ok (zlen prs)) (ops1 ++ ops2) ->
  run_ops (Make prs self MakePersister) ops1 = Some rf1 ->
  run_ops rf1 ops2 = Some rf2 ->
  0 <= currentTerm rf1 <= currentTerm rf2.
Proof.
  intros Hs [Hops1 Hops2]%Forall_app H1 H2.
  destruct (run_ops_wf (Make prs self MakePersister) ops1) as (rf & Hr & Hwf & Hpe & _);
    [by apply Make_fresh_wf|done|]. rewrite H1 in Hr. injection Hr as <-.
  destruct (run_ops_wf rf1 ops2 Hwf) as (rf' & Hr & _ & _ & _ & ?); [by rewrite Hpe|].
  rewrite H2 in Hr. injection Hr as <-. pose proof (sh_term _ (wf_shape _ Hwf)). lia.
Qed.

(** ** Votes *)

(** [rf] can no longer vote for anyone but [c] in term [t]. *)
Definition vote_bound (t c : Z) rf : Prop :=
  t < currentTerm rf \/ currentTerm rf = t /\ votedFor rf = c.

Definition is_AppendEntries (op : PeerOp Cmd) : bool :=
  if op is OpAppendEntries _ then true else false.

Lemma RequestVote_vote_bound t c rf args rf' reply :
  0 <= c -> vote_bound t c rf -> RequestVote rf args = Some (rf', reply) -> vote_bound t c rf'.
Proof.
  intros ? Hv Hr. unfold RequestVote, vote_bound in *. run_branches Hr; simpl in *; try lia.
  all: match goal with Hor : _ || _ = true |- _ => apply orb_prop in Hor as [|] end;
    go_bool; lia.
Qed.

(** Granting a vote binds the voter. *)
Lemma RequestVote_binds rf args rf' reply :
  RequestVote rf args = Some (rf', reply) -> rvr_VoteGranted reply = true ->
  currentTerm rf' = rva_Term args /\ votedFor rf' = rva_CandidateId args.
Proof.
  unfold RequestVote. intros Hr Hg. run_branches Hr; simpl in *; try done; lia.
Qed.

(** A change of term, whatever happens to the vote, keeps every bound. *)
Lemma vote_bound_newer t c rf rf' :
  vote_bound t c rf -> currentTerm rf < currentTerm rf' -> vote_bound t c rf'.
Proof. unfold vote_bound. lia. Qed.

Lemma vote_bound_same t c rf rf' :
  vote_bound t c rf -> currentTerm rf' = currentTerm rf -> votedFor rf' = votedFor rf ->
  vote_bound t c rf'.
Proof. unfold vote_bound. intros ? -> ->. done. Qed.

Lemma commit_vote rf rf' :
  commit rf = Some rf' -> currentTerm rf' = currentTerm rf /\ votedFor rf' = votedFor rf.
Proof. unfold commit. intros Hr. by run_branches Hr. Qed.

(** The peer is unchanged, has a newer term, or kept its vote. *)
Ltac vote_kept :=
  first [ eassumption
        | eapply vote_bound_same; [eassumption|reflexivity|reflexivity]
        | eapply vote_bound_newer; [eassumption|simpl; lia] ].

(** Only [AppendEntries] can release a vote within its term. *)
Lemma run_op_vote_bound t c rf op rf' :
  0 <= c -> raft_wf rf -> is_AppendEntries op = false ->
  vote_bound t c rf -> run_op rf op = Some rf' -> vote_bound t c rf'.
Proof.
  intros Hc Hwf Hop Hv Hr. destruct op; simpl in *; try done;
    try (apply fmap_Some in Hr as (x & Hr & ->); destruct_outcome x).
  - by eapply RequestVote_vote_bound.
  - unfold InstallSnapshot in Hr.
    run_branches Hr; vote_kept.
  - unfold ticker_timeout, StartElection in Hr.
    run_branches Hr; vote_kept.
  - simplify_eq. by apply (vote_bound_same t c rf).
  - unfold handleRequestVoteReply, become_leader in Hr.
    run_branches Hr; vote_kept.
  - unfold Start in Hr. run_branches Hr; vote_kept.
  - unfold BroadcastAppendEntries in Hr. run_branches Hr; vote_kept.
  - unfold handleAppendEntriesReply in Hr.
    run_branches Hr; try vote_kept.
    apply commit_vote in Hr as [??]. eapply vote_bound_same; eassumption.
  - unfold handleInstallSnapshotReply in Hr.
    run_branches Hr; vote_kept.
  - unfold Snapshot in Hr.
    run_branches Hr; repeat go_if; vote_kept.
  - unfold applier in Hr. run_branches Hr; vote_kept.
  - simplify_eq. by apply (vote_bound_same t c rf).
  - simplify_eq. pose proof (Make_persisted rf (peers rf) (me rf) (wf_durable _ Hwf)) as Hp.
    apply (vote_bound_same t c rf); [done|..].
    + by apply (f_equal ps_currentTerm) in Hp.
    + by apply (f_equal ps_votedFor) in Hp.
Qed.

(** The votes a run gives away: by [RequestVote], and to oneself by [StartElection]. *)
Definition vote_of rf (op : PeerOp Cmd) : list (Z * Z) :=
  match op with
  | OpRequestVote args =>
      if RequestVote rf args is Some (_, reply)
      then if rvr_VoteGranted reply then [(rva_Term args, rva_CandidateId args)] else []
      else []
  | OpTimeout =>
      if ticker_timeout rf is Some (_, Some el)
      then [(rva_Term (el_args el), rva_CandidateId (el_args el))] else []
  | _ => []
  end.

Fixpoint votes_of rf (ops : list (PeerOp Cmd)) : list (Z * Z) :=
  match ops with
  | [] => []
  | op :: ops =>
      vote_of rf op ++ (if run_op rf op is Some rf' then votes_of rf' ops else [])
  end.

Lemma vote_of_binds rf op t c :
  (t, c) ∈ vote_of rf op -> exists rf', run_op rf op = Some rf' /\ currentTerm rf' = t /\ votedFor rf' = c.
Proof.
  destruct op; simpl; try (by intros ?%not_elem_of_nil).
  - destruct (RequestVote rf args) as [[rf' reply]|] eqn:Hr; simpl; [|by intros ?%not_elem_of_nil].
    destruct (rvr_VoteGranted reply) eqn:Hg; [|by intros ?%not_elem_of_nil].
    intros [= -> ->]%list_elem_of_singleton. eauto using RequestVote_binds.
  - destruct (ticker_timeout rf) as [[rf' [el|]]|] eqn:Hr; simpl; [|by intros ?%not_elem_of_nil..].
    intros [= -> ->]%list_elem_of_singleton. exists rf'. split; [done|].
    unfold ticker_timeout, StartElection in Hr. by run_branches Hr.
Qed.

Lemma votes_of_bound t c c' rf ops :
  0 <= c -> raft_wf rf -> Forall (op_ok (zlen (peers rf))) ops ->
  Forall (fun op => is_AppendEntries op = false) ops ->
  vote_bound t c rf -> (t, c') ∈ votes_of rf ops -> c' = c.
Proof.
  intros Hc Hwf Hok Hae Hv. revert rf Hwf Hok Hv.
  induction ops as [|op ops IH]; intros rf Hwf Hok Hv; simpl; [by intros ?%not_elem_of_nil|].
  apply Forall_cons in Hok as [Hop Hok]. apply Forall_cons in Hae as [Hae Haes].
  destruct (run_op_wf rf op Hwf Hop) as (rf1 & Hr & Hwf1).
  pose proof (run_op_vote_bound t c rf op rf1 Hc Hwf Hae Hv Hr) as Hv1.
  pose proof (run_op_evolves rf op rf1 (wf_durable _ Hwf) Hr) as (Hpe & _).
  rewrite elem_of_app, Hr. intros [Hin|Hin].
  - apply vote_of_binds in Hin as (rf2 & Hr2 & Ht & Hvf). rewrite Hr in Hr2.
    injection Hr2 as <-. unfold vote_bound in Hv1. lia.
  - apply (IH Haes rf1); [done|by rewrite Hpe|done|done].
Qed.

(** C4.  One vote per term: a peer that receives no [AppendEntries] never gives two candidates
    a vote in the same term, whatever else happens to it, crashes included. *)
Theorem one_vote_per_term (prs : list Z) (self : Z) (ops : list (PeerOp Cmd)) (t c c' : Z) :
  0 <= self < zlen prs -> Forall (op_ok (zlen prs)) ops ->
  Forall (fun op => is_AppendEntries op = false) ops ->
  Forall (fun v => 0 <= v.2) (votes_of (Make prs self MakePersister) ops) ->
  (t, c) ∈ votes_of (Make prs self MakePersister) ops ->
  (t, c') ∈ votes_of (Make prs self MakePersister) ops ->
  c' = c.
Proof.
  intros Hs Hok Hae Hpos H1 H2.
  assert (Hwf : raft_wf (Make (Cmd:=Cmd) prs self MakePersister)) by (by apply Make_fresh_wf).
  change (zlen prs) with (zlen (peers (Make (Cmd:=Cmd) prs self MakePersister))) in Hok.
  revert Hwf Hok Hpos H1 H2. generalize (Make (Cmd:=Cmd) prs self MakePersister) as rf.
  induction ops as [|op ops IH]; intros rf Hwf Hok Hpos; simpl; [by intros ?%not_elem_of_nil|].
  apply Forall_cons in Hok as [Hop Hok]. apply Forall_cons in Hae as [Hae Haes].
  destruct (run_op_wf rf op Hwf Hop) as (rf1 & Hr & Hwf1). simpl in Hpos. rewrite Hr in Hpos.
  apply Forall_app in Hpos as [Hp1 Hp2]. rewrite Forall_forall in Hp1.
  pose proof (run_op_evolves rf op rf1 (wf_durable _ Hwf) Hr) as (Hpe & _).
  rewrite !elem_of_app, Hr. rewrite <- Hpe in Hok.
  assert (Hfirst : forall x, (t, x) ∈ vote_of rf op ->
            0 <= x /\ currentTerm rf1 = t /\ votedFor rf1 = x).
  { intros x Hx. split; [by apply (Hp1 (t, x))|].
    apply vote_of_binds in Hx as (rf2 & Hr2 & ?). by rewrite Hr in Hr2; injection Hr2 as <-. }
  intros [Hin|Hin] [Hin'|Hin'].
  - apply Hfirst in Hin, Hin'. lia.
  - apply Hfirst in Hin as (? & ? & ?).
    apply (votes_of_bound t c c' rf1 ops); auto. by right.
  - apply Hfirst in Hin' as (? & ? & ?). symmetry.
    apply (votes_of_bound t c' c rf1 ops); auto. by right.
  - by apply (IH Haes rf1).
Qed.

(** The candidate's log is at least as up to date as the voter's: section 5.4.1 of the Raft
    paper. *)
Definition up_to_date rf (args : RequestVoteArgs) : Prop :=
  log_term rf (getLastLogIndex rf) < rva_LastLogTerm args
  \/ log_term rf (getLastLogIndex rf) = rva_LastLogTerm args
     /\ getLastLogIndex rf <= rva_LastLogIndex args.

(** C5.  When [RequestVote] grants: exactly for a current or newer term in which this peer
    has not voted for somebody else, to a candidate whose log is up to date.  The voter adopts
    the term either way. *)
Theorem RequestVote_grants_iff (rf rf' : Raft Cmd) (args : RequestVoteArgs)
    (reply : RequestVoteReply) :
  raft_wf rf -> RequestVote rf args = Some (rf', reply) ->
  (rvr_VoteGranted reply = true <->
     currentTerm rf <= rva_Term args
     /\ (currentTerm rf < rva_Term args \/ votedFor rf = -1 \/ votedFor rf = rva_CandidateId args)
     /\ up_to_date rf args)
  /\ currentTerm rf' = Z.max (currentTerm rf) (rva_Term args)
  /\ rvr_Term reply = currentTerm rf' /\ logs rf' = logs rf.
Proof.
  intros [Hs _] Hr. pose proof (shape_logs_ne _ Hs) as Hne. unfold RequestVote in Hr.
  unfold up_to_date. go_if_in Hr; [simplify_eq/=; split_and!; try done; [split; [done|lia]|lia]|].
  set (rf1 := if currentTerm rf <? rva_Term args then _ else rf) in Hr.
  assert (Hrf1 : currentTerm rf1 = rva_Term args /\ logs rf1 = logs rf
            /\ (log_term rf1, getLastLogIndex rf1) = (log_term rf, getLastLogIndex rf)
            /\ (votedFor rf1 = if currentTerm rf <? rva_Term args then -1 else votedFor rf)).
  { subst rf1. go_if; split_and!; try done. lia. }
  destruct Hrf1 as (Ht & Hl & [= Hlt Hli] & Hv). clearbody rf1.
  rewrite getLogTerm_spec in Hr by (by rewrite Hl). simpl in Hr. rewrite Hlt, Hli in Hr.
  go_if_in Hr; [go_if_in Hr|]; simplify_eq/=; split_and!; try lia; try done.
  - split; [intros _|done]. apply orb_prop in Heqb0, Heqb1.
    split_and!; [lia|go_if_in Hv; destruct Heqb0; go_bool; lia|destruct Heqb1; go_bool; lia].
  - split; [done|]. intros (_ & Hor & _). go_if_in Hv; lia.
Qed.
End RaftProps.

(** ** Concrete runs

    Server 0 of three wins term 1, takes two commands, replicates the first to server 1 and
    applies it. *)

Definition led : list (PeerOp Z) :=
  [ OpTimeout;
    OpVoteReply (mkElection (mkRequestVoteArgs 1 0 0 0) 1 false) (mkRequestVoteReply 1 true);
    OpStart (Some 7); OpStart (Some 8);
    OpAppendReply 1 (mkAppendEntriesArgs 1 0 0 0 0 [mkEntry 1 (Some 7)])
                    (mkAppendEntriesReply 1 true 0 0) ].

Definition run3 (ops : list (PeerOp Z)) : Raft Z :=
  default (fresh3 0) (run_ops (fresh3 0) ops).

Lemma run3_wf ops : Forall (op_ok 3) ops -> raft_wf (run3 ops).
Proof.
  intros Hok. destruct (run_ops_wf (fresh3 0) ops) as (rf & Hr & ? & _); [|done|].
  - apply Make_fresh_wf. rewrite !zlen_cons. unfold zlen. simpl. lia.
  - unfold run3. by rewrite Hr.
Qed.

Lemma led_ok : Forall (op_ok 3) led.
Proof. repeat constructor; simpl; lia. Qed.


Lemma crash_recovery_witness :
  persisted_of (restart (run3 led)) = persisted_of (run3 led)
  /\ ps_logs (persisted_of (run3 led)) = [mkEntry 0 None; mkEntry 1 (Some 7); mkEntry 1 (Some 8)].
Proof.
  split; [|vm_compute; reflexivity].
  refine (proj1 (crash_recovery [0; 1; 2] 0 led (run3 led) _ _ _)).
  - vm_compute; split; [discriminate|reflexivity].
  - exact led_ok.
  - vm_compute; reflexivity.
Defined.

Lemma term_monotone_witness : 0 <= currentTerm (run3 led) <= currentTerm (run3 (led ++ [OpTimeout; OpRestart])).
Proof.
  refine (term_monotone [0; 1; 2] 0 led [OpTimeout; OpRestart] (run3 led) _ _ _ _ _).
  - vm_compute; split; [discriminate|reflexivity].
  - apply Forall_app. split; [exact led_ok|repeat constructor].
  - vm_compute; reflexivity.
  - vm_compute; reflexivity.
Defined.

(** Server 1 asks for a vote of term 4, twice, around a crash; then server 2 asks. *)
Definition voting : list (PeerOp Z) :=
  [ OpTimeout; OpRequestVote (mkRequestVoteArgs 4 1 3 2); OpRestart;
    OpRequestVote (mkRequestVoteArgs 4 1 3 2); OpRequestVote (mkRequestVoteArgs 4 2 9 3) ].

Lemma one_vote_per_term_witness :
  votes_of (Make [0; 1; 2] 0 MakePersister) voting = [(1, 0); (4, 1); (4, 1)] /\ 1 = 1.
Proof.
  assert (Hv : votes_of (Make [0; 1; 2] 0 MakePersister) voting = [(1, 0); (4, 1); (4, 1)])
    by (vm_compute; reflexivity).
  split; [exact Hv|].
  refine (one_vote_per_term [0; 1; 2] 0 voting 4 1 1 _ _ _ _ _ _).
  - vm_compute; split; [discriminate|reflexivity].
  - repeat constructor.
  - repeat constructor.
  - rewrite Hv. repeat constructor; simpl; lia.
  - rewrite Hv. set_solver.
  - rewrite Hv. set_solver.
Defined.

Lemma RequestVote_grants_iff_witness :
  exists rf' reply, RequestVote (run3 led) (mkRequestVoteArgs 2 1 2 1) = Some (rf', reply)
    /\ rvr_VoteGranted reply = true /\ up_to_date (run3 led) (mkRequestVoteArgs 2 1 2 1).
Proof.
  destruct (RequestVote (run3 led) (mkRequestVoteArgs 2 1 2 1)) as [[rf' reply]|] eqn:E;
    [|vm_compute in E; discriminate E].
  exists rf', reply. split; [reflexivity|].
  destruct (RequestVote_grants_iff (run3 led) rf' (mkRequestVoteArgs 2 1 2 1) reply
              (run3_wf led led_ok) E) as [[Hto Hfrom] _].
  assert (Hg : rvr_VoteGranted reply = true) by (vm_compute in E; injection E as _ <-; reflexivity).
  split; [exact Hg|]. exact (proj2 (proj2 (Hto Hg))).
Defined.
