(* ===== verification/RaftReplication.v ===== *)
(** * Replication, commitment and application on one peer

    What a follower's log is after an accepted or rejected [AppendEntries], what a leader's
    [commit] establishes, what [applier] delivers, what [Snapshot] keeps; and the replies the
    handlers get wrong. *)

From S2P Require Import Prelude Persister RaftState RaftRpc RaftLeader RaftInv RaftAppend.
From S2P Require Import RaftPeer RaftOps RaftProps.

Section Replication.
Context {Cmd : Type} `{Gob (Persisted Cmd)}.
Implicit Types rf : Raft Cmd.

(** The entry at a Raft index, if the log holds it. *)
Definition entry_at rf (i : Z) : option (Entry Cmd) :=
  if i <? lastIncludedIndex rf then None else logs rf !! Z.to_nat (i - lastIncludedIndex rf).

Lemma log_term_entry_at rf i e : entry_at rf i = Some e -> log_term rf i = ent_Term e.
Proof.
  unfold entry_at, log_term. destruct (Z.ltb_spec i (lastIncludedIndex rf)); [done|].
  intros ->. by destruct (Z.leb_spec (lastIncludedIndex rf) i); [|lia].
Qed.

Lemma follow_commit_frame rf args (rf' := follow_commit rf args) :
  logs rf' = logs rf /\ lastIncludedIndex rf' = lastIncludedIndex rf
  /\ currentTerm rf' = currentTerm rf /\ state rf' = state rf
  /\ commitIndex rf' =
       Z.min (aea_LeaderCommit args) (aea_PrevLogIndex args + zlen (aea_Entries args)).
Proof. subst rf'. unfold follow_commit. go_if; simpl; split_and!; try done; lia. Qed.

Lemma merged_entry_low rf args i :
  raft_shape rf -> lastIncludedIndex rf <= aea_PrevLogIndex args <= getLastLogIndex rf ->
  lastIncludedIndex rf <= i <= aea_PrevLogIndex args ->
  merged rf args !! Z.to_nat (i - lastIncludedIndex rf)
  = logs rf !! Z.to_nat (i - lastIncludedIndex rf).
Proof.
  intros Hs Hp Hi. unfold merged.
  set (k := Z.to_nat (aea_PrevLogIndex args + 1 - lastIncludedIndex rf)).
  assert (Hk : (k <= length (logs rf))%nat).
  { subst k. unfold getLastLogIndex, zlen in *. lia. }
  pose proof (merge_log_prefix (logs rf) k (aea_Entries args) Hk) as He.
  apply (f_equal (fun l => l !! Z.to_nat (i - lastIncludedIndex rf))) in He.
  by rewrite !lookup_take_lt in He by (subst k; lia).
Qed.

(** C6.  An accepted [AppendEntries] makes the follower's log agree with the leader's
    message: entries through [PrevLogIndex] are untouched, the [j]-th entry sent has its term
    at index [PrevLogIndex + 1 + j], an entry that was already there with that term is kept
    and everything behind a run of agreeing entries survives, and the commit index becomes the
    smaller of the leader's and the last new index.  Both code paths, the one that appends at
    the end of the log and the index loop, are covered. *)
Theorem AppendEntries_accepts (rf rf' : Raft Cmd) (args : AppendEntriesArgs Cmd)
    (reply : AppendEntriesReply) :
  raft_wf rf -> AppendEntries rf args = Some (rf', reply) -> aer_Success reply = true ->
  logs rf' = merge_log (logs rf)
               (Z.to_nat (aea_PrevLogIndex args + 1 - lastIncludedIndex rf)) (aea_Entries args)
  /\ (forall i, i <= aea_PrevLogIndex args -> entry_at rf' i = entry_at rf i)
  /\ (forall j e, aea_Entries args !! j = Some e ->
        log_term rf' (aea_PrevLogIndex args + 1 + Z.of_nat j) = ent_Term e)
  /\ ((forall j e, aea_Entries args !! j = Some e ->
         exists x, entry_at rf (aea_PrevLogIndex args + 1 + Z.of_nat j) = Some x
                   /\ ent_Term x = ent_Term e) -> logs rf' = logs rf)
  /\ commitIndex rf' = Z.min (aea_LeaderCommit args)
                             (aea_PrevLogIndex args + zlen (aea_Entries args))
  /\ commitIndex rf' <= getLastLogIndex rf' /\ currentTerm rf' = aea_Term args.
Proof.
  intros Hwf Hr Hok. pose proof (wf_shape _ Hwf) as Hs.
  destruct (Z.lt_ge_cases (aea_Term args) (currentTerm rf)) as [Hst|Hge].
  { rewrite AppendEntries_stale in Hr by done. by simplify_eq. }
  destruct (decide (lastIncludedIndex rf <= aea_PrevLogIndex args <= getLastLogIndex rf
              /\ log_term rf (aea_PrevLogIndex args) = aea_PrevLogTerm args)) as [[Hp Ht]|Hno];
    [|by destruct (AppendEntries_reject rf args) as (ci & ct & Hr' & _); [done..|simplify_eq]].
  rewrite AppendEntries_success in Hr by done. injection Hr as <- _.
  set (rf1 := persist _).
  destruct (follow_commit_frame rf1 args) as (Hl & Hi & Hc & _ & Hci).
  change (logs rf1) with (merged rf args) in Hl.
  change (lastIncludedIndex rf1) with (lastIncludedIndex rf) in Hi.
  pose proof (merged_zlen rf args Hs Hp) as Hz.
  pose proof (merged_entry_low rf args) as Hlow. unfold merged in *.
  set (k := Z.to_nat (aea_PrevLogIndex args + 1 - lastIncludedIndex rf)) in *.
  assert (Hk : (k <= length (logs rf))%nat).
  { subst k. unfold getLastLogIndex, zlen in *. lia. }
  split_and!; [done|..|done|unfold getLastLogIndex; rewrite Hl, Hi, Hci; lia|done].
  - intros i Hle. unfold entry_at. rewrite Hl, Hi.
    destruct (Z.ltb_spec i (lastIncludedIndex rf)); [done|]. apply Hlow; auto; lia.
  - intros j e Hj.
    destruct (merge_log_terms (logs rf) k (aea_Entries args) j e Hk Hj) as (x & Hx & Hxt).
    rewrite <- Hxt. apply log_term_entry_at. unfold entry_at. rewrite Hl, Hi.
    destruct (Z.ltb_spec (aea_PrevLogIndex args + 1 + Z.of_nat j) (lastIncludedIndex rf)); [lia|].
    rewrite <- Hx. f_equal. subst k. lia.
  - intros Hall. rewrite Hl. apply merge_log_stale. intros j e Hj.
    destruct (Hall j e Hj) as (x & Hx & ?). exists x. split; [|done].
    unfold entry_at in Hx. go_if_in Hx; [done|]. rewrite <- Hx. f_equal. subst k. lia.
Qed.

(** C7.  A rejected [AppendEntries] of a current term leaves the log alone and tells the
    leader where to retry: just past the end of a log that is too short, otherwise no later
    than [PrevLogIndex], at the start of the run of entries whose terms are not below the
    conflicting term.  Every message is either accepted or rejected: the handler returns. *)
Theorem AppendEntries_rejects (rf : Raft Cmd) (args : AppendEntriesArgs Cmd) :
  raft_wf rf -> currentTerm rf <= aea_Term args ->
  ~ (lastIncludedIndex rf <= aea_PrevLogIndex args <= getLastLogIndex rf
     /\ log_term rf (aea_PrevLogIndex args) = aea_PrevLogTerm args) ->
  exists rf' reply, AppendEntries rf args = Some (rf', reply)
    /\ aer_Success reply = false /\ logs rf' = logs rf /\ commitIndex rf' = commitIndex rf
    /\ (getLastLogIndex rf < aea_PrevLogIndex args ->
          aer_ConflictLogIndex reply = getLastLogIndex rf + 1)
    /\ (aea_PrevLogIndex args < lastIncludedIndex rf ->
          aer_ConflictLogIndex reply = lastIncludedIndex rf)
    /\ (lastIncludedIndex rf <= aea_PrevLogIndex args <= getLastLogIndex rf ->
          lastIncludedIndex rf <= aer_ConflictLogIndex reply <= aea_PrevLogIndex args
          /\ forall i, aer_ConflictLogIndex reply <= i < aea_PrevLogIndex args ->
               aer_ConflictLogTerm reply <= log_term rf i).
Proof.
  intros Hwf Ht Hno.
  destruct (AppendEntries_reject rf args Hwf Ht Hno) as (ci & ct & -> & ? & ? & ? & Hmid).
  do 2 eexists. split; [done|]. simpl. split_and!; try done.
  intros Hin. destruct (Hmid Hin) as (? & ? & ?). split_and!; try done; lia.
Qed.

(** ** Commitment *)

(** How many servers have replicated the log through [n]. *)
Definition replicated_on (n : Z) (l : list Z) : Z := zlen (filter (fun m => n <= m) l).

Lemma replicated_on_perm n l k : l ≡ₚ k -> replicated_on n l = replicated_on n k.
Proof. intros Hp. unfold replicated_on, zlen. by rewrite Hp. Qed.

Lemma filter_all_zlen (P : Z -> Prop) `{forall x, Decision (P x)} l :
  Forall P l -> filter P l = l.
Proof. induction 1; [done|]. rewrite filter_cons_True by done. by f_equal. Qed.

Lemma filter_none_zlen (P : Z -> Prop) `{forall x, Decision (P x)} l :
  Forall (fun x => ~ P x) l -> filter P l = [].
Proof. induction 1; [done|]. by rewrite filter_cons_False. Qed.

(** In a sorted list, everything from position [k] on is at least the element there, and
    everything through position [k] is at most it. *)
Lemma sorted_split l k (x : Z) :
  StronglySorted Z.le l -> l !! k = Some x ->
  Forall (fun y => x <= y) (drop k l) /\ Forall (fun y => y <= x) (take (S k) l).
Proof.
  intros Hs. revert k. induction Hs as [|y l Hs IH Hall]; intros k Hk; [done|].
  destruct k as [|k]; simplify_eq/=.
  - split; [constructor; [lia|done]|]. repeat constructor. lia.
  - destruct (IH k Hk) as [? ?]. split; [done|]. constructor; [|done].
    rewrite Forall_forall in Hall. apply Hall. by eapply list_elem_of_lookup_2.
Qed.

Lemma sorted_replicated l k (x : Z) :
  StronglySorted Z.le l -> l !! k = Some x ->
  zlen l - Z.of_nat k <= replicated_on x l
  /\ forall m, x < m -> replicated_on m l <= zlen l - Z.of_nat k - 1.
Proof.
  intros Hs Hk. pose proof (lookup_lt_Some _ _ _ Hk) as Hlt.
  destruct (sorted_split l k x Hs Hk) as [Hge Hle]. unfold replicated_on. split.
  - rewrite <- (take_drop k l) at 2. rewrite filter_app, zlen_app.
    rewrite (filter_all_zlen _ (drop k l)) by done.
    unfold zlen. rewrite length_drop. lia.
  - intros m Hm. rewrite <- (take_drop (S k) l) at 1. rewrite filter_app, zlen_app.
    rewrite (filter_none_zlen _ (take (S k) l)).
    2: { eapply Forall_impl; [done|]. simpl. lia. }
    pose proof (length_filter (fun y => m <= y) (drop (S k) l)) as Hf.
    unfold zlen. rewrite length_drop in Hf. simpl. lia.
Qed.

(** C8.  A leader's [commit] moves the commit index only to an index of its own term that a
    strict majority of [matchIndex] has reached, and to no smaller an index than it could: no
    larger index has a majority. *)
Theorem commit_majority (rf rf' : Raft Cmd) :
  raft_wf rf -> commit rf = Some rf' -> commitIndex rf' <> commitIndex rf ->
  let n := commitIndex rf' in
  state rf = Leader /\ commitIndex rf < n <= getLastLogIndex rf
  /\ log_term rf n = currentTerm rf
  /\ zlen (matchIndex rf) < 2 * replicated_on n (matchIndex rf)
  /\ (forall m, n < m -> 2 * replicated_on m (matchIndex rf) <= zlen (matchIndex rf)).
Proof.
  intros [Hs _] Hr Hne. unfold commit in Hr. go_if_in Hr; [by simplify_eq|].
  apply bool_decide_eq_true in Heqb. go_bind Hr. go_if_in Hr; [|by simplify_eq].
  rewrite (getLogTerm_shape rf _ Hs) in Hr. simpl in Hr. go_if_in Hr; [|by simplify_eq].
  injection Hr as <-. simpl in *.
  pose proof (sh_term _ Hs). pose proof (log_term_range rf x ltac:(lia)).
  apply slice_get_Some in E as [Hq E].
  destruct (sorted_replicated _ _ _ (sort_Z_StronglySorted (matchIndex rf)) E) as [Hmaj Hmin].
  rewrite zlen_sort_Z in *. rewrite (replicated_on_perm _ _ _ (sort_Z_Permutation _)) in Hmaj.
  pose proof (sh_match _ Hs). pose proof (sh_me _ Hs).
  rewrite Z.quot_div_nonneg in * by lia.
  pose proof (Z.div_mod (zlen (matchIndex rf) - 1) 2 ltac:(lia)).
  pose proof (Z.mod_pos_bound (zlen (matchIndex rf) - 1) 2 ltac:(lia)).
  split_and!; try done; try lia. intros m Hm. specialize (Hmin m Hm).
  rewrite (replicated_on_perm _ _ _ (sort_Z_Permutation _)) in Hmin. lia.
Qed.

(** ** Application *)

(** [n] iterations of [applier], stopping when it has to wait. *)
Fixpoint apply_committed (n : nat) rf : option (Raft Cmd * list (ApplyMsg Cmd)) :=
  match n with
  | O => Some (rf, [])
  | S n =>
      r ← applier rf;
      match r.2 with
      | None => Some (r.1, [])
      | Some msg => r' ← apply_committed n r.1; Some (r'.1, msg :: r'.2)
      end
  end.

(** The message that announces the entry at index [i]. *)
Definition command_msg rf (i : Z) (m : ApplyMsg Cmd) : Prop :=
  exists e, entry_at rf i = Some e /\ m = CommandMsg (ent_Command e) i (ent_Term e).

Lemma entry_at_total rf i :
  lastIncludedIndex rf <= i <= getLastLogIndex rf -> is_Some (entry_at rf i).
Proof.
  intros Hi. destruct (log_lookup_total rf i Hi) as (e & He & _).
  apply slice_get_Some in He as [_ He]. unfold entry_at.
  destruct (Z.ltb_spec i (lastIncludedIndex rf)); [lia|eauto].
Qed.

(** One iteration, when there is something to apply. *)
Lemma applier_next rf :
  raft_wf rf -> killed rf = false -> lastApplied rf < commitIndex rf ->
  exists m, applier rf = Some (set_lastApplied (lastApplied rf + 1) rf, Some m)
            /\ command_msg rf (lastApplied rf + 1) m.
Proof.
  intros [Hs _] Hk Hlt. unfold applier. rewrite Hk.
  destruct (Z.ltb_spec (lastApplied rf) (commitIndex rf)); [|lia].
  set (rf1 := set_lastApplied _ rf).
  destruct (entry_at_total rf (lastApplied rf + 1)) as [e He].
  { destruct Hs as [? ? ? ? ? ? ?]. lia. }
  assert (Hg : slice_get (logs rf1) (lastApplied rf1 - lastIncludedIndex rf1) = Some e).
  { unfold entry_at in He. go_if_in He; [done|]. apply slice_get_Some. split; [simpl; lia|done]. }
  rewrite Hg. simpl. rewrite (getLogTerm_spec rf1) by (by apply (shape_logs_ne rf)).
  simpl. eexists. split; [done|]. exists e. split; [done|].
  by rewrite (log_term_entry_at rf1 (lastApplied rf + 1) e).
Qed.

Lemma apply_committed_spec n rf :
  raft_wf rf -> killed rf = false -> Z.of_nat n <= commitIndex rf - lastApplied rf ->
  exists rf' msgs, apply_committed n rf = Some (rf', msgs)
    /\ lastApplied rf' = lastApplied rf + Z.of_nat n /\ length msgs = n
    /\ forall k m, msgs !! k = Some m -> command_msg rf (lastApplied rf + 1 + Z.of_nat k) m.
Proof.
  revert rf. induction n as [|n IH]; intros rf Hwf Hk Hn; simpl.
  { exists rf, []. split_and!; try done; lia. }
  destruct (applier_next rf Hwf Hk) as (m & Hm & Hcm); [lia|]. rewrite Hm. simpl.
  destruct (applier_wf rf Hwf) as (rf1 & m' & Hm' & Hwf1). rewrite Hm in Hm'.
  injection Hm' as <- _.
  destruct (IH (set_lastApplied (lastApplied rf + 1) rf) Hwf1 Hk) as (rf2 & msgs & -> & Ha & Hl & Hall).
  { simpl. lia. }
  simpl in *. exists rf2, (m :: msgs). split_and!; [done|lia|by rewrite <- Hl|].
  intros [|k] m0 Hk'; simplify_eq/=; [by rewrite Z.add_0_r|].
  replace (lastApplied rf + 1 + Z.of_nat (S k)) with (lastApplied rf + 1 + 1 + Z.of_nat k) by lia.
  by apply Hall.
Qed.

(** C9.  In order, exactly once, nothing skipped: running [applier] until it waits delivers
    the entries at [lastApplied + 1], ..., [commitIndex], each with its own command, index and
    term, and then waits. *)
Theorem applier_in_order (rf : Raft Cmd) :
  raft_wf rf -> killed rf = false -> lastApplied rf <= commitIndex rf ->
  exists rf' msgs,
    apply_committed (Z.to_nat (commitIndex rf - lastApplied rf)) rf = Some (rf', msgs)
    /\ lastApplied rf' = commitIndex rf
    /\ zlen msgs = commitIndex rf - lastApplied rf
    /\ (forall k m, msgs !! k = Some m -> command_msg rf (lastApplied rf + 1 + Z.of_nat k) m).
Proof.
  intros Hwf Hk Hle.
  destruct (apply_committed_spec (Z.to_nat (commitIndex rf - lastApplied rf)) rf Hwf Hk)
    as (rf' & msgs & ? & ? & ? & ?); [lia|].
  exists rf', msgs. unfold zlen. split_and!; try done; lia.
Qed.

(** ** Snapshots *)

(** C10.  Trimming the log at an index inside it keeps every later entry at its index, keeps
    the term at the index itself, and stores the service's snapshot with the trimmed state in
    one [Save]. *)
Theorem Snapshot_keeps_suffix (rf : Raft Cmd) (index : Z) (snap : bytes) :
  raft_wf rf -> lastIncludedIndex rf < index <= getLastLogIndex rf ->
  exists rf', Snapshot rf index snap = Some rf'
    /\ lastIncludedIndex rf' = index /\ getLastLogIndex rf' = getLastLogIndex rf
    /\ log_term rf' index = log_term rf index
    /\ (forall i, index < i -> entry_at rf' i = entry_at rf i)
    /\ commitIndex rf' = Z.max (commitIndex rf) index
    /\ lastApplied rf' = Z.max (lastApplied rf) index
    /\ persister rf' = mkPersister (encodeState rf') snap.
Proof.
  intros [Hs _] Hi. unfold Snapshot, getLastLogIndex in *.
  destruct (Z.leb_spec index (lastIncludedIndex rf)); [lia|].
  destruct (Z.ltb_spec (index - lastIncludedIndex rf) (zlen (logs rf))); [|lia].
  destruct (log_lookup_total rf index) as (e & He & Ht); [unfold getLastLogIndex; lia|].
  destruct (slice_tail_head _ _ _ He) as (l & Hl & Hz). rewrite He, Hl. simpl.
  rewrite slice_from_Some in Hl by lia. injection Hl as Hl.
  rewrite zlen_cons in Hz. eexists. split; [done|].
  assert (Hlow : forall i, index < i ->
            l !! Z.to_nat (i - index - 1) = logs rf !! Z.to_nat (i - lastIncludedIndex rf)).
  { intros i ?. apply (f_equal (fun k => k !! Z.to_nat (i - index))) in Hl.
    rewrite lookup_drop in Hl. replace (Z.to_nat (i - index)) with (S (Z.to_nat (i - index - 1)))
      in Hl at 2 by lia. simpl in Hl. rewrite <- Hl. f_equal. lia. }
  set (rf1 := set_logs _ _).
  assert (Hent : forall i, index < i -> entry_at rf1 i = entry_at rf i).
  { intros i Hlt. unfold entry_at. simpl. destruct (Z.ltb_spec i index); [lia|].
    destruct (Z.ltb_spec i (lastIncludedIndex rf)); [lia|]. rewrite <- Hlow by done.
    by replace (Z.to_nat (i - index)) with (S (Z.to_nat (i - index - 1))) by lia. }
  assert (Hlt1 : log_term rf1 index = log_term rf index).
  { rewrite Ht. unfold log_term. simpl. by rewrite Z.leb_refl, Z.sub_diag. }
  clear Hlow He.
  destruct (Z.ltb_spec (commitIndex rf) index); simpl;
    destruct (Z.ltb_spec (lastApplied rf) index);
    split_and!; simpl; try done; try lia; autorewrite with zlen; lia.
Qed.

(** ** What a leader sends *)

(** A broadcast to one follower sends the leader's own entries from [nextIndex] on, at
    most a batch of them, with the term of the entry before; it panics exactly when
    [nextIndex] has run past the end of the leader's log. *)
Theorem Broadcast_sends (rf : Raft Cmd) (server next : Z) :
  raft_wf rf -> state rf = Leader -> slice_get (nextIndex rf) server = Some next ->
  lastIncludedIndex rf < next ->
  (BroadcastAppendEntries rf server = None <-> getLastLogIndex rf + 1 < next)
  /\ (forall rf' out, BroadcastAppendEntries rf server = Some (rf', out) ->
        exists entries,
          out = SendAppendEntries (mkAppendEntriesArgs (currentTerm rf) (me rf) (next - 1)
                  (log_term rf (next - 1)) (commitIndex rf) entries)
          /\ zlen entries = Z.min batchSize (getLastLogIndex rf + 1 - next)
          /\ forall j e, entries !! j = Some e -> entry_at rf (next + Z.of_nat j) = Some e).
Proof.
  intros Hwf Hl Hn Hfirst.
  destruct (BroadcastAppendEntries_wf rf server next Hwf Hl Hn) as [Hsome Hnone].
  destruct Hwf as [Hs _]. pose proof (sh_first _ Hs). split.
  { split; [|done]. intros Hno. destruct (Z.lt_ge_cases (getLastLogIndex rf + 1) next); [done|].
    destruct Hsome as (? & ? & Hsome & _); [lia|]. congruence. }
  intros rf' out Hr. unfold BroadcastAppendEntries in Hr.
  rewrite bool_decide_true in Hr by done. simpl in Hr. rewrite Hn in Hr. simpl in Hr.
  destruct (Z.leb_spec next 0); [lia|]. simpl in Hr. rewrite Hn in Hr. simpl in Hr.
  unfold getFirstLogIndex in Hr. destruct (Z.ltb_spec (lastIncludedIndex rf) next); [|lia].
  rewrite (getLogTerm_shape rf _ Hs) in Hr. simpl in Hr.
  set (endIndex := if getLastLogIndex rf + 1 <? next + batchSize then _ else _) in Hr.
  assert (Hend : endIndex = Z.min (next + batchSize) (getLastLogIndex rf + 1)).
  { subst endIndex. destruct (Z.ltb_spec (getLastLogIndex rf + 1) (next + batchSize)); lia. }
  clearbody endIndex. subst endIndex. go_if_in Hr; [done|].
  rewrite (collect_entries_spec rf) in Hr by lia. simpl in Hr. injection Hr as <- <-.
  eexists. split; [done|]. split.
  - unfold zlen. rewrite length_take, length_drop. unfold getLastLogIndex, zlen in *. lia.
  - intros j e Hj. apply lookup_take_Some in Hj as [Hj ?]. rewrite lookup_drop in Hj.
    unfold entry_at. destruct (Z.ltb_spec (next + Z.of_nat j) (lastIncludedIndex rf)); [lia|].
    rewrite <- Hj. f_equal. lia.
Qed.

(** [InstallSnapshot] never fills in its reply: a leader whose term is over does not
    learn so from this RPC, keeps its term and role, and counts the follower as caught up
    although the follower ignored the message. *)
Theorem InstallSnapshot_reply_uninformative (rf lead rf' lead' : Raft Cmd) (server : Z)
    (args : InstallSnapshotArgs) (reply : InstallSnapshotReply) (msg : option (ApplyMsg Cmd)) :
  raft_wf lead ->
  InstallSnapshot rf args = Some (rf', reply, msg) ->
  handleInstallSnapshotReply lead server args reply = Some lead' ->
  isr_Term reply = 0 /\ currentTerm lead' = currentTerm lead /\ state lead' = state lead
  /\ (isa_Term args < currentTerm rf ->
       rf' = rf /\ exists m, slice_get (matchIndex lead') server = Some m
                            /\ isa_LastIncludedIndex args <= m).
Proof.
  intros [Hs _] Hi Hh. pose proof (sh_term _ Hs).
  assert (Hz : isr_Term reply = 0) by (unfold InstallSnapshot in Hi; by run_branches Hi).
  unfold handleInstallSnapshotReply in Hh. rewrite Hz in Hh.
  destruct (Z.ltb_spec (currentTerm lead) 0); [lia|]. go_bind Hh.
  pose proof (slice_get_lt _ _ _ E) as Hsv.
  assert (Hlead : currentTerm lead' = currentTerm lead /\ state lead' = state lead
           /\ exists m, slice_get (matchIndex lead') server = Some m /\ isa_LastIncludedIndex args <= m).
  { go_if_in Hh.
    - rewrite (slice_set_Some (matchIndex lead)) in Hh by lia. simpl in Hh. go_bind Hh. simplify_eq/=.
      split_and!; try done. exists (isa_LastIncludedIndex args). split; [|lia].
      apply slice_get_Some. split; [lia|]. apply list_lookup_insert_eq. unfold zlen in *. lia.
    - simplify_eq. split_and!; try done. exists x. split; [done|lia]. }
  destruct Hlead as (? & ? & ?). split_and!; try done. intros Hst. split; [|done].
  unfold InstallSnapshot in Hi. destruct (Z.ltb_spec (isa_Term args) (currentTerm rf)); [|lia].
  by simplify_eq.
Qed.
End Replication.

(** ** Concrete instances *)

Definition first_entry : AppendEntriesArgs Z := mkAppendEntriesArgs 2 1 1 1 1 [mkEntry 2 (Some 9)].

Lemma AppendEntries_accepts_witness :
  exists rf' reply, AppendEntries (run3 led) first_entry = Some (rf', reply)
    /\ logs rf' = [mkEntry 0 None; mkEntry 1 (Some 7); mkEntry 2 (Some 9)]
    /\ commitIndex rf' = 1.
Proof.
  destruct (AppendEntries (run3 led) first_entry) as [[rf' reply]|] eqn:E;
    [|vm_compute in E; discriminate E].
  exists rf', reply. split; [reflexivity|].
  destruct (AppendEntries_accepts (run3 led) rf' first_entry reply (run3_wf led led_ok) E)
    as (Hl & _ & _ & _ & Hc & _).
  - vm_compute in E. injection E as _ <-. reflexivity.
  - rewrite Hl, Hc. vm_compute. split; reflexivity.
Defined.

Lemma AppendEntries_rejects_witness :
  exists rf' reply, AppendEntries (run3 led) (mkAppendEntriesArgs 2 1 5 2 0 []) = Some (rf', reply)
    /\ aer_Success reply = false /\ aer_ConflictLogIndex reply = 3.
Proof.
  destruct (AppendEntries_rejects (run3 led) (mkAppendEntriesArgs 2 1 5 2 0 []))
    as (rf' & reply & Hr & Hs & _ & _ & Hc & _).
  - exact (run3_wf led led_ok).
  - vm_compute. discriminate.
  - intros [[_ Hx] _]. apply Hx. vm_compute. reflexivity.
  - exists rf', reply. split; [exact Hr|]. split; [exact Hs|]. rewrite Hc; vm_compute; reflexivity.
Defined.

(** A leader whose first two entries have reached two of three servers. *)
Definition ready : Raft Z := set_matchIndex [2; 2; 0] (run3 led).

Lemma ready_wf : raft_wf ready.
Proof. apply wf_set_matchIndex; [vm_compute; reflexivity|exact (run3_wf led led_ok)]. Qed.

Lemma commit_majority_witness :
  exists rf', commit ready = Some rf' /\ commitIndex rf' = 2
    /\ zlen (matchIndex ready) < 2 * replicated_on (commitIndex rf') (matchIndex ready).
Proof.
  destruct (commit ready) as [rf'|] eqn:E; [|vm_compute in E; discriminate E].
  assert (Hc : commitIndex rf' = 2) by (vm_compute in E; injection E as <-; reflexivity).
  exists rf'. split; [reflexivity|]. split; [exact Hc|].
  refine (proj1 (proj2 (proj2 (proj2 (commit_majority ready rf' ready_wf E _))))).
  rewrite Hc. vm_compute. discriminate.
Defined.

Lemma applier_in_order_witness :
  exists rf' msgs, apply_committed 1 (run3 led) = Some (rf', msgs)
    /\ lastApplied rf' = 1 /\ zlen msgs = 1.
Proof.
  destruct (applier_in_order (run3 led) (run3_wf led led_ok)) as (rf' & msgs & Hr & Ha & Hz & _).
  - vm_compute; reflexivity.
  - vm_compute; discriminate.
  - exists rf', msgs. split; [exact Hr|]. split; [rewrite Ha|rewrite Hz]; vm_compute; reflexivity.
Defined.

Lemma Snapshot_keeps_suffix_witness :
  exists rf', Snapshot (run3 led) 1 [Byte.x00] = Some rf' /\ entry_at rf' 2 = Some (mkEntry 1 (Some 8)).
Proof.
  destruct (Snapshot_keeps_suffix (run3 led) 1 [Byte.x00] (run3_wf led led_ok))
    as (rf' & Hr & _ & _ & _ & He & _).
  - vm_compute; split; [reflexivity|discriminate].
  - exists rf'. split; [exact Hr|]. rewrite He by lia. vm_compute. reflexivity.
Defined.

Lemma Broadcast_sends_witness :
  BroadcastAppendEntries (run3 led) 2 <> None
  /\ slice_get (nextIndex (run3 led)) 2 = Some 1.
Proof.
  assert (Hn : slice_get (nextIndex (run3 led)) 2 = Some 1) by (vm_compute; reflexivity).
  split; [|exact Hn].
  destruct (Broadcast_sends (run3 led) 2 1 (run3_wf led led_ok)) as [[Hp _] _].
  - vm_compute; reflexivity.
  - exact Hn.
  - vm_compute; reflexivity.
  - intros Hx%Hp. vm_compute in Hx. discriminate Hx.
Defined.

Definition old_snapshot : InstallSnapshotArgs := mkInstallSnapshotArgs 1 0 1 1 [].

Lemma InstallSnapshot_reply_uninformative_witness :
  let rf := run3 [OpTimeout; OpTimeout] in
  exists reply msg lead', InstallSnapshot rf old_snapshot = Some (rf, reply, msg)
    /\ handleInstallSnapshotReply (run3 led) 1 old_snapshot reply = Some lead'
    /\ state lead' = Leader /\ isa_Term old_snapshot < currentTerm rf.
Proof.
  intros rf. exists (mkInstallSnapshotReply 0), None.
  assert (Hi : InstallSnapshot rf old_snapshot = Some (rf, mkInstallSnapshotReply 0, None))
    by (vm_compute; reflexivity).
  destruct (handleInstallSnapshotReply (run3 led) 1 old_snapshot (mkInstallSnapshotReply 0))
    as [lead'|] eqn:Hh; [|vm_compute in Hh; discriminate Hh].
  exists lead'. split; [exact Hi|]. split; [reflexivity|].
  destruct (InstallSnapshot_reply_uninformative rf (run3 led) rf lead' 1 old_snapshot _ None
              (run3_wf led led_ok) Hi Hh) as (_ & _ & Hst & _).
  split; [rewrite Hst; vm_compute; reflexivity|vm_compute; reflexivity].
Defined.
