(* ===== verification/RaftLogs.v ===== *)
(** * The whole log of a peer

    A peer keeps only the part of its log behind its last snapshot, with a placeholder at the
    snapshot's index.  [holds rf F] says that the slice [rf.logs] is what is left of the whole
    log [F].  The operations of [raft.go] are described here by what they do to [F]:
    [AppendEntries] and [InstallSnapshot] keep it or replace it by a prefix of the leader's
    log, [Start] appends one entry, [Snapshot] keeps it. *)

From S2P Require Import Prelude Persister RaftState RaftRpc RaftLeader RaftInv RaftAppend.
From S2P Require Import RaftPeer RaftOps RaftProps RaftReplication.

Section Merge.
Context {Cmd : Type}.
Implicit Types l rest L F : list (Entry Cmd).

(** Where [merge_log] cuts: behind [j] entries that have the leader's terms. *)
Lemma merge_log_cut l k rest :
  (k <= length l)%nat ->
  merge_log l k rest = l
  \/ exists j, (j <= length rest)%nat /\ (k + j <= length l)%nat
       /\ merge_log l k rest = take (k + j) l ++ drop j rest
       /\ forall m, (m < j)%nat ->
            ent_Term <$> l !! (k + m)%nat = ent_Term <$> rest !! m.
Proof.
  revert k. induction rest as [|e rest IH]; intros k Hk; simpl; [by left|].
  destruct (l !! k) as [x|] eqn:E.
  - pose proof (lookup_lt_Some _ _ _ E). destruct (Z.eqb_spec (ent_Term x) (ent_Term e)) as [Ht|].
    + destruct (IH (S k)) as [?|(j & ? & ? & -> & Hm)]; [lia|by left|]. right. exists (S j).
      rewrite Nat.add_succ_r. split_and!; [lia|lia|done|].
      intros [|m] ?; rewrite ?Nat.add_0_r, ?E; simpl; [by rewrite Ht|].
      rewrite Nat.add_succ_r. apply Hm. lia.
    + right. exists 0%nat. rewrite Nat.add_0_r. split_and!; [lia|lia|done|lia].
  - apply lookup_ge_None in E. right. exists 0%nat. rewrite Nat.add_0_r.
    split_and!; [lia|lia|by rewrite take_ge by lia|lia].
Qed.

(** Logs that agree on the term of an entry agree up to that entry. *)
Definition agrees F L : Prop :=
  forall k e e', F !! k = Some e -> L !! k = Some e' -> ent_Term e = ent_Term e' ->
    take (S k) F = take (S k) L.

(** [rest] continues [L] behind position [p], whose entry has term [t]. *)
Definition spans L (p : nat) (t : Z) rest : Prop :=
  (exists e, L !! p = Some e /\ ent_Term e = t) /\ rest `prefix_of` drop (S p) L.

Lemma agrees_run F L p t rest j :
  agrees F L -> spans L p t rest -> ent_Term <$> F !! p = Some t -> (j <= length rest)%nat ->
  (forall m, (m < j)%nat -> ent_Term <$> F !! (S p + m)%nat = ent_Term <$> rest !! m) ->
  take (S p + j) F = take (S p + j) L.
Proof.
  intros Ha [(e & He & Ht) [suf Hs]] Hp Hj Hm. destruct j as [|j].
  { rewrite Nat.add_0_r. apply fmap_Some in Hp as (f & Hf & ->). by eapply Ha. }
  specialize (Hm j ltac:(lia)).
  destruct (lookup_lt_is_Some_2 rest j) as [r Hr]; [lia|]. rewrite Hr in Hm.
  apply fmap_Some in Hm as (f & Hf & Hft).
  rewrite Nat.add_succ_r. eapply Ha; [exact Hf| |done].
  rewrite <- lookup_drop, Hs. rewrite lookup_app_l by (apply lookup_lt_Some in Hr; lia). done.
Qed.

Lemma spans_take L p t rest j :
  spans L p t rest -> (j <= length rest)%nat ->
  take (S p + j) L ++ drop j rest = take (S p + length rest) L.
Proof.
  intros [_ [suf Hs]] Hj. 
  rewrite <- (take_drop j rest) at 2. rewrite length_app.
  assert (Hd : take (length (drop j rest)) (drop (S p + j) L) = drop j rest).
  { rewrite <- drop_drop, Hs, drop_app_le by lia. by rewrite take_app_length. }
  rewrite <- Hd at 1. rewrite take_take_drop. f_equal. rewrite length_take. lia.
Qed.
End Merge.

Section RaftLogs.
Context {Cmd : Type} `{Gob (Persisted Cmd)}.
Implicit Types (rf : Raft Cmd) (F L : list (Entry Cmd)).

Definition base rf : nat := Z.to_nat (lastIncludedIndex rf).

Definition holds rf F : Prop :=
  exists h f, logs rf = h :: drop (S (base rf)) F
    /\ F !! base rf = Some f /\ ent_Term f = ent_Term h.

Lemma holds_frame rf rf' F :
  logs rf' = logs rf -> lastIncludedIndex rf' = lastIncludedIndex rf -> holds rf F -> holds rf' F.
Proof. unfold holds, base. by intros -> ->. Qed.

Lemma holds_lookup rf F k :
  holds rf F -> (base rf < k)%nat -> logs rf !! (k - base rf)%nat = F !! k.
Proof.
  intros (h & f & -> & _) Hk. destruct (k - base rf)%nat as [|m] eqn:E; [lia|].
  simpl. rewrite lookup_drop. f_equal. lia.
Qed.

Lemma holds_term rf F k :
  holds rf F -> (base rf <= k)%nat ->
  ent_Term <$> logs rf !! (k - base rf)%nat = ent_Term <$> F !! k.
Proof.
  intros Hh Hk. destruct (decide (k = base rf)) as [->|]; [|by rewrite (holds_lookup _ F) by (done || lia)].
  destruct Hh as (h & f & -> & -> & Ht). rewrite Nat.sub_diag. simpl. by rewrite Ht.
Qed.

Lemma holds_length rf F : holds rf F -> (base rf + length (logs rf) = length F)%nat.
Proof. intros (h & f & -> & Hf%lookup_lt_Some & _). simpl. rewrite length_drop. lia. Qed.

Lemma holds_last rf F : raft_shape rf -> holds rf F -> getLastLogIndex rf = zlen F - 1.
Proof.
  intros Hs Hh%holds_length. pose proof (sh_first _ Hs).
  unfold getLastLogIndex, zlen, base in *. lia.
Qed.

Lemma holds_log_term rf F i :
  raft_shape rf -> holds rf F -> lastIncludedIndex rf <= i ->
  log_term rf i = from_option ent_Term (-1) (F !! Z.to_nat i).
Proof.
  intros Hs Hh Hi. pose proof (sh_first _ Hs). unfold log_term.
  destruct (Z.leb_spec (lastIncludedIndex rf) i); [|lia].
  replace (Z.to_nat (i - lastIncludedIndex rf)) with (Z.to_nat i - base rf)%nat by (unfold base; lia).
  pose proof (holds_term rf F (Z.to_nat i) Hh ltac:(unfold base; lia)) as Ht.
  by destruct (logs rf !! _), (F !! _); simplify_eq/=.
Qed.

Lemma holds_entry_at rf F i :
  raft_shape rf -> holds rf F -> lastIncludedIndex rf < i ->
  entry_at rf i = F !! Z.to_nat i.
Proof.
  intros Hs Hh Hi. pose proof (sh_first _ Hs).
  rewrite <- (holds_lookup rf F (Z.to_nat i) Hh) by (unfold base; lia). unfold entry_at.
  destruct (Z.ltb_spec i (lastIncludedIndex rf)); [lia|]. f_equal. unfold base. lia.
Qed.

(** Cut the slice at an index behind the snapshot and append. *)
Lemma holds_cut rf F i rest :
  holds rf F -> (base rf < i <= length F)%nat ->
  holds (set_logs (take (i - base rf) (logs rf) ++ rest) rf) (take i F ++ rest).
Proof.
  intros (h & f & Hl & Hf & Ht) Hi. exists h, f. unfold base in *. simpl. split_and!; [|..|done].
  - rewrite Hl. rewrite drop_app_le by (rewrite length_take; lia).
    destruct (i - Z.to_nat (lastIncludedIndex rf))%nat as [|m] eqn:E; [lia|]. simpl. do 2 f_equal.
    rewrite take_drop_commute. do 2 f_equal. lia.
  - rewrite lookup_app_l by (rewrite length_take; lia). by rewrite lookup_take_lt by lia.
Qed.

Lemma holds_append rf F rest : holds rf F -> holds (set_logs (logs rf ++ rest) rf) (F ++ rest).
Proof.
  intros Hh. pose proof (holds_length _ _ Hh). pose proof Hh as (h & f & Hl & _).
  assert (length (logs rf) <> 0%nat) by (by rewrite Hl).
  pose proof (holds_cut rf F (length F) rest Hh ltac:(lia)) as Hc.
  rewrite take_ge in Hc by lia. by rewrite take_ge in Hc by lia.
Qed.

(** ** AppendEntries *)

Definition span_of L (args : AppendEntriesArgs Cmd) : Prop :=
  0 <= aea_PrevLogIndex args
  /\ spans L (Z.to_nat (aea_PrevLogIndex args)) (aea_PrevLogTerm args) (aea_Entries args).

(** A follower that handles a request that was cut out of [L] keeps its log, or has a prefix
    of [L] afterwards. *)
Lemma AppendEntries_log rf args rf' reply F L :
  raft_wf rf -> holds rf F -> agrees F L -> span_of L args ->
  AppendEntries rf args = Some (rf', reply) ->
  holds rf' F
  \/ holds rf' (take (S (Z.to_nat (aea_PrevLogIndex args)) + length (aea_Entries args)) L).
Proof.
  intros Hwf Hh Ha [Hp0 Hsp] Hr. pose proof (wf_shape _ Hwf) as Hs. pose proof (sh_first _ Hs).
  destruct (Z.lt_ge_cases (aea_Term args) (currentTerm rf)).
  { rewrite AppendEntries_stale in Hr by done. simplify_eq. by left. }
  destruct (decide (lastIncludedIndex rf <= aea_PrevLogIndex args <= getLastLogIndex rf
                    /\ log_term rf (aea_PrevLogIndex args) = aea_PrevLogTerm args)) as [[Hi Ht]|Hno];
    [|destruct (AppendEntries_reject rf args) as (ci & ct & Hr' & _); [done..|];
      rewrite Hr' in Hr; simplify_eq; left; by apply (holds_frame rf)].
  rewrite AppendEntries_success in Hr by done. simplify_eq.
  set (p := Z.to_nat (aea_PrevLogIndex args)) in *.
  assert (Hfr : forall l F', holds (set_logs l rf) F' ->
            holds (follow_commit (persist (set_logs l (accept_leader rf args))) args) F').
  { intros l F'. apply holds_frame; unfold follow_commit; by destruct (_ <? _). }
  pose proof (holds_length _ _ Hh) as Hlen. unfold getLastLogIndex in Hi.
  assert (Hk : Z.to_nat (aea_PrevLogIndex args + 1 - lastIncludedIndex rf) = (S p - base rf)%nat)
    by (unfold base, p; lia).
  destruct (merge_log_cut (logs rf) (S p - base rf) (aea_Entries args)) as [Hm|(j & Hj & Hjl & Hm & Hmt)];
    [unfold base, p, zlen in *; lia| |]; unfold merged; rewrite Hk, Hm.
  { left. apply Hfr. by apply (holds_frame rf). }
  assert (Hb : (base rf <= p)%nat) by (unfold base, p; lia).
  right. apply Hfr. rewrite <- (spans_take L p _ _ j Hsp Hj).
  rewrite <- (agrees_run F L p _ _ j Ha Hsp); [|..].
  - replace (S p - base rf + j)%nat with (S p + j - base rf)%nat by lia.
    apply holds_cut; [done|]. lia.
  - rewrite (holds_log_term rf F) in Ht by (done || lia). fold p in Ht.
    destruct (lookup_lt_is_Some_2 F p) as [x Hx]; [unfold base, p, zlen in *; lia|].
    rewrite Hx in Ht |- *. simpl in *. by rewrite Ht.
  - done.
  - intros m Hlt. rewrite <- (Hmt m Hlt).
    rewrite <- (holds_lookup rf F (S p + m) Hh) by lia. do 2 f_equal. lia.
Qed.

(** ** InstallSnapshot and Snapshot *)

Lemma matchLog_true rf i t :
  raft_shape rf -> matchLog rf i t = Some true ->
  lastIncludedIndex rf < i <= getLastLogIndex rf.
Proof.
  intros Hs Hm. unfold matchLog in Hm. rewrite (getLogTerm_shape rf _ Hs) in Hm.
  unfold getFirstLogIndex in *. go_if_in Hm; [done|]. lia.
Qed.

(** Drop the slice before position [i - base] and turn its head into a placeholder: the
    whole log is the same, cut at [i]. *)
Lemma holds_drop rf rf' F (i : Z) e l c t :
  0 <= lastIncludedIndex rf < i -> holds rf F ->
  slice_get (logs rf) (i - lastIncludedIndex rf) = Some e ->
  slice_from (logs rf) (i - lastIncludedIndex rf) = Some l ->
  logs rf' = <[0%nat := mkEntry t c]> l -> t = ent_Term e -> lastIncludedIndex rf' = i ->
  holds rf' F.
Proof.
  intros Hi Hh He Hl Hl' -> Hb'. pose proof (slice_get_lt _ _ _ He).
  rewrite slice_from_Some in Hl by lia. apply slice_get_Some in He as [_ He].
  injection Hl as <-. rewrite (drop_S _ _ _ He) in Hl'. simpl in Hl'.
  replace (Z.to_nat (i - lastIncludedIndex rf)) with (Z.to_nat i - base rf)%nat in He, Hl'
    by (unfold base; lia).
  rewrite (holds_lookup rf F) in He by (done || unfold base; lia).
  exists (mkEntry (ent_Term e) c), e. unfold base at 1 2. rewrite Hb', Hl'. split_and!; [|done|done].
  f_equal. destruct Hh as (h & f & -> & _). simpl. rewrite drop_drop. f_equal. unfold base. lia.
Qed.

Lemma InstallSnapshot_log rf args rf' reply msg F L e :
  raft_wf rf -> holds rf F ->
  L !! Z.to_nat (isa_LastIncludedIndex args) = Some e -> ent_Term e = isa_LastIncludedTerm args ->
  InstallSnapshot rf args = Some (rf', reply, msg) ->
  holds rf' F
  \/ currentTerm rf <= isa_Term args
     /\ holds rf' (take (S (Z.to_nat (isa_LastIncludedIndex args))) L).
Proof.
  intros Hwf Hh He Ht Hr. unfold InstallSnapshot in Hr.
  go_if_in Hr; [simplify_eq; by left|].
  set (rf1 := if currentTerm rf <? isa_Term args then _ else rf) in Hr.
  assert (Hh1 : holds rf1 F) by (subst rf1; go_if; [by apply (holds_frame rf)|done]).
  assert (Hs1 : raft_shape rf1).
  { pose proof (sh_term _ (wf_shape _ Hwf)).
    subst rf1; go_if; [apply wf_adopt; [apply Hwf|lia]|apply Hwf]. }
  clearbody rf1. go_if_in Hr; [simplify_eq; by left|].
  apply bind_Some in Hr as (has & Hhas & Hr). apply bind_Some in Hr as (rf2 & H2 & Hr).
  apply bind_Some in Hr as (hd & Hhd & Hr). apply bind_Some in Hr as (l & Hl & Hr).
  simplify_eq. apply slice_set_inv in Hl as [_ ->]. destruct has; run_branches H2.
  - apply matchLog_true in Hhas; [|done]. left. pose proof (sh_first _ Hs1).
    eapply (holds_drop rf1); [|done|done|done|reflexivity| |reflexivity]; [lia|].
    destruct (slice_tail_head _ _ _ E) as (l' & Hl' & _). simplify_eq.
    by injection Hhd as <-.
  - right. split; [lia|]. injection Hhd as <-. eexists _, e. unfold base. simpl. split_and!.
    + by rewrite drop_ge by (rewrite length_take; lia).
    + rewrite lookup_take_lt by lia. done.
    + done.
Qed.

Lemma Snapshot_log rf index snap rf' F :
  raft_wf rf -> holds rf F -> index <= getLastLogIndex rf ->
  Snapshot rf index snap = Some rf' -> holds rf' F.
Proof.
  intros [Hs _] Hh Hi Hr. pose proof (sh_first _ Hs). unfold Snapshot in Hr.
  go_if_in Hr; [by simplify_eq|]. unfold getLastLogIndex in Hi.
  apply bind_Some in Hr as (rf1 & H1 & Hr). go_if_in H1; [|lia].
  apply bind_Some in H1 as (e & He & H1). apply bind_Some in H1 as (l & Hl & H1).
  injection H1 as <-. apply bind_Some in Hr as (l' & Hl' & Hr). injection Hr as <-.
  apply slice_set_inv in Hl' as [_ ->].
  eapply (holds_drop rf); [|done|exact He|exact Hl| |reflexivity|]; [lia|..];
    simpl; repeat (go_if; simpl); reflexivity.
Qed.

(** ** Start, and the operations that leave the log alone *)

Lemma Start_log rf cmd rf' r F :
  holds rf F -> Start rf cmd = Some (rf', r) ->
  currentTerm rf' = currentTerm rf /\ state rf' = state rf
  /\ (state rf <> Leader /\ rf' = rf
      \/ state rf = Leader /\ holds rf' (F ++ [mkEntry (currentTerm rf) cmd])).
Proof.
  intros Hh Hr. unfold Start in Hr. go_if_in Hr; [|simplify_eq; split_and!; try done].
  - apply bool_decide_eq_true in Heqb. run_branches Hr. split_and!; try done. right. split; [done|].
    eapply holds_frame; [..|by apply holds_append]; done.
  - apply bool_decide_eq_false in Heqb. by left.
Qed.

Definition keeps_log (op : PeerOp Cmd) : Prop :=
  match op with
  | OpAppendEntries _ | OpInstallSnapshot _ | OpStart _ | OpSnapshot _ _ => False
  | _ => True
  end.

Lemma commit_log rf rf' :
  commit rf = Some rf' -> logs rf' = logs rf /\ lastIncludedIndex rf' = lastIncludedIndex rf.
Proof. unfold commit. intros Hr. by run_branches Hr. Qed.

Lemma keeps_log_spec `{!GobLaws (Persisted Cmd)} rf op rf' F :
  raft_wf rf -> keeps_log op -> run_op rf op = Some rf' -> holds rf F -> holds rf' F.
Proof.
  intros [_ Hd] Hq Hr. assert (logs rf' = logs rf /\ lastIncludedIndex rf' = lastIncludedIndex rf)
    as [? ?]; [|by apply holds_frame].
  destruct op; simpl in *; try done;
    try (apply fmap_Some in Hr as (x & Hr & ->); destruct_outcome x).
  - unfold RequestVote in Hr. by run_branches Hr.
  - unfold ticker_timeout, StartElection in Hr. by run_branches Hr.
  - by simplify_eq.
  - unfold handleRequestVoteReply, become_leader in Hr. by run_branches Hr.
  - unfold BroadcastAppendEntries in Hr. by run_branches Hr.
  - unfold handleAppendEntriesReply in Hr. run_branches Hr; try done. by apply commit_log in Hr.
  - unfold handleInstallSnapshotReply in Hr. by run_branches Hr.
  - unfold applier in Hr. by run_branches Hr.
  - by simplify_eq.
  - simplify_eq. pose proof (Make_persisted rf (peers rf) (me rf) Hd) as Hp. by injection Hp.
Qed.

(** ** Who can be a candidate *)

Lemma run_op_candidate `{!GobLaws (Persisted Cmd)} rf op rf' :
  run_op rf op = Some rf' -> state rf' = Candidate ->
  state rf = Candidate /\ currentTerm rf' = currentTerm rf \/ currentTerm rf < currentTerm rf'.
Proof.
  intros Hr Hc. destruct op; simpl in *;
    try (apply fmap_Some in Hr as (x & Hr & ->); destruct_outcome x; simpl in Hc).
  - unfold RequestVote in Hr. run_branches Hr; auto.
  - unfold AppendEntries in Hr. go_if_in Hr; [simplify_eq; auto|].
    set (rf1 := set_heartbeatCh _ _) in Hr.
    assert (Hf : state rf1 = Follower) by done. clearbody rf1.
    run_branches Hr; try congruence; unfold follow_commit in Hc; go_if_in Hc; simpl in Hc;
      try match goal with E : reconcile _ _ _ = Some _ |- _ => apply reconcile_role in E end;
      congruence.
  - unfold InstallSnapshot in Hr. run_branches Hr; auto.
  - unfold ticker_timeout, StartElection in Hr. run_branches Hr; auto; right; simpl; lia.
  - simplify_eq. auto.
  - unfold handleRequestVoteReply, become_leader in Hr. run_branches Hr; auto.
  - unfold Start in Hr. run_branches Hr; auto.
  - unfold BroadcastAppendEntries in Hr. run_branches Hr; auto.
  - unfold handleAppendEntriesReply in Hr. run_branches Hr; auto.
    apply commit_role in Hr as [??]. simpl in *. left. split; congruence.
  - unfold handleInstallSnapshotReply in Hr. run_branches Hr; auto.
  - unfold Snapshot in Hr. run_branches Hr; repeat (go_if_in Hc || go_if); simpl in *; auto.
  - unfold applier in Hr. run_branches Hr; auto.
  - simplify_eq. auto.
  - simplify_eq. destruct (Make_frame (peers rf) (me rf) (persister rf)) as (_ & _ & _ & _ & _ & _ & ?).
    unfold restart in Hc. congruence.
Qed.

(** ** What a leader sends *)

Lemma Broadcast_span rf s rf' out F :
  raft_wf rf -> holds rf F -> BroadcastAppendEntries rf s = Some (rf', out) ->
  match out with
  | SendNothing => True
  | SendAppendEntries args =>
      state rf = Leader /\ aea_Term args = currentTerm rf /\ span_of F args
  | SendInstallSnapshot args =>
      state rf = Leader /\ isa_Term args = currentTerm rf
      /\ exists e, F !! Z.to_nat (isa_LastIncludedIndex args) = Some e
           /\ ent_Term e = isa_LastIncludedTerm args
  end.
Proof.
  intros Hwf Hh Hr. pose proof (wf_shape _ Hwf) as Hs. pose proof (sh_first _ Hs).
  unfold BroadcastAppendEntries in Hr. go_if_in Hr; [by simplify_eq|].
  apply bool_decide_eq_true in Heqb. apply bind_Some in Hr as (nx & Hnx & Hr). cbv beta in Hr.
  apply bind_Some in Hr as (rf1 & Hrf1 & Hr).
  assert (Hf : logs rf1 = logs rf /\ lastIncludedIndex rf1 = lastIncludedIndex rf
               /\ currentTerm rf1 = currentTerm rf /\ lastIncludedTerm rf1 = lastIncludedTerm rf)
    by (by run_branches Hrf1).
  destruct Hf as (Hfl & Hfi & Hft & Hflt). clear Hrf1.
  assert (Hs1 : getLastLogIndex rf1 = zlen F - 1).
  { rewrite <- (holds_last rf F Hs Hh). unfold getLastLogIndex. by rewrite Hfl, Hfi. }
  assert (Hne : logs rf1 <> []) by (rewrite Hfl; by apply shape_logs_ne).
  apply bind_Some in Hr as (next & _ & Hr). unfold getFirstLogIndex in Hr. go_if_in Hr.
  - rewrite (getLogTerm_spec rf1 _ Hne) in Hr. cbn [mbind option_bind] in Hr.
    rewrite Hs1 in Hr. unfold batchSize in Hr.
    set (endIndex := if _ <? next + 200 then _ else _) in Hr.
    assert (He : endIndex <= zlen F) by (subst endIndex; go_if; lia). clearbody endIndex.
    go_if_in Hr; [done|]. rewrite collect_entries_spec in Hr by lia. simplify_eq/=.
    assert (Hlt : log_term rf' (next - 1) = log_term rf (next - 1))
      by (unfold log_term; by rewrite Hfl, Hfi).
    rewrite Hlt. split_and!; [done|done|]. split; simpl; [lia|]. split.
    + destruct (lookup_lt_is_Some_2 F (Z.to_nat (next - 1))) as [e He']; [unfold zlen in *; lia|].
      exists e. split; [done|]. rewrite (holds_log_term rf F) by (done || lia). by rewrite He'.
    + replace (drop (Z.to_nat (next - lastIncludedIndex rf')) (logs rf'))
        with (drop (S (Z.to_nat (next - 1))) F); [apply prefix_take|].
      rewrite Hfl, Hfi. destruct Hh as (h & f & -> & _). unfold base.
      replace (Z.to_nat (next - lastIncludedIndex rf))
        with (S (Z.to_nat (next - lastIncludedIndex rf - 1))) by lia.
      simpl. rewrite drop_drop. f_equal. lia.
  - simplify_eq/=. split_and!; [done|done|]. destruct (sh_head _ Hs) as (cm & l & Hl).
    destruct Hh as (h & f & Hh & Hf & Ht). exists f. rewrite Hfi, Hflt. split; [done|].
    rewrite Hl in Hh. by injection Hh as <- _.
Qed.
End RaftLogs.
