(* ===== verification/RaftNet.v ===== *)
(** * A Raft cluster

    The peers of [raft.go] connected by [labrpc]: calls can be delayed, reordered and lost,
    each request is handled at most once and each reply is delivered at most once, to the
    incarnation of the caller that sent the request.  [step] is executable; the
    interleavings of the goroutines are the sequences of events. *)

From S2P Require Import Prelude Persister RaftState RaftRpc RaftLeader RaftInv RaftAppend.
From S2P Require Import RaftPeer RaftOps RaftProps.

Section RaftNet.
Context {Cmd : Type} `{Gob (Persisted Cmd)}.

(** A server: how often it has crashed, the running peer, and what the peer has sent on
    [applyCh]. *)
Record Node := mkNode {
  nd_inc : nat; nd_peer : Raft Cmd; nd_applied : list (ApplyMsg Cmd) }.

(** A call in flight, as a request or as a reply.  [inc] is the caller's incarnation, [el]
    the election whose goroutine waits for the vote. *)
Inductive Flight :=
  | VoteReq (src : Z) (inc el : nat) (dst : Z) (args : RequestVoteArgs)
  | VoteRep (src : Z) (inc el : nat) (dst : Z) (reply : RequestVoteReply)
  | AppReq (src : Z) (inc : nat) (dst : Z) (args : AppendEntriesArgs Cmd)
  | AppRep (src : Z) (inc : nat) (dst : Z) (args : AppendEntriesArgs Cmd)
           (reply : AppendEntriesReply)
  | SnapReq (src : Z) (inc : nat) (dst : Z) (args : InstallSnapshotArgs)
  | SnapRep (src : Z) (inc : nat) (dst : Z) (args : InstallSnapshotArgs)
            (reply : InstallSnapshotReply).

(** [cl_elections] holds the shared variables of each [StartElection] call, by its number. *)
Record Cluster := mkCluster {
  cl_nodes : list Node; cl_elections : list Election; cl_net : list Flight }.

Definition init_cluster (n : nat) : Cluster :=
  let ids := Z.of_nat <$> seq 0 n in
  mkCluster ((fun i => mkNode 0 (Make ids i MakePersister) []) <$> ids) [] [].

Inductive Event :=
  | EvTimeout (i : Z)                       (* the election timer of server i fires *)
  | EvBroadcast (i server : Z)              (* one goroutine of a broadcast of server i *)
  | EvStart (i : Z) (command : option Cmd)  (* a client submits a command to server i *)
  | EvApply (i : Z)                         (* one iteration of the applier of server i *)
  | EvSnapshot (i index : Z) (snap : bytes) (* the service of server i snapshots *)
  | EvCrash (i : Z)                         (* server i crashes and restarts *)
  | EvDeliver (k : nat)                     (* the k-th message in flight arrives *)
  | EvDrop (k : nat).                       (* the k-th message in flight is lost *)

Definition set_node (i : Z) (nd : Node) (c : Cluster) : option Cluster :=
  l ← slice_set (cl_nodes c) i nd; Some (mkCluster l (cl_elections c) (cl_net c)).

(** Replace the peer of server [i]; it sent [out] on [applyCh], and [msgs] to the network. *)
Definition update_peer (i : Z) (rf : Raft Cmd) (out : list (ApplyMsg Cmd))
    (msgs : list Flight) (c : Cluster) : option Cluster :=
  nd ← slice_get (cl_nodes c) i;
  c ← set_node i (mkNode (nd_inc nd) rf (nd_applied nd ++ out)) c;
  Some (mkCluster (cl_nodes c) (cl_elections c) (cl_net c ++ msgs)).

(** A message arrives.  The message itself has been taken out of [c]. *)
Definition deliver (c : Cluster) (m : Flight) : option Cluster :=
  match m with
  | VoteReq src inc el dst args =>
      nd ← slice_get (cl_nodes c) dst;
      '(rf, reply) ← RequestVote (nd_peer nd) args;
      update_peer dst rf [] [VoteRep src inc el dst reply] c
  | VoteRep src inc el dst reply =>
      nd ← slice_get (cl_nodes c) src;
      if negb (inc =? nd_inc nd)%nat then Some c
      else
        e ← cl_elections c !! el;
        '(rf, e', _) ← handleRequestVoteReply (nd_peer nd) e reply;
        update_peer src rf [] [] (mkCluster (cl_nodes c) (<[el := e']> (cl_elections c)) (cl_net c))
  | AppReq src inc dst args =>
      nd ← slice_get (cl_nodes c) dst;
      '(rf, reply) ← AppendEntries (nd_peer nd) args;
      update_peer dst rf [] [AppRep src inc dst args reply] c
  | AppRep src inc dst args reply =>
      nd ← slice_get (cl_nodes c) src;
      if negb (inc =? nd_inc nd)%nat then Some c
      else
        rf ← handleAppendEntriesReply (nd_peer nd) dst args reply;
        update_peer src rf [] [] c
  | SnapReq src inc dst args =>
      nd ← slice_get (cl_nodes c) dst;
      '(rf, reply, msg) ← InstallSnapshot (nd_peer nd) args;
      update_peer dst rf (option_list msg) [SnapRep src inc dst args reply] c
  | SnapRep src inc dst args reply =>
      nd ← slice_get (cl_nodes c) src;
      if negb (inc =? nd_inc nd)%nat then Some c
      else
        rf ← handleInstallSnapshotReply (nd_peer nd) dst args reply;
        update_peer src rf [] [] c
  end.

Definition take_out (k : nat) (c : Cluster) : Cluster :=
  mkCluster (cl_nodes c) (cl_elections c) (delete k (cl_net c)).

(** One event; [None] when it cannot happen, or when the server it concerns panics. *)
Definition step (c : Cluster) (ev : Event) : option Cluster :=
  match ev with
  | EvTimeout i =>
      nd ← slice_get (cl_nodes c) i;
      '(rf, oel) ← ticker_timeout (nd_peer nd);
      match oel with
      | None => Some c
      | Some el =>
          let id := length (cl_elections c) in
          update_peer i rf []
            ((fun j => VoteReq i (nd_inc nd) id j (el_args el)) <$> other_peers rf)
            (mkCluster (cl_nodes c) (cl_elections c ++ [el]) (cl_net c))
      end
  | EvBroadcast i server =>
      nd ← slice_get (cl_nodes c) i;
      if server =? i then None
      else
        '(rf, out) ← BroadcastAppendEntries (nd_peer nd) server;
        update_peer i rf []
          (match out with
           | SendNothing => []
           | SendAppendEntries args => [AppReq i (nd_inc nd) server args]
           | SendInstallSnapshot args => [SnapReq i (nd_inc nd) server args]
           end) c
  | EvStart i cmd =>
      nd ← slice_get (cl_nodes c) i;
      '(rf, _) ← Start (nd_peer nd) cmd;
      update_peer i rf [] [] c
  | EvApply i =>
      nd ← slice_get (cl_nodes c) i;
      '(rf, msg) ← applier (nd_peer nd);
      update_peer i rf (option_list msg) [] c
  | EvSnapshot i index snap =>
      nd ← slice_get (cl_nodes c) i;
      rf ← Snapshot (nd_peer nd) index snap;
      update_peer i rf [] [] c
  | EvCrash i =>
      nd ← slice_get (cl_nodes c) i;
      set_node i (mkNode (S (nd_inc nd)) (restart (nd_peer nd)) (nd_applied nd)) c
  | EvDeliver k => m ← cl_net c !! k; deliver (take_out k c) m
  | EvDrop k => m ← cl_net c !! k; Some (take_out k c)
  end.

Definition steps (c : Cluster) (evs : list Event) : option Cluster :=
  run_steps step c evs.

Lemma steps_cons c ev evs : steps c (ev :: evs) = c' ← step c ev; steps c' evs.
Proof. apply run_steps_cons. Qed.

(** Server [i] believes to be the leader of term [t]. *)
Definition leads (c : Cluster) (i t : Z) : Prop :=
  exists nd, slice_get (cl_nodes c) i = Some nd
    /\ state (nd_peer nd) = Leader /\ currentTerm (nd_peer nd) = t.

(** Server [i] has told its service that [m] is committed. *)
Definition announced (c : Cluster) (i : Z) (m : ApplyMsg Cmd) : Prop :=
  exists nd, slice_get (cl_nodes c) i = Some nd /\ m ∈ nd_applied nd.

End RaftNet.

Arguments Node : clear implicits.
Arguments Flight : clear implicits.
Arguments Cluster : clear implicits.
Arguments Event : clear implicits.
