(* ===== verification/RaftFlaws.v ===== *)
(** * Where [raft.go] departs from Raft

    Concrete executions of the model, evaluated by the kernel.  Each one is a schedule of the
    events of [RaftNet], or of one peer's critical sections, in which every message is one that
    a peer of this code sends and is delivered at most once. *)

From S2P Require Import Prelude Persister RaftState RaftRpc RaftLeader RaftInv RaftAppend.
From S2P Require Import RaftPeer RaftOps RaftProps RaftReplication RaftNet.

(** ** A released vote elects a second leader

    Servers 0 and 1 both stand for term 1.  Server 2 votes for 0, which wins and sends its
    first heartbeat; [AppendEntries] resets [votedFor] on server 2, so server 1's delayed
    request gets a vote as well. *)

Definition split_brain : list (Event Z) :=
  [ EvTimeout 0; EvTimeout 1;
    EvDeliver 1; EvDeliver 3;          (* 2 votes for 0, and 0 wins *)
    EvBroadcast 0 2; EvDeliver 3;      (* the heartbeat of 0 reaches 2 *)
    EvDeliver 2; EvDeliver 3 ].        (* 2 votes for 1 in the same term, and 1 wins *)

(** Each leader then replicates its own command to server 2 and commits it. *)
Definition divergence : list (Event Z) :=
  split_brain ++
  [ EvStart 0 (Some 10); EvBroadcast 0 2; EvDeliver 3; EvDeliver 3; EvApply 0;
    EvStart 1 (Some 20); EvBroadcast 1 2; EvDeliver 3; EvDeliver 3; EvApply 1 ].

(** Election safety fails: three servers reach a state with two leaders of term 1. *)
Theorem two_leaders_in_one_term :
  exists c, steps (init_cluster 3) split_brain = Some c /\ leads c 0 1 /\ leads c 1 1.
Proof.
  destruct (steps (init_cluster 3) split_brain) as [c|] eqn:E; vm_compute in E; [|discriminate E].
  exists c. split; [done|]. injection E as <-.
  split; eexists; (split; [reflexivity|split; reflexivity]).
Qed.

(** C13.  State machine safety fails as a consequence: two servers announce different
    commands as committed at index 1, both of term 1. *)
Theorem divergent_commits :
  exists c, steps (init_cluster 3) divergence = Some c
    /\ announced c 0 (CommandMsg (Some 10) 1 1) /\ announced c 1 (CommandMsg (Some 20) 1 1).
Proof.
  destruct (steps (init_cluster 3) divergence) as [c|] eqn:E; vm_compute in E; [|discriminate E].
  exists c. split; [done|]. injection E as <-.
  split; eexists; (split; [reflexivity|apply list_elem_of_singleton; reflexivity]).
Qed.

(** ** The commit index of a follower goes backwards

    A follower with five applied entries and a snapshot through index 2 receives a delayed
    heartbeat with an old [LeaderCommit], and then a delayed [InstallSnapshot] for the
    snapshot it already has. *)

Definition five_entries : list (Entry Z) := (fun v => mkEntry 1 (Some v)) <$> [1; 2; 3; 4; 5].

Definition caught_up : list (PeerOp Z) :=
  [ OpAppendEntries (mkAppendEntriesArgs 1 0 0 0 5 five_entries);
    OpApply; OpApply; OpApply; OpApply; OpApply; OpSnapshot 2 [Byte.x00] ].

Definition delayed : list (PeerOp Z) :=
  [ OpAppendEntries (mkAppendEntriesArgs 1 0 2 1 1 []);
    OpInstallSnapshot (mkInstallSnapshotArgs 1 0 2 1 [Byte.x00]) ].


(** ** A reply from an earlier term counts

    Server 0 of five leads term 1 and sends its second entry to server 1; the reply is
    delayed.  Server 2 leads term 2 and overwrites server 0's log.  Server 0 then leads term
    3, with one entry replicated to server 3, when the old reply arrives. *)

Definition peers5 : list Z := [0; 1; 2; 3; 4].

Definition vote_for_0 (t : Z) : PeerOp Z :=
  OpVoteReply (mkElection (mkRequestVoteArgs t 0 0 0) 2 false) (mkRequestVoteReply t true).

Definition old_request : AppendEntriesArgs Z :=
  mkAppendEntriesArgs 1 0 1 1 0 [mkEntry 1 (Some 12)].

Definition reelected : list (PeerOp Z) :=
  [ OpTimeout; vote_for_0 1; OpStart (Some 11); OpStart (Some 12);
    OpAppendEntries (mkAppendEntriesArgs 2 2 0 0 0 [mkEntry 2 (Some 21)]);
    OpTimeout; vote_for_0 3; OpStart (Some 31);
    OpAppendReply 3 (mkAppendEntriesArgs 3 0 1 2 0 [mkEntry 3 (Some 31)])
                    (mkAppendEntriesReply 3 true 0 0) ].

