(* ===== verification/RaftElection.v ===== *)
(** * The cluster invariant, and election safety as far as it holds

    Every server of a reachable cluster satisfies the peer invariant.  Election safety, which
    [RaftFlaws.two_leaders_in_one_term] refutes in general, holds for every execution in which
    no [AppendEntries] resets a vote of its own term: the released vote is the only way to two
    leaders. *)

From S2P Require Import Prelude Persister RaftState RaftRpc RaftLeader RaftInv RaftAppend.
From S2P Require Import RaftPeer RaftOps RaftProps RaftReplication RaftNet.

Section RaftElection.
Context {Cmd : Type} `{Gob (Persisted Cmd)} `{!GobLaws (Persisted Cmd)}.
Implicit Types (c : Cluster Cmd) (rf : Raft Cmd) (nd : Node Cmd) (net : list (Flight Cmd)).

(** ** Well-formed clusters *)

Definition flight_ok (n : Z) (m : Flight Cmd) : Prop :=
  match m with
  | AppReq _ _ dst args | AppRep _ _ dst args _ => 0 <= dst < n /\ 0 <= aea_LeaderCommit args
  | SnapReq _ _ dst args | SnapRep _ _ dst args _ =>
      0 <= dst < n /\ 0 <= isa_LastIncludedIndex args
  | _ => True
  end.

Definition node_ok (n i : Z) nd : Prop :=
  raft_wf (nd_peer nd) /\ me (nd_peer nd) = i /\ zlen (peers (nd_peer nd)) = n.

Record cluster_wf c : Prop := {
  cw_nodes : forall i nd, slice_get (cl_nodes c) i = Some nd -> node_ok (zlen (cl_nodes c)) i nd;
  cw_net : Forall (flight_ok (zlen (cl_nodes c))) (cl_net c);
}.

Lemma update_peer_inv i rf out msgs c c' :
  update_peer i rf out msgs c = Some c' ->
  exists nd, slice_get (cl_nodes c) i = Some nd
    /\ cl_nodes c' = <[Z.to_nat i := mkNode (nd_inc nd) rf (nd_applied nd ++ out)]> (cl_nodes c)
    /\ cl_elections c' = cl_elections c /\ cl_net c' = cl_net c ++ msgs.
Proof.
  unfold update_peer, set_node. intros Hr. go_bind Hr. exists x. split; [done|].
  apply bind_Some in Hr as (c1 & Hc1 & Hr). go_bind Hc1. apply slice_set_inv in E0 as [_ ->].
  by simplify_eq/=.
Qed.

(** ** The votes of a run

    A vote is the voter, the term and the candidate; [StartElection] votes for itself. *)

Definition vote_given (voter : Z) (args : RequestVoteArgs) (reply : RequestVoteReply)
    : list (Z * Z * Z) :=
  if rvr_VoteGranted reply then [(voter, rva_Term args, rva_CandidateId args)] else [].

Definition vote_cast c (ev : Event Cmd) : list (Z * Z * Z) :=
  match ev with
  | EvTimeout i =>
      match slice_get (cl_nodes c) i with
      | Some nd =>
          match ticker_timeout (nd_peer nd) with
          | Some (_, Some el) => [(i, rva_Term (el_args el), rva_CandidateId (el_args el))]
          | _ => []
          end
      | None => []
      end
  | EvDeliver k =>
      match cl_net c !! k with
      | Some (VoteReq _ _ _ dst args) =>
          match nd ← slice_get (cl_nodes c) dst; RequestVote (nd_peer nd) args with
          | Some (_, reply) => vote_given dst args reply
          | None => []
          end
      | _ => []
      end
  | _ => []
  end.

Fixpoint votes_cast c (evs : list (Event Cmd)) : list (Z * Z * Z) :=
  match evs with
  | [] => []
  | ev :: evs => vote_cast c ev ++ (if step c ev is Some c' then votes_cast c' evs else [])
  end.

(** ** One event, seen from the protocol

    [moved c i op c'] : server [i] ran [op]; elections and messages are described apart. *)

Definition moved c (i : Z) (op : PeerOp Cmd) c' : Prop :=
  exists nd nd',
    slice_get (cl_nodes c) i = Some nd
    /\ cl_nodes c' = <[Z.to_nat i := nd']> (cl_nodes c)
    /\ run_op (nd_peer nd) op = Some (nd_peer nd').

Definition vote_slot (m : Flight Cmd) : option (nat * Z) :=
  match m with
  | VoteReq _ _ el dst _ | VoteRep _ _ el dst _ => Some (el, dst)
  | _ => None
  end.

(** Operations that neither give a vote nor count one. *)
Definition quiet (op : PeerOp Cmd) : Prop :=
  match op with OpRequestVote _ | OpVoteReply _ _ | OpTimeout => False | _ => True end.

(** [trans c c' vs]: the cluster goes from [c] to [c'], casting the votes [vs]. *)
Inductive trans c c' : list (Z * Z * Z) -> Prop :=
  | T_silent :
      cl_nodes c' = cl_nodes c -> cl_elections c' = cl_elections c ->
      cl_net c' = cl_net c \/ (exists k, cl_net c' = delete k (cl_net c)) -> trans c c' []
  | T_quiet i op net msgs :
      moved c i op c' -> quiet op -> op_ok (zlen (cl_nodes c)) op \/ (exists s, op = OpBroadcast s) ->
      (forall args, op = OpAppendEntries args ->
         exists k src inc, cl_net c !! k = Some (AppReq src inc i args)) ->
      cl_elections c' = cl_elections c ->
      net = cl_net c \/ (exists k, net = delete k (cl_net c)) ->
      cl_net c' = net ++ msgs -> Forall (fun m => vote_slot m = None) msgs ->
      Forall (flight_ok (zlen (cl_nodes c))) msgs -> trans c c' []
  | T_elect i el :
      moved c i OpTimeout c' ->
      (forall nd, slice_get (cl_nodes c) i = Some nd ->
         exists rf', ticker_timeout (nd_peer nd) = Some (rf', Some el)) ->
      cl_elections c' = cl_elections c ++ [el] ->
      (exists inc rf, cl_net c' = cl_net c ++
         ((fun j => VoteReq i inc (length (cl_elections c)) j (el_args el)) <$> other_peers rf)
         /\ me rf = i /\ zlen (peers rf) = zlen (cl_nodes c)) ->
      trans c c' [(i, rva_Term (el_args el), rva_CandidateId (el_args el))]
  | T_vote k src inc el dst args reply :
      cl_net c !! k = Some (VoteReq src inc el dst args) ->
      moved c dst (OpRequestVote args) c' ->
      (forall nd, slice_get (cl_nodes c) dst = Some nd ->
         exists rf', RequestVote (nd_peer nd) args = Some (rf', reply)) ->
      cl_elections c' = cl_elections c ->
      cl_net c' = delete k (cl_net c) ++ [VoteRep src inc el dst reply] ->
      trans c c' (vote_given dst args reply)
  | T_count k src inc el dst reply e e' b :
      cl_net c !! k = Some (VoteRep src inc el dst reply) ->
      moved c src (OpVoteReply e reply) c' ->
      cl_elections c !! el = Some e ->
      (forall nd, slice_get (cl_nodes c) src = Some nd ->
         exists rf', handleRequestVoteReply (nd_peer nd) e reply = Some (rf', e', b)) ->
      cl_elections c' = <[el := e']> (cl_elections c) ->
      cl_net c' = delete k (cl_net c) -> trans c c' [].

(** [slice_get (cl_nodes c) i = Some nd] and an update give [moved]. *)
Lemma moved_update c c0 c' i rf out msgs op nd :
  cl_nodes c0 = cl_nodes c -> slice_get (cl_nodes c) i = Some nd ->
  run_op (nd_peer nd) op = Some rf -> update_peer i rf out msgs c0 = Some c' ->
  moved c i op c' /\ cl_elections c' = cl_elections c0 /\ cl_net c' = cl_net c0 ++ msgs.
Proof.
  intros Hn Hg Hr (nd1 & Hg1 & Hn' & He & Hm)%update_peer_inv. rewrite Hn in *.
  simplify_eq. split; [|done]. do 2 eexists. split_and!; done.
Qed.

Lemma Broadcast_out_ok rf s rf' out :
  raft_wf rf -> BroadcastAppendEntries rf s = Some (rf', out) ->
  match out with
  | SendNothing => True
  | SendAppendEntries args => 0 <= aea_LeaderCommit args /\ 0 <= s < zlen (peers rf)
  | SendInstallSnapshot args => 0 <= isa_LastIncludedIndex args /\ 0 <= s < zlen (peers rf)
  end.
Proof.
  intros [Hs _] Hr. pose proof (sh_commit _ Hs). pose proof (sh_first _ Hs).
  pose proof (sh_next _ Hs). unfold BroadcastAppendEntries in Hr. go_if_in Hr; [by simplify_eq|].
  apply bind_Some in Hr as (nx & Hnx & Hr). apply slice_get_lt in Hnx. cbv beta in Hr.
  apply bind_Some in Hr as (rf1 & Hrf1 & Hr).
  assert (Hf : commitIndex rf1 = commitIndex rf /\ lastIncludedIndex rf1 = lastIncludedIndex rf).
  { by run_branches Hrf1. }
  destruct Hf as [Hf1 Hf2]. run_branches Hr; lia.
Qed.

(** Server [i] of [c] ran [op], with result [Ht]; read off the new cluster from [Hr]. *)
Ltac ran c op Hr Ht Hmv He Hmsg :=
  eapply (moved_update c _ _ _ _ _ _ op) in Hr as (Hmv & He & Hmsg);
    [|done|done|by simpl; rewrite ?Ht].

Lemma deliver_trans c k m c' :
  cl_net c !! k = Some m -> flight_ok (zlen (cl_nodes c)) m ->
  deliver (take_out k c) m = Some c' -> trans c c' (vote_cast c (EvDeliver k)).
Proof.
  intros Hm Hok Hr. simpl. rewrite Hm.
  destruct m; simpl in Hr; apply bind_Some in Hr as (nd & Hg & Hr); simpl;
    try (go_if_in Hr; [simplify_eq; apply T_silent; simpl; eauto|]).
  - apply bind_Some in Hr as ([rf r] & Ht & Hr). simpl in Hg. rewrite Hg. simpl. rewrite Ht.
    ran c (OpRequestVote (Cmd:=Cmd) args) Hr Ht Hmv He Hmsg.
    eapply (T_vote c c' k); eauto. intros nd' Hg'. simplify_eq. eauto.
  - apply bind_Some in Hr as (e & Hel & Hr). apply bind_Some in Hr as ([[rf e'] b] & Ht & Hr).
    ran c (OpVoteReply (Cmd:=Cmd) e reply) Hr Ht Hmv He Hmsg. simpl in Hmsg. rewrite app_nil_r in Hmsg.
    eapply (T_count c c' k); eauto. intros nd' Hg'. simplify_eq. eauto.
  - apply bind_Some in Hr as ([rf r] & Ht & Hr). ran c (OpAppendEntries args) Hr Ht Hmv He Hmsg.
    eapply (T_quiet c c' dst _ (delete k (cl_net c)) [AppRep src inc dst args r] Hmv); eauto;
      try done; try (by repeat constructor).
    + left. apply Hok.
    + intros args' [= <-]. eauto.
  - apply bind_Some in Hr as (rf & Ht & Hr).
    ran c (OpAppendReply dst args reply) Hr Ht Hmv He Hmsg.
    eapply (T_quiet c c' src _ (delete k (cl_net c)) [] Hmv); eauto; try done. left. apply Hok.
  - apply bind_Some in Hr as ([[rf r] o] & Ht & Hr).
    ran c (OpInstallSnapshot (Cmd:=Cmd) args) Hr Ht Hmv He Hmsg.
    eapply (T_quiet c c' dst _ (delete k (cl_net c)) [SnapRep src inc dst args r] Hmv); eauto;
      try done; try (by repeat constructor).
    left. apply Hok.
  - apply bind_Some in Hr as (rf & Ht & Hr).
    ran c (OpInstallReply (Cmd:=Cmd) dst args reply) Hr Ht Hmv He Hmsg.
    eapply (T_quiet c c' src _ (delete k (cl_net c)) [] Hmv); eauto; try done. left. apply Hok.
Qed.

Lemma step_trans c ev c' : cluster_wf c -> step c ev = Some c' -> trans c c' (vote_cast c ev).
Proof.
  intros [Hn Hnet] Hr. destruct ev; simpl in Hr; apply bind_Some in Hr as (nd & Hg & Hr).
  - apply bind_Some in Hr as ([rf oel] & Ht & Hr). simpl. rewrite Hg, Ht.
    destruct oel as [el|]; [|simplify_eq; by apply T_silent; auto].
    ran c (@OpTimeout Cmd) Hr Ht Hmv He Hmsg. eapply (T_elect c c' i el); [done| |done|].
    + intros nd' Hg'. simplify_eq. eauto.
    + do 2 eexists. split; [done|].
      pose proof (ticker_timeout_evolves _ _ _ Ht) as (-> & -> & _). by apply Hn.
  - go_if_in Hr; [done|]. apply bind_Some in Hr as ([rf out] & Ht & Hr).
    destruct (Hn _ _ Hg) as (Hwf & _ & Hlen).
    pose proof (Broadcast_out_ok _ _ _ _ Hwf Ht) as Hout. rewrite Hlen in Hout.
    ran c (OpBroadcast (Cmd:=Cmd) server) Hr Ht Hmv He Hmsg.
    eapply (T_quiet c c' i _ (cl_net c) _ Hmv); eauto; try done.
    + destruct out; repeat constructor.
    + destruct out; repeat constructor; simpl; lia.
  - apply bind_Some in Hr as ([rf r] & Ht & Hr). ran c (OpStart command) Hr Ht Hmv He Hmsg.
    eapply (T_quiet c c' i _ (cl_net c) _ Hmv); eauto; try done. by left.
  - apply bind_Some in Hr as ([rf r] & Ht & Hr). ran c (@OpApply Cmd) Hr Ht Hmv He Hmsg.
    eapply (T_quiet c c' i _ (cl_net c) _ Hmv); eauto; try done. by left.
  - apply bind_Some in Hr as (rf & Ht & Hr).
    ran c (OpSnapshot (Cmd:=Cmd) index snap) Hr Ht Hmv He Hmsg.
    eapply (T_quiet c c' i _ (cl_net c) _ Hmv); eauto; try done. by left.
  - unfold set_node in Hr. go_bind Hr. simplify_eq. apply slice_set_inv in E as [_ ->].
    eapply (T_quiet c _ i OpRestart (cl_net c) []); simpl; rewrite ?app_nil_r; eauto; try done.
    do 2 eexists. split_and!; done.
  - eapply deliver_trans; eauto. by eapply Forall_lookup_1.
  - simplify_eq. apply T_silent; simpl; eauto.
Qed.

(** ** The invariant of well-formedness *)

Lemma Broadcast_keeps_wf rf s rf' out :
  raft_wf rf -> BroadcastAppendEntries rf s = Some (rf', out) -> raft_wf rf'.
Proof.
  intros Hwf Hr. pose proof (sh_next _ (wf_shape _ Hwf)). unfold BroadcastAppendEntries in Hr.
  run_branches Hr; try done.
  all: match goal with E : slice_set _ _ _ = Some _ |- _ => apply slice_set_inv in E as [_ ->] end.
  all: apply wf_set_nextIndex; [by rewrite zlen_insert|done].
Qed.

Lemma run_op_keeps_wf rf op rf' :
  raft_wf rf -> op_ok (zlen (peers rf)) op \/ (exists s, op = OpBroadcast s) ->
  run_op rf op = Some rf' -> raft_wf rf'.
Proof.
  intros Hwf [Hok|[s ->]] Hr.
  - destruct (run_op_wf rf op Hwf Hok) as (rf1 & Hr1 & ?). by simplify_eq.
  - simpl in Hr. apply fmap_Some in Hr as ([rf1 out] & Hr & ->). by eapply Broadcast_keeps_wf.
Qed.

Lemma moved_nodes_ok c i op c' :
  cluster_wf c -> op_ok (zlen (cl_nodes c)) op \/ (exists s, op = OpBroadcast s) ->
  moved c i op c' ->
  zlen (cl_nodes c') = zlen (cl_nodes c)
  /\ forall j nd, slice_get (cl_nodes c') j = Some nd -> node_ok (zlen (cl_nodes c)) j nd.
Proof.
  intros [Hn _] Hok (nd & nd' & Hg & -> & Hr). rewrite zlen_insert. split; [done|].
  intros j nd1 Hj. apply slice_get_insert in Hj as [[<- <-]|[_ Hj]];
    [|by apply Hn|apply slice_get_lt in Hg; lia].
  destruct (Hn i nd Hg) as (Hwf & Hme & Hpe).
  pose proof (run_op_evolves _ _ _ (wf_durable _ Hwf) Hr) as (Hpe' & Hme' & _).
  split_and!; [|congruence|congruence].
  eapply run_op_keeps_wf; [exact Hwf| |exact Hr]. by rewrite Hpe.
Qed.

Lemma trans_wf c c' vs : cluster_wf c -> trans c c' vs -> cluster_wf c'.
Proof.
  intros Hwf Ht. pose proof (cw_net _ Hwf) as Hnet.
  destruct Ht as [Hns _ Hms | i op net msgs Hmv _ Hok _ _ Hk Hms _ Hmsg
    | i el Hmv _ _ (inc & rf & Hms & _) | k src inc el dst args reply _ Hmv _ _ Hms
    | k src inc el dst reply e e' b _ Hmv _ _ _ Hms].
  - destruct Hwf as [Hn _]. split; rewrite Hns; [done|].
    destruct Hms as [->|[k ->]]; auto using Forall_delete.
  - destruct (moved_nodes_ok c i op c' Hwf Hok Hmv) as [Hz Hn].
    split; rewrite Hz; [done|]. rewrite Hms. apply Forall_app. split; [|done].
    destruct Hk as [->|[k ->]]; auto using Forall_delete.
  - destruct (moved_nodes_ok c i OpTimeout c' Hwf ltac:(by left) Hmv) as [Hz Hn].
    split; rewrite Hz; [done|]. rewrite Hms. apply Forall_app. split; [done|].
    apply Forall_fmap, Forall_true. done.
  - destruct (moved_nodes_ok c dst (OpRequestVote args) c' Hwf ltac:(by left) Hmv) as [Hz Hn].
    split; rewrite Hz; [done|]. rewrite Hms. apply Forall_app.
    split; [by apply Forall_delete|]. by constructor.
  - destruct (moved_nodes_ok c src (OpVoteReply e reply) c' Hwf ltac:(by left) Hmv) as [Hz Hn].
    split; rewrite Hz; [done|]. rewrite Hms. by apply Forall_delete.
Qed.

Lemma init_cluster_wf n : cluster_wf (init_cluster (Cmd:=Cmd) n).
Proof.
  split; [|constructor]. intros i nd [Hi Hg]%slice_get_Some. simpl in Hg.
  rewrite !list_lookup_fmap in Hg. apply fmap_Some in Hg as (z & Hz & ->).
  apply fmap_Some in Hz as (k & [-> Hk]%lookup_seq & ->). simpl.
  assert (Hlen : zlen (Z.of_nat <$> seq 0 n) = Z.of_nat n).
  { unfold zlen. by rewrite length_fmap, length_seq. }
  unfold node_ok. simpl. split_and!.
  - apply Make_fresh_wf. rewrite Hlen. lia.
  - lia.
  - unfold zlen. by rewrite !length_fmap.
Qed.

Lemma steps_wf c evs c' : cluster_wf c -> steps c evs = Some c' -> cluster_wf c'.
Proof.
  intros Hwf Hr.
  apply (run_steps_ind step cluster_wf (fun _ => True) c evs c'); [|done|by apply Forall_true|done].
  intros c1 ev c2 H1 _ H2. eapply trans_wf; [done|]. by eapply step_trans.
Qed.

(** In every state a cluster can reach, every server satisfies the peer invariant: the
    indices it computes with stay inside its log and its disk holds its persistent fields, with
    messages lost, delayed and reordered and servers crashing at any point. *)
Theorem cluster_invariant (n : nat) (evs : list (Event Cmd)) (c : Cluster Cmd) (i : Z)
    (nd : Node Cmd) :
  steps (init_cluster n) evs = Some c -> slice_get (cl_nodes c) i = Some nd ->
  raft_wf (nd_peer nd) /\ me (nd_peer nd) = i
  /\ zlen (peers (nd_peer nd)) = zlen (cl_nodes c).
Proof.
  intros Hr Hg. apply (steps_wf _ _ _ (init_cluster_wf n)) in Hr as [Hn _]. by apply Hn.
Qed.
End RaftElection.

Lemma cluster_invariant_witness :
  exists c nd, steps (init_cluster 3) [EvTimeout 0; EvDeliver 1; EvCrash (Cmd:=Z) 2] = Some c
    /\ slice_get (cl_nodes c) 2 = Some nd /\ raft_wf (nd_peer nd).
Proof.
  destruct (steps (init_cluster 3) [EvTimeout 0; EvDeliver 1; EvCrash (Cmd:=Z) 2]) as [c|] eqn:E;
    [|vm_compute in E; discriminate E].
  destruct (slice_get (cl_nodes c) 2) as [nd|] eqn:G;
    [|vm_compute in E; injection E as <-; vm_compute in G; discriminate G].
  exists c, nd. split; [reflexivity|]. split; [exact G|].
  exact (proj1 (cluster_invariant 3 _ c 2 nd E G)).
Defined.
