(* ===== verification/ElectionSafety.v ===== *)
(** * Election safety of a Raft cluster

    [RaftFlaws.two_leaders_in_one_term] shows two leaders of one term; it needs a server that
    votes twice.  Here the rest of the election is proved correct: with the messages lost,
    delayed and reordered and the servers crashing, the bookkeeping of [StartElection] and of
    the reply goroutines elects at most one leader per term as long as no server votes for two
    candidates of that term.  A vote is counted at most once, only for the election that asked
    for it, and two majorities meet. *)

From stdpp Require Import functions.
From S2P Require Import Prelude Persister RaftState RaftRpc RaftLeader RaftInv RaftAppend.
From S2P Require Import RaftPeer RaftOps RaftProps RaftReplication RaftNet RaftElection.

Section ElectionSafety.
Context {Cmd : Type} `{Gob (Persisted Cmd)} `{!GobLaws (Persisted Cmd)}.
Implicit Types (c : Cluster Cmd) (rf : Raft Cmd) (nd : Node Cmd) (net : list (Flight Cmd)).
Implicit Types (els : list Election) (V : nat -> gset Z) (votes : list (Z * Z * Z)).

(** ** How a peer becomes a leader *)

Lemma AppendEntries_leader rf args rf' reply :
  AppendEntries rf args = Some (rf', reply) -> state rf' = Leader -> rf' = rf.
Proof.
  unfold AppendEntries. intros Hr Hl. go_if_in Hr; [by simplify_eq|].
  set (rf1 := set_heartbeatCh _ _) in Hr.
  assert (Hf : state rf1 = Follower) by done. clearbody rf1.
  run_branches Hr; try congruence.
  all: try match goal with E : reconcile _ _ _ = Some _ |- _ => apply reconcile_role in E end.
  all: unfold follow_commit in Hl; go_if_in Hl; simpl in Hl; congruence.
Qed.

Lemma quiet_leader rf op rf' :
  quiet op -> run_op rf op = Some rf' -> state rf' = Leader ->
  state rf = Leader /\ currentTerm rf' = currentTerm rf.
Proof.
  intros Hq Hr Hl. destruct op; simpl in *; try done;
    try (apply fmap_Some in Hr as (x & Hr & ->); destruct_outcome x; simpl in Hl).
  - apply AppendEntries_leader in Hr; [|done]. by subst.
  - unfold InstallSnapshot in Hr. run_branches Hr; done.
  - by simplify_eq.
  - unfold Start in Hr. run_branches Hr; done.
  - unfold BroadcastAppendEntries in Hr. run_branches Hr; done.
  - unfold handleAppendEntriesReply in Hr. run_branches Hr; try done.
    apply commit_role in Hr as [??]. simpl in *. by split; congruence.
  - unfold handleInstallSnapshotReply in Hr. run_branches Hr; done.
  - unfold Snapshot in Hr. run_branches Hr; repeat (go_if_in Hl || go_if); done.
  - unfold applier in Hr. run_branches Hr; done.
  - by simplify_eq.
  - simplify_eq. by destruct (Make_frame (peers rf) (me rf) (persister rf)) as (_ & _ & _ & _ & _ & _ & ?);
      unfold restart in Hl; congruence.
Qed.

Lemma RequestVote_leader rf args rf' reply :
  RequestVote rf args = Some (rf', reply) -> state rf' = Leader -> rf' = rf.
Proof. unfold RequestVote. intros Hr Hl. by run_branches Hr. Qed.

Lemma handleRequestVoteReply_spec rf el reply rf' el' won :
  handleRequestVoteReply rf el reply = Some (rf', el', won) ->
  el_args el' = el_args el
  /\ el_votes el' <= el_votes el + (if rvr_VoteGranted reply then 1 else 0)
  /\ (state rf' = Leader ->
        rf' = rf
        \/ currentTerm rf' = rva_Term (el_args el) /\ Z.quot (zlen (peers rf)) 2 < el_votes el').
Proof.
  unfold handleRequestVoteReply. intros Hr.
  go_if_in Hr; [simplify_eq/=; split_and!; try done; [go_if; lia|by left]|].
  go_if_in Hr; [simplify_eq/=; split_and!; try done; go_if; lia|].
  destruct (rvr_VoteGranted reply); [|simplify_eq/=; split_and!; try done; [lia|by left]].
  simpl in Hr. go_if_in Hr; [|simplify_eq/=; split_and!; try done; by left].
  go_if_in Hr; [simplify_eq/=; split_and!; try done; by left|].
  apply bind_Some in Hr as (rf1 & Hb & Hr). apply become_leader_evolves in Hb as Hev.
  simplify_eq/=. split_and!; try done. intros _. right. split; [|done].
  unfold become_leader in Hb. go_bind Hb. by simplify_eq.
Qed.

(** ** The invariant

    [V e] is the set of servers whose votes election [e] has counted or may still count. *)

Definition args_of els (e : nat) : option RequestVoteArgs := el_args <$> els !! e.

Definition msg_ok els votes V (n : Z) (m : Flight Cmd) : Prop :=
  match m with
  | VoteReq src _ e dst args =>
      args_of els e = Some args /\ rva_CandidateId args = src /\ (dst ∉ V e) /\ 0 <= dst < n
  | VoteRep src _ e dst reply =>
      (dst ∉ V e) /\ 0 <= dst < n /\ exists args,
        args_of els e = Some args /\ rva_CandidateId args = src
        /\ (rvr_VoteGranted reply = true -> (dst, rva_Term args, rva_CandidateId args) ∈ votes)
  | _ => True
  end.

Definition election_ok votes V (n : Z) (e : nat) (el : Election) : Prop :=
  el_votes el <= Z.of_nat (size (V e))
  /\ forall v, v ∈ V e ->
       0 <= v < n /\ (v, rva_Term (el_args el), rva_CandidateId (el_args el)) ∈ votes.

Definition leader_ok els V (n : Z) (i : Z) nd : Prop :=
  state (nd_peer nd) = Leader ->
  exists e args, args_of els e = Some args /\ rva_Term args = currentTerm (nd_peer nd)
    /\ rva_CandidateId args = i /\ Z.quot n 2 < Z.of_nat (size (V e)).

Record es_inv c votes V : Prop := {
  ei_wf : cluster_wf c;
  ei_els : forall e el, cl_elections c !! e = Some el ->
             election_ok votes V (zlen (cl_nodes c)) e el;
  ei_slots : NoDup (omap vote_slot (cl_net c));
  ei_msgs : Forall (msg_ok (cl_elections c) votes V (zlen (cl_nodes c))) (cl_net c);
  ei_lead : forall i nd, slice_get (cl_nodes c) i = Some nd ->
              leader_ok (cl_elections c) V (zlen (cl_nodes c)) i nd;
}.

Lemma msg_ok_mono els els' votes votes' V n m :
  (forall e a, args_of els e = Some a -> args_of els' e = Some a) -> votes ⊆ votes' ->
  msg_ok els votes V n m -> msg_ok els' votes' V n m.
Proof.
  intros He Hv. destruct m; simpl; try done; [by intros (?%He & ?)|].
  intros (? & ? & args & ? & ? & ?). split; [done|]. split; [done|]. exists args. set_solver.
Qed.

Lemma election_ok_mono votes votes' V n e el :
  votes ⊆ votes' -> election_ok votes V n e el -> election_ok votes' V n e el.
Proof. intros Hv [? Hall]. split; [done|]. intros v Hin. destruct (Hall v Hin). set_solver. Qed.

Lemma msg_ok_slot els votes V V' n m :
  (forall e d, vote_slot m = Some (e, d) -> is_Some (args_of els e) -> d ∉ V e -> d ∉ V' e) ->
  msg_ok els votes V n m -> msg_ok els votes V' n m.
Proof.
  intros HV. destruct m; simpl in *; try done.
  - intros (Ha & ? & ? & ?). split_and!; try done; try lia. eapply HV; eauto.
  - intros (? & ? & args & Ha & ?). split; [eapply HV; eauto|]. split; [done|]. eauto.
Qed.

(** A leader after the step was a leader of the same term before it. *)
Lemma leaders_kept c c' i nd nd' els' V :
  (forall j x, slice_get (cl_nodes c) j = Some x ->
     leader_ok (cl_elections c) V (zlen (cl_nodes c)) j x) ->
  slice_get (cl_nodes c) i = Some nd -> cl_nodes c' = <[Z.to_nat i := nd']> (cl_nodes c) ->
  (forall e a, args_of (cl_elections c) e = Some a -> args_of els' e = Some a) ->
  (state (nd_peer nd') = Leader ->
     state (nd_peer nd) = Leader /\ currentTerm (nd_peer nd') = currentTerm (nd_peer nd)) ->
  forall j x, slice_get (cl_nodes c') j = Some x -> leader_ok els' V (zlen (cl_nodes c)) j x.
Proof.
  intros Hold Hg Hn Hels Hst j x Hx. rewrite Hn in Hx.
  pose proof (slice_get_lt _ _ _ Hg) as Hi.
  apply slice_get_insert in Hx as [[<- <-]|[_ Hx]]; [| |lia].
  - intros Hl. destruct (Hst Hl) as [Hl' ->].
    destruct (Hold i nd Hg Hl') as (e & a & ? & ? & ? & ?). eauto 10.
  - intros Hl. destruct (Hold j x Hx Hl) as (e & a & ? & ? & ? & ?). eauto 10.
Qed.

Lemma es_silent c c' votes V :
  es_inv c votes V -> cluster_wf c' ->
  cl_nodes c' = cl_nodes c -> cl_elections c' = cl_elections c ->
  cl_net c' = cl_net c \/ (exists k, cl_net c' = delete k (cl_net c)) -> es_inv c' votes V.
Proof.
  intros [_ Hels Hsl Hms Hl] Hwf Hn He Hnet. constructor; rewrite ?Hn, ?He; try done.
  - destruct Hnet as [->|[k ->]]; auto using NoDup_omap_delete.
  - destruct Hnet as [->|[k ->]]; auto using Forall_delete.
Qed.

Lemma es_quiet c c' votes V i op net msgs :
  es_inv c votes V -> cluster_wf c' -> moved c i op c' -> quiet op ->
  cl_elections c' = cl_elections c ->
  net = cl_net c \/ (exists k, net = delete k (cl_net c)) ->
  cl_net c' = net ++ msgs -> Forall (fun m => vote_slot m = None) msgs -> es_inv c' votes V.
Proof.
  intros [_ Hels Hsl Hms Hl] Hwf (nd & nd' & Hg & Hn & Hr) Hq He Hnet Hm Hno.
  assert (Hz : zlen (cl_nodes c') = zlen (cl_nodes c)) by (rewrite Hn; apply zlen_insert).
  assert (Hom : omap vote_slot msgs = []).
  { clear -Hno. induction Hno as [|m msgs Hm _ IH]; simpl; [done|]. by rewrite Hm. }
  constructor; rewrite ?Hz, ?He, ?Hm; try done.
  - rewrite omap_app, Hom, app_nil_r. destruct Hnet as [->|[k ->]]; auto using NoDup_omap_delete.
  - apply Forall_app. split; [destruct Hnet as [->|[k ->]]; auto using Forall_delete|].
    eapply Forall_impl; [exact Hno|]. by intros [].
  - eapply leaders_kept; eauto using quiet_leader.
Qed.

Lemma es_vote c c' votes V k src inc el dst args reply :
  es_inv c votes V -> cluster_wf c' ->
  cl_net c !! k = Some (VoteReq src inc el dst args) ->
  moved c dst (OpRequestVote args) c' -> cl_elections c' = cl_elections c ->
  cl_net c' = delete k (cl_net c) ++ [VoteRep src inc el dst reply] ->
  es_inv c' (votes ++ vote_given dst args reply) V.
Proof.
  intros [_ Hels Hsl Hms Hl] Hwf Hk (nd & nd' & Hg & Hn & Hr) He Hm.
  assert (Hz : zlen (cl_nodes c') = zlen (cl_nodes c)) by (rewrite Hn; apply zlen_insert).
  assert (Hsub : votes ⊆ votes ++ vote_given dst args reply) by set_solver.
  constructor; rewrite ?Hz, ?He, ?Hm; try done.
  - eauto using election_ok_mono.
  - rewrite omap_app. simpl. rewrite (omap_delete_perm _ _ _ _ Hk) in Hsl. simpl in Hsl.
    by rewrite (Permutation_app_comm _ [(el, dst)]).
  - apply Forall_app. split.
    + eapply Forall_impl; [by apply Forall_delete|]. simpl. intros m. by apply msg_ok_mono.
    + constructor; [|done]. pose proof (Forall_lookup_1 _ _ _ _ Hms Hk) as (Ha & Hc & Hd & Hr').
      simpl. split_and!; try done; try lia. exists args. split_and!; try done.
      intros Hgr. unfold vote_given. rewrite Hgr. set_solver.
  - eapply leaders_kept; eauto. simpl in Hr. apply fmap_Some in Hr as ([rf1 r1] & Hr & Hrf).
    simpl in Hrf. rewrite Hrf. intros Hs. by apply RequestVote_leader in Hr; [subst|].
Qed.

Lemma args_of_snoc els el e a : args_of els e = Some a -> args_of (els ++ [el]) e = Some a.
Proof.
  unfold args_of. intros Ha. apply fmap_Some in Ha as (x & Hx & ->).
  by rewrite (lookup_app_l_Some _ _ _ _ Hx).
Qed.

Lemma args_of_insert els k el el' e :
  els !! k = Some el -> el_args el' = el_args el -> args_of (<[k := el']> els) e = args_of els e.
Proof.
  intros Hk Ha. unfold args_of. destruct (decide (e = k)) as [->|].
  - rewrite list_lookup_insert_eq by eauto using lookup_lt_Some. rewrite Hk. simpl. by rewrite Ha.
  - by rewrite list_lookup_insert_ne.
Qed.

Lemma other_peers_NoDup rf : NoDup (other_peers rf).
Proof. apply NoDup_filter, NoDup_fmap_2; [exact _|]. apply NoDup_seq. Qed.

Lemma other_peers_elem rf j : j ∈ other_peers rf -> j <> me rf /\ 0 <= j < zlen (peers rf).
Proof.
  unfold other_peers. rewrite list_elem_of_filter, list_elem_of_fmap.
  intros [? (k & -> & Hk%elem_of_seq)]. unfold zlen. split; [done|lia].
Qed.

Lemma ticker_elects rf rf' el :
  ticker_timeout rf = Some (rf', Some el) ->
  state rf' = Candidate /\ el_votes el = 1 /\ rva_CandidateId (el_args el) = me rf
  /\ peers rf' = peers rf.
Proof. unfold ticker_timeout, StartElection. intros Hr. by run_branches Hr. Qed.

Lemma omap_fmap_slots i inc id args (l : list Z) :
  omap vote_slot ((fun j => VoteReq (Cmd:=Cmd) i inc id j args) <$> l) = pair id <$> l.
Proof. induction l as [|j l IH]; [done|]. csimpl. by f_equal. Qed.

(** The slots of a new election are new. *)
Lemma elect_slots els votes V n net i inc rf args :
  NoDup (omap vote_slot net) -> Forall (msg_ok els votes V n) net ->
  NoDup (omap vote_slot
    (net ++ ((fun j => VoteReq (Cmd:=Cmd) i inc (length els) j args) <$> other_peers rf))).
Proof.
  intros Hsl Hms. rewrite omap_app, omap_fmap_slots. apply NoDup_app. split; [done|]. split.
  - intros [e d] Hin Hin'. apply list_elem_of_omap in Hin as (m & Hm' & Hslot).
    apply list_elem_of_fmap in Hin' as (j & [= -> ->] & _).
    rewrite Forall_forall in Hms. specialize (Hms m Hm').
    assert (Hs : is_Some (args_of els (length els))).
    { destruct m; simplify_eq/=; [destruct Hms; eauto|destruct Hms as (_ & _ & a & ? & _); eauto]. }
    destruct Hs as [a (x & Hx%lookup_lt_Some & _)%fmap_Some]. lia.
  - apply NoDup_fmap_2; [|apply other_peers_NoDup]. intros x y. by intros [=].
Qed.

Lemma es_elect c c' votes V i el inc rf :
  es_inv c votes V -> cluster_wf c' -> moved c i OpTimeout c' ->
  (forall nd, slice_get (cl_nodes c) i = Some nd ->
     exists rf', ticker_timeout (nd_peer nd) = Some (rf', Some el)) ->
  cl_elections c' = cl_elections c ++ [el] ->
  cl_net c' = cl_net c ++
    ((fun j => VoteReq i inc (length (cl_elections c)) j (el_args el)) <$> other_peers rf) ->
  me rf = i -> zlen (peers rf) = zlen (cl_nodes c) ->
  es_inv c' (votes ++ [(i, rva_Term (el_args el), rva_CandidateId (el_args el))])
    (<[length (cl_elections c) := {[i]}]> V).
Proof.
  intros [Hwf0 Hels Hsl Hms Hl] Hwf (nd & nd' & Hg & Hn & Hr) Ht He Hm Hme Hpe.
  assert (Hz : zlen (cl_nodes c') = zlen (cl_nodes c)) by (rewrite Hn; apply zlen_insert).
  set (id := length (cl_elections c)) in *.
  destruct (Ht nd Hg) as (rf' & Ht'). destruct (ticker_elects _ _ _ Ht') as (Hst & Hv & Hc & _).
  destruct (cw_nodes _ Hwf0 _ _ Hg) as (_ & Hmei & _).
  assert (Hrf' : nd_peer nd' = rf') by (simpl in Hr; rewrite Ht' in Hr; by simplify_eq/=).
  assert (HV : forall e, is_Some (args_of (cl_elections c) e) -> (<[id := {[i]}]> V) e = V e).
  { intros e [a Ha]. apply fn_lookup_insert_ne. intros <-.
    apply fmap_Some in Ha as (x & Hx%lookup_lt_Some & _). lia. }
  pose proof (slice_get_lt _ _ _ Hg) as Hi.
  constructor; rewrite ?Hz, ?He, ?Hm; try done.
  - intros e el0 [[_ Hx]|[-> Hx]]%lookup_snoc_Some.
    + eapply election_ok_mono; [|unfold election_ok; rewrite HV; [by apply Hels|]]; [set_solver|].
      exists (el_args el0). unfold args_of. by rewrite Hx.
    + subst el0. unfold election_ok. fold id. rewrite fn_lookup_insert, size_singleton. split; [lia|].
      intros v ->%elem_of_singleton. split; [lia|]. set_solver.
  - by eapply elect_slots.
  - apply Forall_app. split.
    + eapply Forall_impl; [exact Hms|]. simpl. intros m Hok.
      eapply msg_ok_mono, msg_ok_slot, Hok; [eauto using args_of_snoc|set_solver|].
      intros e d _ Hs. by rewrite HV.
    + apply Forall_fmap, Forall_forall. intros j [Hne Hj]%other_peers_elem. simpl.
      split_and!; try lia; [|rewrite fn_lookup_insert; set_solver].
      unfold args_of, id. by rewrite list_lookup_middle.
  - intros j x Hx. rewrite Hn in Hx.
    apply slice_get_insert in Hx as [[<- <-]|[_ Hx]]; [by unfold leader_ok; rewrite Hrf', Hst| |lia].
    intros Hlead. destruct (Hl j x Hx Hlead) as (e & a & ? & ? & ? & ?). exists e, a.
    rewrite HV by eauto. eauto using args_of_snoc.
Qed.

(** Counting a reply: the voter joins the set if it granted the vote. *)
Definition counted V (e : nat) (dst : Z) (granted : bool) : nat -> gset Z :=
  if granted then <[e := {[dst]} ∪ V e]> V else V.

Lemma counted_size V e dst granted :
  dst ∉ V e ->
  Z.of_nat (size (counted V e dst granted e))
  = Z.of_nat (size (V e)) + (if granted then 1 else 0).
Proof.
  intros Hd. unfold counted. destruct granted; [|lia].
  rewrite fn_lookup_insert, size_union by set_solver. rewrite size_singleton. lia.
Qed.

Lemma counted_mono V e dst granted e' :
  Z.of_nat (size (V e')) <= Z.of_nat (size (counted V e dst granted e')).
Proof.
  unfold counted. destruct granted; [|lia]. destruct (decide (e = e')) as [<-|].
  - rewrite fn_lookup_insert. apply inj_le, subseteq_size. set_solver.
  - by rewrite fn_lookup_insert_ne.
Qed.

Lemma counted_elem V e dst granted e' v :
  v ∈ counted V e dst granted e' -> v ∈ V e' \/ e' = e /\ v = dst /\ granted = true.
Proof.
  unfold counted. destruct granted; [|by left]. destruct (decide (e = e')) as [<-|].
  - rewrite fn_lookup_insert. set_solver.
  - rewrite fn_lookup_insert_ne by done. by left.
Qed.

Lemma counted_els c votes V n k el el' src inc dst reply :
  (forall e x, cl_elections c !! e = Some x -> election_ok votes V n e x) ->
  msg_ok (cl_elections c) votes V n (VoteRep src inc k dst reply) ->
  cl_elections c !! k = Some el -> el_args el' = el_args el ->
  el_votes el' <= el_votes el + (if rvr_VoteGranted reply then 1 else 0) ->
  forall e x, <[k := el']> (cl_elections c) !! e = Some x ->
    election_ok votes (counted V k dst (rvr_VoteGranted reply)) n e x.
Proof.
  intros Hels (Hd & Hdn & args & Ha & Hc & Hgr) Hk Hargs Hv e x Hx.
  assert (Hold : forall x0, cl_elections c !! e = Some x0 -> el_args x = el_args x0 ->
            el_votes x <= Z.of_nat (size (counted V k dst (rvr_VoteGranted reply) e)) ->
            election_ok votes (counted V k dst (rvr_VoteGranted reply)) n e x).
  { intros x0 Hx0 Hax Hvx. split; [done|]. destruct (Hels e x0 Hx0) as [_ Hin].
    rewrite Hax. intros v [Hv'|(-> & -> & Hg)]%counted_elem; [by apply Hin|].
    split; [done|]. unfold args_of in Ha. rewrite Hx0 in Ha. simplify_eq/=. auto. }
  apply list_lookup_insert_Some in Hx as [(<- & <- & _)|[Hne Hx]].
  - apply (Hold el); [done..|]. rewrite counted_size by done. destruct (Hels k el Hk). lia.
  - apply (Hold x); [done..|]. destruct (Hels e x Hx). etrans; [done|apply counted_mono].
Qed.

Lemma leader_counted els els' V n e dst granted j nd :
  (forall i, args_of els' i = args_of els i) ->
  leader_ok els V n j nd -> leader_ok els' (counted V e dst granted) n j nd.
Proof.
  intros Hargs Hy Hst. destruct (Hy Hst) as (i & a & ? & ? & ? & ?). exists i, a. rewrite Hargs.
  pose proof (counted_mono V e dst granted i). split_and!; try done; lia.
Qed.

Lemma es_count c c' votes V k src inc el dst reply e e' b :
  es_inv c votes V -> cluster_wf c' ->
  cl_net c !! k = Some (VoteRep src inc el dst reply) ->
  moved c src (OpVoteReply e reply) c' -> cl_elections c !! el = Some e ->
  (forall nd, slice_get (cl_nodes c) src = Some nd ->
     exists rf', handleRequestVoteReply (nd_peer nd) e reply = Some (rf', e', b)) ->
  cl_elections c' = <[el := e']> (cl_elections c) ->
  cl_net c' = delete k (cl_net c) ->
  es_inv c' votes (counted V el dst (rvr_VoteGranted reply)).
Proof.
  intros [Hwf0 Hels Hsl Hms Hl] Hwf Hk (nd & nd' & Hg & Hn & Hr) Hel Hh He Hm.
  assert (Hz : zlen (cl_nodes c') = zlen (cl_nodes c)) by (rewrite Hn; apply zlen_insert).
  pose proof (Forall_lookup_1 _ _ _ _ Hms Hk) as Hmsg.
  destruct (Hh nd Hg) as (rf' & Hh'). simpl in Hr. rewrite Hh' in Hr. simpl in Hr.
  injection Hr as Hr. destruct (handleRequestVoteReply_spec _ _ _ _ _ _ Hh') as (Ha & Hv & Hlead).
  assert (Hargs : forall i, args_of (<[el := e']> (cl_elections c)) i = args_of (cl_elections c) i).
  { intros i. by eapply args_of_insert. }
  constructor; rewrite ?Hz, ?He, ?Hm; try done.
  - by eapply counted_els.
  - by apply NoDup_omap_delete.
  - rewrite (omap_delete_perm _ _ _ _ Hk) in Hsl. simpl in Hsl. apply NoDup_cons in Hsl as [Hnew _].
    apply (Forall_delete _ _ k) in Hms. rewrite Forall_forall in Hms.
    apply Forall_forall. intros m Hin. pose proof (Hms m Hin) as Hok.
    eapply (msg_ok_mono (cl_elections c)), msg_ok_slot, Hok; [intros ? ? ?; by rewrite Hargs|done|].
    intros e0 d Hs _ Hd [Hd'|(-> & -> & _)]%counted_elem; [done|].
    apply Hnew, list_elem_of_omap. eauto.
  - intros j x Hx. rewrite Hn in Hx. pose proof (slice_get_lt _ _ _ Hg).
    apply slice_get_insert in Hx as [[<- <-]|[_ Hx]]; [|by eapply leader_counted, Hl|lia].
    intros Hst. rewrite Hr in Hlead. destruct (Hlead Hst) as [Hsame|[Ht Hq]].
    { eapply leader_counted; [exact Hargs| |exact Hst]. unfold leader_ok. rewrite Hsame.
      exact (Hl src nd Hg). }
    destruct Hmsg as (Hd & _ & args & Hargs' & Hc & _).
    exists el, args. rewrite Hargs, counted_size by done. split; [done|].
    unfold args_of in Hargs'. rewrite Hel in Hargs'. simpl in Hargs'. injection Hargs' as <-.
    split_and!; [done|done|]. destruct (Hels el e Hel) as [Hsz _].
    destruct (cw_nodes _ Hwf0 _ _ Hg) as (_ & _ & Hpe). rewrite Hpe in Hq. lia.
Qed.

(** ** Preservation and the theorem *)

Lemma es_step c ev c' votes V :
  es_inv c votes V -> step c ev = Some c' ->
  exists V', es_inv c' (votes ++ vote_cast c ev) V'.
Proof.
  intros Hinv Hr. pose proof (ei_wf _ _ _ Hinv) as Hwf0.
  pose proof (step_trans c ev c' Hwf0 Hr) as Ht. pose proof (trans_wf _ _ _ Hwf0 Ht) as Hwf.
  destruct Ht as [Hns He Hms | i op net msgs Hmv Hq _ _ He Hk Hms Hno _
    | i el Hmv Ht He (inc & rf & Hms & Hme & Hpe) | k src inc el dst args reply Hk Hmv _ He Hms
    | k src inc el dst reply e e' b Hk Hmv He Hh He' Hms]; rewrite ?app_nil_r.
  - eauto using es_silent.
  - eauto using es_quiet.
  - eexists. eapply (es_elect _ _ _ _ _ _ inc rf); eauto.
  - eauto using es_vote.
  - eauto using es_count.
Qed.

Lemma es_steps c evs c' votes V :
  es_inv c votes V -> steps c evs = Some c' ->
  exists V', es_inv c' (votes ++ votes_cast c evs) V'.
Proof.
  revert c votes V. induction evs as [|ev evs IH]; intros c votes V Hinv Hr.
  { injection Hr as <-. simpl. rewrite app_nil_r. eauto. }
  rewrite steps_cons in Hr. apply bind_Some in Hr as (c1 & H1 & Hr).
  destruct (es_step c ev c1 votes V Hinv H1) as (V1 & Hinv1).
  destruct (IH c1 _ V1 Hinv1 Hr) as (V2 & Hinv2). exists V2.
  simpl. rewrite H1, app_assoc. done.
Qed.

Lemma es_init n : es_inv (init_cluster (Cmd:=Cmd) n) [] (fun _ => ∅).
Proof.
  constructor; simpl; try done; [apply init_cluster_wf|constructor|].
  intros i nd [_ Hg]%slice_get_Some. rewrite !list_lookup_fmap in Hg.
  apply fmap_Some in Hg as (z & _ & ->). intros Hl. simpl in Hl.
  destruct (Make_frame (Cmd:=Cmd) (Z.of_nat <$> seq 0 n) z MakePersister) as (_ & _ & _ & _ & _ & _ & ?).
  congruence.
Qed.

(** Two majorities of [n] servers have a server in common. *)
Lemma majorities_meet (X Y : gset Z) (n : Z) :
  0 <= n ->
  (forall v, v ∈ X -> 0 <= v < n) -> (forall v, v ∈ Y -> 0 <= v < n) ->
  Z.quot n 2 < Z.of_nat (size X) -> Z.quot n 2 < Z.of_nat (size Y) -> exists v, v ∈ X /\ v ∈ Y.
Proof.
  intros Hn0 HX HY HsX HsY. destruct (set_choose_or_empty (X ∩ Y)) as [[v Hv]|Hd];
    [exists v; set_solver|].
  exfalso. assert (Hn : Z.of_nat (size (X ∪ Y)) <= n).
    { transitivity (Z.of_nat (size (list_to_set (C:=gset Z) (Z.of_nat <$> seq 0 (Z.to_nat n))))).
      - apply inj_le, subseteq_size. intros v Hv. apply elem_of_list_to_set, list_elem_of_fmap.
        assert (0 <= v < n) by set_solver. exists (Z.to_nat v). rewrite elem_of_seq. lia.
      - rewrite size_list_to_set; [|apply NoDup_fmap_2; [exact _|apply NoDup_seq]].
        rewrite length_fmap, length_seq. lia. }
    rewrite size_union in Hn by set_solver.
  pose proof (Z.quot_rem' n 2). pose proof (Z.rem_bound_pos n 2). lia.
Qed.

(** C11.  Election safety, given one vote per term: over any execution, with messages lost,
    delayed and reordered and servers crashing, if no server cast votes for two candidates of
    term [t], then no two servers are leaders of term [t]. *)
Theorem election_safety (n : nat) (evs : list (Event Cmd)) (c : Cluster Cmd) (i j t : Z) :
  steps (init_cluster n) evs = Some c ->
  (forall v x y, (v, t, x) ∈ votes_cast (init_cluster n) evs ->
     (v, t, y) ∈ votes_cast (init_cluster n) evs -> x = y) ->
  leads c i t -> leads c j t -> i = j.
Proof.
  intros Hr Hone (ndi & Hgi & Hli & Hti) (ndj & Hgj & Hlj & Htj).
  destruct (es_steps _ _ _ _ _ (es_init n) Hr) as (V & [_ Hels _ _ Hlead]).
  destruct (Hlead i ndi Hgi Hli) as (e1 & a1 & Ha1 & Ht1 & Hc1 & Hs1).
  destruct (Hlead j ndj Hgj Hlj) as (e2 & a2 & Ha2 & Ht2 & Hc2 & Hs2).
  apply fmap_Some in Ha1 as (E1 & HE1 & ->), Ha2 as (E2 & HE2 & ->).
  destruct (Hels _ _ HE1) as [_ Hin1], (Hels _ _ HE2) as [_ Hin2].
  destruct (majorities_meet (V e1) (V e2) (zlen (cl_nodes c))) as (v & Hv1 & Hv2);
    [apply zlen_nonneg|intros v Hv; by apply Hin1|intros v Hv; by apply Hin2|done..|].
  destruct (Hin1 v Hv1) as [_ Hv1'], (Hin2 v Hv2) as [_ Hv2']. simpl in *.
  rewrite Ht1, Hti, Hc1 in Hv1'. rewrite Ht2, Htj, Hc2 in Hv2'. by eapply Hone.
Qed.
End ElectionSafety.

(** Server 0 of three wins term 1 with the vote of server 2, while server 1 stands too. *)
Definition election3 : list (Event Z) :=
  [ EvTimeout 0; EvTimeout 1; EvDeliver 1; EvDeliver 3 ].

Lemma election_safety_witness :
  exists c, steps (init_cluster 3) election3 = Some c /\ leads c 0 1
    /\ forall j, leads c j 1 -> 0 = j.
Proof.
  destruct (steps (init_cluster 3) election3) as [c|] eqn:E; [|vm_compute in E; discriminate E].
  assert (Hl : leads c 0 1).
  { vm_compute in E. injection E as <-. eexists. split; [reflexivity|split; reflexivity]. }
  exists c. split; [reflexivity|]. split; [exact Hl|]. intros j Hj.
  refine (election_safety 3 election3 c 0 j 1 E _ Hl Hj).
  assert (Hv : votes_cast (init_cluster 3) election3 = [(0, 1, 0); (1, 1, 1); (2, 1, 0)])
    by (vm_compute; reflexivity).
  rewrite Hv. intros v x y Hx Hy.
  apply list_elem_of_In in Hx, Hy. simpl in Hx, Hy.
  destruct Hx as [Hx|[Hx|[Hx|[]]]], Hy as [Hy|[Hy|[Hy|[]]]]; congruence.
Defined.
