(* ===== verification/LogMatching.v ===== *)
(** * Log matching in a Raft cluster

    If no server votes for two candidates of one term, and the services snapshot only indices
    their peers still hold, then two logs that have an entry with the same index and term
    agree on every entry up to it.  [G t] is the log of the leader of term [t] (empty when the
    term has had none); every log, every request in flight and every snapshot in flight is cut
    out of the leaders' logs. *)

From stdpp Require Import functions.
From S2P Require Import Prelude Persister RaftState RaftRpc RaftLeader RaftInv RaftAppend.
From S2P Require Import RaftPeer RaftOps RaftProps RaftReplication RaftLogs RaftNet.
From S2P Require Import RaftElection ElectionSafety.

Section LogMatching.
Context {Cmd : Type} `{Gob (Persisted Cmd)} `{!GobLaws (Persisted Cmd)}.
Implicit Types (c : Cluster Cmd) (rf : Raft Cmd) (nd : Node Cmd) (net : list (Flight Cmd)).
Implicit Types (V : nat -> gset Z) (votes : list (Z * Z * Z)).
Implicit Types (F L : list (Entry Cmd)) (G : Z -> list (Entry Cmd)).

(** ** Logs cut out of the leaders' logs *)

(** Up to each of its entries, [F] is the log of the leader of that entry's term. *)
Definition matches G F : Prop :=
  forall k e, F !! k = Some e -> take (S k) F = take (S k) (G (ent_Term e)).

Definition grows G G' : Prop := forall t, G t `prefix_of` G' t.

Lemma matches_agrees G F L : matches G F -> matches G L -> agrees F L.
Proof.
  intros HF HL k e e' He He' Ht. by rewrite (HF _ _ He), (HL _ _ He'), Ht.
Qed.

Lemma matches_take G F n : matches G F -> matches G (take n F).
Proof.
  intros HF k e He. pose proof (lookup_lt_Some _ _ _ He) as Hk. rewrite length_take in Hk.
  rewrite lookup_take_lt in He by lia. rewrite take_take, Nat.min_l by lia. by apply HF.
Qed.

Lemma matches_term_set G F k e : matches G F -> F !! k = Some e -> G (ent_Term e) <> [].
Proof.
  intros HF He Hn. pose proof (HF k e He) as Ht. rewrite Hn in Ht.
  apply lookup_lt_Some in He. destruct F; simpl in *; [lia|done].
Qed.

Lemma matches_grow G G' F : grows G G' -> matches G F -> matches G' F.
Proof.
  intros Hg HF k e He. pose proof (HF k e He) as Ht. destruct (Hg (ent_Term e)) as [suf ->].
  pose proof (lookup_lt_Some _ _ _ He). pose proof (f_equal length Ht) as Hl.
  rewrite !length_take in Hl. by rewrite take_app_le by lia.
Qed.

(** A log grows by an entry of the term it becomes the log of. *)
Lemma matches_snoc G G' F e :
  grows G G' -> G' (ent_Term e) = F ++ [e] -> matches G F -> matches G' (F ++ [e]).
Proof.
  intros Hg HG HF k x Hx. apply lookup_app_Some in Hx as [Hx|[Hk Hx]].
  - rewrite take_app_le by (apply lookup_lt_Some in Hx; lia).
    exact (matches_grow G G' F Hg HF k x Hx).
  - apply list_lookup_singleton_Some in Hx as [Hk' <-]. by rewrite HG.
Qed.

Lemma span_of_grow G G' t args : grows G G' -> span_of (G t) args -> span_of (G' t) args.
Proof.
  intros Hg (Hp & (e & He & Ht) & Hs). destruct (Hg t) as [suf ->].
  split; [done|]. split.
  - exists e. split; [|done]. by apply lookup_app_l_Some.
  - rewrite drop_app_le by (apply lookup_lt_Some in He; lia). by apply prefix_app_r.
Qed.

(** ** Elected leaders *)

Definition elected (n : Z) votes (t i : Z) : Prop :=
  exists X : gset Z, Z.quot n 2 < Z.of_nat (size X)
    /\ forall v, v ∈ X -> 0 <= v < n /\ (v, t, i) ∈ votes.

Definition one_vote votes : Prop :=
  forall v t x y, (v, t, x) ∈ votes -> (v, t, y) ∈ votes -> x = y.

Lemma one_vote_mono votes votes' : votes ⊆ votes' -> one_vote votes' -> one_vote votes.
Proof. intros Hv Hone v t x y Hx Hy. eapply Hone; by apply Hv. Qed.

Lemma elected_mono n votes votes' t i : votes ⊆ votes' -> elected n votes t i -> elected n votes' t i.
Proof. intros Hv (X & ? & HX). exists X. split; [done|]. intros v ?%HX. set_solver. Qed.

Lemma elected_unique n votes t i j :
  0 <= n -> one_vote votes -> elected n votes t i -> elected n votes t j -> i = j.
Proof.
  intros Hn Hone (X & HX & HX') (Y & HY & HY').
  destruct (majorities_meet X Y n) as (v & Hv1 & Hv2); [done|naive_solver..|].
  eapply Hone; [by apply HX'|by apply HY'].
Qed.

Lemma es_elected c votes V i nd :
  es_inv c votes V -> slice_get (cl_nodes c) i = Some nd -> state (nd_peer nd) = Leader ->
  elected (zlen (cl_nodes c)) votes (currentTerm (nd_peer nd)) i.
Proof.
  intros [_ Hels _ _ Hlead] Hg Hl. destruct (Hlead i nd Hg Hl) as (e & a & Ha & Ht & Hc & Hs).
  apply fmap_Some in Ha as (E & HE & ->). destruct (Hels _ _ HE) as [_ Hin].
  exists (V e). split; [done|]. intros v Hv. rewrite <- Ht, <- Hc. by apply Hin.
Qed.

(** ** The invariant *)

(** Server [i] can no longer win term [t]. *)
Definition past c (i t : Z) : Prop :=
  exists nd, slice_get (cl_nodes c) i = Some nd
    /\ t <= currentTerm (nd_peer nd)
    /\ (state (nd_peer nd) = Candidate -> t < currentTerm (nd_peer nd)).

Definition node_log G rf : Prop :=
  (state rf <> Follower -> 0 < currentTerm rf)
  /\ exists F, holds rf F /\ matches G F /\ (state rf = Leader -> G (currentTerm rf) = F).

Definition flight_log G votes (n : Z) (m : Flight Cmd) : Prop :=
  match m with
  | AppReq _ _ _ args => span_of (G (aea_Term args)) args
  | SnapReq src _ dst args =>
      src <> dst /\ elected n votes (isa_Term args) src
      /\ exists e, G (isa_Term args) !! Z.to_nat (isa_LastIncludedIndex args) = Some e
           /\ ent_Term e = isa_LastIncludedTerm args
  | _ => True
  end.

Record lm_inv c votes G : Prop := {
  lm_zero : G 0 = [mkEntry 0 None];
  lm_leaders : forall t, matches G (G t);
  lm_won : forall t, G t <> [] ->
             t = 0 \/ exists i, elected (zlen (cl_nodes c)) votes t i /\ past c i t;
  lm_nodes : forall i nd, slice_get (cl_nodes c) i = Some nd -> node_log G (nd_peer nd);
  lm_net : Forall (flight_log G votes (zlen (cl_nodes c))) (cl_net c);
}.

Lemma flight_log_mono G G' votes votes' n m :
  grows G G' -> votes ⊆ votes' -> flight_log G votes n m -> flight_log G' votes' n m.
Proof.
  intros Hg Hv. destruct m; simpl; try done; [by apply span_of_grow|].
  intros (? & ? & e & He & ?). split_and!; [done|by eapply elected_mono|].
  exists e. split; [|done]. destruct (Hg (isa_Term args)) as [suf ->]. by apply lookup_app_l_Some.
Qed.

(** One server moves by [op]; the leaders' logs may grow. *)
Lemma lm_move c c' votes votes' G G' i nd nd' op net msgs :
  cluster_wf c -> lm_inv c votes G -> votes ⊆ votes' -> grows G G' -> G' 0 = G 0 ->
  slice_get (cl_nodes c) i = Some nd -> run_op (nd_peer nd) op = Some (nd_peer nd') ->
  cl_nodes c' = <[Z.to_nat i := nd']> (cl_nodes c) ->
  cl_net c' = net ++ msgs -> net ⊆ cl_net c ->
  (forall t, matches G' (G' t)) -> node_log G' (nd_peer nd') ->
  (forall t, G t = [] -> G' t <> [] ->
     elected (zlen (cl_nodes c)) votes' t i /\ t = currentTerm (nd_peer nd')
     /\ state (nd_peer nd') <> Candidate) ->
  (forall j ndj, slice_get (cl_nodes c) j = Some ndj -> i <> j ->
     state (nd_peer ndj) = Leader -> G' (currentTerm (nd_peer ndj)) = G (currentTerm (nd_peer ndj))) ->
  Forall (flight_log G' votes' (zlen (cl_nodes c))) msgs -> lm_inv c' votes' G'.
Proof.
  intros Hwf [Hz Hld Hwon Hn Hnet] Hv Hgr Hz' Hg Hr Hc' Hm Hsub Hld' Hnl Hnew Hoth Hmsg.
  assert (Hlen : zlen (cl_nodes c') = zlen (cl_nodes c)) by (rewrite Hc'; apply zlen_insert).
  pose proof (slice_get_lt _ _ _ Hg) as Hi.
  assert (Hg' : slice_get (cl_nodes c') i = Some nd').
  { rewrite Hc'. apply slice_get_Some. split; [lia|]. apply list_lookup_insert_eq.
    unfold zlen in Hi. lia. }
  destruct (cw_nodes _ Hwf i nd Hg) as ([_ Hd] & _).
  pose proof (run_op_evolves _ _ _ Hd Hr) as (_ & _ & Hterm).
  constructor; rewrite ?Hlen.
  - by rewrite Hz'.
  - done.
  - intros t Ht. destruct (decide (G t = [])) as [He|He].
    + right. exists i. destruct (Hnew t He Ht) as (? & -> & ?). split; [done|]. exists nd'. naive_solver lia.
    + destruct (Hwon t He) as [?|(j & Hel & ndj & Hgj & Hle & Hlt)]; [by left|]. right. exists j.
      split; [by eapply elected_mono|]. destruct (decide (i = j)) as [<-|].
      * simplify_eq. exists nd'. split; [done|]. split; [lia|]. intros Hcand.
        destruct (run_op_candidate _ _ _ Hr Hcand) as [[Hs He']|?]; [specialize (Hlt Hs)|]; lia.
      * exists ndj. split; [|done]. rewrite Hc'. apply slice_get_Some in Hgj as [? Hgj].
        apply slice_get_Some. split; [done|]. rewrite list_lookup_insert_ne by lia. done.
  - intros j ndj Hj. rewrite Hc' in Hj. apply slice_get_insert in Hj as [[<- <-]|[Hne Hj]]; [done| |lia].
    destruct (Hn _ _ Hj) as (? & F & ? & ? & HL). split; [done|]. exists F.
    split_and!; [done|by eapply matches_grow|]. intros Hl. rewrite (Hoth j) by done. by apply HL.
  - rewrite Hm. apply Forall_app. split; [|done]. apply Forall_forall. intros m Hin%Hsub.
    eapply flight_log_mono; [done..|]. by eapply Forall_forall in Hnet.
Qed.

(** ** Moves that leave the leaders' logs alone *)

Lemma lm_update c c0 c' votes votes' G i nd rf op out msgs :
  cluster_wf c -> lm_inv c votes G -> votes ⊆ votes' ->
  cl_nodes c0 = cl_nodes c -> cl_net c0 ⊆ cl_net c ->
  slice_get (cl_nodes c) i = Some nd -> run_op (nd_peer nd) op = Some rf -> node_log G rf ->
  Forall (flight_log G votes' (zlen (cl_nodes c))) msgs ->
  update_peer i rf out msgs c0 = Some c' -> lm_inv c' votes' G.
Proof.
  intros Hwf Hinv Hv Hn Hnet Hg Hr Hnl Hmsg (nd1 & Hg1 & Hn' & _ & Hm)%update_peer_inv.
  rewrite Hn in Hg1, Hn'. simplify_eq.
  eapply (lm_move c c' votes votes' G G i nd); [done|done|done|by intros t|done|done| |done|done|done|..];
    try done. apply Hinv.
Qed.

(** Leaders and candidates have a term they stood for. *)
Lemma role_term rf op rf' :
  raft_wf rf -> run_op rf op = Some rf' ->
  (state rf' = Leader -> state rf = Leader /\ currentTerm rf' = currentTerm rf) ->
  (state rf <> Follower -> 0 < currentTerm rf) -> state rf' <> Follower -> 0 < currentTerm rf'.
Proof.
  intros Hwf Hr Hl Hpos Hs. pose proof (sh_term _ (wf_shape _ Hwf)).
  destruct (state rf') eqn:E; [|done|].
  - destruct (Hl eq_refl) as [? ->]. apply Hpos. congruence.
  - destruct (run_op_candidate _ _ _ Hr E) as [[? ->]|?]; [|lia]. apply Hpos. congruence.
Qed.

Lemma node_log_keep G rf op rf' :
  raft_wf rf -> run_op rf op = Some rf' -> keeps_log op -> node_log G rf ->
  (state rf' = Leader -> state rf = Leader /\ currentTerm rf' = currentTerm rf) ->
  node_log G rf'.
Proof.
  intros Hwf Hr Hk (Hpos & F & Hh & Hm & HL) Hl. split; [by eapply role_term|].
  exists F. split; [by eapply keeps_log_spec|]. split; [done|].
  intros Hs. destruct (Hl Hs) as [? ->]. auto.
Qed.

Lemma node_log_quiet G rf op rf' :
  raft_wf rf -> run_op rf op = Some rf' -> keeps_log op -> quiet op -> node_log G rf ->
  node_log G rf'.
Proof. intros Hwf Hr Hk Hq Hnl. eapply node_log_keep; eauto using quiet_leader. Qed.

Lemma node_log_append G rf args rf' reply :
  raft_wf rf -> (forall t, matches G (G t)) -> span_of (G (aea_Term args)) args ->
  AppendEntries rf args = Some (rf', reply) -> node_log G rf -> node_log G rf'.
Proof.
  intros Hwf HG Hsp Hr (Hpos & F & Hh & Hm & HL).
  assert (Hop : run_op rf (OpAppendEntries args) = Some rf') by (simpl; by rewrite Hr).
  destruct (decide (state rf' = Leader)) as [Hl|Hl].
  { apply AppendEntries_leader in Hr; [|done]. subst rf'. split; eauto. }
  split; [by eapply role_term|].
  destruct (AppendEntries_log rf args rf' reply F (G (aea_Term args))) as [?|?];
    [done|done|by eapply matches_agrees|done|done|..]; eexists; split_and!; try done;
    auto using matches_take.
Qed.

(** A leader has no snapshot of its own term to install: only another leader of that term
    could have sent it. *)
Lemma node_log_install G votes n src rf args rf' reply msg i :
  raft_wf rf -> 0 <= n -> one_vote votes -> (forall t, matches G (G t)) ->
  (state rf = Leader -> elected n votes (currentTerm rf) i) ->
  flight_log G votes n (SnapReq src 0 i args) ->
  InstallSnapshot rf args = Some (rf', reply, msg) -> node_log G rf -> node_log G rf'.
Proof.
  intros Hwf Hn Hone HG Hel (Hne & Hsrc & e & He & Ht) Hr (Hpos & F & Hh & Hm & HL).
  assert (Hop : run_op rf (OpInstallSnapshot args) = Some rf') by (simpl; by rewrite Hr).
  assert (Hl : state rf' = Leader -> state rf = Leader /\ currentTerm rf' = currentTerm rf)
    by (intros ?; by eapply (quiet_leader rf (OpInstallSnapshot args))).
  split; [by eapply role_term|].
  destruct (InstallSnapshot_log rf args rf' reply msg F _ e Hwf Hh He Ht Hr) as [?|[Hle ?]].
  { exists F. split_and!; [done..|]. intros Hs. destruct (Hl Hs) as [? ->]. auto. }
  eexists. split_and!; [done|by apply matches_take|]. intros Hs. destruct (Hl Hs) as [Hs' Ht'].
  destruct Hne. eapply (elected_unique n votes (isa_Term args)); [done..|].
  replace (isa_Term args) with (currentTerm rf); [by apply Hel|].
  unfold InstallSnapshot in Hr. go_if_in Hr; [lia|].
  destruct (Z.ltb_spec (currentTerm rf) (isa_Term args)); [|lia].
  run_branches Hr; simpl in *; congruence.
Qed.

(** ** Moves of a leader *)

Lemma grows_insert G t L : G t `prefix_of` L -> grows G (<[t := L]> G).
Proof.
  intros Hp u. destruct (decide (u = t)) as [->|];
    [by rewrite fn_lookup_insert|by rewrite fn_lookup_insert_ne].
Qed.

(** Replacing the log of term [t] by a longer one that matches. *)
Lemma matches_insert G t L :
  G t `prefix_of` L -> matches (<[t := L]> G) L -> (forall u, matches G (G u)) ->
  forall u, matches (<[t := L]> G) ((<[t := L]> G) u).
Proof.
  intros Hp HL HG u. destruct (decide (u = t)) as [->|];
    [by rewrite fn_lookup_insert|rewrite fn_lookup_insert_ne by done].
  eapply matches_grow; [by apply grows_insert|done].
Qed.

Lemma lm_start c c' votes V G i nd cmd rf r :
  es_inv c votes V -> one_vote votes -> lm_inv c votes G ->
  slice_get (cl_nodes c) i = Some nd -> Start (nd_peer nd) cmd = Some (rf, r) ->
  update_peer i rf [] [] c = Some c' -> exists G', lm_inv c' votes G'.
Proof.
  intros Hes Hone Hinv Hg Hr Hu. pose proof (ei_wf _ _ _ Hes) as Hwf.
  assert (Hop : run_op (nd_peer nd) (OpStart cmd) = Some rf) by (simpl; by rewrite Hr).
  destruct (lm_nodes _ _ _ Hinv i nd Hg) as (Hpos & F & Hh & Hm & HL).
  destruct (Start_log _ _ _ _ F Hh Hr) as (Ht & Hst & [[_ ->]|[Hl Hh']]).
  { exists G. eapply (lm_update c c); eauto; try done. split; eauto. }
  specialize (HL Hl). set (t := currentTerm (nd_peer nd)) in *.
  set (e := mkEntry t cmd). set (G' := <[t := F ++ [e]]> G).
  assert (HG' : G' t = F ++ [e]) by apply fn_lookup_insert.
  assert (Hgr : grows G G') by (apply grows_insert; rewrite HL; by apply prefix_app_r).
  assert (Hm' : matches G' (F ++ [e])) by (by eapply matches_snoc).
  apply update_peer_inv in Hu as (nd1 & Hg1 & Hn' & _ & Hnet). rewrite Hg in Hg1.
  injection Hg1 as <-. exists G'.
  eapply (lm_move c c' votes votes G G' i nd _ _ (cl_net c) []); [done|done|done|done| |done|
    |exact Hn'|done|done| | | | |constructor]; simpl.
  - apply fn_lookup_insert_ne. assert (0 < t); [apply Hpos; congruence|lia].
  - exact Hop.
  - apply matches_insert; [rewrite HL; by apply prefix_app_r|done|apply Hinv].
  - split; [intros _; rewrite Ht; apply Hpos; congruence|]. exists (F ++ [e]).
    split_and!; [done|done|]. intros _. by rewrite Ht.
  - intros u Hu Hu'. destruct (decide (u = t)) as [->|]; [|by unfold G' in Hu'; rewrite fn_lookup_insert_ne in Hu'].
    destruct Hh as (h & f & _ & Hf & _). rewrite Hu in HL. by subst F.
  - intros j ndj Hgj Hne Hlj. apply fn_lookup_insert_ne. intros Heq. destruct Hne.
    eapply (elected_unique (zlen (cl_nodes c)) votes t); [apply zlen_nonneg|done|exact (es_elected c votes V i nd Hes Hg Hl)|].
    rewrite Heq. by eapply es_elected.
Qed.

Lemma handleRequestVoteReply_wins rf el reply rf' el' won :
  handleRequestVoteReply rf el reply = Some (rf', el', won) -> state rf' = Leader ->
  rf' = rf \/ state rf = Candidate /\ currentTerm rf' = currentTerm rf.
Proof.
  unfold handleRequestVoteReply, become_leader. intros Hr Hl.
  run_branches Hr; try done; auto. right. split; [|done].
  match goal with E : bool_decide _ = true |- _ => by apply bool_decide_eq_true in E end.
Qed.

(** A server that wins term [t] is the first to do so: nobody else can have a majority, and it
    had not won itself since it was still a candidate. *)
Lemma first_win c c' votes V' G i nd nd' :
  es_inv c' votes V' -> one_vote votes -> lm_inv c votes G ->
  zlen (cl_nodes c') = zlen (cl_nodes c) ->
  slice_get (cl_nodes c) i = Some nd -> state (nd_peer nd) = Candidate ->
  slice_get (cl_nodes c') i = Some nd' -> state (nd_peer nd') = Leader ->
  currentTerm (nd_peer nd') = currentTerm (nd_peer nd) ->
  G (currentTerm (nd_peer nd)) = []
  /\ elected (zlen (cl_nodes c)) votes (currentTerm (nd_peer nd)) i.
Proof.
  intros Hes Hone Hinv Hlen Hg Hc Hg' Hl Ht.
  pose proof (es_elected _ _ _ _ _ Hes Hg' Hl) as Hel. rewrite Hlen, Ht in Hel. split; [|done].
  destruct (lm_nodes _ _ _ Hinv i nd Hg) as (Hpos & _).
  destruct (decide (G (currentTerm (nd_peer nd)) = [])) as [|HG]; [done|exfalso].
  destruct (lm_won _ _ _ Hinv _ HG) as [?|(j & Hj & ndj & Hgj & _ & Hlt)].
  { assert (0 < currentTerm (nd_peer nd)); [apply Hpos; congruence|lia]. }
  assert (j = i) as -> by (eapply (elected_unique (zlen (cl_nodes c))); [apply zlen_nonneg|done..]).
  simplify_eq. specialize (Hlt Hc). lia.
Qed.

Lemma lm_count c c0 c' votes V V' G i nd e reply rf e' b :
  es_inv c votes V -> es_inv c' votes V' -> one_vote votes -> lm_inv c votes G ->
  cl_nodes c0 = cl_nodes c -> cl_net c0 ⊆ cl_net c ->
  slice_get (cl_nodes c) i = Some nd ->
  handleRequestVoteReply (nd_peer nd) e reply = Some (rf, e', b) ->
  update_peer i rf [] [] c0 = Some c' -> exists G', lm_inv c' votes G'.
Proof.
  intros Hes Hes' Hone Hinv Hn0 Hnet0 Hg Hr Hu. pose proof (ei_wf _ _ _ Hes) as Hwf.
  assert (Hop : run_op (nd_peer nd) (OpVoteReply (Cmd:=Cmd) e reply) = Some rf)
    by (simpl; by rewrite Hr).
  destruct (cw_nodes _ Hwf i nd Hg) as (Hrf & _). pose proof (lm_nodes _ _ _ Hinv i nd Hg) as Hnl.
  assert (Hcase : (state rf = Leader ->
                     state (nd_peer nd) = Leader /\ currentTerm rf = currentTerm (nd_peer nd))
                  \/ state rf = Leader /\ state (nd_peer nd) = Candidate
                     /\ currentTerm rf = currentTerm (nd_peer nd)).
  { destruct (decide (state rf = Leader)) as [Hl|]; [|by left].
    destruct (handleRequestVoteReply_wins _ _ _ _ _ _ Hr Hl) as [->|[??]]; auto. }
  destruct Hcase as [Hkeep|(Hl & Hc & Ht)].
  { exists G. eapply (lm_update c c0); eauto; try done. by eapply node_log_keep. }
  apply update_peer_inv in Hu as (nd1 & Hg1 & Hn' & _ & Hnet). rewrite Hn0 in Hg1, Hn'. simplify_eq.
  destruct (first_win c c' votes V' G i nd (mkNode (nd_inc nd) rf (nd_applied nd ++ []))) as [HG Hel];
    try done; [by rewrite Hn', zlen_insert| |].
  { rewrite Hn'. pose proof (slice_get_lt _ _ _ Hg). apply slice_get_Some. split; [lia|].
    apply list_lookup_insert_eq. unfold zlen in *. lia. }
  destruct Hnl as (Hpos & F & Hh & Hm & _). set (t := currentTerm (nd_peer nd)) in *.
  assert (Hgr : grows G (<[t := F]> G)) by (apply grows_insert; rewrite HG; apply prefix_nil).
  assert (0 < t) by (apply Hpos; congruence). exists (<[t := F]> G).
  eapply (lm_move c c' votes votes G _ i nd _ _ (cl_net c0) []); [done|done|done|done| |done|
    |exact Hn'|done|done| | | | |constructor]; simpl.
  - apply fn_lookup_insert_ne. lia.
  - exact Hop.
  - apply matches_insert; [rewrite HG; apply prefix_nil|by eapply matches_grow|apply Hinv].
  - split; [lia|]. exists F. split_and!; [by eapply (keeps_log_spec _ (OpVoteReply e reply))|by eapply matches_grow|].
    intros _. rewrite Ht. apply fn_lookup_insert.
  - intros u Hu Hu'. destruct (decide (u = t)) as [->|]; [|by rewrite fn_lookup_insert_ne in Hu'].
    split_and!; [done|done|congruence].
  - intros j ndj Hgj Hnej Hlj. apply fn_lookup_insert_ne. intros Heq. destruct Hnej.
    eapply (elected_unique (zlen (cl_nodes c)) votes t); [apply zlen_nonneg|done|done|].
    rewrite Heq. by eapply es_elected.
Qed.

(** ** Preservation *)

(** The service snapshots an index that its peer's log reaches. *)
Definition snapshot_in_log c (ev : Event Cmd) : Prop :=
  match ev with
  | EvSnapshot i index _ =>
      forall nd, slice_get (cl_nodes c) i = Some nd -> index <= getLastLogIndex (nd_peer nd)
  | _ => True
  end.

Fixpoint snapshots_in_log c (evs : list (Event Cmd)) : Prop :=
  match evs with
  | [] => True
  | ev :: evs =>
      snapshot_in_log c ev /\ (if step c ev is Some c' then snapshots_in_log c' evs else True)
  end.

Lemma lm_silent c c' votes votes' G :
  lm_inv c votes G -> votes ⊆ votes' -> cl_nodes c' = cl_nodes c -> cl_net c' ⊆ cl_net c ->
  lm_inv c' votes' G.
Proof.
  intros [Hz Hld Hwon Hn Hnet] Hv Hns Hsub. constructor; rewrite ?Hns; try done.
  - intros t Ht. destruct (Hwon t Ht) as [?|(i & Hel & nd & Hg & Hp)]; [by left|]. right. exists i.
    split; [by eapply elected_mono|]. exists nd. by rewrite Hns.
  - apply Forall_forall. intros m Hin%Hsub. eapply flight_log_mono; [by intros t|done|].
    by eapply Forall_forall in Hnet.
Qed.

(** Server [i] runs [op], with result [Ht], and changes nobody's log but its own: what is left
    is that its new log matches. *)
Ltac lm_op Hwf Hinv Hv Hg op Ht Hr :=
  refine (lm_update _ _ _ _ _ _ _ _ _ op _ _ Hwf Hinv Hv _ _ Hg _ _ _ Hr);
    [done|done|by simpl; rewrite ?Ht| |by repeat constructor].

Lemma lm_deliver c c' votes votes' V V' G k m :
  es_inv c votes V -> es_inv c' votes' V' -> one_vote votes' -> votes ⊆ votes' ->
  votes' = votes ++ vote_cast c (EvDeliver k) ->
  lm_inv c votes G -> cl_net c !! k = Some m -> deliver (take_out k c) m = Some c' ->
  exists G', lm_inv c' votes' G'.
Proof.
  intros Hes Hes' Hone Hv Hvs Hinv Hk Hr. pose proof (ei_wf _ _ _ Hes) as Hwf.
  pose proof (one_vote_mono _ _ Hv Hone) as Hone0.
  assert (Hsub : cl_net (take_out k c) ⊆ cl_net c) by apply list_subseteq_delete.
  pose proof (Forall_lookup_1 _ _ _ _ (lm_net _ _ _ Hinv) Hk) as Hm.
  assert (Hsil : Some (take_out k c) = Some c' -> exists G', lm_inv c' votes' G').
  { intros [= <-]. exists G. by eapply lm_silent. }
  destruct m; simpl in Hr; apply bind_Some in Hr as (nd & Hg & Hr); simpl;
    try (go_if_in Hr; [by apply Hsil|]);
    pose proof (lm_nodes _ _ _ Hinv _ _ Hg) as Hnl;
    destruct (cw_nodes _ Hwf _ _ Hg) as (Hrf & _).
  - apply bind_Some in Hr as ([rf r] & Ht & Hr). exists G.
    lm_op Hwf Hinv Hv Hg (OpRequestVote (Cmd:=Cmd) args) Ht Hr.
    eapply (node_log_keep _ (nd_peer nd) (OpRequestVote args)); [done|by simpl; rewrite Ht|done..|].
    intros Hl. by rewrite (RequestVote_leader _ _ _ _ Ht Hl) in Hl |- *.
  - apply bind_Some in Hr as (e & Hel & Hr). apply bind_Some in Hr as ([[rf e'] b] & Ht & Hr).
    assert (votes' = votes) as -> by (subst votes'; simpl; by rewrite Hk, app_nil_r).
    eapply (lm_count c _ c'); [done..| | |done|exact Ht|exact Hr]; done.
  - apply bind_Some in Hr as ([rf r] & Ht & Hr). exists G.
    lm_op Hwf Hinv Hv Hg (OpAppendEntries (Cmd:=Cmd) args) Ht Hr.
    eapply node_log_append; eauto. apply Hinv.
  - apply bind_Some in Hr as (rf & Ht & Hr). exists G.
    lm_op Hwf Hinv Hv Hg (OpAppendReply (Cmd:=Cmd) dst args reply) Ht Hr.
    by eapply (node_log_quiet _ _ (OpAppendReply dst args reply)).
  - apply bind_Some in Hr as ([[rf r] o] & Ht & Hr). exists G.
    lm_op Hwf Hinv Hv Hg (OpInstallSnapshot (Cmd:=Cmd) args) Ht Hr.
    eapply (node_log_install _ votes (zlen (cl_nodes c)) src _ args _ _ _ dst); eauto;
      [apply zlen_nonneg|apply Hinv|]. intros Hl. by eapply es_elected.
  - apply bind_Some in Hr as (rf & Ht & Hr). exists G.
    lm_op Hwf Hinv Hv Hg (OpInstallReply (Cmd:=Cmd) dst args reply) Ht Hr.
    by eapply (node_log_quiet _ _ (OpInstallReply dst args reply)).
Qed.

Lemma lm_step c ev c' votes votes' V V' G :
  es_inv c votes V -> es_inv c' votes' V' -> votes' = votes ++ vote_cast c ev ->
  one_vote votes' -> lm_inv c votes G -> snapshot_in_log c ev -> step c ev = Some c' ->
  exists G', lm_inv c' votes' G'.
Proof.
  intros Hes Hes' Hvs Hone Hinv Hsn Hr. pose proof (ei_wf _ _ _ Hes) as Hwf.
  assert (Hv : votes ⊆ votes') by (subst votes'; set_solver).
  destruct ev; simpl in Hr; apply bind_Some in Hr as (nd & Hg & Hr);
    try (pose proof (lm_nodes _ _ _ Hinv _ _ Hg) as Hnl; destruct (cw_nodes _ Hwf _ _ Hg) as (Hrf & _)).
  - apply bind_Some in Hr as ([rf [el|]] & Ht & Hr); [|simplify_eq; exists G; by eapply lm_silent].
    exists G. refine (lm_update _ _ _ _ _ _ _ _ _ OpTimeout _ _ Hwf Hinv Hv _ _ Hg _ _ _ Hr);
      [done|done|by simpl; rewrite Ht| |by apply Forall_fmap, Forall_true].
    eapply (node_log_keep _ (nd_peer nd) OpTimeout); [done|by simpl; rewrite Ht|done..|].
    intros Hl. unfold ticker_timeout, StartElection in Ht. by run_branches Ht.
  - go_if_in Hr; [done|]. apply bind_Some in Hr as ([rf out] & Ht & Hr). exists G.
    refine (lm_update _ _ _ _ _ _ _ _ _ (OpBroadcast server) _ _ Hwf Hinv Hv _ _ Hg _ _ _ Hr);
      [done|done|by simpl; rewrite Ht| |].
    { eapply (node_log_quiet _ (nd_peer nd) (OpBroadcast server)); [done|by simpl; rewrite Ht|done..]. }
    destruct Hnl as (_ & F & Hh & _ & HL). pose proof (Broadcast_span _ _ _ _ F Hrf Hh Ht) as Hout.
    destruct out as [|args|args]; [by constructor| |]; (apply Forall_singleton; simpl;
      destruct Hout as (Hl & -> & Hsp); rewrite (HL Hl)); [done|].
    split_and!; [lia| |done]. eapply elected_mono; [done|]. by eapply es_elected.
  - apply bind_Some in Hr as ([rf r] & Ht & Hr).
    assert (votes' = votes) as -> by (subst votes'; by rewrite app_nil_r).
    eapply (lm_start c c'); [done..|exact Hg|exact Ht|exact Hr].
  - apply bind_Some in Hr as ([rf r] & Ht & Hr). exists G.
    lm_op Hwf Hinv Hv Hg (OpApply (Cmd:=Cmd)) Ht Hr.
    eapply (node_log_quiet _ (nd_peer nd) OpApply); [done|by simpl; rewrite Ht|done..].
  - apply bind_Some in Hr as (rf & Ht & Hr). exists G.
    lm_op Hwf Hinv Hv Hg (OpSnapshot (Cmd:=Cmd) index snap) Ht Hr.
    pose proof (quiet_leader _ (OpSnapshot index snap) rf I Ht) as Hl.
    destruct Hnl as (Hpos & F & Hh & Hm & HL).
    split; [by eapply (role_term _ (OpSnapshot index snap))|]. exists F.
    split; [by eapply Snapshot_log; eauto|]. split; [done|]. intros Hs. destruct (Hl Hs) as [? ->]. auto.
  - unfold set_node in Hr. go_bind Hr. simplify_eq. apply slice_set_inv in E as [_ ->]. exists G.
    eapply (lm_move c _ _ _ G G i nd _ OpRestart (cl_net c) []);
      [done|done|done|by intros t|done|done| |reflexivity|simpl; by rewrite app_nil_r|done|apply Hinv| |done..].
    + done.
    + by eapply (node_log_quiet _ (nd_peer nd) OpRestart).
  - eapply (lm_deliver c c' votes votes' V V'); eauto.
  - simplify_eq. exists G. eapply lm_silent; [done|done|done|]. apply list_subseteq_delete.
Qed.

Lemma lm_steps c evs c' votes V G :
  es_inv c votes V -> lm_inv c votes G -> one_vote (votes ++ votes_cast c evs) ->
  snapshots_in_log c evs -> steps c evs = Some c' ->
  exists G', lm_inv c' (votes ++ votes_cast c evs) G'.
Proof.
  revert c votes V G. induction evs as [|ev evs IH]; intros c votes V G Hes Hinv Hone Hsn Hr.
  { injection Hr as <-. simpl. rewrite app_nil_r. eauto. }
  rewrite steps_cons in Hr. apply bind_Some in Hr as (c1 & H1 & Hr).
  simpl in Hone, Hsn |- *. rewrite H1 in Hone, Hsn |- *. destruct Hsn as [Hsn Hsns].
  destruct (es_step c ev c1 votes V Hes H1) as (V1 & Hes1). rewrite app_assoc in Hone |- *.
  destruct (lm_step c ev c1 votes _ V V1 G Hes Hes1 eq_refl) as (G1 & Hinv1); [|done..|].
  { eapply one_vote_mono; [|exact Hone]. set_solver. }
  exact (IH c1 _ V1 G1 Hes1 Hinv1 Hone Hsns Hr).
Qed.

Definition initial_logs : Z -> list (Entry Cmd) := <[0 := [mkEntry 0 None]]> (fun _ => []).

Lemma lm_init n : lm_inv (init_cluster (Cmd:=Cmd) n) [] initial_logs.
Proof.
  assert (H0 : initial_logs 0 = [mkEntry 0 None]) by apply fn_lookup_insert.
  assert (Hm : matches initial_logs [mkEntry 0 None]).
  { intros k e He. apply list_lookup_singleton_Some in He as [-> <-]. cbn [ent_Term].
    by rewrite H0. }
  constructor; [done| | | |constructor].
  - intros t. destruct (decide (t = 0)) as [->|]; [by rewrite H0|].
    unfold initial_logs. by rewrite fn_lookup_insert_ne.
  - intros t Ht. destruct (decide (t = 0)) as [->|]; [by left|].
    unfold initial_logs in Ht. by rewrite fn_lookup_insert_ne in Ht.
  - intros i nd [_ Hg]%slice_get_Some. simpl in Hg. rewrite !list_lookup_fmap in Hg.
    apply fmap_Some in Hg as (z & _ & ->). split; [done|]. exists [mkEntry 0 None].
    split; [|done]. by exists (mkEntry 0 None), (mkEntry 0 None).
Qed.

(** C12.  Log matching, given one vote per term: over any execution, with messages lost,
    delayed and reordered, servers crashing and services taking snapshots of indices their
    peers hold, if the logs of two servers have an entry with the same index and term, then
    they have the same entries (terms and commands) at every index up to it that neither has
    snapshotted. *)
Theorem log_matching (n : nat) (evs : list (Event Cmd)) (c : Cluster Cmd) (i j : Z)
    (ndi ndj : Node Cmd) (k k' : Z) (e e' : Entry Cmd) :
  steps (init_cluster n) evs = Some c ->
  (forall v t x y, (v, t, x) ∈ votes_cast (init_cluster n) evs ->
     (v, t, y) ∈ votes_cast (init_cluster n) evs -> x = y) ->
  snapshots_in_log (init_cluster n) evs ->
  slice_get (cl_nodes c) i = Some ndi -> slice_get (cl_nodes c) j = Some ndj ->
  entry_at (nd_peer ndi) k = Some e -> entry_at (nd_peer ndj) k = Some e' ->
  ent_Term e = ent_Term e' ->
  lastIncludedIndex (nd_peer ndi) < k' -> lastIncludedIndex (nd_peer ndj) < k' -> k' <= k ->
  entry_at (nd_peer ndi) k' = entry_at (nd_peer ndj) k'.
Proof.
  intros Hr Hone Hsn Hi Hj He He' Ht Hki Hkj Hle.
  destruct (lm_steps _ _ _ _ _ _ (es_init n) (lm_init n) Hone Hsn Hr) as (G & Hinv).
  apply (steps_wf _ _ _ (init_cluster_wf n)) in Hr as Hwf.
  destruct (cw_nodes _ Hwf _ _ Hi) as ([Hsi _] & _), (cw_nodes _ Hwf _ _ Hj) as ([Hsj _] & _).
  destruct (lm_nodes _ _ _ Hinv _ _ Hi) as (_ & F & HF & HmF & _).
  destruct (lm_nodes _ _ _ Hinv _ _ Hj) as (_ & L & HL & HmL & _).
  rewrite (holds_entry_at _ F) in He |- * by (done || lia).
  rewrite (holds_entry_at _ L) in He' |- * by (done || lia).
  pose proof (matches_agrees G F L HmF HmL _ _ _ He He' Ht) as Heq.
  apply (f_equal (fun l => l !! Z.to_nat k')) in Heq. by rewrite !lookup_take_lt in Heq by lia.
Qed.
End LogMatching.

(** Server 0 wins term 1 and replicates two commands on server 1; then it takes a third that
    nobody else has.  The entries of index 2 have the same term. *)
Definition replicate_two : list (Event Z) :=
  [ EvTimeout 0; EvDeliver 0; EvDeliver 1; EvStart 0 (Some 7); EvStart 0 (Some 8);
    EvBroadcast 0 1; EvDeliver 1; EvStart 0 (Some 9) ].

Lemma log_matching_witness :
  exists c nd0 nd1, steps (init_cluster 3) replicate_two = Some c
    /\ slice_get (cl_nodes c) 0 = Some nd0 /\ slice_get (cl_nodes c) 1 = Some nd1
    /\ length (logs (nd_peer nd0)) = 4%nat /\ length (logs (nd_peer nd1)) = 3%nat
    /\ entry_at (nd_peer nd0) 1 = entry_at (nd_peer nd1) 1.
Proof.
  destruct (steps (init_cluster 3) replicate_two) as [c|] eqn:E; [|vm_compute in E; discriminate E].
  assert (Hv : votes_cast (init_cluster 3) replicate_two = [(0, 1, 0); (1, 1, 0)])
    by (vm_compute; reflexivity).
  assert (Hs : snapshots_in_log (init_cluster 3) replicate_two) by (vm_compute; tauto).
  assert (Hn : exists nd0 nd1, slice_get (cl_nodes c) 0 = Some nd0
    /\ slice_get (cl_nodes c) 1 = Some nd1
    /\ entry_at (nd_peer nd0) 2 = Some (mkEntry 1 (Some 8))
    /\ entry_at (nd_peer nd1) 2 = Some (mkEntry 1 (Some 8))
    /\ length (logs (nd_peer nd0)) = 4%nat /\ length (logs (nd_peer nd1)) = 3%nat
    /\ lastIncludedIndex (nd_peer nd0) = 0 /\ lastIncludedIndex (nd_peer nd1) = 0).
  { vm_compute in E. injection E as <-. do 2 eexists.
    split; [vm_compute; reflexivity|]. split; [vm_compute; reflexivity|].
    vm_compute. repeat split. }
  destruct Hn as (nd0 & nd1 & H0 & H1 & He0 & He1 & Hl0 & Hl1 & Hi0 & Hi1).
  exists c, nd0, nd1. split; [reflexivity|]. do 4 (split; [assumption|]).
  refine (log_matching 3 replicate_two c 0 1 nd0 nd1 2 1 _ _ E _ Hs H0 H1 He0 He1 eq_refl _ _ _);
    [|lia..].
  rewrite Hv. intros v t x y Hx Hy. apply list_elem_of_In in Hx, Hy. simpl in Hx, Hy.
  destruct Hx as [Hx|[Hx|[]]], Hy as [Hy|[Hy|[]]]; congruence.
Defined.
