(* ===== verification/KvServer.v ===== *)
(** * The replicated key/value server

    [lec-2025/src/kvraft1/server.go]: the state machine of the replicated store.  [KVServer]
    has the fields of the Go struct except the handle to its [RSM], which [Rsm.v] models; the
    specification it refines is the checker's model of one key,
    [lec-2025/src/models1/kv.go]. *)

From S2P Require Import Prelude Rpc Persister.

Module KVServer.

(** [KeyValue] is [None] while the map is nil: reads find nothing, a write panics. *)
Record KVServer := mkKVServer {
  me : Z; dead : Z; KeyValue : option (gmap string ValueEntry) }.

Definition set_KeyValue (m : option (gmap string ValueEntry)) (kv : KVServer) : KVServer :=
  mkKVServer (me kv) (dead kv) m.

(** What the code passes as [req any]: by the RPC handler as a pointer, after a trip through
    the Raft log as a value, or something else. *)
Inductive Req :=
  | GetPtr (args : GetArgs)
  | PutPtr (args : PutArgs)
  | GetVal (args : GetArgs)
  | PutVal (args : PutArgs)
  | OtherReq.

Inductive Rep :=
  | RepGet (reply : GetReply)
  | RepPut (reply : PutReply).

Definition lookup (kv : KVServer) (k : string) : option ValueEntry :=
  m ← KeyValue kv; m !! k.

(** [kv.KeyValue[k] = e]. *)
Definition store (kv : KVServer) (k : string) (e : ValueEntry) : option KVServer :=
  m ← KeyValue kv; Some (set_KeyValue (Some (<[k := e]> m)) kv).

(** [log.Fatalf] in the default case ends the process. *)
Definition DoOp (kv : KVServer) (req : Req) : option (KVServer * Rep) :=
  match req with
  | GetPtr getreq =>
      match lookup kv (ga_Key getreq) with
      | None => Some (kv, RepGet (mkGetReply "" 0 ErrNoKey))
      | Some entry => Some (kv, RepGet (mkGetReply (ve_Value entry) (ve_Version entry) OK))
      end
  | PutPtr putreq =>
      match lookup kv (pa_Key putreq) with
      | None =>
          if pa_Version putreq =? 0 then
            kv ← store kv (pa_Key putreq) (mkValueEntry (pa_Value putreq) 1);
            Some (kv, RepPut (mkPutReply OK))
          else Some (kv, RepPut (mkPutReply ErrVersion))
      | Some entry =>
          if negb (pa_Version putreq =? ve_Version entry) then
            Some (kv, RepPut (mkPutReply ErrVersion))
          else
            kv ← store kv (pa_Key putreq)
                   (mkValueEntry (pa_Value putreq) (u64 (ve_Version entry + 1)));
            Some (kv, RepPut (mkPutReply OK))
      end
  | GetVal getreq =>
      match lookup kv (ga_Key getreq) with
      | None => Some (kv, RepGet (mkGetReply "" 0 ErrNoKey))
      | Some entry => Some (kv, RepGet (mkGetReply (ve_Value entry) (ve_Version entry) OK))
      end
  | PutVal putreq =>
      match lookup kv (pa_Key putreq) with
      | None =>
          if pa_Version putreq =? 0 then
            kv ← store kv (pa_Key putreq) (mkValueEntry (pa_Value putreq) 1);
            Some (kv, RepPut (mkPutReply OK))
          else Some (kv, RepPut (mkPutReply ErrVersion))
      | Some entry =>
          if negb (pa_Version putreq =? ve_Version entry) then
            Some (kv, RepPut (mkPutReply ErrVersion))
          else
            kv ← store kv (pa_Key putreq)
                   (mkValueEntry (pa_Value putreq) (u64 (ve_Version entry + 1)));
            Some (kv, RepPut (mkPutReply OK))
      end
  | OtherReq => None
  end.

Section Codec.
Context `{Gob (gmap string ValueEntry)}.

(** A nil map is encoded as an empty one. *)
Definition Snapshot (kv : KVServer) : bytes := gob_encode (default ∅ (KeyValue kv)).

(** A decoding error is only printed. *)
Definition Restore (kv : KVServer) (data : bytes) : KVServer :=
  if zlen data <? 1 then kv
  else match gob_decode data with
       | None => kv
       | Some kvBuffer => set_KeyValue (Some kvBuffer) kv
       end.
End Codec.

(** [Get], after [rsm.Submit] returned [err, getValue]; [None] is [nil]. *)
Definition Get (err : Err) (getValue : option Rep) : GetReply :=
  let reply := mkGetReply "" 0 err in
  match getValue with
  | Some (RepGet getResult) =>
      if bool_decide (err = OK)
      then mkGetReply (gr_Value getResult) (gr_Version getResult) (gr_Err getResult)
      else reply
  | _ => reply
  end.

Definition Put (err : Err) (putValue : option Rep) : PutReply :=
  match putValue with
  | Some (RepPut putResult) =>
      if bool_decide (err = OK) then mkPutReply (pr_Err putResult) else mkPutReply err
  | _ => mkPutReply err
  end.

Definition Kill (kv : KVServer) : KVServer := mkKVServer (me kv) 1 (KeyValue kv).

Definition killed (kv : KVServer) : bool := dead kv =? 1.

(** [StartKVServer] before and after [rsm.MakeRSM], which may call [Restore]. *)
Definition StartKVServer_alloc (self : Z) : KVServer := mkKVServer self 0 None.

Definition StartKVServer_init (kv : KVServer) : KVServer :=
  mkKVServer (me kv) 0 (Some (default ∅ (KeyValue kv))).

End KVServer.

(** ** The checker's specification of one key *)

Module KvModel.

Record KvInput := mkKvInput { Op : Z; Key : string; Value : string; Version : Z }.
Record KvOutput := mkKvOutput { out_Value : string; out_Version : Z; out_Err : string }.
Record KvState := mkKvState { st_Value : string; st_Version : Z }.

Definition Init : KvState := mkKvState "" 0.

(** [None] is the state ["<invalid>"] of an unknown operation. *)
Definition Step (st : KvState) (inp : KvInput) (out : KvOutput) : bool * option KvState :=
  if Op inp =? 0 then (bool_decide (out_Value out = st_Value st), Some st)
  else if Op inp =? 1 then
    if st_Version st =? Version inp then
      (bool_decide (out_Err out = "OK") || bool_decide (out_Err out = "ErrMaybe"),
       Some (mkKvState (Value inp) (u64 (st_Version st + 1))))
    else
      (bool_decide (out_Err out = "ErrVersion") || bool_decide (out_Err out = "ErrMaybe"),
       Some st)
  else (false, None).

(** For the visualization. *)
Definition DescribeOperation (inp : KvInput) (out : KvOutput) : string :=
  if Op inp =? 0 then
    ("get('" +:+ Key inp +:+ "') -> ('" +:+ out_Value out +:+ "', '" +:+ Sprint (out_Version out)
     +:+ "', '" +:+ out_Err out +:+ "')")%string
  else if Op inp =? 1 then
    ("put('" +:+ Key inp +:+ "', '" +:+ Value inp +:+ "', '" +:+ Sprint (Version inp)
     +:+ "') -> ('" +:+ out_Err out +:+ "')")%string
  else "<invalid>".

Abbreviation Operation := (KvInput * KvOutput)%type.

(** The operations on key [k], in order: one element of what [Partition] returns. *)
Definition partition_key (k : string) (history : list Operation) : list Operation :=
  filter (fun v => Key v.1 = k) history.

Definition string_le (s t : string) : Prop := String.leb s t = true.

#[export] Instance string_le_dec : RelDecision string_le.
Proof. intros s t. unfold string_le. apply _. Defined.

(** [Partition]: grouped by key, the groups in the order of the sorted keys. *)
Definition Partition (history : list Operation) : list (list Operation) :=
  (fun k => partition_key k history)
    <$> merge_sort string_le (remove_dups ((fun v => Key v.1) <$> history)).

(** The checker accepts a sequential history of one key. *)
Fixpoint accepts (st : KvState) (history : list Operation) : bool :=
  match history with
  | [] => true
  | (inp, out) :: rest =>
      match Step st inp out with
      | (true, Some st') => accepts st' rest
      | _ => false
      end
  end.
End KvModel.

(** ** Refinement *)

Section Refinement.
Import KVServer KvModel.
Implicit Types (kv : KVServer) (req : Req) (k : string).

(** A run of the state machine: the requests in the order of the log. *)
Fixpoint kv_run kv (reqs : list Req) : option (KVServer * list Rep) :=
  match reqs with
  | [] => Some (kv, [])
  | req :: reqs =>
      '(kv, rep) ← DoOp kv req;
      '(kv, reps) ← kv_run kv reqs;
      Some (kv, rep :: reps)
  end.

Definition key_of req : string :=
  match req with
  | GetPtr a | GetVal a => ga_Key a
  | PutPtr a | PutVal a => pa_Key a
  | OtherReq => ""
  end.

Definition known req : bool := if req is OtherReq then false else true.

(** The checker's record of one request and its reply, as the test clerk logs it
    ([kvtest1/porcupine.go]). *)
Definition logged req (rep : Rep) : Operation :=
  (match req with
   | GetPtr a | GetVal a => mkKvInput 0 (ga_Key a) "" 0
   | PutPtr a | PutVal a => mkKvInput 1 (pa_Key a) (pa_Value a) (pa_Version a)
   | OtherReq => mkKvInput 2 "" "" 0
   end,
   match rep with
   | RepGet r => mkKvOutput (gr_Value r) (gr_Version r) (err_string (gr_Err r))
   | RepPut r => mkKvOutput "" 0 (err_string (pr_Err r))
   end).

(** What the model of key [k] sees of the server. *)
Definition abs kv k : KvState :=
  match lookup kv k with
  | Some e => mkKvState (ve_Value e) (ve_Version e)
  | None => Init
  end.

Definition live kv : Prop := is_Some (KeyValue kv).

Lemma lookup_store kv k e kv' :
  store kv k e = Some kv' ->
  lookup kv' k = Some e /\ (forall k', k' <> k -> lookup kv' k' = lookup kv k') /\ live kv'.
Proof.
  unfold store, lookup. intros Hr. go_bind Hr. simplify_eq/=. split_and!; [|intros k' Hne|by eexists].
  - by rewrite lookup_insert_eq.
  - by rewrite lookup_insert_ne.
Qed.

Lemma store_total kv k e : live kv -> exists kv', store kv k e = Some kv'.
Proof. intros [m Hm]. unfold store. rewrite Hm. eauto. Qed.

(** [store] followed by a reply. *)
Lemma store_reply kv k e (r : Rep) kv' rep :
  (kv1 ← store kv k e; Some (kv1, r)) = Some (kv', rep) ->
  rep = r /\ lookup kv' k = Some e /\ (forall k', k' <> k -> lookup kv' k' = lookup kv k')
  /\ live kv'.
Proof. intros Hr. apply bind_Some in Hr as (kv1 & Hs%lookup_store & Hr). by simplify_eq. Qed.

Lemma DoOp_ptr_val kv req :
  DoOp kv req = DoOp kv (match req with GetPtr a => GetVal a | PutPtr a => PutVal a | r => r end).
Proof. by destruct req. Qed.

Lemma DoOp_total kv req : live kv -> known req = true -> exists kv' rep, DoOp kv req = Some (kv', rep).
Proof.
  intros Hl Hk. destruct req as [a|a|a|a|]; simpl in *; try done;
    destruct (lookup kv _) as [e|]; eauto; destruct (_ =? _); simpl; eauto.
  all: by edestruct (store_total kv) as (kv' & ->); eauto; simpl; eauto.
Qed.

(** The two operations, whichever way they are passed. *)
Lemma DoOp_get kv a kv' rep :
  DoOp kv (GetVal a) = Some (kv', rep) ->
  kv' = kv /\ exists r, rep = RepGet r /\ gr_Value r = st_Value (abs kv (ga_Key a))
    /\ gr_Version r = st_Version (abs kv (ga_Key a))
    /\ gr_Err r = (if lookup kv (ga_Key a) is Some _ then OK else ErrNoKey).
Proof.
  simpl. unfold abs. intros Hr. destruct (lookup kv (ga_Key a)); simplify_eq/=; eauto 10.
Qed.

Lemma DoOp_put kv a kv' rep :
  DoOp kv (PutVal a) = Some (kv', rep) ->
  if pa_Version a =? st_Version (abs kv (pa_Key a)) then
    rep = RepPut (mkPutReply OK)
    /\ lookup kv' (pa_Key a) = Some (mkValueEntry (pa_Value a) (u64 (pa_Version a + 1)))
    /\ (forall k, k <> pa_Key a -> lookup kv' k = lookup kv k) /\ live kv'
  else kv' = kv /\ rep = RepPut (mkPutReply ErrVersion).
Proof.
  simpl. unfold abs. intros Hr. destruct (lookup kv (pa_Key a)) as [e|]; simpl in *.
  - go_if_in Hr.
    + destruct (Z.eqb_spec (pa_Version a) (ve_Version e)); [lia|]. by simplify_eq.
    + destruct (Z.eqb_spec (pa_Version a) (ve_Version e)) as [->|]; [|lia].
      by apply store_reply in Hr.
  - go_if_in Hr; [|by simplify_eq]. apply store_reply in Hr. by rewrite Heqb.
Qed.

Lemma DoOp_step kv req kv' rep :
  live kv -> DoOp kv req = Some (kv', rep) ->
  Step (abs kv (key_of req)) (logged req rep).1 (logged req rep).2
    = (true, Some (abs kv' (key_of req)))
  /\ (forall k, k <> key_of req -> abs kv' k = abs kv k) /\ live kv'.
Proof.
  intros Hl Hr. rewrite DoOp_ptr_val in Hr.
  assert (Hget : forall a, DoOp kv (GetVal a) = Some (kv', rep) ->
    Step (abs kv (ga_Key a)) (logged (GetVal a) rep).1 (logged (GetVal a) rep).2
      = (true, Some (abs kv' (ga_Key a)))
    /\ (forall k, k <> ga_Key a -> abs kv' k = abs kv k) /\ live kv').
  { intros a (-> & r & -> & Hv & _)%DoOp_get. unfold Step. simpl. by rewrite bool_decide_true. }
  assert (Hput : forall a, DoOp kv (PutVal a) = Some (kv', rep) ->
    Step (abs kv (pa_Key a)) (logged (PutVal a) rep).1 (logged (PutVal a) rep).2
      = (true, Some (abs kv' (pa_Key a)))
    /\ (forall k, k <> pa_Key a -> abs kv' k = abs kv k) /\ live kv').
  { intros a Ha%DoOp_put. unfold Step. simpl. rewrite Z.eqb_sym. go_if_in Ha.
    - destruct Ha as (-> & Hk & Hne & ?). simpl. split_and!; try done.
      + unfold abs at 2. rewrite Hk. simpl. by rewrite Heqb.
      + intros k Hk'. unfold abs. by rewrite Hne.
    - destruct Ha as [-> ->]. by simpl. }
  destruct req; simpl in Hr |- *; auto; done.
Qed.

Lemma kv_run_cons kv req reqs kv' reps' :
  kv_run kv (req :: reqs) = Some (kv', reps') ->
  exists kv1 rep reps, DoOp kv req = Some (kv1, rep) /\ kv_run kv1 reqs = Some (kv', reps)
    /\ reps' = rep :: reps.
Proof.
  simpl. intros Hr. apply bind_Some in Hr as ([kv1 rep] & H1 & Hr).
  apply bind_Some in Hr as ([kv2 reps] & H2 & Hr). simplify_eq. eauto 10.
Qed.

Lemma kv_run_total kv reqs :
  live kv -> Forall (fun r => known r = true) reqs ->
  exists kv' reps, kv_run kv reqs = Some (kv', reps) /\ live kv' /\ length reps = length reqs.
Proof.
  intros Hl Hk. revert kv Hl. induction Hk as [|req reqs Hreq _ IH]; intros kv Hl.
  { simpl. eauto. }
  destruct (DoOp_total kv req Hl Hreq) as (kv1 & rep & H1).
  destruct (DoOp_step kv req kv1 rep Hl H1) as (_ & _ & Hl1).
  destruct (IH kv1 Hl1) as (kv2 & reps & H2 & Hl2 & Hlen). simpl. rewrite H1. simpl. rewrite H2.
  exists kv2, (rep :: reps). split_and!; [done..|]. simpl. by f_equal.
Qed.

Lemma kv_run_accepted kv reqs kv' reps k :
  live kv -> kv_run kv reqs = Some (kv', reps) ->
  accepts (abs kv k) (partition_key k (zip_with logged reqs reps)) = true.
Proof.
  revert kv kv' reps. induction reqs as [|req reqs IH]; intros kv kv' reps' Hl Hr.
  { by simplify_eq/=. }
  apply kv_run_cons in Hr as (kv1 & rep & reps & H1 & H2 & ->).
  destruct (DoOp_step kv req kv1 rep Hl H1) as (Hst & Hoth & Hl1). simpl. unfold partition_key in *.
  assert (Hkey : Key (logged req rep).1 = key_of req) by (by destruct req).
  destruct (decide (Key (logged req rep).1 = k)) as [Hk|Hk].
  - rewrite filter_cons_True by done. rewrite <- Hk, Hkey in *.
    destruct (logged req rep) as [inp out]. simpl in *. rewrite Hst. eauto.
  - rewrite filter_cons_False by done. rewrite <- (Hoth k) by congruence. eauto.
Qed.

(** C16.  The replicated store implements the checker's specification: any sequence of [Get]
    and [Put] requests runs to the end, and its history of requests and replies, split by key
    as the checker splits it, is accepted by the checker's model of every key. *)
Theorem kv_implements_model (self : Z) (reqs : list Req) :
  Forall (fun r => known r = true) reqs ->
  exists kv' reps, kv_run (StartKVServer_init (StartKVServer_alloc self)) reqs = Some (kv', reps)
    /\ length reps = length reqs
    /\ Forall (fun h => accepts Init h = true) (Partition (zip_with logged reqs reps)).
Proof.
  intros Hk. destruct (kv_run_total (StartKVServer_init (StartKVServer_alloc self)) reqs)
    as (kv' & reps & Hr & _ & Hlen); [by eexists|done|].
  exists kv', reps. split_and!; [done..|]. unfold Partition.
  apply Forall_fmap, Forall_true. intros k. by eapply kv_run_accepted in Hr; [|by eexists].
Qed.

(** ** Versions *)

(** The [Put]s on [k] that were answered [OK]. *)
Definition put_ok k req (rep : Rep) : bool :=
  match req, rep with
  | (PutPtr a | PutVal a), RepPut r => bool_decide (pa_Key a = k) && bool_decide (pr_Err r = OK)
  | _, _ => false
  end.

Fixpoint puts_ok k (reqs : list Req) (reps : list Rep) : Z :=
  match reqs, reps with
  | req :: reqs, rep :: reps => (if put_ok k req rep then 1 else 0) + puts_ok k reqs reps
  | _, _ => 0
  end.

Lemma puts_ok_bound k reqs reps : 0 <= puts_ok k reqs reps <= zlen reqs.
Proof.
  revert reps. induction reqs as [|req reqs IH]; intros [|rep reps]; simpl;
    rewrite ?zlen_cons; try (unfold zlen; simpl; lia).
  specialize (IH reps). destruct (put_ok k req rep); lia.
Qed.

Lemma version_put kv a kv' rep k :
  DoOp kv (PutVal a) = Some (kv', rep) -> 0 <= st_Version (abs kv k) < 2 ^ 64 ->
  st_Version (abs kv' k)
  = u64 (st_Version (abs kv k) + (if put_ok k (PutVal a) rep then 1 else 0)).
Proof.
  intros Ha%DoOp_put Hv. simpl. go_if_in Ha.
  - destruct Ha as (-> & Hk & Hne & _). rewrite (bool_decide_true (pr_Err _ = OK)) by done.
    rewrite andb_true_r. case_bool_decide as Hkk.
    + subst k. unfold abs at 1. rewrite Hk. simpl. by rewrite Heqb.
    + rewrite Z.add_0_r, u64_small by done. unfold abs. by rewrite Hne.
  - destruct Ha as [-> ->]. rewrite (bool_decide_false (pr_Err _ = OK)) by done.
    by rewrite andb_false_r, Z.add_0_r, u64_small.
Qed.

Lemma version_step kv req kv' rep k :
  DoOp kv req = Some (kv', rep) -> 0 <= st_Version (abs kv k) < 2 ^ 64 ->
  st_Version (abs kv' k)
  = u64 (st_Version (abs kv k) + (if put_ok k req rep then 1 else 0)).
Proof.
  intros Hr Hv. destruct req as [a|a|a|a|]; try done;
    [apply (DoOp_get kv a) in Hr|by apply (version_put kv a)|apply (DoOp_get kv a) in Hr
    |by apply version_put].
  all: destruct Hr as (-> & r & -> & _); simpl; by rewrite Z.add_0_r, u64_small.
Qed.

Lemma version_run kv reqs kv' reps k :
  kv_run kv reqs = Some (kv', reps) -> 0 <= st_Version (abs kv k) < 2 ^ 64 ->
  st_Version (abs kv' k) = u64 (st_Version (abs kv k) + puts_ok k reqs reps).
Proof.
  revert kv reps. induction reqs as [|req reqs IH]; intros kv reps' Hr Hv.
  { simplify_eq/=. by rewrite Z.add_0_r, u64_small. }
  apply kv_run_cons in Hr as (kv1 & rep & reps & H1 & H2 & ->).
  pose proof (version_step kv req kv1 rep k H1 Hv) as Hv1.
  rewrite (IH kv1 reps H2) by (rewrite Hv1; apply u64_range). rewrite Hv1. simpl.
  rewrite u64_add_l. f_equal. lia.
Qed.

(** A key's version is the number of successful [Put]s on it, and a conditional [Put]
    takes effect at most once: whatever else the server executes after it succeeded, fewer
    than 2^64 - 1 requests, the same key and version are refused with [ErrVersion] and the
    server is unchanged.  Resending a [Put] is therefore safe. *)
Theorem put_at_most_once (kv kv1 kv2 : KVServer) (a b : PutArgs) (reqs : list Req)
    (reps : list Rep) :
  0 <= pa_Version a < 2 ^ 64 ->
  DoOp kv (PutVal a) = Some (kv1, RepPut (mkPutReply OK)) ->
  kv_run kv1 reqs = Some (kv2, reps) -> zlen reqs < 2 ^ 64 - 1 ->
  pa_Key b = pa_Key a -> pa_Version b = pa_Version a ->
  st_Version (abs kv2 (pa_Key a)) = u64 (pa_Version a + 1 + puts_ok (pa_Key a) reqs reps)
  /\ DoOp kv2 (PutVal b) = Some (kv2, RepPut (mkPutReply ErrVersion)).
Proof.
  intros Hv Hput Hrun Hlen Hkey Hver.
  assert (Hv1 : st_Version (abs kv1 (pa_Key a)) = u64 (pa_Version a + 1)).
  { apply DoOp_put in Hput. go_if_in Hput; [|by destruct Hput].
    destruct Hput as (_ & Hk & _). unfold abs. by rewrite Hk. }
  pose proof (version_run kv1 reqs kv2 reps (pa_Key a) Hrun) as Hv2.
  rewrite Hv1 in Hv2. specialize (Hv2 (u64_range _)).
  assert (Hv2' : st_Version (abs kv2 (pa_Key a)) = u64 (pa_Version a + 1 + puts_ok (pa_Key a) reqs reps)).
  { by rewrite Hv2, u64_add_l. }
  split; [done|]. pose proof (puts_ok_bound (pa_Key a) reqs reps) as Hb.
  assert (Hne : st_Version (abs kv2 (pa_Key a)) <> pa_Version a).
  { rewrite Hv2'. apply u64_moved; lia. }
  unfold abs in Hne. simpl. rewrite Hkey, Hver.
  destruct (lookup kv2 (pa_Key a)) as [e|]; simpl in Hne.
  - destruct (Z.eqb_spec (pa_Version a) (ve_Version e)); [congruence|done].
  - destruct (Z.eqb_spec (pa_Version a) 0); [congruence|done].
Qed.
End Refinement.

Import KVServer.

Lemma kv_implements_model_witness :
  exists kv' reps,
    kv_run (StartKVServer_init (StartKVServer_alloc 0))
      [PutVal (mkPutArgs "x" "1" 0); GetVal (mkGetArgs "x"); PutVal (mkPutArgs "x" "2" 0)]
    = Some (kv', reps) /\ length reps = 3%nat.
Proof.
  destruct (kv_implements_model 0
    [PutVal (mkPutArgs "x" "1" 0); GetVal (mkGetArgs "x"); PutVal (mkPutArgs "x" "2" 0)])
    as (kv' & reps & Hr & Hl & _); [repeat constructor|].
  exists kv', reps. split; [exact Hr|exact Hl].
Defined.

Lemma put_at_most_once_witness :
  exists kv1 kv2 reps,
    DoOp (mkKVServer 0 0 (Some ∅)) (PutVal (mkPutArgs "x" "1" 0)) = Some (kv1, RepPut (mkPutReply OK))
    /\ kv_run kv1 [PutVal (mkPutArgs "x" "2" 1)] = Some (kv2, reps)
    /\ DoOp kv2 (PutVal (mkPutArgs "x" "1" 0)) = Some (kv2, RepPut (mkPutReply ErrVersion)).
Proof.
  do 3 eexists. split; [reflexivity|]. split; [reflexivity|].
  refine (proj2 (put_at_most_once (mkKVServer 0 0 (Some ∅)) _ _ (mkPutArgs "x" "1" 0)
    (mkPutArgs "x" "1" 0) [PutVal (mkPutArgs "x" "2" 1)] _ _ _ _ _ _ _)); try reflexivity.
  simpl. lia.
Defined.
