(* ===== verification/Rsm.v ===== *)
(** * The replicated state machine layer

    [lec-2025/src/kvraft1/rsm/rsm.go]: the glue between a Raft peer and a service.  The
    service is any instance of the class [StateMachine] (the Go interface); what [RSM] relies
    on is [StateMachineLaws], which [KvServer] discharges.  [Submit] is cut where it gives up
    control: before it registers its channel, and while it waits. *)

From S2P Require Import Prelude Rpc Persister RaftState RaftRpc RaftLeader RaftInv RaftPeer.
From S2P Require Import RaftOps.

Record Op (Req : Type) := mkOp { op_Me : Z; op_Id : Z; op_Req : Req }.
Arguments mkOp {Req}.
Arguments op_Me {Req}.
Arguments op_Id {Req}.
Arguments op_Req {Req}.

(** The interface [rsm.StateMachine]; [None] is a [log.Fatalf] or a panic of the service. *)
Class StateMachine (S Req Rep : Type) := {
  sm_DoOp : S -> Req -> option (S * Rep);
  sm_Snapshot : S -> bytes;
  sm_Restore : S -> bytes -> S;
}.

(** What replication needs of a service: it is deterministic up to [≡], also when a request
    has gone through the codec, which turns pointers into values ([≡] on requests), and a
    snapshot carries its whole state to any replica. *)
Class StateMachineLaws (S Req Rep : Type) `{StateMachine S Req Rep} `{Equiv S} `{Equiv Req}
    (ok : S -> Prop) := {
  sm_equivalence :: @Equivalence S (≡);
  req_equivalence :: @Equivalence Req (≡);
  sm_DoOp_equiv : forall (s t : S) (q r : Req) s' x,
    s ≡ t -> q ≡ r -> sm_DoOp s q = Some (s', x) ->
    exists t', sm_DoOp t r = Some (t', x) /\ s' ≡ t';
  sm_DoOp_ok : forall (s : S) r s' x, ok s -> sm_DoOp s r = Some (s', x) -> ok s';
  sm_restore : forall s t : S, ok t -> sm_Restore s (sm_Snapshot t) ≡ t;
  sm_ok_equiv :: Proper ((≡) ==> iff) ok;
}.

Section Rsm.
Context {S Req Rep : Type} `{StateMachine S Req Rep} `{Gob (Persisted (Op Req))}.
Abbreviation Cmd := (Op Req).

Record Result := mkResult { res_Index : Z; res_Term : Z; res_Value : option Rep }.

(** A channel of capacity one: its buffer, and whether it is closed. *)
Record Chan := mkChan { ch_buf : option Result; ch_closed : bool }.

(** [waitChs] holds references; [chans] is the heap of channels they point to. *)
Record RSM := mkRSM {
  rsm_me : Z; rsm_rf : Raft Cmd; maxraftstate : Z; sm : S;
  waitChs : gmap Z nat; chans : list Chan }.

Definition set_rf (rf : Raft Cmd) (r : RSM) : RSM :=
  mkRSM (rsm_me r) rf (maxraftstate r) (sm r) (waitChs r) (chans r).
Definition set_sm (s : S) (r : RSM) : RSM :=
  mkRSM (rsm_me r) (rsm_rf r) (maxraftstate r) s (waitChs r) (chans r).
Definition set_waitChs (m : gmap Z nat) (r : RSM) : RSM :=
  mkRSM (rsm_me r) (rsm_rf r) (maxraftstate r) (sm r) m (chans r).
Definition set_chans (l : list Chan) (r : RSM) : RSM :=
  mkRSM (rsm_me r) (rsm_rf r) (maxraftstate r) (sm r) (waitChs r) l.

Definition trySnapShot (r : RSM) (index : Z) : option RSM :=
  if maxraftstate r =? -1 then Some r
  else if maxraftstate r <? PersistBytes (rsm_rf r) then
    rf ← Snapshot (rsm_rf r) index (sm_Snapshot (sm r));
    Some (set_rf rf r)
  else Some r.

(** [select { case waitCh <- result: default: }]; a send on a closed channel panics. *)
Definition chan_try_send (l : list Chan) (c : nat) (x : Result) : option (list Chan) :=
  ch ← l !! c;
  if ch_closed ch then None
  else match ch_buf ch with
       | None => Some (<[c := mkChan (Some x) false]> l)
       | Some _ => Some l
       end.

(** One iteration of the loop of [reader].  A [nil] command is not an [Op]. *)
Definition reader_step (r : RSM) (msg : ApplyMsg Cmd) : option RSM :=
  match msg with
  | CommandMsg None _ _ => Some r
  | CommandMsg (Some op) index term =>
      '(s, returnValue) ← sm_DoOp (sm r) (op_Req op);
      r ← trySnapShot (set_sm s r) index;
      match waitChs r !! index with
      | Some waitCh =>
          l ← chan_try_send (chans r) waitCh (mkResult index term (Some returnValue));
          Some (set_chans l r)
      | None => Some r
      end
  | SnapshotMsg snap _ _ => Some (set_sm (sm_Restore (sm r) snap) r)
  end.

(** The loop of [reader]. *)
Definition reader (r : RSM) (msgs : list (ApplyMsg Cmd)) : option RSM :=
  run_steps reader_step r msgs.

(** [applyCh] was closed: close every channel somebody waits on. *)
Definition reader_exit (r : RSM) : RSM :=
  set_chans (foldr (fun c l => alter (fun ch => mkChan (ch_buf ch) true) c l) (chans r)
               (map_to_list (waitChs r)).*2) r.

Definition MakeRSM (servers : list Z) (self : Z) (pst : Persister) (max : Z) (s : S) : RSM :=
  let s := if 0 <? SnapshotSize pst then sm_Restore s (ReadSnapshot pst) else s in
  mkRSM self (Make servers self pst) max s ∅ [].

(** ** [Submit] *)

(** Lines 169 to 181: the index and the term, or [None] for [ErrWrongLeader]. *)
Definition Submit_start (r : RSM) (req : Req) : option (RSM * option (Z * Z)) :=
  '(rf, (index, term, isLeader)) ← Start (rsm_rf r) (Some (mkOp (rsm_me r) 0 req));
  Some (set_rf rf r, if (isLeader : bool) then Some (index, term) else None).

(** Lines 184 to 189: a fresh channel. *)
Definition Submit_register (r : RSM) (index : Z) : RSM * nat :=
  let ch := length (chans r) in
  (set_waitChs (<[index := ch]> (waitChs r)) (set_chans (chans r ++ [mkChan None false]) r), ch).

(** The deferred function. *)
Definition Submit_cleanup (r : RSM) (index : Z) : RSM :=
  set_waitChs (delete index (waitChs r)) r.

(** The first branch of the [select]: [None] while there is nothing to receive.  A closed
    channel delivers its buffer and then zero values. *)
Definition Submit_receive (r : RSM) (ch : nat) (index term : Z) : option (RSM * (Err * option Rep)) :=
  c ← chans r !! ch;
  result ← (match ch_buf c with
            | Some x => Some x
            | None => if ch_closed c then Some (mkResult 0 0 None) else None
            end);
  let r := set_chans (<[ch := mkChan None (ch_closed c)]> (chans r)) r in
  Some (Submit_cleanup r index,
        if (res_Index result =? index) && (res_Term result =? term)
        then (OK, res_Value result) else (ErrWrongLeader, None)).

(** The second branch: two seconds have passed. *)
Definition Submit_timeout (r : RSM) (index : Z) : RSM * (Err * option Rep) :=
  (Submit_cleanup r index, (ErrWrongLeader, None)).

End Rsm.

Arguments Result : clear implicits.
Arguments RSM : clear implicits.

(** ** Replication: every replica computes the same state

    [L] is the committed log, [L !! i] the command of index [i + 1]; [replay] is the
    specification, one copy of the service that executes the log. *)

Section Replication.
Context {S Req Rep : Type} `{Equiv S} `{Equiv Req} {ok : S -> Prop}.
Context `{HS : StateMachine S Req Rep} `{!StateMachineLaws S Req Rep ok}.
Context `{Gob (Persisted (Op Req))}.
Abbreviation Cmd := (Op Req).
Implicit Types (r : RSM S Req Rep) (L : list (option Cmd)).

Fixpoint replay (s : S) L : option S :=
  match L with
  | [] => Some s
  | None :: L => replay s L
  | Some op :: L => '(s, _) ← sm_DoOp s (op_Req op); replay s L
  end.

(** Two commands the codec does not distinguish. *)
Definition cmd_equiv (c d : option Cmd) : Prop :=
  match c, d with
  | None, None => True
  | Some x, Some y => op_Req x ≡ op_Req y
  | _, _ => False
  end.

Context (s0 : S) (ok_s0 : ok s0).

(** [snap] is a snapshot some replica took after executing [L] through [k]. *)
Definition snapshot_of L (k : Z) (snap : bytes) : Prop :=
  exists s t, replay s0 (take (Z.to_nat k) L) = Some t /\ s ≡ t /\ snap = sm_Snapshot s.

(** What Raft delivers to a replica that has executed the log through [i]: the next command,
    or a snapshot of a longer prefix. *)
Inductive delivers L : Z -> ApplyMsg Cmd -> Z -> Prop :=
  | deliver_command i c d t :
      0 <= i -> L !! Z.to_nat i = Some d -> cmd_equiv c d ->
      delivers L i (CommandMsg c (i + 1) t) (i + 1)
  | deliver_snapshot i snap t k :
      i < k <= zlen L -> 0 <= i -> snapshot_of L k snap -> delivers L i (SnapshotMsg snap t k) k.

Inductive delivered L : Z -> list (ApplyMsg Cmd) -> Z -> Prop :=
  | delivered_nil i : delivered L i [] i
  | delivered_cons i m j ms k :
      delivers L i m j -> delivered L j ms k -> delivered L i (m :: ms) k.

(** The replica's service has executed exactly the first [i] commands. *)
Definition in_step L (i : Z) r : Prop :=
  exists t, replay s0 (take (Z.to_nat i) L) = Some t /\ sm r ≡ t.

Lemma replay_app s L1 L2 : replay s (L1 ++ L2) = t ← replay s L1; replay t L2.
Proof.
  revert s. induction L1 as [|[op|] L1 IH]; intros s; simpl; [done| |apply IH].
  destruct (sm_DoOp s (op_Req op)) as [[s' x]|]; simpl; [apply IH|done].
Qed.

Lemma replay_ok s L t : ok s -> replay s L = Some t -> ok t.
Proof.
  revert s. induction L as [|[op|] L IH]; intros s Hs Hr; simpl in Hr; [by simplify_eq| |eauto].
  apply bind_Some in Hr as ([s' x] & Hx & Hr).
  eapply IH; [|exact Hr]. eapply (sm_DoOp_ok s); [exact Hs|exact Hx].
Qed.

Lemma take_next L i d :
  0 <= i -> L !! Z.to_nat i = Some d ->
  take (Z.to_nat (i + 1)) L = take (Z.to_nat i) L ++ [d].
Proof.
  intros Hi Hd. replace (Z.to_nat (i + 1)) with (Datatypes.S (Z.to_nat i)) by lia.
  by apply take_S_r.
Qed.

Lemma trySnapShot_spec r index r' :
  trySnapShot r index = Some r' ->
  sm r' = sm r /\ waitChs r' = waitChs r /\ chans r' = chans r /\ rsm_me r' = rsm_me r
  /\ maxraftstate r' = maxraftstate r
  /\ (rsm_rf r' = rsm_rf r
      \/ Snapshot (rsm_rf r) index (sm_Snapshot (sm r)) = Some (rsm_rf r')).
Proof.
  unfold trySnapShot. intros Hr. go_if_in Hr; [simplify_eq; auto 10|].
  go_if_in Hr; [|simplify_eq; auto 10]. go_bind Hr. simplify_eq/=. auto 10.
Qed.

(** The command path of [reader_step]. *)
Lemma reader_step_command r op index term r' :
  reader_step r (CommandMsg (Some op) index term) = Some r' ->
  exists s x, sm_DoOp (sm r) (op_Req op) = Some (s, x) /\ sm r' = s
    /\ waitChs r' = waitChs r
    /\ (rsm_rf r' = rsm_rf r \/ Snapshot (rsm_rf r) index (sm_Snapshot s) = Some (rsm_rf r'))
    /\ (chans r' = chans r
        \/ exists ch, waitChs r !! index = Some ch
            /\ chan_try_send (chans r) ch (mkResult index term (Some x)) = Some (chans r')).
Proof.
  simpl. intros Hr. apply bind_Some in Hr as ([s x] & Hx & Hr).
  apply bind_Some in Hr as (r1 & Ht & Hr). apply trySnapShot_spec in Ht as (Hs & Hw & Hc & _ & _ & Hrf).
  simpl in *. rewrite Hw, Hc in Hr. exists s, x. split; [done|].
  destruct (waitChs r !! index) as [ch|] eqn:Hch; [|simplify_eq; auto 10].
  apply bind_Some in Hr as (l & Hl & Hr). simplify_eq/=. split_and!; auto. right. eauto.
Qed.

(** One message: the replica stays in step, and what it hands to Raft as a snapshot is one. *)
Lemma reader_step_in_step L i msg j r r' :
  in_step L i r -> delivers L i msg j -> reader_step r msg = Some r' ->
  in_step L j r'
  /\ (rsm_rf r' = rsm_rf r
      \/ exists snap, snapshot_of L j snap /\ Snapshot (rsm_rf r) j snap = Some (rsm_rf r')).
Proof.
  intros (t & Ht & Hst) Hd Hr. destruct Hd as [i c d tm Hi Hd Hcd | i snap tm k Hk Hi Hsnap].
  - destruct c as [op|], d as [op'|]; try done.
    + apply reader_step_command in Hr as (s & x & Hx & <- & _ & Hrf & _).
      destruct (sm_DoOp_equiv (sm r) t (op_Req op) (op_Req op') _ _ Hst Hcd Hx) as (t' & Ht' & Heq).
      assert (Hrep : replay s0 (take (Z.to_nat (i + 1)) L) = Some t').
      { rewrite (take_next L i (Some op')), replay_app, Ht by done. simpl. by rewrite Ht'. }
      split; [by exists t'|]. destruct Hrf as [?|?]; [by left|right].
      eexists. split; [|done]. by exists (sm r'), t'.
    + simplify_eq/=. split; [|by left]. exists t. split; [|done].
      by rewrite (take_next L i None), replay_app, Ht.
  - simplify_eq/=. split; [|by left]. destruct Hsnap as (s & t' & Ht' & Hs & ->).
    exists t'. split; [done|]. simpl. rewrite sm_restore; [done|].
    rewrite Hs. by eapply replay_ok.
Qed.

Lemma reader_cons r m ms : reader r (m :: ms) = r' ← reader_step r m; reader r' ms.
Proof. apply run_steps_cons. Qed.

Lemma reader_in_step L i msgs j r r' :
  in_step L i r -> delivered L i msgs j -> reader r msgs = Some r' -> in_step L j r'.
Proof.
  intros Hin Hd. revert r Hin. induction Hd as [i|i m j ms k Hm _ IH]; intros r Hin Hr.
  { by injection Hr as <-. }
  rewrite reader_cons in Hr. apply bind_Some in Hr as (r1 & Hr1 & Hr).
  eapply IH; [|done]. by destruct (reader_step_in_step L i m j r r1).
Qed.

Lemma MakeRSM_in_step L servers self pst max k :
  (snapshot pst = [] /\ k = 0 \/ snapshot_of L k (snapshot pst) /\ snapshot pst <> []) ->
  in_step L k (MakeRSM (Rep:=Rep) servers self pst max s0).
Proof.
  unfold MakeRSM, SnapshotSize, ReadSnapshot, clone. intros [[-> ->]|[Hsnap Hne]].
  - by exists s0.
  - assert (0 < zlen (snapshot pst)).
    { destruct (snapshot pst) as [|y l]; [done|]. rewrite zlen_cons. pose proof (zlen_nonneg l). lia. }
    destruct (Z.ltb_spec 0 (zlen (snapshot pst))); [|lia].
    destruct Hsnap as (s & t & Ht & Hs & ->). exists t. split; [done|]. simpl.
    rewrite sm_restore; [done|]. rewrite Hs. by eapply replay_ok.
Qed.

(** C17.  Replicas agree: two replicas, each started afresh or restarted from a snapshot and
    fed by Raft with the commands of one committed log or with snapshots other replicas took,
    have equivalent services whenever they have executed the log through the same index, and
    so give the same reply to the next command, whichever copies of it they hold. *)
Theorem replicas_agree (L : list (option Cmd)) (servers1 servers2 : list Z) (me1 me2 : Z)
    (pst1 pst2 : Persister) (max1 max2 : Z) (k1 k2 i : Z) (ms1 ms2 : list (ApplyMsg Cmd))
    (r1 r2 : RSM S Req Rep) :
  (snapshot pst1 = [] /\ k1 = 0 \/ snapshot_of L k1 (snapshot pst1) /\ snapshot pst1 <> []) ->
  (snapshot pst2 = [] /\ k2 = 0 \/ snapshot_of L k2 (snapshot pst2) /\ snapshot pst2 <> []) ->
  delivered L k1 ms1 i -> delivered L k2 ms2 i ->
  reader (MakeRSM servers1 me1 pst1 max1 s0) ms1 = Some r1 ->
  reader (MakeRSM servers2 me2 pst2 max2 s0) ms2 = Some r2 ->
  sm r1 ≡ sm r2
  /\ forall (q1 q2 : Req) s1' x, q1 ≡ q2 -> sm_DoOp (sm r1) q1 = Some (s1', x) ->
       exists s2', sm_DoOp (sm r2) q2 = Some (s2', x) /\ s1' ≡ s2'.
Proof.
  intros Hp1 Hp2 Hd1 Hd2 Hr1 Hr2.
  destruct (reader_in_step L k1 ms1 i _ r1 (MakeRSM_in_step L _ _ _ _ _ Hp1) Hd1 Hr1) as (t1 & Ht1 & He1).
  destruct (reader_in_step L k2 ms2 i _ r2 (MakeRSM_in_step L _ _ _ _ _ Hp2) Hd2 Hr2) as (t2 & Ht2 & He2).
  rewrite Ht1 in Ht2. injection Ht2 as <-.
  assert (Heq : sm r1 ≡ sm r2) by (by rewrite He1, He2).
  split; [done|]. intros q1 q2 s1' x Hq Hx. by eapply sm_DoOp_equiv.
Qed.
End Replication.

(** ** [Submit] answers [OK] only with the result of its own log position

    Clients, the reader, the clock and the Raft peer act in any order. *)

Section SubmitRun.
Context {S Req Rep : Type} `{HS : StateMachine S Req Rep} `{Gob (Persisted (Op Req))}.
Context `{!GobLaws (Persisted (Op Req))}.
Abbreviation Cmd := (Op Req).
Implicit Types r : RSM S Req Rep.

(** [w_started]: calls that have not registered yet; [w_waiting]: calls in the [select], with
    their channel; [w_returned]: what the finished calls returned; [w_executed]: the commands
    the reader has executed, with the replies of the service. *)
Record World := mkWorld {
  w_rsm : RSM S Req Rep;
  w_started : list (Z * Z);
  w_waiting : list (nat * (Z * Z));
  w_returned : list (Z * Z * (Err * option Rep));
  w_executed : list (Z * Z * Rep) }.

Inductive RsmEvent :=
  | RsmSubmit (req : Req)
  | RsmRegister (k : nat)
  | RsmReceive (k : nat)
  | RsmTimeout (k : nat)
  | RsmApply (msg : ApplyMsg Cmd)
  | RsmRaft (op : PeerOp Cmd)
  | RsmShutdown.

Definition executed_by (r : RSM S Req Rep) (msg : ApplyMsg Cmd) : list (Z * Z * Rep) :=
  match msg with
  | CommandMsg (Some op) index term =>
      match sm_DoOp (sm r) (op_Req op) with Some (_, x) => [(index, term, x)] | None => [] end
  | _ => []
  end.

Definition rsm_step (w : World) (ev : RsmEvent) : option World :=
  match ev with
  | RsmSubmit req =>
      '(r, res) ← Submit_start (w_rsm w) req;
      Some (match res with
            | Some it => mkWorld r (w_started w ++ [it]) (w_waiting w) (w_returned w) (w_executed w)
            | None => mkWorld r (w_started w) (w_waiting w) (w_returned w) (w_executed w)
            end)
  | RsmRegister k =>
      it ← w_started w !! k;
      let '(r, ch) := Submit_register (w_rsm w) it.1 in
      Some (mkWorld r (delete k (w_started w)) (w_waiting w ++ [(ch, it)]) (w_returned w)
                    (w_executed w))
  | RsmReceive k =>
      '(ch, it) ← w_waiting w !! k;
      '(r, res) ← Submit_receive (w_rsm w) ch it.1 it.2;
      Some (mkWorld r (w_started w) (delete k (w_waiting w)) (w_returned w ++ [(it, res)])
                    (w_executed w))
  | RsmTimeout k =>
      '(_, it) ← w_waiting w !! k;
      let '(r, res) := Submit_timeout (w_rsm w) it.1 in
      Some (mkWorld r (w_started w) (delete k (w_waiting w)) (w_returned w ++ [(it, res)])
                    (w_executed w))
  | RsmApply msg =>
      r ← reader_step (w_rsm w) msg;
      Some (mkWorld r (w_started w) (w_waiting w) (w_returned w)
                    (w_executed w ++ executed_by (w_rsm w) msg))
  | RsmRaft op =>
      rf ← run_op (rsm_rf (w_rsm w)) op;
      Some (mkWorld (set_rf rf (w_rsm w)) (w_started w) (w_waiting w) (w_returned w) (w_executed w))
  | RsmShutdown =>
      Some (mkWorld (reader_exit (w_rsm w)) (w_started w) (w_waiting w) (w_returned w)
                    (w_executed w))
  end.

Definition rsm_steps (w : World) (evs : list RsmEvent) : option World :=
  run_steps rsm_step w evs.

Definition start_world (r : RSM S Req Rep) : World := mkWorld r [] [] [] [].

(** Every result in a channel, and every [OK] already returned, comes from an execution. *)
Definition buffered_ok (ex : list (Z * Z * Rep)) (c : Chan (Rep:=Rep)) : Prop :=
  forall x, ch_buf c = Some x ->
    exists v, res_Value x = Some v /\ (res_Index x, res_Term x, v) ∈ ex.

Definition returned_ok (ex : list (Z * Z * Rep)) (e : Z * Z * (Err * option Rep)) : Prop :=
  e.2.1 = OK -> exists v, e.2.2 = Some v /\ (e.1.1, e.1.2, v) ∈ ex.

(** Raft numbers its entries from 1; the zero [Result] of a closed channel has index 0. *)
Implicit Types w : World.

Record world_ok (w : World) : Prop := {
  wo_chans : Forall (buffered_ok (w_executed w)) (chans (w_rsm w));
  wo_returned : Forall (returned_ok (w_executed w)) (w_returned w);
  wo_started : Forall (fun it => 1 <= it.1) (w_started w);
  wo_waiting : Forall (fun e => 1 <= e.2.1) (w_waiting w);
  wo_raft : raft_wf (rsm_rf (w_rsm w));
}.

Definition event_ok (n : Z) (ev : RsmEvent) : Prop :=
  match ev with RsmRaft op => op_ok n op | _ => True end.

Lemma buffered_mono ex ex' c : ex ⊆ ex' -> buffered_ok ex c -> buffered_ok ex' c.
Proof. intros Hs Hc x Hx. destruct (Hc x Hx) as (v & ? & ?). eauto. Qed.

Lemma returned_mono ex ex' e : ex ⊆ ex' -> returned_ok ex e -> returned_ok ex' e.
Proof. intros Hs Hc Hx. destruct (Hc Hx) as (v & ? & ?). eauto. Qed.

Lemma Submit_start_ok r req r' res :
  raft_wf (rsm_rf r) -> Submit_start r req = Some (r', res) ->
  chans r' = chans r /\ raft_wf (rsm_rf r') /\ peers (rsm_rf r') = peers (rsm_rf r)
  /\ (forall it, res = Some it -> 1 <= it.1).
Proof.
  intros Hwf Hr. unfold Submit_start in Hr.
  destruct (Start_wf (rsm_rf r) (Some (mkOp (rsm_me r) 0 req)) Hwf) as (rf & [[i t] b] & Hst & Hwf').
  rewrite Hst in Hr. simplify_eq/=. pose proof (Start_evolves _ _ _ _ Hst) as (Hpe & _).
  split_and!; try done. intros it Hit. destruct b; simplify_eq/=.
  unfold Start in Hst. go_if_in Hst; [|by simplify_eq].
  apply bind_Some in Hst as (n & _ & Hst). apply bind_Some in Hst as (m & _ & Hst). simplify_eq/=.
  pose proof (sh_commit _ (wf_shape _ Hwf)). lia.
Qed.

Lemma reader_step_ok r msg r' ex :
  raft_wf (rsm_rf r) -> Forall (buffered_ok ex) (chans r) -> reader_step r msg = Some r' ->
  Forall (buffered_ok (ex ++ executed_by r msg)) (chans r') /\ raft_wf (rsm_rf r')
  /\ peers (rsm_rf r') = peers (rsm_rf r).
Proof.
  intros Hwf Hch Hr.
  assert (Hmono : Forall (buffered_ok (ex ++ executed_by r msg)) (chans r)).
  { eapply Forall_impl; [exact Hch|]. intros c. apply buffered_mono. set_solver. }
  destruct msg as [[op|] index term|snap t k]; [|by simplify_eq/=..].
  apply reader_step_command in Hr as (s & x & Hx & _ & _ & Hrf & Hc).
  split; [|destruct Hrf as [->|Hsn]; [done|]].
  - destruct Hc as [->|(ch & _ & Hs)]; [done|]. unfold chan_try_send in Hs.
    apply bind_Some in Hs as (c & Hc & Hs). go_if_in Hs; [done|].
    destruct (ch_buf c); injection Hs as <-; [done|]. apply Forall_insert; [done|].
    intros y Hy. simplify_eq/=. exists x. split; [done|]. rewrite Hx. set_solver.
  - destruct (Snapshot_wf (rsm_rf r) index (sm_Snapshot s) Hwf) as (rf & Hsn' & Hwf').
    pose proof (Snapshot_evolves _ _ _ _ Hsn) as (Hpe & _).
    rewrite Hsn in Hsn'. injection Hsn' as <-. done.
Qed.

Lemma Submit_receive_ok r ch index term r' res ex :
  1 <= index -> Forall (buffered_ok ex) (chans r) ->
  Submit_receive r ch index term = Some (r', res) ->
  Forall (buffered_ok ex) (chans r') /\ rsm_rf r' = rsm_rf r
  /\ returned_ok ex (index, term, res).
Proof.
  intros Hi Hch Hr. unfold Submit_receive in Hr. apply bind_Some in Hr as (c & Hc & Hr).
  pose proof (Forall_lookup_1 _ _ _ _ Hch Hc) as Hb.
  apply bind_Some in Hr as (x & Hx & Hr). simplify_eq/=. split; [|split; [done|]].
  - by apply Forall_insert.
  - intros Hok. go_if_in Hok; [|done]. subst. simpl. destruct (ch_buf c) as [y|] eqn:Hy.
    + simplify_eq. by apply Hb.
    + destruct (ch_closed c); simplify_eq/=. lia.
Qed.

Lemma close_all_buffers (cs : list nat) (l : list (Chan (Rep:=Rep))) ex :
  Forall (buffered_ok ex) l ->
  Forall (buffered_ok ex) (foldr (fun c l => alter (fun ch => mkChan (ch_buf ch) true) c l) l cs).
Proof.
  intros Hl. induction cs as [|c cs IH]; simpl; [done|]. by apply Forall_alter; [|intros ch Hch Hb].
Qed.

Lemma rsm_step_ok w ev w' :
  world_ok w -> event_ok (zlen (peers (rsm_rf (w_rsm w)))) ev -> rsm_step w ev = Some w' ->
  world_ok w' /\ peers (rsm_rf (w_rsm w')) = peers (rsm_rf (w_rsm w)).
Proof.
  intros [Hc Hret Hst Hw Hwf] Hev Hr. destruct ev; simpl in Hr.
  - apply bind_Some in Hr as ([r res] & Hs & Hr).
    apply Submit_start_ok in Hs as (Hch & Hwf' & Hpe & Hit); [|done].
    destruct res as [it|]; simplify_eq/=; (split; [|done]); constructor; simpl; rewrite ?Hch; auto.
    apply Forall_app. auto.
  - apply bind_Some in Hr as (it & Hit & Hr). simplify_eq/=. split; [|done].
    pose proof (Forall_lookup_1 _ _ _ _ Hst Hit).
    constructor; simpl; auto using Forall_delete; apply Forall_app; split; auto.
    constructor; [|done]. by intros x Hx.
  - apply bind_Some in Hr as ([ch it] & Hit & Hr). apply bind_Some in Hr as ([r res] & Hs & Hr).
    pose proof (Forall_lookup_1 _ _ _ _ Hw Hit) as Hi. destruct it as [i t].
    eapply Submit_receive_ok in Hs as (Hch & Hrf & Hres); [|done|exact Hc]. simplify_eq/=.
    rewrite Hrf. split; [|done]. constructor; simpl; rewrite ?Hrf; auto using Forall_delete.
    apply Forall_app. auto.
  - apply bind_Some in Hr as ([ch [i t]] & Hit & Hr). simplify_eq/=. split; [|done].
    constructor; simpl; auto using Forall_delete. apply Forall_app. split; [done|].
    constructor; [|done]. by intros ?.
  - apply bind_Some in Hr as (r & Hs & Hr). simplify_eq/=.
    eapply reader_step_ok in Hs as (Hch & Hwf' & Hpe); [|done..]. split; [|done].
    constructor; simpl; auto. eapply Forall_impl; [exact Hret|]. intros e. apply returned_mono. set_solver.
  - apply bind_Some in Hr as (rf & Hs & Hr). simplify_eq/=.
    destruct (run_op_wf _ op Hwf Hev) as (rf' & Hs' & Hwf'). rewrite Hs in Hs'. injection Hs' as <-.
    pose proof (run_op_evolves _ _ _ (wf_durable _ Hwf) Hs) as (Hpe & _).
    split; [|done]. by constructor.
  - simplify_eq/=. split; [|done]. constructor; simpl; auto. by apply close_all_buffers.
Qed.

Lemma rsm_steps_ok w evs w' :
  world_ok w -> Forall (event_ok (zlen (peers (rsm_rf (w_rsm w))))) evs ->
  rsm_steps w evs = Some w' -> world_ok w'.
Proof.
  intros Hok Hev Hr. set (n := zlen (peers (rsm_rf (w_rsm w)))) in *.
  apply (run_steps_ind rsm_step (fun w => world_ok w /\ zlen (peers (rsm_rf (w_rsm w))) = n)
           (event_ok n) w evs w'); [|done..].
  intros w1 ev w2 [Hok1 Hn] Hev1 Hs. rewrite <- Hn in Hev1.
  destruct (rsm_step_ok w1 ev w2 Hok1 Hev1 Hs) as [? ->]. done.
Qed.

End SubmitRun.
