(* ===== verification/KvClerk.v ===== *)
(** * The clerk of the replicated store

    [lec-2025/src/kvraft1/client.go].  The transport is the parameter [Call]: it gets the
    server contacted and the arguments and returns the new world and, if the RPC went through,
    the reply.  The retry loops run with fuel, one unit per RPC. *)

From S2P Require Import Prelude Rpc KvServer.

Record Clerk := mkClerk { servers : list string; lastLeader : Z }.

Definition set_lastLeader (i : Z) (ck : Clerk) : Clerk := mkClerk (servers ck) i.

Definition MakeClerk (srvs : list string) : Clerk := mkClerk srvs (-1).

(** Lines 44 to 47 and 89 to 92. *)
Definition first_server (ck : Clerk) : Z := if lastLeader ck =? -1 then 0 else lastLeader ck.

Section Loops.
Context {W : Type} (CallGet : W -> string -> GetArgs -> W * option GetReply)
  (CallPut : W -> string -> PutArgs -> W * option PutReply).

(** The loops also return the servers contacted, in order. *)
Fixpoint Get_loop (fuel : nat) (w : W) (ck : Clerk) (args : GetArgs) (i : Z)
    : option (W * Clerk * (string * Tversion * Err) * list Z) :=
  match fuel with
  | O => None
  | S fuel =>
      srv ← slice_get (servers ck) i;
      let retry w :=
        '(w, ck, res, tried) ← Get_loop fuel w ck args (Z.rem (i + 1) (zlen (servers ck)));
        Some (w, ck, res, i :: tried) in
      match CallGet w srv args with
      | (w, Some reply) =>
          if negb (bool_decide (gr_Err reply = ErrWrongLeader)) then
            Some (w, set_lastLeader i ck, (gr_Value reply, gr_Version reply, gr_Err reply), [i])
          else retry w
      | (w, None) => retry w
      end
  end.

Definition Clerk_Get (fuel : nat) (w : W) (ck : Clerk) (key : string) :=
  Get_loop fuel w ck (mkGetArgs key) (first_server ck).

Fixpoint Put_loop (fuel : nat) (w : W) (ck : Clerk) (args : PutArgs) (i : Z) (isResend : bool)
    : option (W * Clerk * Err * list Z) :=
  match fuel with
  | O => None
  | S fuel =>
      srv ← slice_get (servers ck) i;
      let retry w :=
        '(w, ck, err, tried) ← Put_loop fuel w ck args (Z.rem (i + 1) (zlen (servers ck))) true;
        Some (w, ck, err, i :: tried) in
      match CallPut w srv args with
      | (w, Some reply) =>
          if negb (bool_decide (pr_Err reply = ErrWrongLeader)) then
            let err := if isResend && bool_decide (pr_Err reply = ErrVersion) then ErrMaybe
                       else pr_Err reply in
            Some (w, set_lastLeader i ck, err, [i])
          else retry w
      | (w, None) => retry w
      end
  end.

Definition Clerk_Put (fuel : nat) (w : W) (ck : Clerk) (key value : string) (version : Tversion) :=
  Put_loop fuel w ck (mkPutArgs key value version) (first_server ck) false.
End Loops.

(** ** A service behind an unreliable network

    The schedule says, for every RPC of the clerk, which requests of others the service
    executes before it, and what becomes of it.  A request whose reply is lost, or that a
    server answers with [ErrWrongLeader] because it lost its leadership, may have been
    executed all the same. *)

Import KVServer.

Inductive Fate :=
  | Lost | ReplyLost | Answered | NotLeader | NotLeaderExecuted.

(** [n_mine] records the replies to this clerk's own executed requests. *)
Record Net := mkNet { n_kv : KVServer; n_sched : list (list Req * Fate); n_mine : list Err }.

Definition rep_err (rep : Rep) : Err :=
  match rep with RepGet r => gr_Err r | RepPut r => pr_Err r end.

(** Deliver one [Put]: [KVServer.Put] turns the outcome of [Submit] into the reply. *)
Definition net_put (w : Net) (srv : string) (args : PutArgs) : Net * option PutReply :=
  match n_sched w with
  | [] => (w, None)
  | (others, fate) :: sched =>
      match kv_run (n_kv w) others with
      | None => (w, None)
      | Some (kv, _) =>
          let skip reply := (mkNet kv sched (n_mine w), reply) in
          match DoOp kv (PutPtr args) with
          | None => skip None
          | Some (kv', rep) =>
              let ran reply := (mkNet kv' sched (n_mine w ++ [rep_err rep]), reply) in
              match fate with
              | Lost => skip None
              | ReplyLost => ran None
              | Answered => ran (Some (KVServer.Put OK (Some rep)))
              | NotLeader => skip (Some (KVServer.Put ErrWrongLeader None))
              | NotLeaderExecuted => ran (Some (KVServer.Put ErrWrongLeader None))
              end
          end
      end
  end.

(** ** What the clerk's answer means *)

Implicit Types (kv : KVServer) (sched : list (list Req * Fate)) (mine : list Err).

(** How often this clerk's [Put] took effect. *)
Definition own_ok mine : Z := zlen (filter (fun e => e = OK) mine).

Lemma own_ok_snoc mine e :
  own_ok (mine ++ [e]) = own_ok mine + (if decide (e = OK) then 1 else 0).
Proof.
  unfold own_ok. rewrite filter_app, zlen_app. f_equal. by destruct e.
Qed.

(** The requests of others are requests, and there are fewer than [2^64 - 1] in all. *)
Definition sched_ok sched : Prop := Forall (fun p => Forall (fun r => known r = true) p.1) sched.

Definition sched_size sched : Z := foldr (fun p n => zlen p.1 + 1 + n) 0 sched.

Lemma sched_size_nonneg sched : 0 <= sched_size sched.
Proof. induction sched as [|p l IH]; simpl; [lia|]. pose proof (zlen_nonneg p.1). lia. Qed.

(** After at most [n] requests since it succeeded: the version has moved on. *)
Definition spent (args : PutArgs) (n : Z) kv mine : Prop :=
  own_ok mine = 0
  \/ own_ok mine = 1
     /\ exists j, 0 <= j <= n /\ KvModel.st_Version (abs kv (pa_Key args)) = u64 (pa_Version args + 1 + j).

Lemma spent_others args n kv mine others kv' reps :
  spent args n kv mine -> kv_run kv others = Some (kv', reps) ->
  spent args (n + zlen others) kv' mine.
Proof.
  intros [H0|(H1 & j & Hj & Hv)] Hr; [by left|right]. split; [done|].
  pose proof (puts_ok_bound (pa_Key args) others reps).
  exists (j + puts_ok (pa_Key args) others reps). split; [lia|].
  rewrite (version_run _ _ _ _ _ Hr) by (rewrite Hv; apply u64_range).
  rewrite Hv, u64_add_l. f_equal. lia.
Qed.

Lemma spent_run args n kv mine kv' rep :
  0 <= pa_Version args < 2 ^ 64 -> 0 <= n < 2 ^ 64 - 1 ->
  spent args n kv mine -> DoOp kv (PutPtr args) = Some (kv', rep) ->
  spent args (n + 1) kv' (mine ++ [rep_err rep]).
Proof.
  intros Hv Hn Hsp Hr. apply (DoOp_put kv args) in Hr as Hp.
  destruct (Z.eqb_spec (pa_Version args) (KvModel.st_Version (abs kv (pa_Key args)))) as [Heq|Hne].
  - destruct Hp as (-> & Hk & _). right. rewrite own_ok_snoc. simpl.
    destruct Hsp as [H0|(H1 & j & Hj & Hver)].
    + rewrite H0. split; [done|]. exists 0. split; [lia|]. unfold abs. by rewrite Hk, Z.add_0_r.
    + rewrite Hver in Heq. symmetry in Heq. by apply u64_moved in Heq; [|lia..].
  - destruct Hp as (-> & ->). unfold spent in *. rewrite own_ok_snoc. simpl.
    rewrite Z.add_0_r. destruct Hsp as [H0|(H1 & j & Hj & Hver)]; [by left|right].
    split; [done|]. exists j. split; [lia|done].
Qed.

Lemma spent_weaken args n m kv mine : n <= m -> spent args n kv mine -> spent args m kv mine.
Proof. intros ? [H0|(H1 & j & ? & ?)]; [by left|right]. split; [done|]. exists j. split; [lia|done]. Qed.

(** The steps of one RPC. *)
Lemma net_put_step w srv args others fate sched :
  n_sched w = (others, fate) :: sched -> live (n_kv w) ->
  Forall (fun r => known r = true) others ->
  exists kv reps kv' rep, kv_run (n_kv w) others = Some (kv, reps) /\ live kv
    /\ DoOp kv (PutPtr args) = Some (kv', rep) /\ live kv'
    /\ net_put w srv args =
         (match fate with
          | Lost => (mkNet kv sched (n_mine w), None)
          | ReplyLost => (mkNet kv' sched (n_mine w ++ [rep_err rep]), None)
          | Answered => (mkNet kv' sched (n_mine w ++ [rep_err rep]), Some (KVServer.Put OK (Some rep)))
          | NotLeader => (mkNet kv sched (n_mine w), Some (mkPutReply ErrWrongLeader))
          | NotLeaderExecuted =>
              (mkNet kv' sched (n_mine w ++ [rep_err rep]), Some (mkPutReply ErrWrongLeader))
          end).
Proof.
  intros Hs Hl Hk. destruct (kv_run_total _ _ Hl Hk) as (kv & reps & Hr & Hl1 & _).
  destruct (DoOp_total kv (PutPtr args) Hl1 eq_refl) as (kv' & rep & Hd).
  destruct (DoOp_step _ _ _ _ Hl1 Hd) as (_ & _ & Hl2).
  exists kv, reps, kv', rep. split_and!; try done.
  unfold net_put. rewrite Hs, Hr, Hd. by destruct fate.
Qed.

(** The outcome of a loop that has already made [length mine] executions: what the last RPC
    answered and what the clerk makes of it. *)
Definition put_outcome (args : PutArgs) (resend : bool) (tried : list Z) mine' kv' (err : Err)
    : Prop :=
  exists before e, mine' = before ++ [e]
    /\ (length tried = 1%nat -> before = [])
    /\ (e = OK /\ err = OK
        /\ lookup kv' (pa_Key args)
           = Some (mkValueEntry (pa_Value args) (u64 (pa_Version args + 1)))
        \/ e = ErrVersion
           /\ err = (if resend || (1 <? zlen tried) then ErrMaybe else ErrVersion)).

Lemma answered_outcome kv args kv' rep resend i :
  DoOp kv (PutPtr args) = Some (kv', rep) ->
  let reply := KVServer.Put OK (Some rep) in
  pr_Err reply <> ErrWrongLeader
  /\ put_outcome args resend [i] [rep_err rep] kv'
       (if resend && bool_decide (pr_Err reply = ErrVersion) then ErrMaybe else pr_Err reply).
Proof.
  intros Hd. apply (DoOp_put kv args) in Hd.
  destruct (_ =? _).
  - destruct Hd as (-> & Hk & _). simpl. split; [done|]. exists [], OK. split; [done|].
    split; [done|]. left. by destruct resend.
  - destruct Hd as [-> ->]. simpl. split; [done|]. exists [], ErrVersion. split; [done|].
    split; [done|]. right. by destruct resend.
Qed.

(** One more RPC in front of an outcome. *)
Lemma put_outcome_cons args tried mine' extra kv' err resend i :
  put_outcome args true tried mine' kv' err ->
  put_outcome args resend (i :: tried) (extra ++ mine') kv' err \/ tried = [].
Proof.
  intros (before & e & -> & Hb & He). destruct tried as [|j tried]; [by right|left].
  exists (extra ++ before), e. split; [by rewrite app_assoc|]. split; [done|].
  destruct He as [?|[-> ->]]; [by left|right]. split; [done|].
  assert (Hz : (1 <? zlen (i :: j :: tried)) = true).
  { apply Z.ltb_lt. rewrite !zlen_cons. pose proof (zlen_nonneg tried). lia. }
  rewrite Hz. by rewrite !orb_true_r.
Qed.

(** The first RPC that is answered. *)
Fixpoint first_answered sched : option nat :=
  match sched with
  | [] => None
  | (_, Answered) :: _ => Some O
  | _ :: sched => S <$> first_answered sched
  end.

(** Round robin over [n] servers. *)
Definition round_robin (n i : Z) (k : nat) : list Z :=
  (fun j => (i + Z.of_nat j) mod n) <$> seq 0 k.

Lemma round_robin_S n i k :
  0 <= i < n -> round_robin n i (S k) = i :: round_robin n (Z.rem (i + 1) n) k.
Proof.
  intros Hi. unfold round_robin. rewrite Z.rem_mod_nonneg by lia. simpl.
  rewrite Z.add_0_r, Z.mod_small by lia. f_equal.
  rewrite <- fmap_S_seq, <- list_fmap_compose. apply list_fmap_ext. intros _ j _. simpl.
  rewrite Zplus_mod_idemp_l. f_equal. lia.
Qed.

(** One RPC: the world after it, and whether the clerk tries again. *)
Lemma net_put_spent kv mine srv args others fate sched n :
  live kv -> Forall (fun r => known r = true) others -> 0 <= pa_Version args < 2 ^ 64 ->
  0 <= n -> n + zlen others < 2 ^ 64 - 1 -> spent args n kv mine ->
  exists kvx extra r,
    net_put (mkNet kv ((others, fate) :: sched) mine) srv args
    = (mkNet kvx sched (mine ++ extra), r)
    /\ live kvx /\ spent args (n + zlen others + 1) kvx (mine ++ extra)
    /\ (fate <> Answered -> r = None \/ r = Some (mkPutReply ErrWrongLeader))
    /\ (fate = Answered -> exists kv1 rep, DoOp kv1 (PutPtr args) = Some (kvx, rep)
          /\ extra = [rep_err rep] /\ r = Some (KVServer.Put OK (Some rep))).
Proof.
  intros Hl Hoth Hv Hn Hlt Hsp. pose proof (zlen_nonneg others).
  destruct (net_put_step (mkNet kv ((others, fate) :: sched) mine) srv args others fate sched)
    as (kv1 & reps & kv2 & rep & Hrun & Hl1 & Hd & Hl2 & Hput); [done..|]. simpl in Hput.
  apply (spent_others _ _ _ _ _ _ _ Hsp) in Hrun as Hsp1.
  assert (Hsp2 : spent args (n + zlen others + 1) kv2 (mine ++ [rep_err rep])).
  { eapply spent_run; [done| |exact Hsp1|exact Hd]. lia. }
  apply (spent_weaken _ _ (n + zlen others + 1)) in Hsp1; [|lia]. rewrite Hput.
  destruct fate;
    [exists kv1, []|exists kv2, [rep_err rep]|exists kv2, [rep_err rep]|exists kv1, []
    |exists kv2, [rep_err rep]]; eexists; rewrite ?app_nil_r; (split; [done|]); split_and!;
    try done; auto.
  intros _. eauto 10.
Qed.

Lemma first_answered_cons others fate sched j :
  first_answered ((others, fate) :: sched) = Some j ->
  fate = Answered /\ j = O
  \/ fate <> Answered /\ exists j', first_answered sched = Some j' /\ j = S j'.
Proof.
  destruct fate; simpl; intros Hj; try (right; apply fmap_Some in Hj; naive_solver).
  left. by simplify_eq.
Qed.

(** The loop reaches its answer with one unit of fuel per RPC. *)
Lemma Put_loop_net sched kv ck args i resend mine n j :
  live kv -> sched_ok sched -> 0 <= i < zlen (servers ck) ->
  0 <= pa_Version args < 2 ^ 64 -> 0 <= n -> n + sched_size sched < 2 ^ 64 ->
  spent args n kv mine -> first_answered sched = Some j ->
  exists kv' ck' err tried mine',
    Put_loop net_put (S j) (mkNet kv sched mine) ck args i resend
    = Some (mkNet kv' (drop (S j) sched) (mine ++ mine'), ck', err, tried)
    /\ tried = round_robin (zlen (servers ck)) i (S j)
    /\ put_outcome args resend tried mine' kv' err
    /\ own_ok (mine ++ mine') <= 1.
Proof.
  revert kv i resend mine n j.
  induction sched as [|[others fate] sched IH]; intros kv i resend mine n j Hl Hok Hi Hv Hn Hlt Hsp Hj;
    [done|].
  apply Forall_cons in Hok as [Hoth Hok]. simpl in Hlt, Hoth. pose proof (sched_size_nonneg sched).
  pose proof (zlen_nonneg others). destruct (slice_get_total (servers ck) i Hi) as [srv Hsrv].
  destruct (net_put_spent kv mine srv args others fate sched n)
    as (kvx & extra & r & Hput & Hlx & Hspx & Hna & Ha); [done..|lia|done|].
  set (i' := Z.rem (i + 1) (zlen (servers ck))).
  assert (Hi' : 0 <= i' < zlen (servers ck)) by (subst i'; apply Z.rem_bound_pos; lia).
  apply first_answered_cons in Hj as [[Hf ->]|(Hf & j' & Hj & ->)].
  - destruct (Ha Hf) as (kv1 & rep & Hd & -> & ->).
    destruct (answered_outcome _ _ _ _ resend i Hd) as [Hne Hout].
    simpl. rewrite Hsrv. simpl. rewrite Hput.
    rewrite (bool_decide_false (pr_Err _ = ErrWrongLeader)) by done. simpl.
    do 5 eexists. split; [reflexivity|]. split.
    { unfold round_robin. simpl. by rewrite Z.add_0_r, Z.mod_small. }
    split; [done|]. destruct Hspx as [->|[-> _]]; lia.
  - destruct (IH kvx i' true (mine ++ extra) (n + zlen others + 1) j')
      as (kv' & ck' & err & tried & mine' & Hloop & Htr & Hout & Hone); try done; try lia.
    exists kv', ck', err, (i :: tried), (extra ++ mine'). split_and!.
    + remember (S j') as fuel. simpl. rewrite Hsrv. simpl. rewrite Hput. fold i'.
      rewrite app_assoc. destruct (Hna Hf) as [->| ->]; simpl; by rewrite Hloop.
    + rewrite round_robin_S by done. fold i'. by rewrite Htr.
    + destruct (put_outcome_cons _ _ _ extra _ _ resend i Hout) as [?|Hnil]; [done|].
      rewrite Htr in Hnil. by rewrite round_robin_S in Hnil.
    + by rewrite app_assoc.
Qed.

(** C20.  [Clerk.Put] against a service behind an unreliable network, in competition with
    others: the call returns after the first RPC that is answered, having tried the servers
    in turn.  [OK] means that the [Put] took effect exactly once and the value is stored with
    the next version; [ErrVersion] that the only RPC sent was refused, so nothing was done;
    [ErrMaybe] that an earlier RPC may have been executed, at most once.  There is no other
    answer. *)
Theorem clerk_put_correct (kv : KVServer) (ck : Clerk) (sched : list (list Req * Fate))
    (key value : string) (version : Tversion) (j : nat) :
  live kv -> sched_ok sched -> sched_size sched < 2 ^ 64 -> 0 <= version < 2 ^ 64 ->
  0 <= first_server ck < zlen (servers ck) -> first_answered sched = Some j ->
  exists kv' ck' err sched' mine,
    Clerk_Put net_put (S j) (mkNet kv sched []) ck key value version
    = Some (mkNet kv' sched' mine, ck', err,
            round_robin (zlen (servers ck)) (first_server ck) (S j))
    /\ (err = OK /\ own_ok mine = 1 /\ lookup kv' key = Some (mkValueEntry value (u64 (version + 1)))
        \/ err = ErrVersion /\ j = O /\ mine = [ErrVersion]
        \/ err = ErrMaybe /\ j <> O /\ own_ok mine <= 1).
Proof.
  intros Hl Hok Hsz Hv Hck Hj.
  destruct (Put_loop_net sched kv ck (mkPutArgs key value version) (first_server ck) false [] 0 j)
    as (kv' & ck' & err & tried & mine & Hloop & Htr & Hout & Hone); try done; try lia; [by left|].
  exists kv', ck', err, (drop (S j) sched), mine. unfold Clerk_Put. rewrite Hloop, Htr.
  split; [done|]. simpl in Hone. destruct Hout as (before & e & -> & Hb & He).
  assert (Hlen : length tried = S j).
  { rewrite Htr. unfold round_robin. by rewrite length_fmap, length_seq. }
  rewrite own_ok_snoc in *. pose proof (zlen_nonneg (filter (fun e => e = OK) before)).
  unfold own_ok in *. destruct He as [(-> & -> & Hk)|[-> ->]]; simpl in *.
  - left. split_and!; try done. lia.
  - right. destruct j as [|j].
    + left. rewrite Hb by done. unfold zlen. by rewrite Hlen.
    + right. unfold zlen. rewrite Hlen. destruct (Z.ltb_spec 1 (Z.of_nat (S (S j)))); [|lia].
      split_and!; try done; lia.
Qed.

(** Another client wins the race; the reply of the first RPC is lost, the second server is not
    the leader, the third answers. *)
Definition race : list (list Req * Fate) :=
  [ ([], ReplyLost); ([PutVal (mkPutArgs "x" "b" 1)], NotLeader); ([], Answered) ].

Lemma clerk_put_correct_witness :
  exists kv' ck' err sched' mine,
    Clerk_Put net_put 3 (mkNet (mkKVServer 0 0 (Some ∅)) race []) (MakeClerk ["s0"; "s1"; "s2"])
      "x" "a" 0
    = Some (mkNet kv' sched' mine, ck', err, round_robin 3 0 3) /\ err = ErrMaybe.
Proof.
  destruct (clerk_put_correct (mkKVServer 0 0 (Some ∅)) (MakeClerk ["s0"; "s1"; "s2"]) race
    "x" "a" 0 2) as (kv' & ck' & err & sched' & mine & Hr & _).
  - eexists; reflexivity.
  - repeat constructor.
  - vm_compute; reflexivity.
  - lia.
  - vm_compute; split; [discriminate|reflexivity].
  - reflexivity.
  - exists kv', ck', err, sched', mine. split; [exact Hr|].
    vm_compute in Hr. injection Hr as _ _ _ _ <-. reflexivity.
Defined.
