(* ===== verification/KvRaft.v ===== *)
(** * The key/value server as a replicated service

    [KvServer] discharges the laws that [Rsm] asks of a service: replicas that agree on the
    map agree on every reply, a pointer and a value request are the same request, and
    [Snapshot] followed by [Restore] on any replica reproduces the map. *)

From S2P Require Import Prelude Rpc Persister RaftState RaftRpc RaftLeader RaftInv RaftPeer.
From S2P Require Import RaftOps RaftProps KvServer Rsm.

Import KVServer.

#[export] Instance map_gob : Gob (gmap string ValueEntry) := countable_gob (gmap string ValueEntry).
#[export] Instance map_gob_laws : GobLaws (gmap string ValueEntry) :=
  countable_gob_laws (gmap string ValueEntry).

Section Instances.
Context `{Gob (gmap string ValueEntry)} `{!GobLaws (gmap string ValueEntry)}.

#[export] Instance kv_state_machine : StateMachine KVServer Req Rep := {|
  sm_DoOp := DoOp; sm_Snapshot := Snapshot; sm_Restore := Restore |}.

(** The number of a replica and its [dead] flag are its own. *)
#[export] Instance kv_equiv : Equiv KVServer := fun a b => KeyValue a = KeyValue b.

(** What the codec makes of a request. *)
Definition flatten (r : Req) : Req :=
  match r with GetPtr a => GetVal a | PutPtr a => PutVal a | r => r end.

#[export] Instance req_equiv : Equiv Req := fun q r => flatten q = flatten r.

Lemma DoOp_flatten kv r : DoOp kv r = DoOp kv (flatten r).
Proof. by destruct r. Qed.

(** The reply depends on the map alone, and so does the new map. *)
Lemma DoOp_map (s t : KVServer) r s' x :
  s ≡ t -> DoOp s r = Some (s', x) -> exists t', DoOp t r = Some (t', x) /\ s' ≡ t'.
Proof.
  destruct s as [i d m], t as [i' d' m']. intros Heq. unfold equiv, kv_equiv in *. simpl in Heq.
  subst m'. unfold DoOp, store, lookup. simpl.
  destruct m as [m|]; simpl.
  - destruct r; intros Hr; try done; destruct (m !! _); try go_if_in Hr; simplify_eq/=; eauto.
  - destruct r; intros Hr; try done; try go_if_in Hr; simplify_eq/=; eauto.
Qed.

#[export] Instance kv_laws : StateMachineLaws KVServer Req Rep live.
Proof.
  constructor.
  - constructor; unfold equiv, kv_equiv; [by intros ?|by intros ? ? ?|by intros ? ? ? -> ->].
  - constructor; unfold equiv, req_equiv; [by intros ?|by intros ? ? ?|by intros ? ? ? -> ->].
  - intros s t q r s' x Hst Hqr Hx. simpl in *. rewrite DoOp_flatten in Hx.
    unfold equiv, req_equiv in Hqr. rewrite DoOp_flatten, <- Hqr. by eapply DoOp_map.
  - intros s r s' x Hok Hx. by apply DoOp_step in Hx as (_ & _ & ?).
  - intros s t [m Hm]. simpl. unfold Restore, Snapshot. rewrite Hm. simpl.
    pose proof (gob_nonempty m). destruct (Z.ltb_spec (zlen (gob_encode m)) 1) as [Hz|_].
    { destruct (gob_encode m) as [|y l]; [done|]. rewrite zlen_cons in Hz.
      pose proof (zlen_nonneg l). lia. }
    rewrite gob_roundtrip. unfold equiv, kv_equiv. by rewrite Hm.
  - intros s t Hst. unfold live. unfold equiv, kv_equiv in Hst. by rewrite Hst.
Qed.
End Instances.

(** ** Concrete instances *)

#[export] Instance Req_eq_dec : EqDecision Req.
Proof. solve_decision. Defined.

#[export] Instance Req_countable : Countable Req.
Proof.
  refine (inj_countable'
    (fun r => match r with
              | GetPtr a => inl (inl a) | PutPtr a => inl (inr a)
              | GetVal a => inr (Some (inl a)) | PutVal a => inr (Some (inr a))
              | OtherReq => inr None end)
    (fun x => match x with
              | inl (inl a) => GetPtr a | inl (inr a) => PutPtr a
              | inr (Some (inl a)) => GetVal a | inr (Some (inr a)) => PutVal a
              | inr None => OtherReq end) _).
  by intros [].
Defined.

#[export] Instance Op_eq_dec : EqDecision (Op Req).
Proof. solve_decision. Defined.

#[export] Instance Op_countable : Countable (Op Req).
Proof.
  refine (inj_countable' (fun o => (op_Me o, op_Id o, op_Req o))
                         (fun '(m, i, r) => mkOp m i r) _).
  by intros [].
Defined.

#[export] Instance op_gob : Gob (Persisted (Op Req)) := countable_gob (Persisted (Op Req)).
#[export] Instance op_gob_laws : GobLaws (Persisted (Op Req)) :=
  countable_gob_laws (Persisted (Op Req)).

Definition kv0 : KVServer := mkKVServer 0 0 (Some ∅).

(** A committed log of two [Put]s.  One replica executes both, from pointers; the other gets a
    snapshot of the first and executes the second. *)
Definition log2 : list (option (Op Req)) :=
  [Some (mkOp 0 0 (PutVal (mkPutArgs "x" "a" 0))); Some (mkOp 0 0 (PutVal (mkPutArgs "x" "b" 1)))].

Definition feed1 : list (ApplyMsg (Op Req)) :=
  [ CommandMsg (Some (mkOp 0 0 (PutPtr (mkPutArgs "x" "a" 0)))) 1 1;
    CommandMsg (Some (mkOp 0 0 (PutPtr (mkPutArgs "x" "b" 1)))) 2 1 ].

Definition kv1 : KVServer := mkKVServer 0 0 (Some {["x" := mkValueEntry "a" 1]}).

Definition feed2 : list (ApplyMsg (Op Req)) :=
  [ SnapshotMsg (Snapshot kv1) 1 1;
    CommandMsg (Some (mkOp 0 0 (PutVal (mkPutArgs "x" "b" 1)))) 2 1 ].

Lemma kv1_snapshot : snapshot_of kv0 log2 1 (Snapshot kv1).
Proof. exists kv1. eexists. split; [reflexivity|]. split; reflexivity. Qed.

Lemma replicas_agree_witness :
  exists r1 r2,
    reader (MakeRSM [0; 1; 2] 0 MakePersister (-1) kv0) feed1 = Some r1
    /\ reader (MakeRSM [0; 1; 2] 1 MakePersister (-1) kv0) feed2 = Some r2
    /\ sm r1 ≡ sm r2.
Proof.
  destruct (reader (MakeRSM [0; 1; 2] 0 MakePersister (-1) kv0) feed1) as [r1|] eqn:E1;
    [|vm_compute in E1; discriminate E1].
  destruct (reader (MakeRSM [0; 1; 2] 1 MakePersister (-1) kv0) feed2) as [r2|] eqn:E2;
    [|vm_compute in E2; discriminate E2].
  exists r1, r2. split; [reflexivity|]. split; [reflexivity|].
  refine (proj1 (replicas_agree kv0 _ log2 [0; 1; 2] [0; 1; 2] 0 1 MakePersister MakePersister
    (-1) (-1) 0 0 2 feed1 feed2 r1 r2 _ _ _ _ E1 E2)).
  - eexists; reflexivity.
  - left. split; reflexivity.
  - left. split; reflexivity.
  - eapply delivered_cons; [eapply (deliver_command _ _ 0); [lia|reflexivity|reflexivity]|].
    eapply delivered_cons; [eapply (deliver_command _ _ 1); [lia|reflexivity|reflexivity]|].
    apply delivered_nil.
  - eapply delivered_cons; [eapply deliver_snapshot; [vm_compute; split; [reflexivity|discriminate]|lia|exact kv1_snapshot]|].
    eapply delivered_cons; [eapply (deliver_command _ _ 1); [lia|reflexivity|reflexivity]|].
    apply delivered_nil.
Defined.

(** A leader submits a [Put]; the command comes back at its index and term. *)
Definition submit_run : list (RsmEvent (Req:=Req)) :=
  [ RsmRaft OpTimeout;
    RsmRaft (OpVoteReply (mkElection (mkRequestVoteArgs 1 0 0 0) 1 false) (mkRequestVoteReply 1 true));
    RsmSubmit (PutPtr (mkPutArgs "x" "a" 0)); RsmRegister 0;
    RsmApply (CommandMsg (Some (mkOp 0 0 (PutPtr (mkPutArgs "x" "a" 0)))) 1 1);
    RsmReceive 0 ].

