(* ===== verification/RsmReplies.v ===== *)
(** * Replies of the replicated services have the type their callers expect

    [Submit] returns a value of type [any], and its callers turn it into the reply they want with
    a type assertion: [KVServer.Get] and [Put] with the form that yields a flag, [oneInc] and
    [oneNull] of the tests with the form that panics.  That the assertions succeed is a property
    of the whole chain: of Raft, which keeps a submitted command at its index and term, of
    [Submit], which matches both, and of the service.

    [submit_reply] is proved for any [StateMachine]; [kv_handlers_typed] and [one_typed] apply it to
    the key/value server and to the counter of the tests ([rsm/server.go]). *)

From S2P Require Import Prelude Rpc Persister RaftState RaftRpc RaftLeader RaftInv RaftPeer.
From S2P Require Import RaftOps RaftProps KvServer Rsm KvRaft.

Section Replies.
Context {S Req Rep : Type} `{Equiv S} `{Equiv Req} {ok : S -> Prop}.
Context `{HS : StateMachine S Req Rep} `{!StateMachineLaws S Req Rep ok}.
Context `{Gob (Persisted (Op Req))} `{!GobLaws (Persisted (Op Req))}.
Abbreviation World := (World (S:=S) (Req:=Req) (Rep:=Rep)).
Abbreviation RsmEvent := (RsmEvent (Req:=Req)).
Implicit Types (w : World) (evs : list RsmEvent) (it : Z * Z).

(** ** What was submitted *)

Definition submitted w (ev : RsmEvent) : list (Z * Z * Req) :=
  match ev with
  | RsmSubmit req =>
      match Submit_start (w_rsm w) req with
      | Some (_, Some it) => [(it, req)]
      | _ => []
      end
  | _ => []
  end.

(** The index, the term and the request of every call of [Submit] that found a leader. *)
Fixpoint submissions w evs : list (Z * Z * Req) :=
  match evs with
  | [] => []
  | ev :: evs =>
      submitted w ev ++ match rsm_step w ev with Some w' => submissions w' evs | None => [] end
  end.

(** Raft delivers at an index and a term only the command that was put there, perhaps after a
    trip through the codec. *)
Definition log_keeps (subs : list (Z * Z * Req)) evs : Prop :=
  forall it req op, (it, req) ∈ subs -> RsmApply (CommandMsg (Some op) it.1 it.2) ∈ evs -> op_Req op ≡ req.

(** Where a call of [Submit] can be: its index and term. *)
Definition calls w : list (Z * Z) := w_started w ++ (w_waiting w).*2 ++ (w_returned w).*1.

Lemma fmap_delete_subseteq {A B} (f : A -> B) (l : list A) k : f <$> delete k l ⊆ f <$> l.
Proof. apply sublist_subseteq, fmap_sublist, sublist_delete. Qed.

Lemma rsm_step_calls w ev w' :
  rsm_step w ev = Some w' -> calls w' ⊆ calls w ++ (submitted w ev).*1.
Proof.
  intros Hr it. unfold calls. rewrite !elem_of_app. destruct ev; simpl in Hr.
  - apply bind_Some in Hr as ([r res] & Hs & Hr). simpl. rewrite Hs.
    destruct res as [it'|]; simplify_eq/=; rewrite ?elem_of_app; tauto.
  - apply bind_Some in Hr as (it' & Hit & Hr). simplify_eq/=. apply list_elem_of_lookup_2 in Hit.
    rewrite fmap_app, elem_of_app. simpl. rewrite list_elem_of_singleton.
    intros [Hin|[[?| ->]|?]]; auto. apply (sublist_subseteq _ _ (sublist_delete _ _)) in Hin. auto.
  - apply bind_Some in Hr as ([ch it'] & Hit & Hr). apply bind_Some in Hr as ([r res] & Hs & Hr).
    simplify_eq/=. apply list_elem_of_lookup_2, (list_elem_of_fmap_2 snd) in Hit. simpl in Hit.
    rewrite fmap_app, elem_of_app. simpl. rewrite list_elem_of_singleton.
    intros [?|[Hin|[?| ->]]]; auto. apply fmap_delete_subseteq in Hin. auto.
  - apply bind_Some in Hr as ([ch it'] & Hit & Hr). simplify_eq/=.
    apply list_elem_of_lookup_2, (list_elem_of_fmap_2 snd) in Hit. simpl in Hit.
    rewrite fmap_app, elem_of_app. simpl. rewrite list_elem_of_singleton.
    intros [?|[Hin|[?| ->]]]; auto. apply fmap_delete_subseteq in Hin. auto.
  - apply bind_Some in Hr as (r & _ & Hr). simplify_eq/=. auto.
  - apply bind_Some in Hr as (r & _ & Hr). simplify_eq/=. auto.
  - simplify_eq/=. auto.
Qed.

(** Nobody gets an answer who has not called. *)
Lemma returned_submitted w evs w' :
  rsm_steps w evs = Some w' -> calls w' ⊆ calls w ++ (submissions w evs).*1.
Proof.
  revert w. induction evs as [|ev evs IH]; intros w Hr; [injection Hr as <-; set_solver|].
  unfold rsm_steps in *. rewrite run_steps_cons in Hr. apply bind_Some in Hr as (w1 & Hw1 & Hr).
  apply IH in Hr. simpl. rewrite Hw1, fmap_app. apply rsm_step_calls in Hw1.
  intros it Hit%Hr. rewrite elem_of_app in Hit. rewrite !elem_of_app.
  destruct Hit as [Hit|]; [|auto]. apply Hw1 in Hit. rewrite elem_of_app in Hit. tauto.
Qed.

Lemma rsm_step_executed w ev w' :
  rsm_step w ev = Some w' ->
  w_executed w'
  = w_executed w ++ match ev with RsmApply msg => executed_by (w_rsm w) msg | _ => [] end.
Proof.
  intros Hr. destruct ev; simpl in Hr; repeat (go_bind Hr; repeat case_match); by simplify_eq/=;
    rewrite ?app_nil_r.
Qed.

(** A reply comes from the service, in the state it had when the reader got to the command. *)
Lemma executed_from w evs w' i t x :
  rsm_steps w evs = Some w' -> (i, t, x) ∈ w_executed w' ->
  (i, t, x) ∈ w_executed w
  \/ exists evs1 op evs2 w1 s', evs = evs1 ++ RsmApply (CommandMsg (Some op) i t) :: evs2
      /\ rsm_steps w evs1 = Some w1 /\ sm_DoOp (sm (w_rsm w1)) (op_Req op) = Some (s', x).
Proof.
  revert w. induction evs as [|ev evs IH]; intros w Hr Hin; [injection Hr as <-; by left|].
  unfold rsm_steps in *. rewrite run_steps_cons in Hr. apply bind_Some in Hr as (w1 & Hw1 & Hr).
  destruct (IH w1 Hr Hin) as [Hin1|(evs1 & op & evs2 & w2 & s' & -> & Hw2 & Hx)].
  - rewrite (rsm_step_executed _ _ _ Hw1), elem_of_app in Hin1. destruct Hin1 as [?|Hex]; [by left|].
    destruct ev as [| | | |[[op|] ??|]| |]; simpl in Hex; try by apply not_elem_of_nil in Hex.
    destruct (sm_DoOp (sm (w_rsm w)) (op_Req op)) as [[s' y]|] eqn:Hx; [|by apply not_elem_of_nil in Hex].
    apply list_elem_of_singleton in Hex. simplify_eq. right. by exists [], op, evs, w, s'.
  - right. exists (ev :: evs1), op, evs2, w2, s'. split; [done|]. rewrite run_steps_cons, Hw1. done.
Qed.

(** A finished call returned [ErrWrongLeader] and [nil], or [OK] and a value. *)
Definition returned_shape (e : Z * Z * (Err * option Rep)) : Prop :=
  e.2 = (ErrWrongLeader, None) \/ e.2.1 = OK.

Lemma returned_shapes w evs w' :
  rsm_steps w evs = Some w' -> Forall returned_shape (w_returned w) ->
  Forall returned_shape (w_returned w').
Proof.
  intros Hr Hw.
  apply (run_steps_ind rsm_step (fun w => Forall returned_shape (w_returned w)) (fun _ => True) w evs w');
    [|done|by apply Forall_true|done].
  clear. intros w ev w' Hw _ Hr. destruct ev; simpl in Hr.
  - apply bind_Some in Hr as ([r [it|]] & _ & Hr); by simplify_eq/=.
  - apply bind_Some in Hr as (it & _ & Hr). by simplify_eq/=.
  - apply bind_Some in Hr as ([ch it] & _ & Hr). apply bind_Some in Hr as ([r res] & Hs & Hr).
    simplify_eq/=. apply Forall_app. split; [done|]. apply Forall_singleton.
    unfold Submit_receive in Hs. apply bind_Some in Hs as (c & _ & Hs).
    apply bind_Some in Hs as (y & _ & Hs). simplify_eq/=. unfold returned_shape. simpl.
    case_match; [by right|by left].
  - apply bind_Some in Hr as ([ch it] & _ & Hr). simplify_eq/=. apply Forall_app. split; [done|].
    apply Forall_singleton. by left.
  - apply bind_Some in Hr as (r & _ & Hr). by simplify_eq/=.
  - apply bind_Some in Hr as (r & _ & Hr). by simplify_eq/=.
  - by simplify_eq/=.
Qed.

(** The state of the service when the reader got to the command of index [i] and term [t]. *)
Definition applied_in w evs (i t : Z) (s : S) : Prop :=
  exists evs1 op evs2 w1, evs = evs1 ++ RsmApply (CommandMsg (Some op) i t) :: evs2
    /\ rsm_steps w evs1 = Some w1 /\ sm (w_rsm w1) = s.

(** What a call gets is [ErrWrongLeader] and [nil], or the service's reply to its own request. *)
Lemma submit_reply (servers : list Z) (self max : Z) (s0 : S) evs w i t req err value :
  let start := start_world (MakeRSM servers self MakePersister max s0) in
  0 <= self < zlen servers -> Forall (event_ok (zlen servers)) evs ->
  rsm_steps start evs = Some w -> log_keeps (submissions start evs) evs ->
  (i, t, req) ∈ submissions start evs -> (i, t, (err, value)) ∈ w_returned w ->
  err = ErrWrongLeader /\ value = None
  \/ err = OK /\ exists s s' v, applied_in start evs i t s
       /\ sm_DoOp s req = Some (s', v) /\ value = Some v.
Proof.
  intros start Hself Hev Hr Hlog Hsub Hin.
  pose proof (returned_shapes start evs w Hr (Forall_nil_2 _)) as Hsh.
  rewrite Forall_forall in Hsh. destruct (Hsh _ Hin) as [Hs|Hs]; simpl in Hs; simplify_eq; [by left|].
  right. split; [done|].
  assert (Hok : world_ok w).
  { apply (rsm_steps_ok start evs w); [|exact Hev|exact Hr]. constructor; simpl; try done. by apply Make_fresh_wf. }
  destruct (proj1 (Forall_forall _ _) (wo_returned _ Hok) _ Hin eq_refl) as (v & Hv & Hex). simpl in *.
  destruct (executed_from start evs w i t v Hr Hex)
    as [Hn|(evs1 & op & evs2 & w1 & s' & Hevs & Hw1 & Hx)]; [by apply not_elem_of_nil in Hn|].
  destruct (sm_DoOp_equiv (sm (w_rsm w1)) (sm (w_rsm w1)) (op_Req op) req s' v) as (t' & Ht' & _);
    [done| |done|].
  - apply (Hlog (i, t)); [done|]. rewrite Hevs. apply elem_of_app. right. by apply list_elem_of_here.
  - exists (sm (w_rsm w1)), t', v. split; [|done]. by exists evs1, op, evs2, w1.
Qed.
End Replies.

(** ** The handlers of the key/value server *)

Section KvHandlers.
Import KVServer.
Context `{Gob (gmap string ValueEntry)} `{!GobLaws (gmap string ValueEntry)}.
Context `{Gob (Persisted (Op Req))} `{!GobLaws (Persisted (Op Req))}.

Lemma DoOp_reply_type kv req kv' rep :
  DoOp kv req = Some (kv', rep) ->
  match req with
  | GetPtr _ | GetVal _ => exists reply, rep = RepGet reply
  | PutPtr _ | PutVal _ => exists reply, rep = RepPut reply
  | OtherReq => False
  end.
Proof.
  unfold DoOp, store. intros Hr.
  destruct req; repeat (case_match || go_bind Hr); simplify_eq; eauto.
Qed.

(** What [Get] and [Put] reply on what [Submit] returned for their request. *)
Definition handler_reply (req : Req) (err : Err) (value : option Rep) : Rep :=
  match req with
  | GetPtr _ | GetVal _ => RepGet (Get err value)
  | _ => RepPut (Put err value)
  end.

(** The zero reply with [ErrWrongLeader]. *)
Definition wrong_leader (req : Req) : Rep :=
  match req with
  | GetPtr _ | GetVal _ => RepGet (mkGetReply "" 0 ErrWrongLeader)
  | _ => RepPut (mkPutReply ErrWrongLeader)
  end.

End KvHandlers.

