(* ===== verification/RsmSrv.v ===== *)
(** * The counter of the RSM tests

    [kvraft1/rsm/server.go] is a second service on the replicated state machine, a counter, and
    [kvraft1/rsm/test.go] submits to it.  Its replies are asserted to have a type with the form of
    the assertion that panics, so [submit_reply] matters more here than for the key/value server. *)

From S2P Require Import Prelude Rpc Persister RaftState RaftRpc RaftLeader RaftInv RaftPeer.
From S2P Require Import RaftOps RaftProps Rsm RsmReplies.

Module RsmSrv.

Inductive Req := Inc | Null | Dec.

Inductive Rep := IncRep (N : Z) | NullRep.

(** [rs_running]: [rs.rsm] is not nil. *)
Record rsmSrv := mkRsmSrv { rs_me : Z; rs_counter : Z; rs_running : bool }.

Definition makeRsmSrv (srv : Z) : rsmSrv := mkRsmSrv srv 0 true.

(** [log.Fatalf] for a [Dec]. *)
Definition DoOp (rs : rsmSrv) (req : Req) : option (rsmSrv * Rep) :=
  match req with
  | Inc =>
      let rs := mkRsmSrv (rs_me rs) (rs_counter rs + 1) (rs_running rs) in
      Some (rs, IncRep (rs_counter rs))
  | Null => Some (rs, NullRep)
  | Dec => None
  end.

Section Codec.
Context `{Gob Z}.

Definition Snapshot (rs : rsmSrv) : bytes := gob_encode (rs_counter rs).

(** A decoding error ends the process. *)
Definition Restore (rs : rsmSrv) (data : bytes) : option rsmSrv :=
  counter ← gob_decode data;
  Some (mkRsmSrv (rs_me rs) counter (rs_running rs)).
End Codec.

Definition Kill (rs : rsmSrv) : rsmSrv := mkRsmSrv (rs_me rs) (rs_counter rs) false.

(** ** test.go *)

(** A nil partition holds everybody. *)
Definition inPartition (s : Z) (p : option (list Z)) : bool :=
  match p with
  | None => true
  | Some p => existsb (fun i => s =? i) p
  end.

Definition countValue (srvs : list rsmSrv) (v : Z) : Z :=
  foldl (fun i s => if rs_counter s =? v then i + 1 else i) 0 srvs.

(** The loop over [iters]: the states in which the servers are found. *)
Fixpoint poll_counter (polls : list (list rsmSrv)) (v nsrv : Z) : option unit :=
  match polls with
  | [] => None
  | srvs :: polls => if nsrv <=? countValue srvs v then Some tt else poll_counter polls v nsrv
  end.

(** At most 30 polls; [None] is the failure of the test. *)
Definition checkCounter (polls : list (list rsmSrv)) (v nsrv : Z) : option unit :=
  poll_counter (take 30 polls) v nsrv.

Section OnePartition.
(** The servers and whatever happens around them while [Submit] waits. *)
Context {W : Type} (isConnected running : W -> Z -> bool).
Context (Submit : W -> Z -> Req -> option (W * (Err * option Rep))).

(** The inner loop, over [n] servers from [index] on: the server that answered and its reply. *)
Fixpoint try_servers (w : W) (nsrvs : Z) (p : option (list Z)) (req : Req) (index : Z) (n : nat)
    : option (W * option (Z * option Rep)) :=
  match n with
  | O => Some (w, None)
  | S n =>
      if isConnected w index && running w index && inPartition index p then
        '(w, (err, rep)) ← Submit w index req;
        if decide (err = OK) then Some (w, Some (index, rep))
        else try_servers w nsrvs p req ((index + 1) mod nsrvs) n
      else try_servers w nsrvs p req ((index + 1) mod nsrvs) n
  end.

(** The outer loop runs for [NSEC] seconds, here for [rounds] rounds; the world, [ts.leader] and
    the reply, [None] being nil. *)
Fixpoint onePartition (rounds : nat) (w : W) (nsrvs leader : Z) (p : option (list Z)) (req : Req)
    : option (W * Z * option Rep) :=
  match rounds with
  | O => Some (w, leader, None)
  | S rounds =>
      '(w, res) ← try_servers w nsrvs p req leader (Z.to_nat nsrvs);
      match res with
      | Some (index, rep) => Some (w, index, rep)
      | None => onePartition rounds w nsrvs leader p req
      end
  end.

(** The assertion that the reply points to an [IncRep] panics on anything else. *)
Definition oneInc (rounds : nat) (w : W) (nsrvs leader : Z) : option (W * Z * option Z) :=
  '(w, leader, rep) ← onePartition rounds w nsrvs leader None Inc;
  match rep with
  | None => Some (w, leader, None)
  | Some (IncRep n) => Some (w, leader, Some n)
  | Some NullRep => None
  end.

(** The same for [NullRep]. *)
Definition oneNull (rounds : nat) (w : W) (nsrvs leader : Z) : option (W * Z * bool) :=
  '(w, leader, rep) ← onePartition rounds w nsrvs leader None Null;
  match rep with
  | None => Some (w, leader, false)
  | Some NullRep => Some (w, leader, true)
  | Some (IncRep _) => None
  end.
End OnePartition.
End RsmSrv.

Import RsmSrv.

(** ** The counter is a service *)

#[export] Instance Z_gob : Gob Z := countable_gob Z.
#[export] Instance Z_gob_laws : GobLaws Z := countable_gob_laws Z.

Section Instances.
Context `{Gob Z} `{!GobLaws Z}.

(** A replica whose [Restore] fails does not go on; the laws speak of snapshots that decode. *)
#[export] Instance rsmSrv_state_machine : StateMachine rsmSrv Req Rep := {|
  sm_DoOp := DoOp; sm_Snapshot := Snapshot; sm_Restore rs b := default rs (Restore rs b) |}.

#[export] Instance rsmSrv_equiv : Equiv rsmSrv := fun a b => rs_counter a = rs_counter b.
#[export] Instance counter_req_equiv : Equiv Req := eq.

#[export] Instance rsmSrv_laws : StateMachineLaws rsmSrv Req Rep (fun _ => True).
Proof.
  constructor.
  - constructor; unfold equiv, rsmSrv_equiv; [by intros ?|by intros ? ? ?|by intros ? ? ? -> ->].
  - unfold equiv, counter_req_equiv. apply _.
  - intros s t q r s' x Hst Hqr Hx. unfold equiv, counter_req_equiv, rsmSrv_equiv in *. subst r.
    destruct q; simplify_eq/=; rewrite ?Hst; eauto.
  - done.
  - intros s t _. simpl. unfold Restore, Snapshot. by rewrite gob_roundtrip.
  - by intros s t _.
Qed.
End Instances.

#[export] Instance counter_req_eq_dec : EqDecision Req.
Proof. solve_decision. Defined.

(** What executing a log does to a counter. *)
Fixpoint counter_run (rs : rsmSrv) (reqs : list Req) : option (rsmSrv * list Rep) :=
  match reqs with
  | [] => Some (rs, [])
  | req :: reqs =>
      '(rs, rep) ← DoOp rs req;
      '(rs, reps) ← counter_run rs reqs;
      Some (rs, rep :: reps)
  end.

Definition incs (reqs : list Req) : Z := zlen (filter (fun r => r = Inc) reqs).

Lemma incs_cons req reqs : incs (req :: reqs) = (if decide (req = Inc) then 1 else 0) + incs reqs.
Proof.
  unfold incs. rewrite filter_cons. case_decide; [by rewrite zlen_cons|lia].
Qed.

(** The counter counts the increments of the log, and each increment is told its rank; a log with
    a [Dec] is fatal. *)
Theorem counter_counts (reqs : list Req) (rs : rsmSrv) :
  match counter_run rs reqs with
  | Some (rs', reps) =>
      rs_counter rs' = rs_counter rs + incs reqs /\ Dec ∉ reqs
      /\ forall k, reqs !! k = Some Inc -> reps !! k = Some (IncRep (rs_counter rs + incs (take (S k) reqs)))
  | None => Dec ∈ reqs
  end.
Proof.
  revert rs. induction reqs as [|req reqs IH]; intros rs; simpl.
  { split_and!; [change (incs []) with 0; lia|apply not_elem_of_nil|by intros k]. }
  destruct req; simpl.
  - set (rs1 := mkRsmSrv _ _ _). specialize (IH rs1).
    destruct (counter_run rs1 reqs) as [[rs' reps]|]; simpl; [|by right].
    destruct IH as (Hc & Hd & Hk). rewrite incs_cons. simpl in *.
    split_and!; [lia|rewrite elem_of_cons; by intros [?|?]|].
    intros [|k]; simpl; intros Hq; [by rewrite incs_cons|]. rewrite (Hk k Hq), incs_cons. simpl.
    do 2 f_equal. lia.
  - specialize (IH rs). destruct (counter_run rs reqs) as [[rs' reps]|]; simpl; [|by right].
    destruct IH as (Hc & Hd & Hk). rewrite incs_cons. simpl in *.
    split_and!; [lia|rewrite elem_of_cons; by intros [?|?]|].
    intros [|k]; simpl; intros Hq; [done|]. rewrite (Hk k Hq), incs_cons. done.
  - left.
Qed.

(** ** The assertions of the tests

    The hypothesis is what [submit_reply] shows of [Submit], together with [Submit] returning. *)

Section OneTyped.
Context {W : Type} (isConnected running : W -> Z -> bool).
Context (Submit : W -> Z -> Req -> option (W * (Err * option Rep))).
Context (Submit_returns : forall w i req, req <> Dec -> exists w' err value,
  Submit w i req = Some (w', (err, value))
  /\ (err = ErrWrongLeader /\ value = None
      \/ err = OK /\ exists s s' v, DoOp s req = Some (s', v) /\ value = Some v)).

Definition answer_ok (req : Req) (rep : option Rep) : Prop :=
  exists s s' v, DoOp s req = Some (s', v) /\ rep = Some v.

Lemma try_servers_typed w nsrvs p req index n :
  req <> Dec -> exists w' res,
    try_servers isConnected running Submit w nsrvs p req index n = Some (w', res)
    /\ forall i rep, res = Some (i, rep) -> answer_ok req rep /\ inPartition i p = true.
Proof.
  intros Hreq. revert w index. induction n as [|n IH]; intros w index; simpl; [by exists w, None|].
  destruct (isConnected w index && running w index && inPartition index p) eqn:Hc; [|apply IH].
  destruct (Submit_returns w index req Hreq) as (w' & err & value & -> & Hcase). simpl.
  case_decide as Hok; [|apply IH]. do 2 eexists. split; [done|]. intros i rep ?. simplify_eq.
  apply andb_true_iff in Hc as [_ ?]. destruct Hcase as [[? _]|[_ ?]]; [done|auto].
Qed.

Lemma onePartition_typed rounds w nsrvs leader p req :
  req <> Dec -> exists w' l rep,
    onePartition isConnected running Submit rounds w nsrvs leader p req = Some (w', l, rep)
    /\ (rep = None \/ answer_ok req rep).
Proof.
  intros Hreq. revert w. induction rounds as [|rounds IH]; intros w; simpl; [by eauto 6|].
  destruct (try_servers_typed w nsrvs p req leader (Z.to_nat nsrvs) Hreq) as (w' & res & -> & Hres).
  simpl. destruct res as [[i rep]|]; [|apply IH]. destruct (Hres i rep eq_refl) as [? _]. eauto 6.
Qed.

(** The type assertions of [oneInc] and [oneNull] do not panic. *)
Theorem one_typed rounds w nsrvs leader :
  is_Some (oneInc isConnected running Submit rounds w nsrvs leader)
  /\ is_Some (oneNull isConnected running Submit rounds w nsrvs leader).
Proof.
  unfold oneInc, oneNull. split.
  - destruct (onePartition_typed rounds w nsrvs leader None Inc) as (w' & l & rep & -> & Hrep); [done|].
    destruct Hrep as [->|(s & s' & v & Hx & ->)]; simplify_eq/=; eauto.
  - destruct (onePartition_typed rounds w nsrvs leader None Null) as (w' & l & rep & -> & Hrep); [done|].
    destruct Hrep as [->|(s & s' & v & Hx & ->)]; simplify_eq/=; eauto.
Qed.
End OneTyped.
