(* ===== verification/ShardCfg.v ===== *)
(** * Shard configurations

    [lec-2025/src/shardkv1/shardcfg/shardcfg.go]: which group serves which shard.  The array
    [Shards] is a list of [NShards] gids; a Go map that is iterated is a list in the order of
    the iteration.  [log.Fatalf] makes the operation [None]. *)

From S2P Require Import Prelude.

Definition NShards : Z := 12.
Definition NumFirst : Z := 1.
Definition Gid1 : Z := 1.

Definition Key2Shard (key : string) : Z := Z.rem (fnv32a key) NShards.

Record ShardConfig := mkShardConfig {
  Num : Z; Shards : list Z; Groups : gmap Z (list string) }.

Definition set_Shards (l : list Z) (c : ShardConfig) : ShardConfig := mkShardConfig (Num c) l (Groups c).
Definition set_Groups (m : gmap Z (list string)) (c : ShardConfig) : ShardConfig :=
  mkShardConfig (Num c) (Shards c) m.
Definition set_Num (n : Z) (c : ShardConfig) : ShardConfig := mkShardConfig n (Shards c) (Groups c).

Definition MakeShardConfig : ShardConfig := mkShardConfig 0 (replicate (Z.to_nat NShards) 0) ∅.

(** The groups' server lists are copied one by one. *)
Definition Copy (cfg : ShardConfig) : ShardConfig :=
  foldr (fun kv c => set_Groups (<[kv.1 := kv.2]> (Groups c)) c)
    (set_Shards (Shards cfg) (set_Num (Num cfg) MakeShardConfig)) (map_to_list (Groups cfg)).

(** [counts[g]] after the first loop of [analyze]; 0 for a group without shards. *)
Definition counts (l : list Z) (g : Z) : Z := zlen (filter (fun x => x = g) l).

(** The keys of [Groups], sorted. *)
Definition sorted_groups (c : ShardConfig) : list Z := sort_Z (map_to_list (Groups c)).*1.

(** The body of the second loop of [analyze], on [(mg, mn, lg, ln)]. *)
Definition analyze_group (l : list Z) (acc : Z * Z * Z * Z) (g : Z) : Z * Z * Z * Z :=
  let '(mg, mn, lg, ln) := acc in
  let '(lg, ln) := if counts l g <? ln then (g, counts l g) else (lg, ln) in
  let '(mg, mn) := if mn <? counts l g then (g, counts l g) else (mg, mn) in
  (mg, mn, lg, ln).

(** [mostgroup, mostn, leastgroup, leastn]. *)
Definition analyze (c : ShardConfig) : Z * Z * Z * Z :=
  foldl (analyze_group (Shards c)) (-1, -1, -1, 257) (sorted_groups c).

Definition least (c : ShardConfig) : Z := let '(_, _, lg, _) := analyze c in lg.

(** Lines 132 to 138: [range] iterates over a copy of the array. *)
Definition assign_shard (c : ShardConfig) (sg : nat * Z) : ShardConfig :=
  match Groups c !! sg.2 with
  | Some _ => c
  | None => set_Shards (<[sg.1 := least c]> (Shards c)) c
  end.

Definition assign_unassigned (c : ShardConfig) : ShardConfig :=
  foldl assign_shard c (imap pair (Shards c)).

(** Lines 147 to 152: the first shard of [mg] goes to [lg]. *)
Definition move_shard (mg lg : Z) (l : list Z) : list Z :=
  match list_find (fun g => g = mg) l with
  | Some (s, _) => <[s := lg]> l
  | None => l
  end.

(** Lines 141 to 153; [fuel] bounds the moves. *)
Fixpoint balance_loop (fuel : nat) (c : ShardConfig) : option ShardConfig :=
  let '(mg, mn, lg, ln) := analyze c in
  if mn <? ln + 2 then Some c
  else match fuel with
       | O => None
       | S fuel => balance_loop fuel (set_Shards (move_shard mg lg (Shards c)) c)
       end.

(** Each move takes at least two from the sum of the squares of the loads, which is at most
    [NShards * NShards]. *)
Definition balance_fuel : nat := Z.to_nat (NShards * NShards).

Definition Rebalance (c : ShardConfig) : option ShardConfig :=
  if zlen (map_to_list (Groups c)) <? 1 then Some (set_Shards ((fun _ => 0) <$> Shards c) c)
  else balance_loop balance_fuel (assign_unassigned c).

(** [servers] in the order in which the map is iterated. *)
Fixpoint Join_loop (cfg : ShardConfig) (changed : bool) (servers : list (Z * list string))
    : option (ShardConfig * bool) :=
  match servers with
  | [] => if changed then Some (set_Num (Num cfg + 1) cfg, true) else None
  | (gid, srvs) :: rest =>
      match Groups cfg !! gid with
      | Some _ => Some (cfg, false)
      | None =>
          if existsb (fun x => existsb (fun s1 => existsb (fun s2 => bool_decide (s1 = s2)) srvs) x.2)
               (map_to_list (Groups cfg))
          then None
          else Join_loop (set_Groups (<[gid := srvs]> (Groups cfg)) cfg) true rest
      end
  end.

Definition Join (cfg : ShardConfig) (servers : list (Z * list string)) : option (ShardConfig * bool) :=
  Join_loop cfg false servers.

Fixpoint Leave_loop (cfg : ShardConfig) (changed : bool) (gids : list Z) : option (ShardConfig * bool) :=
  match gids with
  | [] => if changed then Some (set_Num (Num cfg + 1) cfg, true) else None
  | gid :: rest =>
      match Groups cfg !! gid with
      | None => Some (cfg, false)
      | Some _ => Leave_loop (set_Groups (delete gid (Groups cfg)) cfg) true rest
      end
  end.

Definition Leave (cfg : ShardConfig) (gids : list Z) : option (ShardConfig * bool) :=
  Leave_loop cfg false gids.

Definition JoinBalance (cfg : ShardConfig) (servers : list (Z * list string))
    : option (ShardConfig * bool) :=
  '(cfg, ok) ← Join cfg servers;
  if negb ok then Some (cfg, false) else cfg ← Rebalance cfg; Some (cfg, true).

Definition LeaveBalance (cfg : ShardConfig) (gids : list Z) : option (ShardConfig * bool) :=
  '(cfg, ok) ← Leave cfg gids;
  if negb ok then Some (cfg, false) else cfg ← Rebalance cfg; Some (cfg, true).

(** An index out of range panics. *)
Definition GidServers (cfg : ShardConfig) (sh : Z) : option (Z * list string * bool) :=
  gid ← slice_get (Shards cfg) sh;
  Some (match Groups cfg !! gid with
        | Some srvs => (gid, srvs, true)
        | None => (gid, [], false)
        end).

Definition IsMember (cfg : ShardConfig) (gid : Z) : bool :=
  existsb (fun g => g =? gid) (Shards cfg).

(** The body of the loop of lines 268 to 275, on [(max, min)]. *)
Definition check_minmax (l : list Z) (acc : Z * Z) (g : Z) : Z * Z :=
  let '(mx, mn) := acc in
  let n := counts l g in (if mx <? n then n else mx, if n <? mn then n else mn).

(** [false] is [t.Fatalf]. *)
Definition CheckConfig (cfg : ShardConfig) (groups : list Z) : bool :=
  (zlen (map_to_list (Groups cfg)) =? zlen groups)
  && forallb (fun g => bool_decide (is_Some (Groups cfg !! g))) groups
  && ((zlen groups <=? 0) || forallb (fun g => bool_decide (is_Some (Groups cfg !! g))) (Shards cfg))
  && (let '(mx, mn) :=
        foldl (check_minmax (Shards cfg)) (0, 257) (map_to_list (Groups cfg)).*1 in
      negb (mn + 1 <? mx)).

Lemma ShardConfig_eq c c' :
  Num c = Num c' -> Shards c = Shards c' -> Groups c = Groups c' -> c = c'.
Proof. destruct c, c'. simpl. by intros -> -> ->. Qed.

(** ** Loads *)

Lemma counts_nonneg l g : 0 <= counts l g.
Proof. apply zlen_nonneg. Qed.

Lemma counts_le l g : counts l g <= zlen l.
Proof. unfold counts, zlen. pose proof (length_filter (fun x => x = g) l). lia. Qed.

Lemma counts_cons x l g : counts (x :: l) g = (if x =? g then 1 else 0) + counts l g.
Proof.
  unfold counts. destruct (Z.eqb_spec x g).
  - rewrite filter_cons_True by done. by rewrite zlen_cons.
  - by rewrite filter_cons_False.
Qed.

Lemma counts_insert l s a b g :
  l !! s = Some a ->
  counts (<[s := b]> l) g
  = counts l g - (if a =? g then 1 else 0) + (if b =? g then 1 else 0).
Proof.
  revert s. induction l as [|x l IH]; intros s Hs; [done|].
  destruct s as [|s]; simplify_eq/=; rewrite !counts_cons; [lia|]. rewrite IH by done. lia.
Qed.

Lemma counts_pos l g : 0 < counts l g -> g ∈ l.
Proof.
  induction l as [|x l IH]; intros Hpos; [unfold counts, zlen in Hpos; simpl in Hpos; lia|].
  rewrite counts_cons in Hpos. destruct (Z.eqb_spec x g) as [->|]; [by left|right]. apply IH. lia.
Qed.

Lemma elem_of_groups c g : g ∈ sorted_groups c <-> is_Some (Groups c !! g).
Proof.
  unfold sorted_groups. rewrite sort_Z_Permutation, list_elem_of_fmap. split.
  - intros ([k v] & -> & Hkv%elem_of_map_to_list). by exists v.
  - intros [v Hv]. exists (g, v). split; [done|]. by apply elem_of_map_to_list.
Qed.

Lemma sorted_groups_NoDup c : NoDup (sorted_groups c).
Proof. unfold sorted_groups. rewrite sort_Z_Permutation. apply NoDup_fst_map_to_list. Qed.

(** ** [analyze] finds the extremes *)

Definition extremes (l gs : list Z) (acc : Z * Z * Z * Z) : Prop :=
  let '(mg, mn, lg, ln) := acc in
  mg ∈ gs /\ lg ∈ gs /\ mn = counts l mg /\ ln = counts l lg
  /\ forall g, g ∈ gs -> ln <= counts l g <= mn.

Lemma analyze_groups_spec l gs :
  zlen l < 257 -> gs <> [] -> extremes l gs (foldl (analyze_group l) (-1, -1, -1, 257) gs).
Proof.
  intros Hlen. induction gs as [|g gs IH] using rev_ind; intros Hne; [done|]. clear Hne.
  rewrite foldl_snoc. pose proof (counts_nonneg l g). pose proof (counts_le l g).
  destruct (decide (gs = [])) as [->|Hgs].
  { simpl. destruct (Z.ltb_spec (counts l g) 257); [|lia].
    destruct (Z.ltb_spec (-1) (counts l g)); [|lia]. simpl. split; [by left|]. split; [by left|]. split; [done|]. split; [done|].
    intros g' ->%list_elem_of_singleton. lia. }
  specialize (IH Hgs). destruct (foldl _ _ gs) as [[[mg mn] lg] ln].
  destruct IH as (Hmg & Hlg & -> & -> & Hall). unfold analyze_group.
  assert (Hin : forall g', g' ∈ gs ++ [g] -> g' ∈ gs \/ g' = g) by (intros g'; set_solver).
  destruct (Z.ltb_spec (counts l g) (counts l lg));
    destruct (Z.ltb_spec (counts l mg) (counts l g));
    simpl; split_and!; try done; try (apply elem_of_app; first [by left|right; by left]);
    intros g' [Hg'%Hall| ->]%Hin; lia.
Qed.

Lemma analyze_spec c :
  zlen (Shards c) = NShards -> Groups c <> ∅ -> extremes (Shards c) (sorted_groups c) (analyze c).
Proof.
  intros Hlen Hne. apply analyze_groups_spec; [unfold NShards in Hlen; lia|].
  intros Hnil. apply Hne, map_eq. intros g. rewrite lookup_empty.
  destruct (Groups c !! g) eqn:Hg; [|done].
  assert (Hin : g ∈ sorted_groups c) by (apply elem_of_groups; by rewrite Hg).
  rewrite Hnil in Hin. by apply not_elem_of_nil in Hin.
Qed.

Lemma least_in c : zlen (Shards c) = NShards -> Groups c <> ∅ -> is_Some (Groups c !! least c).
Proof.
  intros Hl Hne. pose proof (analyze_spec c Hl Hne) as Hex. unfold least.
  destruct (analyze c) as [[[mg mn] lg] ln]. apply elem_of_groups, Hex.
Qed.

(** ** Assigning the unassigned shards *)

Definition assigned (c : ShardConfig) : Prop := Forall (fun g => is_Some (Groups c !! g)) (Shards c).

Lemma assign_shard_frame c sg :
  zlen (Shards (assign_shard c sg)) = zlen (Shards c) /\ Groups (assign_shard c sg) = Groups c
  /\ Num (assign_shard c sg) = Num c.
Proof. unfold assign_shard. destruct (Groups c !! sg.2); simpl; by rewrite ?zlen_insert. Qed.

(** After the shards of [done], in whose places [c] has shards of known groups. *)
Lemma assign_loop_spec c (l1 l2 l3 : list Z) :
  zlen (Shards c) = NShards -> Groups c <> ∅ -> Shards c = l1 ++ l2 ++ l3 ->
  Forall (fun g => is_Some (Groups c !! g)) l1 ->
  let c' := foldl assign_shard c (imap (fun i g => (length l1 + i, g)%nat) l2) in
  zlen (Shards c') = NShards /\ Groups c' = Groups c /\ Num c' = Num c
  /\ exists l, Shards c' = l ++ l3 /\ Forall (fun g => is_Some (Groups c !! g)) l
     /\ (Forall (fun g => is_Some (Groups c !! g)) l2 -> l = l1 ++ l2).
Proof.
  intros Hlen Hne. revert c l1 Hlen Hne. induction l2 as [|g l2 IH]; intros c l1 Hlen Hne Hsh Hl1 c'.
  { subst c'. simpl in *. split_and!; try done. exists l1. split_and!; [done..|]. by rewrite app_nil_r. }
  set (c1 := assign_shard c (length l1, g)).
  destruct (assign_shard_frame c (length l1, g)) as (Hz & Hg & Hn). fold c1 in Hz, Hg, Hn.
  assert (Hc1 : exists g', Shards c1 = (l1 ++ [g']) ++ l2 ++ l3 /\ is_Some (Groups c !! g')
                  /\ (is_Some (Groups c !! g) -> g' = g)).
  { subst c1. unfold assign_shard. simpl. destruct (Groups c !! g) eqn:Hgr.
    - exists g. rewrite Hsh, <- app_assoc. split_and!; done || by rewrite Hgr.
    - exists (least c). simpl. rewrite Hsh, insert_app_r_alt by lia. rewrite Nat.sub_diag, <- app_assoc.
      split_and!; [done|by apply least_in|by intros []]. }
  destruct Hc1 as (g' & Hs1 & Hg' & Hsame).
  assert (Hfold : c' = foldl assign_shard c1 (imap (fun i x => (length (l1 ++ [g']) + i, x)%nat) l2)).
  { subst c'. simpl. rewrite Nat.add_0_r. fold c1. f_equal. apply imap_ext. intros i x _. simpl.
    rewrite length_app. simpl. f_equal. lia. }
  rewrite Hfold. destruct (IH c1 (l1 ++ [g'])) as (Hz' & Hg'' & Hn' & l & Hl & Hall & Hid).
  - by rewrite Hz.
  - by rewrite Hg.
  - done.
  - rewrite Hg. apply Forall_app. auto.
  - split_and!; [done|congruence|congruence|]. exists l. rewrite Hg in *. split_and!; [done..|].
    intros [Hx Hxs]%Forall_cons. rewrite (Hid Hxs), (Hsame Hx). by rewrite <- app_assoc.
Qed.

Lemma assign_unassigned_spec c :
  zlen (Shards c) = NShards -> Groups c <> ∅ ->
  let c' := assign_unassigned c in
  zlen (Shards c') = NShards /\ Groups c' = Groups c /\ Num c' = Num c /\ assigned c'
  /\ (assigned c -> Shards c' = Shards c).
Proof.
  intros Hlen Hne c'.
  destruct (assign_loop_spec c [] (Shards c) []) as (Hz & Hg & Hn & l & Hl & Hall & Hid);
    [done|done|by rewrite app_nil_r|done|].
  assert (Hc' : c' = foldl assign_shard c (imap (fun i g => (0 + i, g)%nat) (Shards c))) by done.
  rewrite app_nil_r in Hl. unfold assigned. simpl in *. rewrite Hc'. split_and!; try done.
  - rewrite Hg, Hl. done.
  - intros Has. rewrite Hl. by apply Hid.
Qed.

(** ** The balancing loop terminates *)

Definition sumsq (l gs : list Z) : Z := foldr (fun g a => counts l g * counts l g + a) 0 gs.
Definition sumcounts (l gs : list Z) : Z := foldr (fun g a => counts l g + a) 0 gs.

Lemma sumsq_perm l gs gs' : gs ≡ₚ gs' -> sumsq l gs = sumsq l gs'.
Proof. induction 1; simpl; lia. Qed.

Lemma sumsq_nonneg l gs : 0 <= sumsq l gs.
Proof. induction gs as [|g gs IH]; simpl; nia. Qed.

Lemma sumsq_same l l' gs :
  (forall g, g ∈ gs -> counts l' g = counts l g) -> sumsq l' gs = sumsq l gs.
Proof.
  intros Hs. induction gs as [|g gs IH]; simpl; [done|].
  rewrite (Hs g) by (by left). rewrite IH; [done|]. intros g' ?. apply Hs. by right.
Qed.

Lemma sumcounts_cons x l gs :
  NoDup gs -> sumcounts (x :: l) gs <= 1 + sumcounts l gs
    /\ (x ∉ gs -> sumcounts (x :: l) gs = sumcounts l gs).
Proof.
  induction 1 as [|g gs Hg _ [IH1 IH2]]; simpl; [lia|]. rewrite counts_cons.
  destruct (Z.eqb_spec x g) as [->|Hne].
  - rewrite (IH2 Hg). split; [lia|]. intros Hx. set_solver.
  - split; [lia|]. intros Hx. rewrite IH2 by set_solver. lia.
Qed.

Lemma sumcounts_le l gs : NoDup gs -> sumcounts l gs <= zlen l.
Proof.
  intros Hnd. induction l as [|x l IH].
  - induction gs as [|g gs IHg]; simpl; [done|]. apply NoDup_cons in Hnd as [_ Hnd]. apply IHg, Hnd.
  - destruct (sumcounts_cons x l gs Hnd) as [? _]. rewrite zlen_cons. lia.
Qed.

Lemma sumsq_bound l gs : 0 <= sumcounts l gs /\ sumsq l gs <= sumcounts l gs * sumcounts l gs.
Proof.
  induction gs as [|g gs IH]; simpl; [lia|]. pose proof (counts_nonneg l g).
  pose proof (sumsq_nonneg l gs). nia.
Qed.

Lemma counts_move mg lg l g :
  0 < counts l mg -> mg <> lg ->
  counts (move_shard mg lg l) g
  = counts l g - (if mg =? g then 1 else 0) + (if lg =? g then 1 else 0)
  /\ zlen (move_shard mg lg l) = zlen l
  /\ (forall (P : Z -> Prop), P lg -> Forall P l -> Forall P (move_shard mg lg l)).
Proof.
  intros Hpos%counts_pos Hne. unfold move_shard.
  destruct (list_find (fun x => x = mg) l) as [[s x]|] eqn:Hf.
  - apply list_find_Some in Hf as (Hs & -> & _). split_and!.
    + by apply counts_insert.
    + by rewrite zlen_insert.
    + intros P HP Hall. by apply Forall_insert.
  - apply list_find_None in Hf. rewrite Forall_forall in Hf. by specialize (Hf mg Hpos).
Qed.

Lemma sumsq_move mg lg l gs :
  NoDup gs -> mg ∈ gs -> lg ∈ gs -> counts l lg + 2 <= counts l mg ->
  sumsq (move_shard mg lg l) gs + 2 <= sumsq l gs.
Proof.
  intros Hnd Hmg Hlg Hlt. pose proof (counts_nonneg l lg).
  assert (Hne : mg <> lg) by (intros ->; lia).
  assert (Hc : forall g, counts (move_shard mg lg l) g
    = counts l g - (if mg =? g then 1 else 0) + (if lg =? g then 1 else 0)).
  { intros g. by apply counts_move; [lia|]. }
  apply list_elem_of_split in Hmg as (g1 & g2 & Hgs).
  assert (Hp : gs ≡ₚ mg :: (g1 ++ g2)) by (rewrite Hgs; by rewrite Permutation_middle).
  assert (Hlg' : lg ∈ g1 ++ g2) by (rewrite Hp in Hlg; set_solver).
  apply list_elem_of_split in Hlg' as (h1 & h2 & Hh).
  assert (Hp2 : gs ≡ₚ mg :: lg :: (h1 ++ h2)).
  { rewrite Hp. apply Permutation_skip. rewrite Hh. by rewrite Permutation_middle. }
  rewrite !(sumsq_perm _ gs _ Hp2). rewrite Hp2 in Hnd.
  apply NoDup_cons in Hnd as [Hm Hnd]. apply NoDup_cons in Hnd as [Hl _]. simpl.
  rewrite (sumsq_same l).
  - rewrite !Hc, !Z.eqb_refl. rewrite (proj2 (Z.eqb_neq mg lg)), (proj2 (Z.eqb_neq lg mg)) by congruence.
    nia.
  - intros g Hg. rewrite Hc. rewrite (proj2 (Z.eqb_neq mg g)), (proj2 (Z.eqb_neq lg g)); [lia|set_solver..].
Qed.

(** No two groups' loads differ by more than one. *)
Definition balanced (c : ShardConfig) : Prop :=
  forall g g', is_Some (Groups c !! g) -> is_Some (Groups c !! g') ->
    counts (Shards c) g <= counts (Shards c) g' + 1.

Lemma balance_loop_spec fuel c :
  zlen (Shards c) = NShards -> Groups c <> ∅ -> assigned c ->
  sumsq (Shards c) (sorted_groups c) <= Z.of_nat fuel ->
  exists c', balance_loop fuel c = Some c' /\ zlen (Shards c') = NShards
    /\ Groups c' = Groups c /\ Num c' = Num c /\ assigned c' /\ balanced c'
    /\ (balanced c -> c' = c).
Proof.
  revert c. induction fuel as [|fuel IH]; intros c Hlen Hne Has Hm;
    pose proof (analyze_spec c Hlen Hne) as Hex;
    destruct (analyze c) as [[[mg mn] lg] ln] eqn:Ha; destruct Hex as (Hmg & Hlg & -> & -> & Hall);
    simpl; rewrite Ha; destruct (Z.ltb_spec (counts (Shards c) mg) (counts (Shards c) lg + 2)) as [Hlt|Hge].
  1, 3: exists c; split_and!; try done; intros g g' Hg%elem_of_groups Hg'%elem_of_groups;
    apply Hall in Hg, Hg'; lia.
  - pose proof (sumsq_move mg lg (Shards c) _ (sorted_groups_NoDup c) Hmg Hlg Hge).
    pose proof (sumsq_nonneg (move_shard mg lg (Shards c)) (sorted_groups c)). lia.
  - set (c1 := set_Shards (move_shard mg lg (Shards c)) c).
    pose proof (sumsq_move mg lg (Shards c) _ (sorted_groups_NoDup c) Hmg Hlg Hge) as Hdec.
    pose proof (counts_nonneg (Shards c) lg).
    destruct (counts_move mg lg (Shards c) mg) as (_ & Hz & HP); [lia|intros ->; lia|].
    destruct (IH c1) as (c' & Hr & Hz' & Hg' & Hn' & Has' & Hb & _).
    + simpl. by rewrite Hz.
    + done.
    + apply HP; [by apply elem_of_groups|done].
    + simpl. unfold sorted_groups in *. simpl. lia.
    + exists c'. split_and!; try done. intros Hbal. exfalso.
      apply elem_of_groups in Hmg, Hlg. specialize (Hbal mg lg Hmg Hlg). lia.
Qed.

(** [Rebalance] terminates on every configuration; with groups, afterwards every shard belongs
    to a group and the loads differ by at most one. *)
Lemma Rebalance_spec c :
  zlen (Shards c) = NShards ->
  exists c', Rebalance c = Some c' /\ zlen (Shards c') = NShards /\ Groups c' = Groups c
    /\ Num c' = Num c /\ balanced c'
    /\ (Groups c <> ∅ -> assigned c')
    /\ (Groups c = ∅ -> Forall (fun g => g = 0) (Shards c'))
    /\ (assigned c -> balanced c -> Groups c <> ∅ -> c' = c).
Proof.
  intros Hlen. unfold Rebalance. destruct (decide (Groups c = ∅)) as [He|Hne].
  - rewrite He, map_to_list_empty. rewrite zlen_nil. destruct (Z.ltb_spec 0 1) as [_|?]; [|lia].
    exists (set_Shards ((fun _ => 0) <$> Shards c) c). split; [done|]. split_and!; try done.
    + unfold set_Shards, zlen, Shards at 1. rewrite length_fmap. exact Hlen.
    + intros g g'. simpl. rewrite He. by intros [? ?%lookup_empty_Some].
    + intros _. by apply Forall_fmap, Forall_true.
  - destruct (Z.ltb_spec (zlen (map_to_list (Groups c))) 1) as [Hz|_].
    { exfalso. apply Hne, map_to_list_empty_iff, nil_length_inv. unfold zlen in Hz. lia. }
    destruct (assign_unassigned_spec c Hlen Hne) as (Hz & Hg & Hn & Has & Hid).
    set (c1 := assign_unassigned c) in *.
    destruct (balance_loop_spec balance_fuel c1) as (c' & Hr & Hz' & Hg' & Hn' & Has' & Hb & Hid');
      [done|by rewrite Hg|done| |].
    + destruct (sumsq_bound (Shards c1) (sorted_groups c1)) as [Hs0 Hs].
      pose proof (sumcounts_le (Shards c1) _ (sorted_groups_NoDup c1)) as Hc.
      unfold balance_fuel. rewrite Z2Nat.id by (unfold NShards; lia). rewrite Hz in Hc. nia.
    + exists c'. split_and!; try done; try congruence.
      intros Ha Hbal _. assert (Hc1 : c1 = c).
      { by apply ShardConfig_eq; auto. }
      rewrite Hc1 in Hid'. auto.
Qed.

(** C21.  [Rebalance] returns on every configuration.  With at least one group every shard ends
    up with a group of the configuration and no two loads differ by more than one; without
    groups all shards are unassigned.  Groups and number are untouched, and a configuration
    that is already complete and balanced is left alone. *)
Theorem rebalance_balances (c : ShardConfig) :
  zlen (Shards c) = NShards ->
  exists c', Rebalance c = Some c' /\ zlen (Shards c') = NShards /\ Groups c' = Groups c
    /\ Num c' = Num c
    /\ (Groups c <> ∅ -> forall s g, Shards c' !! s = Some g -> is_Some (Groups c !! g))
    /\ (Groups c = ∅ -> forall s g, Shards c' !! s = Some g -> g = 0)
    /\ (forall g g', is_Some (Groups c !! g) -> is_Some (Groups c !! g') ->
          counts (Shards c') g <= counts (Shards c') g' + 1)
    /\ (assigned c -> balanced c -> Groups c <> ∅ -> c' = c).
Proof.
  intros Hlen. destruct (Rebalance_spec c Hlen) as (c' & Hr & Hz & Hg & Hn & Hb & Has & H0 & Hid).
  exists c'. split_and!; try done.
  - intros Hne s g Hs. specialize (Has Hne). unfold assigned in Has. rewrite Hg in Has.
    by eapply Forall_lookup_1 in Has.
  - intros He s g Hs. specialize (H0 He). by eapply Forall_lookup_1 in H0.
  - intros g g' Hx Hy. apply Hb; by rewrite Hg.
Qed.

(** ** Joining and leaving *)

Record cfg_good (c : ShardConfig) : Prop := {
  cg_len : zlen (Shards c) = NShards;
  cg_balanced : balanced c;
  cg_assigned : Groups c <> ∅ -> assigned c;
}.

Lemma Rebalance_good c :
  zlen (Shards c) = NShards ->
  exists c', Rebalance c = Some c' /\ cfg_good c' /\ Groups c' = Groups c /\ Num c' = Num c.
Proof.
  intros Hlen. destruct (Rebalance_spec c Hlen) as (c' & Hr & Hz & Hg & Hn & Hb & Has & _).
  exists c'. split_and!; try done. constructor; try done. by rewrite Hg.
Qed.

Lemma Join_loop_spec cfg changed servers cfg' :
  Join_loop cfg changed servers = Some (cfg', true) ->
  Shards cfg' = Shards cfg /\ Num cfg' = Num cfg + 1
  /\ Groups cfg' = list_to_map servers ∪ Groups cfg
  /\ Forall (fun x => Groups cfg !! x.1 = None) servers /\ NoDup servers.*1
  /\ (changed = true \/ servers <> []).
Proof.
  revert cfg changed. induction servers as [|[gid srvs] rest IH]; intros cfg changed Hr; simpl in Hr.
  { destruct changed; simplify_eq/=. split_and!; try done; [|constructor|by left].
    by rewrite (left_id_L ∅ (∪)). }
  destruct (Groups cfg !! gid) eqn:Hg; [done|]. go_if_in Hr; [done|].
  apply IH in Hr as (Hs & Hn & Hgr & Hnew & Hnd & _). simpl in *.
  assert (Hnotin : gid ∉ rest.*1).
  { intros ([g' s'] & -> & Hin)%list_elem_of_fmap. rewrite Forall_forall in Hnew.
    specialize (Hnew _ Hin). simpl in Hnew. by rewrite lookup_insert_eq in Hnew. }
  split_and!; try done.
  - rewrite Hgr. simpl. rewrite <- insert_union_r by (by apply not_elem_of_list_to_map_1).
    by rewrite insert_union_l.
  - constructor; [done|]. eapply Forall_impl; [exact Hnew|]. intros x Hx. simpl in *.
    apply lookup_insert_None in Hx. tauto.
  - by constructor.
  - by right.
Qed.

Lemma Leave_loop_spec cfg changed gids cfg' :
  Leave_loop cfg changed gids = Some (cfg', true) ->
  Shards cfg' = Shards cfg /\ Num cfg' = Num cfg + 1
  /\ (forall g, Groups cfg' !! g = if decide (g ∈ gids) then None else Groups cfg !! g)
  /\ Forall (fun g => is_Some (Groups cfg !! g)) gids.
Proof.
  revert cfg changed. induction gids as [|gid rest IH]; intros cfg changed Hr; simpl in Hr.
  { destruct changed; simplify_eq/=. by split_and!. }
  destruct (Groups cfg !! gid) eqn:Hg; [|done].
  apply IH in Hr as (Hs & Hn & Hgr & Hin). simpl in *. split_and!; try done.
  - intros g. rewrite Hgr. destruct (decide (g = gid)) as [->|Hne].
    + rewrite lookup_delete_eq. by destruct (decide _), (decide _); set_solver.
    + rewrite lookup_delete_ne by done. destruct (decide (g ∈ rest)), (decide (g ∈ gid :: rest)); set_solver.
  - constructor; [by rewrite Hg|]. eapply Forall_impl; [exact Hin|].
    intros g [x [_ Hx]%lookup_delete_Some]. by exists x.
Qed.

(** ** [CheckConfig] *)

Lemma check_minmax_spec l gs (mx mn : Z) :
  foldl (check_minmax l) (0, 257) gs = (mx, mn) ->
  (mx = 0 \/ exists g, g ∈ gs /\ mx = counts l g)
  /\ (mn = 257 \/ exists g, g ∈ gs /\ mn = counts l g).
Proof.
  revert mx mn. induction gs as [|g gs IH] using rev_ind; intros mx mn Hf.
  { simplify_eq/=. auto. }
  rewrite foldl_snoc in Hf. destruct (foldl _ _ gs) as [mx0 mn0] eqn:E.
  destruct (IH mx0 mn0 eq_refl) as [Hmx Hmn]. unfold check_minmax in Hf.
  assert (Hl : forall x, (exists g', g' ∈ gs /\ x = counts l g') ->
            exists g', g' ∈ gs ++ [g] /\ x = counts l g').
  { intros x (g' & ? & ?). exists g'. rewrite elem_of_app. auto. }
  assert (Hr : exists g', g' ∈ gs ++ [g] /\ counts l g = counts l g').
  { exists g. rewrite elem_of_app. split; [right; by left|done]. }
  injection Hf as <- <-. split.
  - destruct (mx0 <? _); [by right|]. destruct Hmx; [by left|right; auto].
  - destruct (_ <? mn0); [by right|]. destruct Hmn; [by left|right; auto].
Qed.

Lemma CheckConfig_good c groups :
  cfg_good c -> groups ≡ₚ (map_to_list (Groups c)).*1 -> CheckConfig c groups = true.
Proof.
  intros [Hlen Hbal Has] Hp. unfold CheckConfig.
  assert (Hin : forall g, g ∈ groups <-> is_Some (Groups c !! g)).
  { intros g. rewrite Hp, <- elem_of_groups. unfold sorted_groups. by rewrite sort_Z_Permutation. }
  rewrite !andb_true_iff. split_and!.
  - apply Z.eqb_eq. unfold zlen. by rewrite Hp, length_fmap.
  - apply Is_true_eq_true, forallb_True, Forall_forall. intros g Hg%Hin. by apply bool_decide_pack.
  - destruct (Z.leb_spec (zlen groups) 0) as [|Hpos]; [done|]. simpl.
    apply Is_true_eq_true, forallb_True, Forall_forall. intros g Hg. apply bool_decide_pack.
    assert (Hne : Groups c <> ∅).
    { intros He. rewrite He, map_to_list_empty in Hp. simpl in Hp. apply Permutation_nil_r in Hp.
      rewrite Hp in Hpos. unfold zlen in Hpos. simpl in Hpos. lia. }
    specialize (Has Hne). unfold assigned in Has. rewrite Forall_forall in Has. auto.
  - destruct (foldl _ _ _) as [mx mn] eqn:E. apply check_minmax_spec in E as [Hmx Hmn].
    rewrite negb_true_iff. apply Z.ltb_ge.
    assert (Hg : forall g, g ∈ (map_to_list (Groups c)).*1 -> is_Some (Groups c !! g)).
    { intros g. by rewrite <- Hp, Hin. }
    destruct Hmx as [->|(g & Hgg & ->)].
    + destruct Hmn as [->|(g' & _ & ->)]; [lia|]. pose proof (counts_nonneg (Shards c) g'). lia.
    + destruct Hmn as [->|(g' & Hgg' & ->)].
      * pose proof (counts_le (Shards c) g). unfold NShards in Hlen. lia.
      * by apply Hbal; apply Hg.
Qed.

(** ** Histories of configurations *)

Inductive CfgOp :=
  | CfgJoin (servers : list (Z * list string))
  | CfgLeave (gids : list Z).

(** One change that was accepted. *)
Definition cfg_step (c : ShardConfig) (op : CfgOp) : option ShardConfig :=
  '(c', ok) ← (match op with CfgJoin s => JoinBalance c s | CfgLeave g => LeaveBalance c g end);
  if (ok : bool) then Some c' else None.

Lemma cfg_step_good c op c' :
  cfg_good c -> cfg_step c op = Some c' ->
  cfg_good c' /\ Num c' = Num c + 1
  /\ match op with
     | CfgJoin servers => Groups c' = list_to_map servers ∪ Groups c
     | CfgLeave gids => forall g, Groups c' !! g = if decide (g ∈ gids) then None else Groups c !! g
     end.
Proof.
  intros [Hlen _ _] Hr. unfold cfg_step in Hr. apply bind_Some in Hr as ([c1 ok] & Hop & Hr).
  destruct ok; simplify_eq/=. destruct op; unfold JoinBalance, LeaveBalance in Hop;
    apply bind_Some in Hop as ([c2 ok] & Hj & Hop); destruct ok; simplify_eq/=;
    apply bind_Some in Hop as (c3 & Hreb & Hop); simplify_eq/=.
  - apply Join_loop_spec in Hj as (Hs & Hn & Hg & _).
    destruct (Rebalance_good c2) as (c3 & Hreb' & Hgood & Hg' & Hn'); [by rewrite Hs|].
    rewrite Hreb in Hreb'. simplify_eq. split_and!; [done|lia|congruence].
  - apply Leave_loop_spec in Hj as (Hs & Hn & Hg & _).
    destruct (Rebalance_good c2) as (c3 & Hreb' & Hgood & Hg' & Hn'); [by rewrite Hs|].
    rewrite Hreb in Hreb'. simplify_eq. split_and!; [done|lia|]. by rewrite Hg'.
Qed.

Lemma MakeShardConfig_good : cfg_good MakeShardConfig.
Proof.
  constructor; [done| |done]. intros g g'. simpl. by intros [? ?%lookup_empty_Some].
Qed.

Lemma Key2Shard_range key : 0 <= Key2Shard key < NShards.
Proof.
  unfold Key2Shard, NShards. pose proof (fnv32a_range key). apply Z.rem_bound_pos; lia.
Qed.

(** C22.  After any history of accepted joins and leaves, the configuration passes the tester's
    [CheckConfig] for exactly its groups, its number counts the changes, and, unless every
    group has left, [Key2Shard] and [GidServers] find a group and its servers for every key. *)
Theorem config_history (ops : list CfgOp) (c : ShardConfig) (groups : list Z) :
  run_steps cfg_step MakeShardConfig ops = Some c ->
  groups ≡ₚ (map_to_list (Groups c)).*1 ->
  CheckConfig c groups = true /\ Num c = zlen ops
  /\ (Groups c <> ∅ -> forall key, exists gid srvs,
        GidServers c (Key2Shard key) = Some (gid, srvs, true) /\ Groups c !! gid = Some srvs).
Proof.
  intros Hr Hp.
  assert (Hgood : cfg_good c).
  { apply (run_steps_ind cfg_step cfg_good (fun _ => True) MakeShardConfig ops c);
      [|apply MakeShardConfig_good|by apply Forall_true|done].
    intros c1 op c2 Hg _ Hs. by destruct (cfg_step_good c1 op c2 Hg Hs). }
  split; [by apply CheckConfig_good|]. split.
  - clear Hp Hgood. assert (Hn : forall n c0, cfg_good c0 -> Num c0 = n ->
      run_steps cfg_step c0 ops = Some c -> Num c = n + zlen ops).
    { clear Hr. induction ops as [|op ops IH]; intros n c0 Hg0 Hn Hr.
      - injection Hr as <-. autorewrite with zlen. lia.
      - rewrite run_steps_cons in Hr. apply bind_Some in Hr as (c1 & Hs & Hr).
        destruct (cfg_step_good c0 op c1 Hg0 Hs) as (Hg1 & Hn1 & _).
        rewrite zlen_cons, (IH (n + 1) c1 Hg1) by (done || lia). lia. }
    by rewrite (Hn 0 MakeShardConfig MakeShardConfig_good eq_refl Hr).
  - intros Hne key. unfold GidServers. pose proof (Key2Shard_range key) as Hk.
    destruct Hgood as [Hlen _ Has]. rewrite <- Hlen in Hk.
    destruct (slice_get_total _ _ Hk) as [gid Hgid]. rewrite Hgid. simpl.
    specialize (Has Hne). apply slice_get_Some in Hgid as [_ Hgid].
    destruct (Forall_lookup_1 _ _ _ _ Has Hgid) as [srvs Hsrvs]. rewrite Hsrvs. eauto.
Qed.

(** ** Concrete instances *)

Lemma rebalance_balances_witness :
  exists c', Rebalance (mkShardConfig 3 (replicate 12 7) {[1 := ["a"]; 2 := ["b"]; 5 := ["c"]]}) = Some c'
    /\ counts (Shards c') 1 <= counts (Shards c') 5 + 1.
Proof.
  destruct (rebalance_balances (mkShardConfig 3 (replicate 12 7) {[1 := ["a"]; 2 := ["b"]; 5 := ["c"]]}))
    as (c' & Hr & _ & _ & _ & _ & _ & Hb & _); [reflexivity|].
  exists c'. split; [exact Hr|]. apply Hb; eexists; reflexivity.
Defined.

Definition history3 : list CfgOp :=
  [CfgJoin [(1, ["x"; "y"; "z"])]; CfgJoin [(2, ["a"; "b"; "c"])]; CfgLeave [1]].

Lemma config_history_witness :
  exists c, run_steps cfg_step MakeShardConfig history3 = Some c /\ CheckConfig c [2] = true
    /\ Num c = 3.
Proof.
  destruct (run_steps cfg_step MakeShardConfig history3) as [c|] eqn:E;
    [|vm_compute in E; discriminate E].
  exists c. split; [reflexivity|].
  destruct (config_history history3 c [2] E) as (Hc & Hn & _).
  - vm_compute in E. injection E as <-. reflexivity.
  - split; [exact Hc|exact Hn].
Defined.
