(* ===== verification/ShardGrp.v ===== *)
(** * A shard group's server

    [lec-2025/src/shardkv1/shardgrp/server.go] and [shardrpc]: the state machine of one
    replica group of the sharded store, with the three operations that move a shard.  JSON is
    a parameter, the class [Json]; what the code relies on is [JsonLaws]. *)

From S2P Require Import Prelude Rpc Persister KvServer ShardCfg.

(** [json.Marshal] and [json.Unmarshal] for [map[string]ValueEntry]; [None] is an error. *)
Class Json := {
  json_marshal : gmap string ValueEntry -> option bytes;
  json_unmarshal : bytes -> option (gmap string ValueEntry);
}.

(** The bytes of ["{}"]. *)
Definition empty_object : bytes := [Byte.x7b; Byte.x7d].

(** The documented behaviour: a map of strings is marshalled without an error, and comes back
    unchanged if its strings are valid UTF-8 ([clean]; other bytes are replaced). *)
Class JsonLaws `{Json} (clean : string -> Prop) : Prop := {
  json_total : forall m, is_Some (json_marshal m);
  json_roundtrip : forall m b,
    map_Forall (fun k e => clean k /\ clean (ve_Value e)) m ->
    json_marshal m = Some b -> json_unmarshal b = Some m;
  json_empty : json_unmarshal empty_object = Some ∅;
}.

Module ShardGrp.

Record FreezeShardArgs := mkFreezeShardArgs { fa_Shard : Z; fa_Num : Z }.
Record FreezeShardReply := mkFreezeShardReply { fr_State : bytes; fr_Num : Z; fr_Err : Err }.
Record InstallShardArgs := mkInstallShardArgs { ia_Shard : Z; ia_State : bytes; ia_Num : Z }.
Record InstallShardReply := mkInstallShardReply { ir_Err : Err }.
Record DeleteShardArgs := mkDeleteShardArgs { da_Shard : Z; da_Num : Z }.
Record DeleteShardReply := mkDeleteShardReply { dr_Err : Err }.

(** The four maps, which [StartServerShardGrp] makes together. *)
Record Maps := mkMaps {
  KeyValue : gmap string ValueEntry;
  frozenShards : gmap Z bool;
  maxShardNum : gmap Z Z;
  migratedShards : gmap Z bool }.

Definition no_maps : Maps := mkMaps ∅ ∅ ∅ ∅.

(** [maps] is [None] while the maps are nil: they read as empty and a write panics. *)
Record KVServer := mkKVServer { me : Z; dead : Z; gid : Z; maps : option Maps }.

Definition read (kv : KVServer) : Maps := default no_maps (maps kv).

Definition write (f : Maps -> Maps) (kv : KVServer) : option KVServer :=
  m ← maps kv; Some (mkKVServer (me kv) (dead kv) (gid kv) (Some (f m))).

Definition set_KeyValue (v : gmap string ValueEntry) (m : Maps) : Maps :=
  mkMaps v (frozenShards m) (maxShardNum m) (migratedShards m).
Definition set_frozen (v : gmap Z bool) (m : Maps) : Maps :=
  mkMaps (KeyValue m) v (maxShardNum m) (migratedShards m).
Definition set_maxNum (v : gmap Z Z) (m : Maps) : Maps :=
  mkMaps (KeyValue m) (frozenShards m) v (migratedShards m).
Definition set_migrated (v : gmap Z bool) (m : Maps) : Maps :=
  mkMaps (KeyValue m) (frozenShards m) (maxShardNum m) v.

(** [if x, ok := mp[shard]; ok && x]. *)
Definition flagged (mp : gmap Z bool) (shard : Z) : bool := default false (mp !! shard).

(** Lines 278 to 283 and 301 to 306: the entries of one shard. *)
Definition shardData (kv : gmap string ValueEntry) (shard : Z) : gmap string ValueEntry :=
  filter (fun p => Key2Shard p.1 = shard) kv.

(** Lines 403 to 408. *)
Definition without_shard (kv : gmap string ValueEntry) (shard : Z) : gmap string ValueEntry :=
  filter (fun p => Key2Shard p.1 <> shard) kv.

Inductive Req :=
  | FreezePtr (args : FreezeShardArgs) | FreezeVal (args : FreezeShardArgs)
  | InstallPtr (args : InstallShardArgs) | InstallVal (args : InstallShardArgs)
  | DeletePtr (args : DeleteShardArgs) | DeleteVal (args : DeleteShardArgs)
  | GetPtr (args : GetArgs) | PutPtr (args : PutArgs)
  | GetVal (args : GetArgs) | PutVal (args : PutArgs)
  | OtherReq.

Inductive Rep :=
  | RepFreeze (r : FreezeShardReply)
  | RepInstall (r : InstallShardReply)
  | RepDelete (r : DeleteShardReply)
  | RepGet (r : GetReply)
  | RepPut (r : PutReply).

Section Ops.
Context `{Json}.

(** The reply that carries the shard's entries. *)
Definition freeze_reply (m : gmap string ValueEntry) (args : FreezeShardArgs) : FreezeShardReply :=
  match json_marshal (shardData m (fa_Shard args)) with
  | None => mkFreezeShardReply [] 0 ErrMaybe
  | Some state => mkFreezeShardReply state (fa_Num args) OK
  end.

Definition doFreezeShard (kv : KVServer) (args : FreezeShardArgs)
    : option (KVServer * FreezeShardReply) :=
  let fresh :=
    kv ← write (fun m => set_frozen (<[fa_Shard args := true]> (frozenShards m)) m) kv;
    kv ← write (fun m => set_maxNum (<[fa_Shard args := fa_Num args]> (maxShardNum m)) m) kv;
    Some (kv, freeze_reply (KeyValue (read kv)) args) in
  match maxShardNum (read kv) !! fa_Shard args with
  | Some maxNum =>
      if fa_Num args <? maxNum then Some (kv, mkFreezeShardReply [] 0 ErrMaybe)
      else if fa_Num args =? maxNum then
        if flagged (migratedShards (read kv)) (fa_Shard args)
        then Some (kv, mkFreezeShardReply empty_object (fa_Num args) OK)
        else Some (kv, freeze_reply (KeyValue (read kv)) args)
      else fresh
  | None => fresh
  end.

Definition doInstallShard (kv : KVServer) (args : InstallShardArgs)
    : option (KVServer * InstallShardReply) :=
  let fresh :=
    kv ← write (fun m => set_maxNum (<[ia_Shard args := ia_Num args]> (maxShardNum m)) m) kv;
    kv ← write (fun m => set_migrated (delete (ia_Shard args) (migratedShards m)) m) kv;
    match json_unmarshal (ia_State args) with
    | None => Some (kv, mkInstallShardReply ErrMaybe)
    | Some shardData =>
        kv ← write (fun m => set_KeyValue (shardData ∪ KeyValue m) m) kv;
        kv ← write (fun m => set_frozen (delete (ia_Shard args) (frozenShards m)) m) kv;
        Some (kv, mkInstallShardReply OK)
    end in
  match maxShardNum (read kv) !! ia_Shard args with
  | Some maxNum =>
      if ia_Num args <? maxNum then Some (kv, mkInstallShardReply ErrMaybe)
      else if ia_Num args =? maxNum then Some (kv, mkInstallShardReply OK)
      else fresh
  | None => fresh
  end.

Definition doDeleteShard (kv : KVServer) (args : DeleteShardArgs)
    : option (KVServer * DeleteShardReply) :=
  let fresh :=
    kv ← write (fun m => set_maxNum (<[da_Shard args := da_Num args]> (maxShardNum m)) m) kv;
    kv ← write (fun m => set_migrated (<[da_Shard args := true]> (migratedShards m)) m) kv;
    kv ← write (fun m => set_KeyValue (without_shard (KeyValue m) (da_Shard args)) m) kv;
    kv ← write (fun m => set_frozen (delete (da_Shard args) (frozenShards m)) m) kv;
    Some (kv, mkDeleteShardReply OK) in
  match maxShardNum (read kv) !! da_Shard args with
  | Some maxNum =>
      if da_Num args <? maxNum then Some (kv, mkDeleteShardReply ErrMaybe)
      else if da_Num args =? maxNum then
        kv ← write (fun m => set_migrated (<[da_Shard args := true]> (migratedShards m)) m) kv;
        kv ← write (fun m => set_frozen (delete (da_Shard args) (frozenShards m)) m) kv;
        Some (kv, mkDeleteShardReply OK)
      else fresh
  | None => fresh
  end.

(** Lines 62 to 92 and 137 to 167. *)
Definition doGet (kv : KVServer) (getreq : GetArgs) : GetReply :=
  let shard := Key2Shard (ga_Key getreq) in
  if flagged (migratedShards (read kv)) shard then mkGetReply "" 0 ErrWrongGroup
  else if flagged (frozenShards (read kv)) shard then mkGetReply "" 0 ErrWrongGroup
  else match KeyValue (read kv) !! ga_Key getreq with
       | None => mkGetReply "" 0 ErrNoKey
       | Some entry => mkGetReply (ve_Value entry) (ve_Version entry) OK
       end.

(** [kv.KeyValue[k] = e]. *)
Definition store (kv : KVServer) (k : string) (e : ValueEntry) : option KVServer :=
  write (fun m => set_KeyValue (<[k := e]> (KeyValue m)) m) kv.

(** Lines 93 to 136 and 168 to 211. *)
Definition doPut (kv : KVServer) (putreq : PutArgs) : option (KVServer * PutReply) :=
  let shard := Key2Shard (pa_Key putreq) in
  if flagged (migratedShards (read kv)) shard then Some (kv, mkPutReply ErrWrongGroup)
  else if flagged (frozenShards (read kv)) shard then Some (kv, mkPutReply ErrWrongGroup)
  else match KeyValue (read kv) !! pa_Key putreq with
       | None =>
           if pa_Version putreq =? 0 then
             kv ← store kv (pa_Key putreq) (mkValueEntry (pa_Value putreq) 1);
             Some (kv, mkPutReply OK)
           else Some (kv, mkPutReply ErrVersion)
       | Some entry =>
           if negb (pa_Version putreq =? ve_Version entry) then Some (kv, mkPutReply ErrVersion)
           else
             kv ← store kv (pa_Key putreq)
                    (mkValueEntry (pa_Value putreq) (u64 (ve_Version entry + 1)));
             Some (kv, mkPutReply OK)
       end.

(** The default case is [log.Fatalf]. *)
Definition DoOp (kv : KVServer) (req : Req) : option (KVServer * Rep) :=
  match req with
  | FreezePtr args | FreezeVal args => '(kv, r) ← doFreezeShard kv args; Some (kv, RepFreeze r)
  | InstallPtr args | InstallVal args => '(kv, r) ← doInstallShard kv args; Some (kv, RepInstall r)
  | DeletePtr args | DeleteVal args => '(kv, r) ← doDeleteShard kv args; Some (kv, RepDelete r)
  | GetPtr args | GetVal args => Some (kv, RepGet (doGet kv args))
  | PutPtr args | PutVal args => '(kv, r) ← doPut kv args; Some (kv, RepPut r)
  | OtherReq => None
  end.
End Ops.

(** Both are stubs. *)
Definition Snapshot (kv : KVServer) : bytes := [].
Definition Restore (kv : KVServer) (data : bytes) : KVServer := kv.

(** The RPC handlers, after [rsm.Submit] returned [err, value]. *)
Definition Get (err : Err) (value : option Rep) : GetReply :=
  match value with
  | Some (RepGet r) =>
      if bool_decide (err = OK) then mkGetReply (gr_Value r) (gr_Version r) (gr_Err r)
      else mkGetReply "" 0 err
  | _ => mkGetReply "" 0 err
  end.

Definition Put (err : Err) (value : option Rep) : PutReply :=
  match value with
  | Some (RepPut r) => if bool_decide (err = OK) then mkPutReply (pr_Err r) else mkPutReply err
  | _ => mkPutReply err
  end.

Definition FreezeShard (err : Err) (value : option Rep) : FreezeShardReply :=
  match value with
  | Some (RepFreeze r) => if bool_decide (err = OK) then r else mkFreezeShardReply [] 0 err
  | _ => mkFreezeShardReply [] 0 err
  end.

Definition InstallShard (err : Err) (value : option Rep) : InstallShardReply :=
  mkInstallShardReply err.

Definition DeleteShard (err : Err) (value : option Rep) : DeleteShardReply :=
  mkDeleteShardReply err.

Definition Kill (kv : KVServer) : KVServer := mkKVServer (me kv) 1 (gid kv) (maps kv).
Definition killed (kv : KVServer) : bool := dead kv =? 1.

(** [StartServerShardGrp] before and after [rsm.MakeRSM]. *)
Definition Start_alloc (g self : Z) : KVServer := mkKVServer self 0 g None.
Definition Start_init (kv : KVServer) : KVServer :=
  mkKVServer (me kv) 0 (gid kv) (Some (default no_maps (maps kv))).

End ShardGrp.
