(* ===== verification/ShardMove.v ===== *)
(** * Moving a shard from one group to another

    What [FreezeShard], [InstallShard] and [DeleteShard] guarantee together: controllers that
    are behind are fenced off, a frozen shard does not change, and a shard arrives at the new
    group exactly as it left the old one.  And what goes wrong: deleted shards keep their
    data, and a restarted server has lost its state. *)

From S2P Require Import Prelude Rpc Persister KvServer ShardCfg ShardGrp.

Import ShardGrp.

Section ShardMove.
Context `{Json} {clean : string -> Prop} `{!JsonLaws clean}.
Implicit Types (kv src dst : KVServer) (req : Req) (s n : Z).

Definition live kv : Prop := is_Some (maps kv).

(** A run of the state machine. *)
Definition grp_step kv req : option KVServer := fst <$> DoOp kv req.
Definition grp_run kv (reqs : list Req) : option KVServer := run_steps grp_step kv reqs.

(** The shard and the number of a request that moves a shard. *)
Definition moves req : option (Z * Z) :=
  match req with
  | FreezePtr a | FreezeVal a => Some (fa_Shard a, fa_Num a)
  | InstallPtr a | InstallVal a => Some (ia_Shard a, ia_Num a)
  | DeletePtr a | DeleteVal a => Some (da_Shard a, da_Num a)
  | _ => None
  end.

Definition rep_err (rep : Rep) : Err :=
  match rep with
  | RepFreeze r => fr_Err r
  | RepInstall r => ir_Err r
  | RepDelete r => dr_Err r
  | RepGet r => gr_Err r
  | RepPut r => pr_Err r
  end.

Lemma write_live f kv :
  live kv -> exists kv', write f kv = Some kv' /\ read kv' = f (read kv) /\ live kv'.
Proof.
  intros [m Hm]. unfold write, read, live. rewrite Hm. simpl. eexists. split; [done|]. simpl. eauto.
Qed.

Lemma write_read f kv kv' : write f kv = Some kv' -> read kv' = f (read kv) /\ live kv'.
Proof.
  unfold write, read, live. intros Hr. apply bind_Some in Hr as (m & Hm & Hr). simplify_eq/=.
  rewrite Hm. simpl. eauto.
Qed.

(** ** What each operation does to the maps *)

Lemma doPut_spec kv a kv' r :
  doPut kv a = Some (kv', r) ->
  (kv' = kv /\ (pr_Err r = ErrWrongGroup \/ pr_Err r = ErrVersion))
  \/ (exists e, read kv' = set_KeyValue (<[pa_Key a := e]> (KeyValue (read kv))) (read kv)
       /\ pr_Err r = OK
       /\ flagged (migratedShards (read kv)) (Key2Shard (pa_Key a)) = false
       /\ flagged (frozenShards (read kv)) (Key2Shard (pa_Key a)) = false).
Proof.
  unfold doPut. intros Hr. destruct (flagged (migratedShards (read kv)) _) eqn:Hm; [simplify_eq; auto|].
  destruct (flagged (frozenShards (read kv)) _) eqn:Hf; [simplify_eq; auto|].
  destruct (KeyValue (read kv) !! pa_Key a) as [e|].
  - go_if_in Hr; [simplify_eq; auto|]. apply bind_Some in Hr as (kv1 & Hs%write_read & Hr).
    simplify_eq. right. destruct Hs as [Hs _]. eauto 10.
  - go_if_in Hr; [|simplify_eq; auto]. apply bind_Some in Hr as (kv1 & Hs%write_read & Hr).
    simplify_eq. right. destruct Hs as [Hs _]. eauto 10.
Qed.

(** Run one more [write] of a handler. *)
Ltac run_write H :=
  let kv := fresh "kv" in let Hw := fresh "Hw" in
  apply bind_Some in H as (kv & Hw & H); apply write_read in Hw as [Hw _].

Lemma doFreeze_spec kv a kv' r :
  doFreezeShard kv a = Some (kv', r) ->
  (kv' = kv /\ exists m, maxShardNum (read kv) !! fa_Shard a = Some m
     /\ (fa_Num a < m /\ fr_Err r = ErrMaybe
         \/ fa_Num a = m /\ (flagged (migratedShards (read kv)) (fa_Shard a) = true
                              /\ r = mkFreezeShardReply empty_object (fa_Num a) OK
                             \/ r = freeze_reply (KeyValue (read kv)) a)))
  \/ ((forall m, maxShardNum (read kv) !! fa_Shard a = Some m -> m < fa_Num a)
      /\ read kv' = mkMaps (KeyValue (read kv)) (<[fa_Shard a := true]> (frozenShards (read kv)))
                      (<[fa_Shard a := fa_Num a]> (maxShardNum (read kv))) (migratedShards (read kv))
      /\ r = freeze_reply (KeyValue (read kv)) a).
Proof.
  unfold doFreezeShard. intros Hr.
  assert (Hfresh : forall x,
    (kv1 ← write (fun m => set_frozen (<[fa_Shard a := true]> (frozenShards m)) m) kv;
     kv2 ← write (fun m => set_maxNum (<[fa_Shard a := fa_Num a]> (maxShardNum m)) m) kv1;
     Some (kv2, freeze_reply (KeyValue (read kv2)) a)) = Some x ->
    read x.1 = mkMaps (KeyValue (read kv)) (<[fa_Shard a := true]> (frozenShards (read kv)))
                 (<[fa_Shard a := fa_Num a]> (maxShardNum (read kv))) (migratedShards (read kv))
    /\ x.2 = freeze_reply (KeyValue (read kv)) a).
  { intros x Hx. run_write Hx. run_write Hx. simplify_eq/=. rewrite Hw0, Hw. done. }
  destruct (maxShardNum (read kv) !! fa_Shard a) as [m|] eqn:Hm.
  - go_if_in Hr; [simplify_eq; left; eauto 10|]. go_if_in Hr.
    + left. go_if_in Hr; simplify_eq; eauto 10.
    + right. destruct (Hfresh _ Hr). split; [|done]. intros ? [= <-]. lia.
  - right. destruct (Hfresh _ Hr). done.
Qed.

Lemma doInstall_spec kv a kv' r :
  doInstallShard kv a = Some (kv', r) ->
  (kv' = kv /\ exists m, maxShardNum (read kv) !! ia_Shard a = Some m
     /\ (ia_Num a < m /\ ir_Err r = ErrMaybe \/ ia_Num a = m /\ ir_Err r = OK))
  \/ ((forall m, maxShardNum (read kv) !! ia_Shard a = Some m -> m < ia_Num a)
      /\ maxShardNum (read kv') = <[ia_Shard a := ia_Num a]> (maxShardNum (read kv))
      /\ migratedShards (read kv') = delete (ia_Shard a) (migratedShards (read kv))
      /\ match json_unmarshal (ia_State a) with
         | Some d => KeyValue (read kv') = d ∪ KeyValue (read kv)
                     /\ frozenShards (read kv') = delete (ia_Shard a) (frozenShards (read kv))
                     /\ ir_Err r = OK
         | None => KeyValue (read kv') = KeyValue (read kv)
                   /\ frozenShards (read kv') = frozenShards (read kv) /\ ir_Err r = ErrMaybe
         end).
Proof.
  unfold doInstallShard. intros Hr. set (fresh := x ← _; _) in Hr.
  assert (Hfresh : forall x, fresh = Some x ->
    maxShardNum (read x.1) = <[ia_Shard a := ia_Num a]> (maxShardNum (read kv))
    /\ migratedShards (read x.1) = delete (ia_Shard a) (migratedShards (read kv))
    /\ match json_unmarshal (ia_State a) with
       | Some d => KeyValue (read x.1) = d ∪ KeyValue (read kv)
                   /\ frozenShards (read x.1) = delete (ia_Shard a) (frozenShards (read kv))
                   /\ ir_Err x.2 = OK
       | None => KeyValue (read x.1) = KeyValue (read kv)
                 /\ frozenShards (read x.1) = frozenShards (read kv) /\ ir_Err x.2 = ErrMaybe
       end).
  { subst fresh. intros x Hx. run_write Hx. run_write Hx. destruct (json_unmarshal _).
    - run_write Hx. run_write Hx. simplify_eq/=. by rewrite Hw2, Hw1, Hw0, Hw.
    - simplify_eq/=. by rewrite Hw0, Hw. }
  clearbody fresh. destruct (maxShardNum (read kv) !! ia_Shard a) as [m|] eqn:Hm.
  - go_if_in Hr; [simplify_eq; left; eauto 10|]. go_if_in Hr; [simplify_eq; left; eauto 10|].
    right. split; [intros ? [= <-]; lia|]. by apply (Hfresh (kv', r)).
  - right. split; [done|]. by apply (Hfresh (kv', r)).
Qed.

Lemma doDelete_spec kv a kv' r :
  doDeleteShard kv a = Some (kv', r) ->
  (kv' = kv /\ dr_Err r = ErrMaybe
     /\ exists m, maxShardNum (read kv) !! da_Shard a = Some m /\ da_Num a < m)
  \/ (maxShardNum (read kv) !! da_Shard a = Some (da_Num a) /\ dr_Err r = OK
      /\ read kv' = mkMaps (KeyValue (read kv)) (delete (da_Shard a) (frozenShards (read kv)))
                      (maxShardNum (read kv)) (<[da_Shard a := true]> (migratedShards (read kv))))
  \/ ((forall m, maxShardNum (read kv) !! da_Shard a = Some m -> m < da_Num a) /\ dr_Err r = OK
      /\ read kv' = mkMaps (without_shard (KeyValue (read kv)) (da_Shard a))
                      (delete (da_Shard a) (frozenShards (read kv)))
                      (<[da_Shard a := da_Num a]> (maxShardNum (read kv)))
                      (<[da_Shard a := true]> (migratedShards (read kv)))).
Proof.
  unfold doDeleteShard. intros Hr. set (fresh := x ← _; y ← _; z ← _; _) in Hr.
  assert (Hfresh : forall x, fresh = Some x -> dr_Err x.2 = OK
    /\ read x.1 = mkMaps (without_shard (KeyValue (read kv)) (da_Shard a))
                    (delete (da_Shard a) (frozenShards (read kv)))
                    (<[da_Shard a := da_Num a]> (maxShardNum (read kv)))
                    (<[da_Shard a := true]> (migratedShards (read kv)))).
  { subst fresh. intros x Hx. do 4 run_write Hx. simplify_eq/=. by rewrite Hw2, Hw1, Hw0, Hw. }
  clearbody fresh. destruct (maxShardNum (read kv) !! da_Shard a) as [m|] eqn:Hm.
  - go_if_in Hr; [simplify_eq; left; eauto 10|]. go_if_in Hr.
    + right. left. do 2 run_write Hr. simplify_eq/=. by rewrite Hw0, Hw.
    + right. right. split; [intros ? [= <-]; lia|]. by apply (Hfresh (kv', r)).
  - right. right. split; [done|]. by apply (Hfresh (kv', r)).
Qed.

(** ** Numbers only grow *)

Lemma DoOp_max kv req kv' rep s m :
  DoOp kv req = Some (kv', rep) -> maxShardNum (read kv) !! s = Some m ->
  exists m', maxShardNum (read kv') !! s = Some m' /\ m <= m'.
Proof.
  intros Hr Hm. assert (Hins : forall k n, (forall x, maxShardNum (read kv) !! k = Some x -> x < n) ->
    exists m', <[k := n]> (maxShardNum (read kv)) !! s = Some m' /\ m <= m').
  { intros k n Hn. destruct (decide (k = s)) as [->|Hne].
    - rewrite lookup_insert_eq. specialize (Hn m Hm). eauto with lia.
    - rewrite lookup_insert_ne by done. eauto with lia. }
  destruct req; simpl in Hr; try apply bind_Some in Hr as ([kv1 r] & Hop & Hr); simplify_eq/=;
    try (by eauto with lia).
  1, 2: apply doFreeze_spec in Hop as [[-> _]|(Hn & -> & _)]; simpl; eauto with lia.
  1, 2: apply doInstall_spec in Hop as [[-> _]|(Hn & -> & _)]; simpl; eauto with lia.
  1, 2: apply doDelete_spec in Hop as [(-> & _)|[(Hn & _ & ->)|(Hn & _ & ->)]]; simpl; eauto with lia.
  all: apply doPut_spec in Hop as [[-> _]|(e & -> & _)]; simpl; eauto with lia.
Qed.

Lemma grp_run_max kv reqs kv' s m :
  grp_run kv reqs = Some kv' -> maxShardNum (read kv) !! s = Some m ->
  exists m', maxShardNum (read kv') !! s = Some m' /\ m <= m'.
Proof.
  intros Hr Hm.
  apply (run_steps_ind grp_step
    (fun kv => exists m', maxShardNum (read kv) !! s = Some m' /\ m <= m') (fun _ => True) kv reqs kv');
    [|eauto with lia|by apply Forall_true|done].
  intros kv1 req kv2 (m1 & Hm1 & ?) _ Hs. unfold grp_step in Hs.
  apply fmap_Some in Hs as ([kv3 rep] & Hs & ->).
  destruct (DoOp_max _ _ _ _ _ _ Hs Hm1) as (m2 & Hm2 & ?). simpl. eauto with lia.
Qed.

(** C23.  Fencing: once a group has acted on number [m] for a shard, then whatever it executes
    afterwards, a request to move that shard with a smaller number is answered [ErrMaybe] and
    changes nothing.  A superseded controller cannot disturb a newer one. *)
Theorem stale_moves_are_fenced (kv kv1 kv2 : KVServer) (reqs : list Req) (req : Req) (rep : Rep)
    (s m n : Z) :
  maxShardNum (read kv) !! s = Some m -> grp_run kv reqs = Some kv1 ->
  moves req = Some (s, n) -> n < m -> DoOp kv1 req = Some (kv2, rep) ->
  kv2 = kv1 /\ rep_err rep = ErrMaybe.
Proof.
  intros Hm Hrun Hmv Hlt Hr. destruct (grp_run_max _ _ _ _ _ Hrun Hm) as (m1 & Hm1 & ?).
  destruct req; simplify_eq/=; apply bind_Some in Hr as ([kv3 r] & Hop & Hr); simplify_eq/=.
  1, 2: apply doFreeze_spec in Hop as [(-> & m2 & Hm2 & [[_ ?]|[? _]])|(Hn & _)]; [done|..];
    simplify_eq; [lia|specialize (Hn _ Hm1); lia].
  1, 2: apply doInstall_spec in Hop as [(-> & m2 & Hm2 & [[_ ?]|[? _]])|(Hn & _)]; [done|..];
    simplify_eq; [lia|specialize (Hn _ Hm1); lia].
  1, 2: apply doDelete_spec in Hop as [(-> & ? & _)|[(Hn & _)|(Hn & _)]]; [done|..];
    [simplify_eq; lia|specialize (Hn _ Hm1); lia].
Qed.

(** ** A frozen shard does not change *)

(** Requests that do not move shard [s]: clients' requests, and moves of other shards that
    install entries of their own shard only. *)
Definition leaves_alone s req : Prop :=
  match req with
  | FreezePtr a | FreezeVal a => fa_Shard a <> s
  | InstallPtr a | InstallVal a =>
      ia_Shard a <> s
      /\ forall d, json_unmarshal (ia_State a) = Some d -> map_Forall (fun k _ => Key2Shard k <> s) d
  | DeletePtr a | DeleteVal a => da_Shard a <> s
  | _ => True
  end.

(** What the server knows of shard [s]. *)
Definition shard_view kv s : gmap string ValueEntry * bool * bool * option Z :=
  (shardData (KeyValue (read kv)) s, flagged (frozenShards (read kv)) s,
   flagged (migratedShards (read kv)) s, maxShardNum (read kv) !! s).

Lemma shardData_union d m s :
  map_Forall (fun k _ => Key2Shard k <> s) d -> shardData (d ∪ m) s = shardData m s.
Proof.
  intros Hd. apply map_eq. intros k. apply option_eq. intros e. unfold shardData.
  rewrite !map_lookup_filter_Some. simpl. split; intros [Hk Hs]; (split; [|done]).
  - apply lookup_union_Some_raw in Hk as [Hk|[_ Hk]]; [by apply Hd in Hk|done].
  - apply lookup_union_Some_raw. right. split; [|done].
    destruct (d !! k) eqn:Hdk; [by apply Hd in Hdk|done].
Qed.

Lemma shardData_without m s s' : s <> s' -> shardData (without_shard m s') s = shardData m s.
Proof.
  intros Hne. apply map_eq. intros k. apply option_eq. intros e. unfold shardData, without_shard.
  rewrite !map_lookup_filter_Some. simpl. naive_solver.
Qed.

Lemma shardData_insert m k e s :
  Key2Shard k <> s -> shardData (<[k := e]> m) s = shardData m s.
Proof. intros Hk. unfold shardData. rewrite map_filter_insert_False by done.
  by rewrite map_filter_delete_not. Qed.

Lemma flagged_insert_ne mp s s' b : s <> s' -> flagged (<[s' := b]> mp) s = flagged mp s.
Proof. intros Hne. unfold flagged. by rewrite lookup_insert_ne. Qed.

Lemma flagged_delete_ne mp s s' : s <> s' -> flagged (delete s' mp) s = flagged mp s.
Proof. intros Hne. unfold flagged. by rewrite lookup_delete_ne. Qed.

(** The view of [s] after changing the maps at another shard. *)
Ltac other_shard :=
  simpl; repeat rewrite ?flagged_insert_ne, ?flagged_delete_ne, ?lookup_insert_ne,
    ?shardData_without, ?shardData_union by (done || congruence || eauto); try done.

Lemma DoOp_leaves_alone kv req kv' rep s :
  leaves_alone s req ->
  flagged (frozenShards (read kv)) s = true \/ flagged (migratedShards (read kv)) s = true ->
  DoOp kv req = Some (kv', rep) -> shard_view kv' s = shard_view kv s.
Proof.
  intros Hla Hfl Hr. unfold shard_view.
  destruct req; simpl in Hr, Hla; try apply bind_Some in Hr as ([kv1 r] & Hop & Hr); simplify_eq/=;
    try done.
  1, 2: apply doFreeze_spec in Hop as [[-> _]|(_ & -> & _)]; [done|]; by other_shard.
  1, 2: destruct Hla as [Hne Hd]; apply doInstall_spec in Hop as [[-> _]|(_ & -> & -> & Hrest)]; [done|];
    destruct (json_unmarshal _) as [d|]; destruct Hrest as (-> & -> & _); by other_shard; auto.
  1, 2: apply doDelete_spec in Hop as [(-> & _)|[(_ & _ & ->)|(_ & _ & ->)]]; [done|..]; by other_shard.
  all: apply doPut_spec in Hop as [[-> _]|(e & -> & _ & Hm & Hf)]; [done|]; simpl;
    rewrite shardData_insert; [done|]; intros <-; destruct Hfl; congruence.
Qed.

Lemma grp_run_leaves_alone kv reqs kv' s :
  Forall (leaves_alone s) reqs ->
  flagged (frozenShards (read kv)) s = true \/ flagged (migratedShards (read kv)) s = true ->
  grp_run kv reqs = Some kv' -> shard_view kv' s = shard_view kv s.
Proof.
  intros Hla Hfl Hr.
  apply (run_steps_ind grp_step (fun kv1 => shard_view kv1 s = shard_view kv s) (leaves_alone s)
           kv reqs kv'); try done.
  intros kv1 req kv2 Hv Hq Hs. unfold grp_step in Hs. apply fmap_Some in Hs as ([kv3 rep] & Hs & ->).
  simpl. rewrite <- Hv. eapply DoOp_leaves_alone; [done| |done].
  unfold shard_view in Hv. injection Hv as _ -> -> _. done.
Qed.

Lemma doGet_refused kv k :
  flagged (frozenShards (read kv)) (Key2Shard k) = true
  \/ flagged (migratedShards (read kv)) (Key2Shard k) = true ->
  gr_Err (doGet kv (mkGetArgs k)) = ErrWrongGroup.
Proof.
  intros Hfl. unfold doGet. simpl. destruct (flagged (migratedShards _) _); [done|].
  destruct Hfl as [->|?]; done.
Qed.

(** A key is among the entries of its own shard. *)
Lemma shardData_own (m : gmap string ValueEntry) k : shardData m (Key2Shard k) !! k = m !! k.
Proof.
  unfold shardData. destruct (m !! k) as [e|] eqn:He.
  - by apply map_lookup_filter_Some.
  - apply map_lookup_filter_None. by left.
Qed.

(** The entries of the shard, seen by a client of a group that serves it. *)
Lemma doGet_served kv k :
  flagged (frozenShards (read kv)) (Key2Shard k) = false ->
  flagged (migratedShards (read kv)) (Key2Shard k) = false ->
  doGet kv (mkGetArgs k)
  = match shardData (KeyValue (read kv)) (Key2Shard k) !! k with
    | None => mkGetReply "" 0 ErrNoKey
    | Some e => mkGetReply (ve_Value e) (ve_Version e) OK
    end.
Proof.
  intros Hf Hm. unfold doGet. simpl. by rewrite Hf, Hm, shardData_own.
Qed.

(** The operations a controller sends do not fail on a server that runs. *)
Lemma DoOp_moves_total kv req s n :
  live kv -> moves req = Some (s, n) -> exists kv' rep, DoOp kv req = Some (kv', rep) /\ live kv'.
Proof.
  intros Hl Hm.
  assert (Hw : forall f kv, live kv -> exists kv', write f kv = Some kv' /\ live kv').
  { intros f kv0 Hl0. destruct (write_live f kv0 Hl0) as (kv' & ? & _ & ?). eauto. }
  destruct req; simplify_eq/=; unfold doFreezeShard, doInstallShard, doDeleteShard;
    destruct (maxShardNum _ !! _) as [m|]; repeat (go_if; simpl; eauto);
    repeat match goal with
    | |- context [write ?f ?k] =>
        destruct (Hw f k ltac:(assumption)) as (? & -> & ?); simpl; eauto
    | |- context [json_unmarshal ?x] => destruct (json_unmarshal x); simpl; eauto
    end.
Qed.

(** Installing the entries of a shard replaces that shard, if nothing of it was left over. *)
Lemma shardData_install (m m' : gmap string ValueEntry) s :
  dom (shardData m' s) ⊆ dom (shardData m s) ->
  shardData m s = shardData (shardData m s ∪ m') s.
Proof.
  intros Hdom. apply map_eq. intros k. apply option_eq. intros e.
  unfold shardData at 2. rewrite map_lookup_filter_Some, lookup_union_Some_raw. simpl. split.
  - intros Hk. split; [by left|]. by apply map_lookup_filter_Some in Hk as [_ ?].
  - intros [[Hk|[Hno Hk]] Hs]; [done|]. exfalso.
    apply not_elem_of_dom in Hno. apply Hno, Hdom, elem_of_dom. exists e.
    by apply map_lookup_filter_Some.
Qed.

Lemma lookup_union_other (m m' : gmap string ValueEntry) s k :
  Key2Shard k <> s -> (shardData m s ∪ m') !! k = m' !! k.
Proof.
  intros Hk. apply lookup_union_r. apply map_lookup_filter_None. right. by intros e _.
Qed.

(** [s] is served here, and [n] is newer than everything this group has seen for it. *)
Definition newer kv s n : Prop := forall m, maxShardNum (read kv) !! s = Some m -> m < n.

Definition serves kv s : Prop :=
  flagged (frozenShards (read kv)) s = false /\ flagged (migratedShards (read kv)) s = false.

Lemma freeze_fresh kv s n :
  live kv -> newer kv s n ->
  exists kv1, DoOp kv (FreezeVal (mkFreezeShardArgs s n))
              = Some (kv1, RepFreeze (freeze_reply (KeyValue (read kv)) (mkFreezeShardArgs s n)))
    /\ live kv1
    /\ read kv1 = mkMaps (KeyValue (read kv)) (<[s := true]> (frozenShards (read kv)))
                     (<[s := n]> (maxShardNum (read kv))) (migratedShards (read kv)).
Proof.
  intros Hl Hn. destruct (DoOp_moves_total kv (FreezeVal (mkFreezeShardArgs s n)) s n Hl eq_refl)
    as (kv1 & rep & Hr & Hl1). exists kv1. simpl in Hr.
  apply bind_Some in Hr as ([kv2 r] & Hop & Hr). simplify_eq/=.
  apply doFreeze_spec in Hop as Hsp.
  destruct Hsp as [(-> & m & Hm%Hn & [[? _]|[? _]])|(_ & Hrd & Hrep)]; simpl in *; try lia.
  rewrite Hop. simpl. by rewrite Hrep.
Qed.

Lemma install_fresh kv s n state d :
  live kv -> newer kv s n -> json_unmarshal state = Some d ->
  exists kv1, DoOp kv (InstallVal (mkInstallShardArgs s state n))
              = Some (kv1, RepInstall (mkInstallShardReply OK))
    /\ read kv1 = mkMaps (d ∪ KeyValue (read kv)) (delete s (frozenShards (read kv)))
                     (<[s := n]> (maxShardNum (read kv))) (delete s (migratedShards (read kv))).
Proof.
  intros Hl Hn Hd. destruct (DoOp_moves_total kv (InstallVal (mkInstallShardArgs s state n)) s n Hl eq_refl)
    as (kv1 & rep & Hr & Hl1). exists kv1. simpl in Hr.
  apply bind_Some in Hr as ([kv2 [e]] & Hop & Hr). simplify_eq/=.
  apply doInstall_spec in Hop as Hsp. rewrite Hop. simpl.
  destruct Hsp as [(-> & m & Hm%Hn & [[? _]|[? _]])|(_ & Hmx & Hmg & Hrest)]; simpl in *; try lia.
  rewrite Hd in Hrest. destruct Hrest as (Hkv & Hfr & ->). split; [done|].
  destruct (read kv1). simpl in *. by subst.
Qed.

(** [Delete] right after [Freeze] of the same number, with requests in between. *)
Lemma delete_same kv s n :
  live kv -> maxShardNum (read kv) !! s = Some n ->
  exists kv1, DoOp kv (DeleteVal (mkDeleteShardArgs s n)) = Some (kv1, RepDelete (mkDeleteShardReply OK))
    /\ read kv1 = mkMaps (KeyValue (read kv)) (delete s (frozenShards (read kv)))
                     (maxShardNum (read kv)) (<[s := true]> (migratedShards (read kv))).
Proof.
  intros Hl Hn. destruct (DoOp_moves_total kv (DeleteVal (mkDeleteShardArgs s n)) s n Hl eq_refl)
    as (kv1 & rep & Hr & Hl1). exists kv1. simpl in Hr.
  apply bind_Some in Hr as ([kv2 [e]] & Hop & Hr). simplify_eq/=.
  apply doDelete_spec in Hop as Hsp. rewrite Hop. simpl.
  destruct Hsp as [(-> & _ & m & Hm & ?)|[(_ & He & Hrd)|(Hm & _)]]; simpl in *.
  - simplify_eq. lia.
  - by subst.
  - specialize (Hm n Hn). lia.
Qed.

Lemma grp_run_live kv reqs kv' : live kv -> grp_run kv reqs = Some kv' -> live kv'.
Proof.
  intros Hl Hr.
  apply (run_steps_ind grp_step live (fun _ => True) kv reqs kv'); [|done|by apply Forall_true|done].
  intros kv1 req kv2 Hl1 _ Hs. unfold grp_step in Hs. apply fmap_Some in Hs as ([kv3 rep] & Hs & ->).
  simpl. destruct (moves req) as [[s n]|] eqn:Hm.
  - destruct (DoOp_moves_total kv1 req s n Hl1 Hm) as (kv4 & rep' & Hs' & ?). by simplify_eq.
  - destruct req; simplify_eq/=; try done.
    all: apply bind_Some in Hs as ([kv4 r] & Hp & Hs); simplify_eq/=; unfold doPut, store in Hp.
    all: repeat (go_if_in Hp; [by simplify_eq|]); destruct (KeyValue _ !! _); go_if_in Hp;
      try (by simplify_eq); apply bind_Some in Hp as (kv5 & [_ ?]%write_read & Hp); by simplify_eq.
Qed.

(** C24.  A shard arrives as it left: when a controller freezes shard [s] at the group that
    serves it, lets that group go on with anything that does not move [s], installs the frozen
    state at the new group and deletes the shard at the old one, then the old group refuses
    every request on the shard from the freeze on, the new group answers every [Get] on it
    exactly as the old group did before the freeze, and no other shard is affected at the new
    group. *)
Theorem shard_migration_lossless (src dst src2 : KVServer) (s n : Z) (reqs : list Req) :
  live src -> live dst -> newer src s n -> newer dst s n -> serves src s ->
  map_Forall (fun k e => clean k /\ clean (ve_Value e)) (shardData (KeyValue (read src)) s) ->
  dom (shardData (KeyValue (read dst)) s) ⊆ dom (shardData (KeyValue (read src)) s) ->
  Forall (leaves_alone s) reqs ->
  exists src1 state,
    DoOp src (FreezeVal (mkFreezeShardArgs s n))
    = Some (src1, RepFreeze (mkFreezeShardReply state n OK))
    /\ (grp_run src1 reqs = Some src2 ->
        (forall k, Key2Shard k = s -> gr_Err (doGet src2 (mkGetArgs k)) = ErrWrongGroup)
        /\ exists dst1 src3,
             DoOp dst (InstallVal (mkInstallShardArgs s state n))
             = Some (dst1, RepInstall (mkInstallShardReply OK))
             /\ DoOp src2 (DeleteVal (mkDeleteShardArgs s n))
                = Some (src3, RepDelete (mkDeleteShardReply OK))
             /\ (forall k, Key2Shard k = s ->
                   doGet dst1 (mkGetArgs k) = doGet src (mkGetArgs k)
                   /\ gr_Err (doGet src3 (mkGetArgs k)) = ErrWrongGroup)
             /\ (forall k, Key2Shard k <> s -> doGet dst1 (mkGetArgs k) = doGet dst (mkGetArgs k))).
Proof.
  intros Hls Hld Hns Hnd [Hf Hm] Hclean Hdom Hla.
  destruct (freeze_fresh src s n Hls Hns) as (src1 & Hfr & Hl1 & Hrd1).
  set (d := shardData (KeyValue (read src)) s) in *.
  destruct (json_total (clean:=clean) d) as [state Hst].
  exists src1, state. split.
  { rewrite Hfr. unfold freeze_reply. simpl. fold d. by rewrite Hst. }
  intros Hrun. assert (Hfz : flagged (frozenShards (read src1)) s = true).
  { rewrite Hrd1. simpl. unfold flagged. by rewrite lookup_insert_eq. }
  pose proof (grp_run_leaves_alone src1 reqs src2 s Hla (or_introl Hfz) Hrun) as Hview.
  injection Hview as _ Hfz2 _ Hmx2. rewrite Hfz in Hfz2.
  rewrite Hrd1 in Hmx2. simpl in Hmx2. rewrite lookup_insert_eq in Hmx2.
  split. { intros k Hk. apply doGet_refused. left. by rewrite Hk. }
  destruct (install_fresh dst s n state d Hld Hnd) as (dst1 & Hin & Hrd).
  { by eapply json_roundtrip. }
  destruct (delete_same src2 s n) as (src3 & Hdel & Hrd3).
  { by eapply grp_run_live. }
  { done. }
  exists dst1, src3. split; [done|]. split; [done|]. split.
  - intros k Hk. split.
    + rewrite !doGet_served; rewrite ?Hk, ?Hrd; simpl; try done;
        try (unfold flagged; by rewrite lookup_delete_eq).
      fold d. replace (shardData (d ∪ KeyValue (read dst)) s) with d; [done|].
      by apply shardData_install.
    + apply doGet_refused. right. rewrite Hrd3, Hk. simpl. unfold flagged. by rewrite lookup_insert_eq.
  - intros k Hk. unfold doGet. simpl. rewrite Hrd. simpl. rewrite !flagged_delete_ne by done.
    subst d. by rewrite lookup_union_other.
Qed.
Lemma freeze_twice kv kv1 kv2 a r1 r2 :
  doFreezeShard kv a = Some (kv1, r1) -> doFreezeShard kv1 a = Some (kv2, r2) ->
  read kv2 = read kv1 /\ (fr_Err r1 = OK -> fr_Err r2 = OK)
  /\ (forall r, RepFreeze r1 = RepFreeze r -> serves kv (fa_Shard a) -> RepFreeze r2 = RepFreeze r1).
Proof.
  intros Hop1 Hop2.
  assert (Hdup : kv1 = kv -> r2 = r1 /\ kv2 = kv1).
  { intros ->. rewrite Hop1 in Hop2. by simplify_eq. }
  apply doFreeze_spec in Hop1 as [(-> & _)|(Hn & Hrd & ->)].
  { destruct Hdup as [-> ->]; done. }
  apply doFreeze_spec in Hop2 as [(-> & m & Hm & [[Hlt _]|[_ Hr]])|(Hm & _)];
    rewrite Hrd in *; simpl in *.
  - rewrite lookup_insert_eq in Hm. simplify_eq. lia.
  - split; [done|]. destruct Hr as [[Hmg ->]| ->]; [|done]. split; [done|].
    intros r _ [_ Hs]. congruence.
  - specialize (Hm (fa_Num a)). rewrite lookup_insert_eq in Hm. specialize (Hm eq_refl). lia.
Qed.

Lemma install_twice kv kv1 kv2 a r1 r2 :
  doInstallShard kv a = Some (kv1, r1) -> doInstallShard kv1 a = Some (kv2, r2) ->
  read kv2 = read kv1 /\ (ir_Err r1 = OK -> ir_Err r2 = OK).
Proof.
  intros Hop1 Hop2.
  assert (Hdup : kv1 = kv -> r2 = r1 /\ kv2 = kv1).
  { intros ->. rewrite Hop1 in Hop2. by simplify_eq. }
  apply doInstall_spec in Hop1 as [(-> & _)|(Hn & Hmx & _)].
  { destruct Hdup as [-> ->]; done. }
  apply doInstall_spec in Hop2 as [(-> & m & Hm & [[Hlt _]|[_ Hr]])|(Hm & _)].
  - rewrite Hmx, lookup_insert_eq in Hm. simplify_eq. lia.
  - done.
  - specialize (Hm (ia_Num a)). rewrite Hmx, lookup_insert_eq in Hm. specialize (Hm eq_refl). lia.
Qed.

Lemma delete_twice kv kv1 kv2 a r1 r2 :
  doDeleteShard kv a = Some (kv1, r1) -> doDeleteShard kv1 a = Some (kv2, r2) ->
  read kv2 = read kv1 /\ (dr_Err r1 = OK -> dr_Err r2 = OK).
Proof.
  intros Hop1 Hop2.
  assert (Hdup : kv1 = kv -> r2 = r1 /\ kv2 = kv1).
  { intros ->. rewrite Hop1 in Hop2. by simplify_eq. }
  assert (Hmaps : (exists kvm, read kv1 = mkMaps kvm (delete (da_Shard a) (frozenShards (read kv)))
      (maxShardNum (read kv1)) (<[da_Shard a := true]> (migratedShards (read kv)))
      /\ maxShardNum (read kv1) !! da_Shard a = Some (da_Num a)) \/ kv1 = kv).
  { apply doDelete_spec in Hop1 as [(-> & _)|[(Hn & _ & ->)|(_ & _ & ->)]]; [by right|left..];
      eexists; (split; [done|]); simpl; [done|]. apply lookup_insert_eq. }
  destruct Hmaps as [(kvm & Hrd & Hmx)|Heq]; [|by destruct (Hdup Heq) as [-> ->]].
  apply doDelete_spec in Hop2 as [(-> & _ & m & Hm & ?)|[(_ & -> & Hrd2)|(Hm & _)]].
  - simplify_eq. lia.
  - rewrite Hrd2, Hrd. simpl. by rewrite insert_insert_eq, delete_delete_eq.
  - specialize (Hm _ Hmx). lia.
Qed.

(** Redelivery: executing a move a second time leaves the maps as they are, and a move
    that was answered [OK] is answered [OK] again; a repeated freeze of a shard that has not
    moved on returns the same state. *)
Theorem moves_are_idempotent (kv kv1 kv2 : KVServer) (req : Req) (rep1 rep2 : Rep) (s n : Z) :
  moves req = Some (s, n) -> DoOp kv req = Some (kv1, rep1) -> DoOp kv1 req = Some (kv2, rep2) ->
  read kv2 = read kv1 /\ (rep_err rep1 = OK -> rep_err rep2 = OK)
  /\ (forall r1, rep1 = RepFreeze r1 -> serves kv s -> rep2 = rep1).
Proof.
  intros Hmv Hr1 Hr2. destruct req; simplify_eq/=;
    apply bind_Some in Hr1 as ([kv3 r1] & Hop1 & Hr1); simplify_eq/=;
    apply bind_Some in Hr2 as ([kv4 r2] & Hop2 & Hr2); simplify_eq/=.
  1, 2: by eapply freeze_twice.
  1, 2: split_and!; [eapply install_twice; done|by eapply install_twice|done].
  1, 2: split_and!; [eapply delete_twice; done|by eapply delete_twice|done].
Qed.

(** ** What goes wrong *)

(** The controller freezes and deletes with the same number, so [doDeleteShard] always
    takes the branch for a repeated request: the shard's entries are never removed, although
    the code has a loop that deletes them. *)
Theorem delete_keeps_the_data (kv kv1 kv2 : KVServer) (s n : Z) (rep1 rep2 : Rep) :
  newer kv s n ->
  DoOp kv (FreezeVal (mkFreezeShardArgs s n)) = Some (kv1, rep1) ->
  DoOp kv1 (DeleteVal (mkDeleteShardArgs s n)) = Some (kv2, rep2) ->
  rep_err rep2 = OK /\ KeyValue (read kv2) = KeyValue (read kv).
Proof.
  intros Hn Hr1 Hr2. simpl in *. apply bind_Some in Hr1 as ([kv3 r1] & Hop1 & Hr1). simplify_eq/=.
  apply bind_Some in Hr2 as ([kv4 r2] & Hop2 & Hr2). simplify_eq/=.
  apply doFreeze_spec in Hop1 as [(-> & m & Hm%Hn & [[? _]|[? _]])|(_ & Hrd & _)]; simpl in *; try lia.
  apply doDelete_spec in Hop2 as [(-> & _ & m & Hm & ?)|[(_ & -> & ->)|(Hm & _)]]; simpl in *.
  - rewrite Hrd in Hm. simpl in Hm. rewrite lookup_insert_eq in Hm. simplify_eq. lia.
  - by rewrite Hrd.
  - specialize (Hm n). rewrite Hrd in Hm. simpl in Hm. rewrite lookup_insert_eq in Hm.
    specialize (Hm eq_refl). lia.
Qed.

(** [doInstallShard] records the number before it has decoded the state: a state that
    does not decode is refused with [ErrMaybe], and the correct state that a retry brings with
    the same number is answered [OK] and dropped. *)
Theorem failed_install_blocks_retry (kv kv1 kv2 : KVServer) (s n : Z) (bad good : bytes)
    (rep1 rep2 : Rep) :
  newer kv s n -> json_unmarshal bad = None ->
  DoOp kv (InstallVal (mkInstallShardArgs s bad n)) = Some (kv1, rep1) ->
  DoOp kv1 (InstallVal (mkInstallShardArgs s good n)) = Some (kv2, rep2) ->
  rep_err rep1 = ErrMaybe /\ rep_err rep2 = OK /\ KeyValue (read kv2) = KeyValue (read kv).
Proof.
  intros Hn Hbad Hr1 Hr2. simpl in *. apply bind_Some in Hr1 as ([kv3 r1] & Hop1 & Hr1). simplify_eq/=.
  apply bind_Some in Hr2 as ([kv4 r2] & Hop2 & Hr2). simplify_eq/=.
  apply doInstall_spec in Hop1 as [(-> & m & Hm%Hn & [[? _]|[? _]])|(_ & Hmx & _ & Hrest)]; simpl in *;
    try lia. rewrite Hbad in Hrest. destruct Hrest as (Hkv & _ & ->).
  apply doInstall_spec in Hop2 as [(-> & m & Hm & Hor)|(Hm & _)]; simpl in *.
  - rewrite Hmx, lookup_insert_eq in Hm. simplify_eq. destruct Hor as [[? _]|[_ ->]]; [lia|done].
  - specialize (Hm n). rewrite Hmx, lookup_insert_eq in Hm. specialize (Hm eq_refl). lia.
Qed.
End ShardMove.

(** ** A concrete codec and concrete moves *)

#[export] Instance map_json : Json := {|
  json_marshal m := Some (@gob_encode _ (countable_gob (gmap string ValueEntry)) m);
  json_unmarshal b :=
    if decide (b = empty_object) then Some ∅
    else @gob_decode _ (countable_gob (gmap string ValueEntry)) b;
|}.

Lemma positive_bytes_object p : positive_bytes p <> empty_object.
Proof. by destruct p. Qed.

#[export] Instance map_json_laws : JsonLaws (fun _ => True).
Proof.
  constructor; simpl.
  - intros m. by eexists.
  - intros m b _ [= <-]. rewrite decide_False by apply positive_bytes_object.
    apply (gob_roundtrip (GobLaws:=countable_gob_laws (gmap string ValueEntry))).
  - done.
Qed.

(** Group 1 holds key ["a"]; group 2 is empty. *)
Definition shard_a : Z := Key2Shard "a".

Definition group1 : KVServer :=
  mkKVServer 0 0 1 (Some (mkMaps {["a" := mkValueEntry "v" 3]} ∅ ∅ ∅)).

Definition group2 : KVServer := mkKVServer 0 0 2 (Some no_maps).

Definition frozen1 : KVServer :=
  mkKVServer 0 0 1 (Some (mkMaps {["a" := mkValueEntry "v" 3]} {[shard_a := true]} {[shard_a := 5]} ∅)).

Lemma stale_moves_are_fenced_witness :
  DoOp frozen1 (DeleteVal (mkDeleteShardArgs shard_a 4))
  = Some (frozen1, RepDelete (mkDeleteShardReply ErrMaybe)).
Proof.
  destruct (DoOp frozen1 (DeleteVal (mkDeleteShardArgs shard_a 4))) as [[kv2 rep]|] eqn:E;
    [|vm_compute in E; discriminate E].
  destruct (stale_moves_are_fenced frozen1 frozen1 kv2 [] (DeleteVal (mkDeleteShardArgs shard_a 4))
    rep shard_a 5 4) as [-> _]; [vm_compute; reflexivity|reflexivity|reflexivity|lia|exact E|].
  vm_compute in E. injection E as <-. reflexivity.
Defined.

Lemma shard_migration_lossless_witness :
  exists dst1 state,
    DoOp group2 (InstallVal (mkInstallShardArgs shard_a state 5))
    = Some (dst1, RepInstall (mkInstallShardReply OK))
    /\ doGet dst1 (mkGetArgs "a") = mkGetReply "v" 3 OK.
Proof.
  destruct (shard_migration_lossless group1 group2 frozen1 shard_a 5
              [GetVal (mkGetArgs "a"); PutVal (mkPutArgs "a" "w" 3)]) as (src1 & state & Hfr & Hrest).
  - eexists; reflexivity.
  - eexists; reflexivity.
  - intros m Hm. vm_compute in Hm. discriminate Hm.
  - intros m Hm. vm_compute in Hm. discriminate Hm.
  - split; vm_compute; reflexivity.
  - intros k e _. split; exact I.
  - replace (shardData (KeyValue (read group2)) shard_a) with (∅ : gmap string ValueEntry)
      by (vm_compute; reflexivity).
    rewrite dom_empty. apply empty_subseteq.
  - repeat constructor.
  - destruct Hrest as (_ & dst1 & src3 & Hin & _ & Hget & _).
    + vm_compute in Hfr. injection Hfr as <- _. vm_compute. reflexivity.
    + exists dst1, state. split; [exact Hin|].
      rewrite (proj1 (Hget "a" eq_refl)). vm_compute. reflexivity.
Defined.

Lemma moves_are_idempotent_witness :
  exists kv1 rep1 kv2 rep2,
    DoOp group1 (FreezeVal (mkFreezeShardArgs shard_a 5)) = Some (kv1, rep1)
    /\ DoOp kv1 (FreezeVal (mkFreezeShardArgs shard_a 5)) = Some (kv2, rep2)
    /\ read kv2 = read kv1.
Proof.
  destruct (DoOp group1 (FreezeVal (mkFreezeShardArgs shard_a 5))) as [[kv1 rep1]|] eqn:E1;
    [|vm_compute in E1; discriminate E1].
  destruct (DoOp kv1 (FreezeVal (mkFreezeShardArgs shard_a 5))) as [[kv2 rep2]|] eqn:E2;
    [|vm_compute in E1; injection E1 as <- <-; vm_compute in E2; discriminate E2].
  exists kv1, rep1, kv2, rep2. split; [reflexivity|]. split; [exact E2|].
  exact (proj1 (moves_are_idempotent group1 kv1 kv2 (FreezeVal (mkFreezeShardArgs shard_a 5))
    rep1 rep2 shard_a 5 eq_refl E1 E2)).
Defined.

Lemma delete_keeps_the_data_witness :
  exists kv2 rep2, DoOp frozen1 (DeleteVal (mkDeleteShardArgs shard_a 5)) = Some (kv2, rep2)
    /\ rep_err rep2 = OK /\ KeyValue (read kv2) = {["a" := mkValueEntry "v" 3]}.
Proof.
  destruct (DoOp frozen1 (DeleteVal (mkDeleteShardArgs shard_a 5))) as [[kv2 rep2]|] eqn:E;
    [|vm_compute in E; discriminate E].
  exists kv2, rep2. split; [reflexivity|].
  refine (delete_keeps_the_data group1 frozen1 kv2 shard_a 5 _ rep2 _ _ E).
  - intros m Hm. vm_compute in Hm. discriminate Hm.
  - vm_compute. reflexivity.
Defined.

Lemma failed_install_blocks_retry_witness :
  exists kv1 rep1 kv2 rep2,
    DoOp group2 (InstallVal (mkInstallShardArgs shard_a [] 5)) = Some (kv1, rep1)
    /\ DoOp kv1 (InstallVal (mkInstallShardArgs shard_a empty_object 5)) = Some (kv2, rep2)
    /\ rep_err rep1 = ErrMaybe /\ rep_err rep2 = OK.
Proof.
  destruct (DoOp group2 (InstallVal (mkInstallShardArgs shard_a [] 5))) as [[kv1 rep1]|] eqn:E1;
    [|vm_compute in E1; discriminate E1].
  destruct (DoOp kv1 (InstallVal (mkInstallShardArgs shard_a empty_object 5))) as [[kv2 rep2]|] eqn:E2;
    [|vm_compute in E1; injection E1 as <- <-; vm_compute in E2; discriminate E2].
  exists kv1, rep1, kv2, rep2. split; [reflexivity|]. split; [exact E2|].
  destruct (failed_install_blocks_retry group2 kv1 kv2 shard_a 5 [] empty_object rep1 rep2) as (? & ? & _);
    [|reflexivity|exact E1|exact E2|split; assumption].
  intros m Hm. vm_compute in Hm. discriminate Hm.
Defined.
