(* ===== verification/ShardRsm.v ===== *)
(** * A shard group's server as a replicated service

    [shardgrp/server.go] plugs into [rsm] like the key/value server, but its [Snapshot] and
    [Restore] are stubs: the laws that [Rsm] needs fail, and a server that restarts after Raft
    has trimmed its log comes back empty. *)

From S2P Require Import Prelude Rpc Persister RaftState RaftRpc RaftLeader RaftInv RaftPeer.
From S2P Require Import RaftOps RaftProps KvServer Rsm ShardCfg ShardGrp ShardMove.

Section ShardRsm.
Context `{Json} `{Gob (Persisted (Op ShardGrp.Req))} `{!GobLaws (Persisted (Op ShardGrp.Req))}.

#[export] Instance shard_state_machine
  : StateMachine ShardGrp.KVServer ShardGrp.Req ShardGrp.Rep := {|
  sm_DoOp := ShardGrp.DoOp; sm_Snapshot := ShardGrp.Snapshot; sm_Restore := ShardGrp.Restore |}.

Lemma Snapshot_saves (rf rf' : Raft (Op ShardGrp.Req)) index snap :
  lastIncludedIndex rf < index -> Snapshot rf index snap = Some rf' ->
  lastIncludedIndex rf' = index /\ snapshot (persister rf') = snap /\ peers rf' = peers rf
  /\ me rf' = me rf.
Proof.
  intros Hi Hr. unfold Snapshot in Hr. destruct (Z.leb_spec index (lastIncludedIndex rf)); [lia|].
  apply bind_Some in Hr as (rf1 & Hrf1 & Hr). apply bind_Some in Hr as (l & _ & Hr). injection Hr as <-.
  assert (Hf : peers rf1 = peers rf /\ me rf1 = me rf) by (by run_branches Hrf1).
  destruct Hf as [Hp Hm]. repeat (go_if; simpl; try lia); done.
Qed.

(** A restart loses the group's data: as soon as the log has grown past [maxraftstate],
    applying a command makes Raft drop the log through it and store an empty snapshot.  The
    server that is started again on this disk has no keys and no shard numbers, and Raft will
    not deliver it the commands through that index again. *)
Theorem restart_loses_shard_data (r r' : RSM ShardGrp.KVServer ShardGrp.Req ShardGrp.Rep)
    (op : Op ShardGrp.Req) (index term g : Z) :
  raft_wf (rsm_rf r) -> lastIncludedIndex (rsm_rf r) < index ->
  maxraftstate r <> -1 -> maxraftstate r < PersistBytes (rsm_rf r) ->
  reader_step r (CommandMsg (Some op) index term) = Some r' ->
  let again := MakeRSM (Rep:=ShardGrp.Rep) (peers (rsm_rf r')) (me (rsm_rf r'))
                 (persister (rsm_rf r')) (maxraftstate r) (ShardGrp.Start_alloc g (rsm_me r)) in
  ShardGrp.read (ShardGrp.Start_init (sm again)) = ShardGrp.no_maps
  /\ lastApplied (rsm_rf again) = index.
Proof.
  intros Hwf Hi Hmax Hpb Hr again. simpl in Hr. apply bind_Some in Hr as ([s x] & _ & Hr).
  apply bind_Some in Hr as (r1 & Ht & Hr).
  assert (Hrf : rsm_rf r' = rsm_rf r1).
  { destruct (waitChs r1 !! index); [|by simplify_eq]. apply bind_Some in Hr as (l & _ & Hr).
    by simplify_eq. }
  unfold trySnapShot in Ht. simpl in Ht.
  destruct (Z.eqb_spec (maxraftstate r) (-1)); [done|].
  destruct (Z.ltb_spec (maxraftstate r) (PersistBytes (rsm_rf r))); [|lia].
  apply bind_Some in Ht as (rf & Hs & Ht). injection Ht as <-. simpl in Hrf.
  destruct (Snapshot_wf (rsm_rf r) index (ShardGrp.Snapshot s) Hwf) as (rf1 & Hs1 & Hwf1).
  destruct (Snapshot_saves _ _ _ _ Hi Hs) as (Hli & Hsn & _). rewrite Hs in Hs1. injection Hs1 as <-.
  subst again. unfold MakeRSM. rewrite Hrf.
  split.
  - unfold SnapshotSize. rewrite Hsn. done.
  - destruct (Make_frame (peers rf) (me rf) (persister rf)) as (_ & _ & _ & _ & _ & Ha & _).
    unfold rsm_rf. rewrite Ha.
    pose proof (Make_persisted rf (peers rf) (me rf) (wf_durable _ Hwf1)) as Hp.
    apply (f_equal ps_lastIncludedIndex) in Hp. unfold persisted_of in Hp.
    cbn [ps_lastIncludedIndex] in Hp. by rewrite Hp.
Qed.
End ShardRsm.

(** ** A concrete instance *)

#[export] Instance byte_countable : Countable Byte.byte.
Proof. refine (inj_countable Byte.to_N Byte.of_N _). apply Byte.of_to_N. Defined.

#[export] Instance Freeze_eq_dec : EqDecision ShardGrp.FreezeShardArgs.
Proof. solve_decision. Defined.

#[export] Instance Install_eq_dec : EqDecision ShardGrp.InstallShardArgs.
Proof. solve_decision. Defined.

#[export] Instance Delete_eq_dec : EqDecision ShardGrp.DeleteShardArgs.
Proof. solve_decision. Defined.

#[export] Instance ShardReq_eq_dec : EqDecision ShardGrp.Req.
Proof. solve_decision. Defined.

(** A request as its kind and its fields. *)
Definition req_code (r : ShardGrp.Req) : nat * (Z * Z * bytes) * (string * string) :=
  match r with
  | ShardGrp.FreezePtr a => (0%nat, (ShardGrp.fa_Shard a, ShardGrp.fa_Num a, []), (""%string, ""%string))
  | ShardGrp.FreezeVal a => (1%nat, (ShardGrp.fa_Shard a, ShardGrp.fa_Num a, []), (""%string, ""%string))
  | ShardGrp.InstallPtr a =>
      (2%nat, (ShardGrp.ia_Shard a, ShardGrp.ia_Num a, ShardGrp.ia_State a), (""%string, ""%string))
  | ShardGrp.InstallVal a =>
      (3%nat, (ShardGrp.ia_Shard a, ShardGrp.ia_Num a, ShardGrp.ia_State a), (""%string, ""%string))
  | ShardGrp.DeletePtr a => (4%nat, (ShardGrp.da_Shard a, ShardGrp.da_Num a, []), (""%string, ""%string))
  | ShardGrp.DeleteVal a => (5%nat, (ShardGrp.da_Shard a, ShardGrp.da_Num a, []), (""%string, ""%string))
  | ShardGrp.GetPtr a => (6%nat, (0, 0, []), (ga_Key a, ""%string))
  | ShardGrp.PutPtr a => (7%nat, (pa_Version a, 0, []), (pa_Key a, pa_Value a))
  | ShardGrp.GetVal a => (8%nat, (0, 0, []), (ga_Key a, ""%string))
  | ShardGrp.PutVal a => (9%nat, (pa_Version a, 0, []), (pa_Key a, pa_Value a))
  | ShardGrp.OtherReq => (10%nat, (0, 0, []), (""%string, ""%string))
  end.

Definition code_req (c : nat * (Z * Z * bytes) * (string * string)) : ShardGrp.Req :=
  let '(t, (x, y, b), (k, v)) := c in
  match t with
  | 0%nat => ShardGrp.FreezePtr (ShardGrp.mkFreezeShardArgs x y)
  | 1%nat => ShardGrp.FreezeVal (ShardGrp.mkFreezeShardArgs x y)
  | 2%nat => ShardGrp.InstallPtr (ShardGrp.mkInstallShardArgs x b y)
  | 3%nat => ShardGrp.InstallVal (ShardGrp.mkInstallShardArgs x b y)
  | 4%nat => ShardGrp.DeletePtr (ShardGrp.mkDeleteShardArgs x y)
  | 5%nat => ShardGrp.DeleteVal (ShardGrp.mkDeleteShardArgs x y)
  | 6%nat => ShardGrp.GetPtr (mkGetArgs k)
  | 7%nat => ShardGrp.PutPtr (mkPutArgs k v x)
  | 8%nat => ShardGrp.GetVal (mkGetArgs k)
  | 9%nat => ShardGrp.PutVal (mkPutArgs k v x)
  | _ => ShardGrp.OtherReq
  end.

#[export] Instance ShardReq_countable : Countable ShardGrp.Req.
Proof. refine (inj_countable' req_code code_req _). by intros [[]|[]|[]|[]|[]|[]|[]|[]|[]|[]|]. Defined.

#[export] Instance ShardOp_eq_dec : EqDecision (Op ShardGrp.Req).
Proof. solve_decision. Defined.

#[export] Instance ShardOp_countable : Countable (Op ShardGrp.Req).
Proof.
  refine (inj_countable' (fun o => (op_Me o, op_Id o, op_Req o))
                         (fun '(m, i, r) => mkOp m i r) _).
  by intros [].
Defined.

#[export] Instance shard_op_gob : Gob (Persisted (Op ShardGrp.Req)) :=
  countable_gob (Persisted (Op ShardGrp.Req)).
#[export] Instance shard_op_gob_laws : GobLaws (Persisted (Op ShardGrp.Req)) :=
  countable_gob_laws (Persisted (Op ShardGrp.Req)).

(** A follower of group 1 that has received a [Put] of key ["a"] as entry 1. *)
Definition put_a : Op ShardGrp.Req := mkOp 0 0 (ShardGrp.PutVal (mkPutArgs "a" "v" 0)).

Definition follower : RSM ShardGrp.KVServer ShardGrp.Req ShardGrp.Rep :=
  let r := MakeRSM [0; 1; 2] 0 MakePersister 10 (ShardGrp.Start_init (ShardGrp.Start_alloc 1 0)) in
  set_rf (default (rsm_rf r)
    (run_op (rsm_rf r) (OpAppendEntries (mkAppendEntriesArgs 1 1 0 0 1 [mkEntry 1 (Some put_a)])))) r.

Lemma follower_wf : raft_wf (rsm_rf follower).
Proof.
  assert (Hm : raft_wf (Make (Cmd:=Op ShardGrp.Req) [0; 1; 2] 0 MakePersister)).
  { apply Make_fresh_wf. vm_compute. split; [discriminate|reflexivity]. }
  destruct (run_op_wf _ (OpAppendEntries (mkAppendEntriesArgs 1 1 0 0 1 [mkEntry 1 (Some put_a)])) Hm)
    as (rf & Hr & Hwf); [simpl; lia|].
  unfold follower. cbn [rsm_rf set_rf MakeRSM]. by rewrite Hr.
Qed.

Lemma restart_loses_shard_data_witness :
  exists r', reader_step follower (CommandMsg (Some put_a) 1 1) = Some r'
    /\ ShardGrp.doGet (sm r') (mkGetArgs "a") = mkGetReply "v" 1 OK
    /\ ShardGrp.doGet
         (ShardGrp.Start_init (sm (MakeRSM (Rep:=ShardGrp.Rep) (peers (rsm_rf r')) (me (rsm_rf r'))
            (persister (rsm_rf r')) 10 (ShardGrp.Start_alloc 1 0)))) (mkGetArgs "a")
       = mkGetReply "" 0 ErrNoKey.
Proof.
  destruct (reader_step follower (CommandMsg (Some put_a) 1 1)) as [r'|] eqn:E;
    [|vm_compute in E; discriminate E].
  exists r'. split; [reflexivity|]. split; [vm_compute in E; injection E as <-; vm_compute; reflexivity|].
  destruct (restart_loses_shard_data follower r' put_a 1 1 1 follower_wf) as [Hm _];
    [vm_compute; reflexivity|discriminate|vm_compute; reflexivity|exact E|].
  unfold ShardGrp.doGet. change (maxraftstate follower) with 10 in Hm.
  change (rsm_me follower) with 0 in Hm. rewrite Hm. reflexivity.
Defined.
