(* ===== verification/ShardCtrler.v ===== *)
(** * The shard controller and the sharded clerk

    [lec-2025/src/shardkv1/shardctrler/shardctrler.go], [shardkv1/shardgrp/client.go] and
    [shardkv1/client.go].  The controller keeps the configurations in a key/value store, which
    it reaches through the interface [IKVClerk], and moves shards through the clerks of the
    groups, the class [IShardGrp]; both act on a world [W].  An operation is [None] when it
    does not return: a [log.Fatalf], a panic, or a clerk that retries for ever. *)

From S2P Require Import Prelude Rpc Persister KvServer KvClerk ShardCfg ShardGrp.

(** What the clerk of a group, made for its [servers], offers to the controller and the
    sharded clerk. *)
Class IShardGrp (W : Type) := {
  grp_Get : W -> list string -> string -> option (W * (string * Tversion * Err));
  grp_Put : W -> list string -> string -> string -> Tversion -> option (W * Err);
  grp_FreezeShard : W -> list string -> Z -> Z -> option (W * (bytes * Err));
  grp_InstallShard : W -> list string -> Z -> bytes -> Z -> option (W * Err);
  grp_DeleteShard : W -> list string -> Z -> Z -> option (W * Err);
}.

(** [cfg.String()] and [FromString], whose JSON is a parameter; [None] is [log.Fatalf]. *)
Class CfgJson := {
  cfg_String : ShardConfig -> string;
  cfg_FromString : string -> option ShardConfig;
}.

(** The contract of [encoding/json] for a configuration. *)
Class CfgJsonLaws `{CfgJson} : Prop := {
  cfg_roundtrip : forall c, cfg_FromString (cfg_String c) = Some c;
}.

(** ** The clerk of one group: [shardgrp/client.go] *)

Module GrpClerk.
Section Loops.
Context {W : Type}.
Context (CallGet : W -> string -> GetArgs -> W * option GetReply).
Context (CallPut : W -> string -> PutArgs -> W * option PutReply).
Context (CallFreeze : W -> string -> ShardGrp.FreezeShardArgs -> W * option ShardGrp.FreezeShardReply).
Context (CallInstall : W -> string -> ShardGrp.InstallShardArgs -> W * option ShardGrp.InstallShardReply).
Context (CallDelete : W -> string -> ShardGrp.DeleteShardArgs -> W * option ShardGrp.DeleteShardReply).

Fixpoint Get_loop (fuel : nat) (w : W) (ck : Clerk) (args : GetArgs) (i : Z)
    : option (W * Clerk * (string * Tversion * Err)) :=
  match fuel with
  | O => None
  | S fuel =>
      srv ← slice_get (servers ck) i;
      let retry w := Get_loop fuel w ck args (Z.rem (i + 1) (zlen (servers ck))) in
      match CallGet w srv args with
      | (w, Some reply) =>
          if negb (bool_decide (gr_Err reply = ErrWrongLeader)) then
            Some (w, set_lastLeader i ck, (gr_Value reply, gr_Version reply, gr_Err reply))
          else retry w
      | (w, None) => retry w
      end
  end.

Definition Get (fuel : nat) (w : W) (ck : Clerk) (key : string) :=
  Get_loop fuel w ck (mkGetArgs key) (first_server ck).

(** Lines 63 to 86; [retryCount] is only printed. *)
Fixpoint Put_loop (fuel : nat) (w : W) (ck : Clerk) (args : PutArgs) (i : Z) (isResend : bool)
    : option (W * Clerk * Err) :=
  match fuel with
  | O => None
  | S fuel =>
      srv ← slice_get (servers ck) i;
      let retry w := Put_loop fuel w ck args (Z.rem (i + 1) (zlen (servers ck))) true in
      match CallPut w srv args with
      | (w, Some reply) =>
          if negb (bool_decide (pr_Err reply = ErrWrongLeader)) then
            let err := if isResend && bool_decide (pr_Err reply = ErrVersion) then ErrMaybe
                       else pr_Err reply in
            Some (w, set_lastLeader i ck, err)
          else retry w
      | (w, None) => retry w
      end
  end.

Definition Put (fuel : nat) (w : W) (ck : Clerk) (key value : string) (version : Tversion) :=
  Put_loop fuel w ck (mkPutArgs key value version) (first_server ck) false.

(** The three loops that move a shard go on until a server answers [OK]. *)
Fixpoint FreezeShard_loop (fuel : nat) (w : W) (ck : Clerk) (args : ShardGrp.FreezeShardArgs) (i : Z)
    : option (W * Clerk * (bytes * Err)) :=
  match fuel with
  | O => None
  | S fuel =>
      srv ← slice_get (servers ck) i;
      let retry w := FreezeShard_loop fuel w ck args (Z.rem (i + 1) (zlen (servers ck))) in
      match CallFreeze w srv args with
      | (w, Some reply) =>
          if bool_decide (ShardGrp.fr_Err reply = OK) then
            Some (w, set_lastLeader i ck, (ShardGrp.fr_State reply, ShardGrp.fr_Err reply))
          else retry w
      | (w, None) => retry w
      end
  end.

Definition FreezeShard (fuel : nat) (w : W) (ck : Clerk) (s num : Z) :=
  FreezeShard_loop fuel w ck (ShardGrp.mkFreezeShardArgs s num) (first_server ck).

Fixpoint InstallShard_loop (fuel : nat) (w : W) (ck : Clerk) (args : ShardGrp.InstallShardArgs) (i : Z)
    : option (W * Clerk * Err) :=
  match fuel with
  | O => None
  | S fuel =>
      srv ← slice_get (servers ck) i;
      let retry w := InstallShard_loop fuel w ck args (Z.rem (i + 1) (zlen (servers ck))) in
      match CallInstall w srv args with
      | (w, Some reply) =>
          if bool_decide (ShardGrp.ir_Err reply = OK) then
            Some (w, set_lastLeader i ck, ShardGrp.ir_Err reply)
          else retry w
      | (w, None) => retry w
      end
  end.

Definition InstallShard (fuel : nat) (w : W) (ck : Clerk) (s : Z) (state : bytes) (num : Z) :=
  InstallShard_loop fuel w ck (ShardGrp.mkInstallShardArgs s state num) (first_server ck).

Fixpoint DeleteShard_loop (fuel : nat) (w : W) (ck : Clerk) (args : ShardGrp.DeleteShardArgs) (i : Z)
    : option (W * Clerk * Err) :=
  match fuel with
  | O => None
  | S fuel =>
      srv ← slice_get (servers ck) i;
      let retry w := DeleteShard_loop fuel w ck args (Z.rem (i + 1) (zlen (servers ck))) in
      match CallDelete w srv args with
      | (w, Some reply) =>
          if bool_decide (ShardGrp.dr_Err reply = OK) then
            Some (w, set_lastLeader i ck, ShardGrp.dr_Err reply)
          else retry w
      | (w, None) => retry w
      end
  end.

Definition DeleteShard (fuel : nat) (w : W) (ck : Clerk) (s num : Z) :=
  DeleteShard_loop fuel w ck (ShardGrp.mkDeleteShardArgs s num) (first_server ck).
End Loops.
End GrpClerk.

(** ** The controller *)

Module Ctrler.
Section Ctrler.
Context {W : Type} `{IKVClerk W} `{IShardGrp W} `{CfgJson}.

Definition config_key (num : Z) : string := "config-" +:+ Sprint num.

(** The inner [None] is a nil configuration. *)
Definition Query (w : W) : option (W * option ShardConfig) :=
  '(w, (latestVer, _, err)) ← ck_Get w "latest";
  if negb (bool_decide (err = OK)) then Some (w, None)
  else
    '(w, (configValue, _, err)) ← ck_Get w ("config-" +:+ latestVer);
    if negb (bool_decide (err = OK)) then Some (w, None)
    else cfg ← cfg_FromString configValue; Some (w, Some cfg).

(** Indexing a nil configuration panics; a nil slice is empty. *)
Definition getServersForGroup (w : W) (gid : Z) : option (W * list string) :=
  '(w, ocfg) ← Query w;
  cfg ← ocfg;
  Some (w, default [] (Groups cfg !! gid)).

(** Lines 262 to 294: freeze, install, delete. *)
Definition move_shard_data (w : W) (fromGid toGid shard num : Z) (new : ShardConfig) : option W :=
  '(w, servers) ← getServersForGroup w fromGid;
  '(w, (state, err)) ← grp_FreezeShard w servers shard num;
  if negb (bool_decide (err = OK)) then None
  else
    toServers ← Groups new !! toGid;
    '(w, err) ← grp_InstallShard w toServers shard state num;
    if negb (bool_decide (err = OK)) then None
    else
      '(w, err) ← grp_DeleteShard w servers shard num;
      if negb (bool_decide (err = OK)) then None else Some w.

Definition migrateShard (w : W) (fromGid toGid shard num : Z) (new : ShardConfig) : option W :=
  '(w, currentCfg) ← Query w;
  match currentCfg with
  | Some cfg =>
      currentGid ← slice_get (Shards cfg) shard;
      if negb (currentGid =? fromGid) then Some w
      else move_shard_data w fromGid toGid shard num new
  | None => move_shard_data w fromGid toGid shard num new
  end.

Definition removeShard (w : W) (gid shard num : Z) : option W :=
  '(w, servers) ← getServersForGroup w gid;
  '(w, err) ← grp_DeleteShard w servers shard num;
  if negb (bool_decide (err = OK)) then None else Some w.

(** The body of the loops of lines 104 to 123 and 212 to 234. *)
Definition change_shard (old new : ShardConfig) (w : W) (shard : Z) : option W :=
  oldGid ← slice_get (Shards old) shard;
  newGid ← slice_get (Shards new) shard;
  if oldGid =? newGid then Some w
  else if negb (oldGid =? 0) && negb (newGid =? 0) then
    migrateShard w oldGid newGid shard (Num new) new
  else if negb (oldGid =? 0) then removeShard w oldGid shard (Num new)
  else Some w.

(** [0, 1, ..., NShards - 1]. *)
Definition all_shards : list Z := Z.of_nat <$> seq 0 (Z.to_nat NShards).

Definition InitConfig (w : W) (cfg : ShardConfig) : option W :=
  '(w, _) ← ck_Put w (config_key (Num cfg)) (cfg_String cfg) 0;
  '(w, _) ← ck_Put w "latest" (Sprint (Num cfg)) 0;
  Some w.

Definition ChangeConfigTo (w : W) (new : ShardConfig) : option W :=
  '(w, oold) ← Query w;
  match oold with
  | None => Some w
  | Some old =>
      if Num new <=? Num old then Some w
      else
        '(w, err) ← ck_Put w (config_key (Num new)) (cfg_String new) 0;
        if negb (bool_decide (err = OK)) && negb (bool_decide (err = ErrMaybe)) then Some w
        else
          '(w, (latestVer, latestVersion, _)) ← ck_Get w "latest";
          '(w, (latestVer2, _, _)) ← ck_Get w "latest";
          if negb (bool_decide (latestVer2 = latestVer)) && (Num new <=? Atoi latestVer2) then Some w
          else if Num new <=? Atoi latestVer2 then Some w
          else
            w ← run_steps (change_shard old new) w all_shards;
            '(w, _) ← ck_Put w "latest" (Sprint (Num new)) latestVersion;
            Some w
  end.

(** Lines 64 to 77, from [i], for at most [n] candidates: the last configuration of an
    unbroken sequence that exists. *)
Fixpoint probe (n : nat) (w : W) (latestNum i : Z) (found : Z * string) : option (W * (Z * string)) :=
  match n with
  | O => Some (w, found)
  | S n =>
      let candidateNum := latestNum + i in
      '(w, (value, _, err)) ← ck_Get w (config_key candidateNum);
      if bool_decide (err = OK) then probe n w latestNum (i + 1) (candidateNum, value)
      else Some (w, found)
  end.

Definition InitController (w : W) : option W :=
  '(w, (latestVer, _, err)) ← ck_Get w "latest";
  if negb (bool_decide (err = OK)) then Some w
  else
    '(w, (nextNum, nextConfigValue)) ← probe 100 w (Atoi latestVer) 1 (0, ""%string);
    if nextNum =? 0 then Some w
    else
      newCfg ← cfg_FromString nextConfigValue;
      '(w, oldCfg) ← Query w;
      match oldCfg with
      | None => Some w
      | Some oldCfg =>
          '(w, (_, latestVersion, _)) ← ck_Get w "latest";
          w ← run_steps (change_shard oldCfg newCfg) w all_shards;
          '(w, _) ← ck_Put w "latest" (Sprint nextNum) latestVersion;
          Some w
      end.
End Ctrler.
End Ctrler.

(** ** The sharded clerk: [shardkv1/client.go] *)

Module ShardClerk.
Section ShardClerk.
Context {W : Type} `{IKVClerk W} `{IShardGrp W} `{CfgJson}.

(** The servers the clerk contacts; a nil configuration panics, an unknown group has none. *)
Definition locate (w : W) (key : string) : option (W * list string) :=
  '(w, ocfg) ← Ctrler.Query w;
  cfg ← ocfg;
  gid ← slice_get (Shards cfg) (Key2Shard key);
  Some (w, default [] (Groups cfg !! gid)).

Fixpoint Get (fuel : nat) (w : W) (key : string) : option (W * (string * Tversion * Err)) :=
  match fuel with
  | O => None
  | S fuel =>
      '(w, servers) ← locate w key;
      '(w, (value, version, err)) ← grp_Get w servers key;
      if bool_decide (err = ErrWrongGroup) then Get fuel w key
      else Some (w, (value, version, err))
  end.

Fixpoint Put (fuel : nat) (w : W) (key value : string) (version : Tversion) : option (W * Err) :=
  match fuel with
  | O => None
  | S fuel =>
      '(w, servers) ← locate w key;
      '(w, err) ← grp_Put w servers key value version;
      if bool_decide (err = ErrWrongGroup) then Put fuel w key value version
      else Some (w, err)
  end.
End ShardClerk.
End ShardClerk.
