(* ===== verification/ShardWorld.v ===== *)
(** * Reconfiguring a running sharded store

    The controller, the groups and the sharded clerk together.  In [ShardWorld] the calls do
    not fail: the controller's store and each group are the state machines of [KvServer] and
    [ShardGrp], and the interfaces [IKVClerk] and [IShardGrp] are discharged by them. *)

From S2P Require Import Prelude Rpc Persister KvServer KvClerk ShardCfg ShardGrp ShardMove.
From S2P Require Import ShardCtrler.

Record ShardWorld := mkShardWorld {
  sw_ctl : KVServer.KVServer;
  sw_grps : gmap (list string) ShardGrp.KVServer }.

Section World.
Context `{Json}.

#[export] Instance world_clerk : IKVClerk ShardWorld := {|
  ck_Get w k :=
    '(kv, rep) ← KVServer.DoOp (sw_ctl w) (KVServer.GetVal (mkGetArgs k));
    let r := KVServer.Get OK (Some rep) in
    Some (mkShardWorld kv (sw_grps w), (gr_Value r, gr_Version r, gr_Err r));
  ck_Put w k v n :=
    '(kv, rep) ← KVServer.DoOp (sw_ctl w) (KVServer.PutVal (mkPutArgs k v n));
    Some (mkShardWorld kv (sw_grps w), pr_Err (KVServer.Put OK (Some rep)));
|}.

(** One request to the group of [servers]. *)
Definition at_group (w : ShardWorld) (srvs : list string) (req : ShardGrp.Req)
    : option (ShardWorld * ShardGrp.Rep) :=
  g ← sw_grps w !! srvs;
  '(g, rep) ← ShardGrp.DoOp g req;
  Some (mkShardWorld (sw_ctl w) (<[srvs := g]> (sw_grps w)), rep).

(** A move that is not answered [OK] is retried for ever. *)
#[export] Instance world_groups : IShardGrp ShardWorld := {|
  grp_Get w srvs k :=
    '(w, rep) ← at_group w srvs (ShardGrp.GetVal (mkGetArgs k));
    let r := ShardGrp.Get OK (Some rep) in Some (w, (gr_Value r, gr_Version r, gr_Err r));
  grp_Put w srvs k v n :=
    '(w, rep) ← at_group w srvs (ShardGrp.PutVal (mkPutArgs k v n));
    Some (w, pr_Err (ShardGrp.Put OK (Some rep)));
  grp_FreezeShard w srvs s n :=
    '(w, rep) ← at_group w srvs (ShardGrp.FreezeVal (ShardGrp.mkFreezeShardArgs s n));
    let r := ShardGrp.FreezeShard OK (Some rep) in
    if bool_decide (ShardGrp.fr_Err r = OK) then Some (w, (ShardGrp.fr_State r, OK)) else None;
  grp_InstallShard w srvs s state n :=
    '(w, rep) ← at_group w srvs (ShardGrp.InstallVal (ShardGrp.mkInstallShardArgs s state n));
    if bool_decide (ShardGrp.ir_Err (ShardGrp.InstallShard OK (Some rep)) = OK)
    then Some (w, OK) else None;
  grp_DeleteShard w srvs s n :=
    '(w, rep) ← at_group w srvs (ShardGrp.DeleteVal (ShardGrp.mkDeleteShardArgs s n));
    if bool_decide (ShardGrp.dr_Err (ShardGrp.DeleteShard OK (Some rep)) = OK)
    then Some (w, OK) else None;
|}.
End World.

Section Reconfigure.
Context `{Json} {clean : string -> Prop} `{!JsonLaws clean} `{CfgJson} `{!CfgJsonLaws}.
Implicit Types (w : ShardWorld) (g : ShardGrp.KVServer) (s n : Z).
Abbreviation data := (gmap string ValueEntry).

(** The group serves shard [s] with the entries [d]. *)
Definition holds g s (d : data) : Prop :=
  serves g s /\ ShardGrp.shardData (ShardGrp.KeyValue (ShardGrp.read g)) s = d.

Definition same_but s g g' : Prop := forall s', s' <> s -> shard_view g' s' = shard_view g s'.

(** The three requests of a migration, on the two servers. *)
Lemma migrate_groups g1 g2 s n d :
  live g1 -> live g2 -> newer g1 s n -> newer g2 s n -> holds g1 s d ->
  map_Forall (fun k e => clean k /\ clean (ve_Value e)) d ->
  dom (ShardGrp.shardData (ShardGrp.KeyValue (ShardGrp.read g2)) s) ⊆ dom d ->
  exists g1' g1'' g2' state,
    ShardGrp.DoOp g1 (ShardGrp.FreezeVal (ShardGrp.mkFreezeShardArgs s n))
      = Some (g1', ShardGrp.RepFreeze (ShardGrp.mkFreezeShardReply state n OK))
    /\ ShardGrp.DoOp g2 (ShardGrp.InstallVal (ShardGrp.mkInstallShardArgs s state n))
      = Some (g2', ShardGrp.RepInstall (ShardGrp.mkInstallShardReply OK))
    /\ ShardGrp.DoOp g1' (ShardGrp.DeleteVal (ShardGrp.mkDeleteShardArgs s n))
      = Some (g1'', ShardGrp.RepDelete (ShardGrp.mkDeleteShardReply OK))
    /\ live g1'' /\ live g2' /\ holds g2' s d /\ same_but s g1 g1'' /\ same_but s g2 g2'
    /\ ShardGrp.shardData (ShardGrp.KeyValue (ShardGrp.read g1'')) s = d
    /\ ShardGrp.maxShardNum (ShardGrp.read g1'') !! s = Some n
    /\ ShardGrp.maxShardNum (ShardGrp.read g2') !! s = Some n.
Proof.
  intros Hl1 Hl2 Hn1 Hn2 [Hsv Hd] Hclean Hdom.
  destruct (freeze_fresh g1 s n Hl1 Hn1) as (g1' & Hfr & Hl1' & Hrd1).
  destruct (json_total (clean:=clean) d) as [state Hst].
  destruct (install_fresh g2 s n state d Hl2 Hn2) as (g2' & Hin & Hrd2); [by eapply json_roundtrip|].
  destruct (delete_same g1' s n Hl1') as (g1'' & Hdel & Hrd1'').
  { rewrite Hrd1. simpl. apply lookup_insert_eq. }
  exists g1', g1'', g2', state. rewrite Hfr. unfold ShardGrp.freeze_reply. simpl.
  rewrite Hd, Hst. split; [done|]. split; [exact Hin|]. split; [exact Hdel|].
  assert (Hlive : forall g' req g'' rep, live g' -> moves req <> None ->
            ShardGrp.DoOp g' req = Some (g'', rep) -> live g'').
  { intros g' req g'' rep Hl Hm Hr. destruct (moves req) as [[s' n']|] eqn:E; [|done].
    destruct (DoOp_moves_total g' req s' n' Hl E) as (x & y & Hr' & ?). congruence. }
  split; [by eapply (Hlive g1'); [| |exact Hdel]|]. split; [by eapply (Hlive g2); [| |exact Hin]|].
  split_and!.
  - unfold holds, serves. rewrite Hrd2. simpl. unfold ShardGrp.flagged. rewrite !lookup_delete_eq.
    split; [done|]. rewrite <- Hd. symmetry. apply shardData_install. by rewrite Hd.
  - intros s' Hne. unfold shard_view. rewrite Hrd1'', Hrd1. simpl.
    rewrite flagged_delete_ne, !flagged_insert_ne, lookup_insert_ne by done. done.
  - intros s' Hne. unfold shard_view. rewrite Hrd2. simpl.
    rewrite !flagged_delete_ne, lookup_insert_ne by done.
    rewrite shardData_union; [done|]. rewrite <- Hd. intros k e Hk.
    apply map_lookup_filter_Some in Hk as [_ Hk]. simpl in Hk. congruence.
  - by rewrite Hrd1'', Hrd1.
  - rewrite Hrd1'', Hrd1. simpl. apply lookup_insert_eq.
  - rewrite Hrd2. simpl. apply lookup_insert_eq.
Qed.

(** ** The world during a reconfiguration *)

(** [D s] are the entries of shard [s]; [i] shards have been moved already.  [srv_of] gives the
    servers of a group. *)
Record mid (old new : ShardConfig) (D : Z -> data) (i : Z) w : Prop := {
  mid_new : forall s gid, 0 <= s < i -> slice_get (Shards new) s = Some gid ->
    exists srvs g, Groups new !! gid = Some srvs /\ sw_grps w !! srvs = Some g /\ holds g s (D s);
  mid_old : forall s gid, i <= s < NShards -> slice_get (Shards old) s = Some gid ->
    exists srvs g, Groups old !! gid = Some srvs /\ sw_grps w !! srvs = Some g /\ holds g s (D s);
  mid_groups : forall srvs g, sw_grps w !! srvs = Some g -> live g /\
    forall s, dom (ShardGrp.shardData (ShardGrp.KeyValue (ShardGrp.read g)) s) ⊆ dom (D s)
      /\ (forall m, ShardGrp.maxShardNum (ShardGrp.read g) !! s = Some m ->
            m <= Num new /\ (i <= s -> m <= Num old));
}.

(** A group's servers are its own, in both configurations. *)
Record compatible (old new : ShardConfig) : Prop := {
  co_same : forall gid srvs1 srvs2,
    Groups old !! gid = Some srvs1 -> Groups new !! gid = Some srvs2 -> srvs1 = srvs2;
  co_apart : forall gid1 gid2 srvs,
    Groups old !! gid1 = Some srvs -> Groups new !! gid2 = Some srvs -> gid1 = gid2;
}.

Lemma holds_same_but s s' g g' d : same_but s g g' -> s' <> s -> holds g s' d -> holds g' s' d.
Proof.
  intros Hsb Hne [[Hf Hm] Hd]. specialize (Hsb s' Hne). unfold shard_view in Hsb.
  injection Hsb as Hd' Hf' Hm' _. split; [split|]; congruence.
Qed.

(** Replacing two groups by ones that differ in shard [i] only. *)
Lemma mid_step old new D i w srvs1 srvs2 g1 g2 g1' g2' gid2 :
  mid old new D i w -> 0 <= i -> srvs1 <> srvs2 ->
  sw_grps w !! srvs1 = Some g1 -> sw_grps w !! srvs2 = Some g2 ->
  Num old < Num new ->
  slice_get (Shards new) i = Some gid2 -> Groups new !! gid2 = Some srvs2 ->
  live g1' -> live g2' -> holds g2' i (D i) -> same_but i g1 g1' -> same_but i g2 g2' ->
  ShardGrp.shardData (ShardGrp.KeyValue (ShardGrp.read g1')) i = D i ->
  ShardGrp.maxShardNum (ShardGrp.read g1') !! i = Some (Num new) ->
  ShardGrp.maxShardNum (ShardGrp.read g2') !! i = Some (Num new) ->
  mid old new D (i + 1) (mkShardWorld (sw_ctl w) (<[srvs1 := g1']> (<[srvs2 := g2']> (sw_grps w)))).
Proof.
  intros [Hnew Hold Hgrp] Hi Hne Hg1 Hg2 Hnum Hgid Hsrvs Hl1 Hl2 Hh2 Hsb1 Hsb2 Hd1 Hm1 Hm2.
  assert (Hkeep : forall s srvs g d, s <> i -> sw_grps w !! srvs = Some g -> holds g s d ->
    exists g', <[srvs1 := g1']> (<[srvs2 := g2']> (sw_grps w)) !! srvs = Some g' /\ holds g' s d).
  { intros s srvs g d Hs Hg Hh. destruct (decide (srvs = srvs1)) as [->|Hn1].
    { rewrite lookup_insert_eq. exists g1'. split; [done|]. simplify_eq. by eapply holds_same_but. }
    rewrite lookup_insert_ne by done. destruct (decide (srvs = srvs2)) as [->|Hn2].
    { rewrite lookup_insert_eq. exists g2'. split; [done|]. simplify_eq. by eapply holds_same_but. }
    rewrite lookup_insert_ne by done. eauto. }
  assert (Hview : forall g g', same_but i g g' -> live g' -> (exists srvs, sw_grps w !! srvs = Some g) ->
    dom (ShardGrp.shardData (ShardGrp.KeyValue (ShardGrp.read g')) i) ⊆ dom (D i) ->
    ShardGrp.maxShardNum (ShardGrp.read g') !! i = Some (Num new) ->
    live g' /\ forall s, dom (ShardGrp.shardData (ShardGrp.KeyValue (ShardGrp.read g')) s) ⊆ dom (D s)
      /\ (forall m, ShardGrp.maxShardNum (ShardGrp.read g') !! s = Some m ->
            m <= Num new /\ (i + 1 <= s -> m <= Num old))).
  { intros g g' Hsb Hl [srvs Hg] Hd Hm. split; [done|]. intros s. destruct (decide (s = i)) as [->|Hs].
    - split; [done|]. intros m Hm'. simplify_eq. split; [done|lia].
    - specialize (Hsb s Hs). injection Hsb as -> _ _ ->. destruct (Hgrp srvs g Hg) as [_ Hv].
      destruct (Hv s) as [? Hmax]. split; [done|]. intros m Hm'. destruct (Hmax m Hm'). split; [done|]. lia. }
  constructor; simpl.
  - intros s gid Hs Hgs. destruct (decide (s = i)) as [->|Hsi].
    + simplify_eq. exists srvs2, g2'. split; [done|]. by rewrite lookup_insert_ne, lookup_insert_eq.
    + destruct (Hnew s gid) as (srvs & g & Hgr & Hg & Hh); [lia|done|].
      destruct (Hkeep s srvs g _ Hsi Hg Hh) as (g' & ? & ?). eauto.
  - intros s gid Hs Hgs. destruct (Hold s gid) as (srvs & g & Hgr & Hg & Hh); [lia|done|].
    destruct (Hkeep s srvs g (D s)) as (g' & ? & ?); [lia|done..|]. eauto.
  - intros srvs g Hg. apply lookup_insert_Some in Hg as [[<- <-]|[Hn1 Hg]].
    { apply (Hview g1); eauto. by rewrite Hd1. }
    apply lookup_insert_Some in Hg as [[<- <-]|[Hn2 Hg]].
    { apply (Hview g2); eauto. by rewrite (proj2 Hh2). }
    destruct (Hgrp srvs g Hg) as [Hl Hv]. split; [done|]. intros s. destruct (Hv s) as [? Hmax].
    split; [done|]. intros m Hm. destruct (Hmax m Hm). split; [done|]. lia.
Qed.

(** ** The controller's store *)

(** [cfg] is the current configuration. *)
Record stored (ctl : KVServer.KVServer) (cfg : ShardConfig) : Prop := {
  st_live : KvServer.live ctl;
  st_latest : exists v, KVServer.lookup ctl "latest" = Some (mkValueEntry (Sprint (Num cfg)) v);
  st_config : exists v, KVServer.lookup ctl (Ctrler.config_key (Num cfg))
                        = Some (mkValueEntry (cfg_String cfg) v);
}.

Lemma world_eta w : mkShardWorld (sw_ctl w) (sw_grps w) = w.
Proof. by destruct w. Qed.

Lemma world_get w k e :
  KVServer.lookup (sw_ctl w) k = Some e -> ck_Get w k = Some (w, (ve_Value e, ve_Version e, OK)).
Proof. intros Hk. simpl. rewrite Hk. simpl. by rewrite world_eta. Qed.

Lemma Query_stored w cfg : stored (sw_ctl w) cfg -> Ctrler.Query w = Some (w, Some cfg).
Proof.
  intros [_ [v Hv] [v' Hv']]. unfold Ctrler.Query. rewrite (world_get w _ _ Hv).
  cbn [mbind option_bind ve_Value]. rewrite bool_decide_true by done. simpl negb. cbv iota.
  unfold Ctrler.config_key in Hv'. rewrite (world_get w _ _ Hv').
  cbn [mbind option_bind ve_Value]. rewrite bool_decide_true by done. simpl negb. cbv iota.
  by rewrite cfg_roundtrip.
Qed.

Lemma at_group_ok w srvs g req g' rep :
  sw_grps w !! srvs = Some g -> ShardGrp.DoOp g req = Some (g', rep) ->
  at_group w srvs req = Some (mkShardWorld (sw_ctl w) (<[srvs := g']> (sw_grps w)), rep).
Proof. intros Hg Hr. unfold at_group. rewrite Hg. simpl. by rewrite Hr. Qed.

Lemma world_freeze w srvs g g' s n state :
  sw_grps w !! srvs = Some g ->
  ShardGrp.DoOp g (ShardGrp.FreezeVal (ShardGrp.mkFreezeShardArgs s n))
    = Some (g', ShardGrp.RepFreeze (ShardGrp.mkFreezeShardReply state n OK)) ->
  grp_FreezeShard w srvs s n
  = Some (mkShardWorld (sw_ctl w) (<[srvs := g']> (sw_grps w)), (state, OK)).
Proof.
  intros Hg Hr. cbn [grp_FreezeShard world_groups].
  rewrite (at_group_ok w srvs g _ _ _ Hg Hr). done.
Qed.

Lemma world_install w srvs g g' s state n rep :
  sw_grps w !! srvs = Some g ->
  ShardGrp.DoOp g (ShardGrp.InstallVal (ShardGrp.mkInstallShardArgs s state n)) = Some (g', rep) ->
  grp_InstallShard w srvs s state n
  = Some (mkShardWorld (sw_ctl w) (<[srvs := g']> (sw_grps w)), OK).
Proof.
  intros Hg Hr. cbn [grp_InstallShard world_groups].
  rewrite (at_group_ok w srvs g _ _ _ Hg Hr). done.
Qed.

Lemma world_delete w srvs g g' s n rep :
  sw_grps w !! srvs = Some g ->
  ShardGrp.DoOp g (ShardGrp.DeleteVal (ShardGrp.mkDeleteShardArgs s n)) = Some (g', rep) ->
  grp_DeleteShard w srvs s n
  = Some (mkShardWorld (sw_ctl w) (<[srvs := g']> (sw_grps w)), OK).
Proof.
  intros Hg Hr. cbn [grp_DeleteShard world_groups].
  rewrite (at_group_ok w srvs g _ _ _ Hg Hr). done.
Qed.

(** Moving one shard: freeze, install and delete at the two groups. *)
Lemma move_shard_data_ok w old new i gid1 gid2 srvs1 srvs2 g1 g2 g1' g1'' g2' state :
  stored (sw_ctl w) old -> Groups old !! gid1 = Some srvs1 -> Groups new !! gid2 = Some srvs2 ->
  srvs1 <> srvs2 -> sw_grps w !! srvs1 = Some g1 -> sw_grps w !! srvs2 = Some g2 ->
  ShardGrp.DoOp g1 (ShardGrp.FreezeVal (ShardGrp.mkFreezeShardArgs i (Num new)))
    = Some (g1', ShardGrp.RepFreeze (ShardGrp.mkFreezeShardReply state (Num new) OK)) ->
  ShardGrp.DoOp g2 (ShardGrp.InstallVal (ShardGrp.mkInstallShardArgs i state (Num new)))
    = Some (g2', ShardGrp.RepInstall (ShardGrp.mkInstallShardReply OK)) ->
  ShardGrp.DoOp g1' (ShardGrp.DeleteVal (ShardGrp.mkDeleteShardArgs i (Num new)))
    = Some (g1'', ShardGrp.RepDelete (ShardGrp.mkDeleteShardReply OK)) ->
  Ctrler.move_shard_data w gid1 gid2 i (Num new) new
  = Some (mkShardWorld (sw_ctl w) (<[srvs1 := g1'']> (<[srvs2 := g2']> (sw_grps w)))).
Proof.
  intros Hst Hgr1 Hgr2 Hne Hg1 Hg2 Hfr Hin Hdel.
  unfold Ctrler.move_shard_data, Ctrler.getServersForGroup. rewrite (Query_stored w old Hst).
  cbn [mbind option_bind]. rewrite Hgr1. cbn [default from_option id].
  rewrite (world_freeze w srvs1 g1 g1' i (Num new) state Hg1 Hfr). cbn [mbind option_bind].
  rewrite (bool_decide_true (OK = OK)) by done. cbn [negb]. rewrite Hgr2. cbn [mbind option_bind].
  erewrite world_install; [|simpl; by rewrite lookup_insert_ne|exact Hin]. cbn [mbind option_bind].
  rewrite (bool_decide_true (OK = OK)) by done. cbn [negb].
  erewrite world_delete; [|simpl; by rewrite lookup_insert_ne, lookup_insert_eq|exact Hdel].
  cbn [mbind option_bind]. rewrite (bool_decide_true (OK = OK)) by done. simpl. do 2 f_equal.
  rewrite (insert_insert_ne _ srvs2 srvs1) by done. by rewrite insert_insert_eq.
Qed.

(** The steps of the loop. *)
Record steady (old new : ShardConfig) w : Prop := {
  sd_stored : stored (sw_ctl w) old;
  sd_exists : forall gid srvs, Groups new !! gid = Some srvs -> is_Some (sw_grps w !! srvs);
}.

Lemma change_shard_ok old new D i w :
  mid old new D i w -> steady old new w -> compatible old new ->
  (forall s, map_Forall (fun k e => clean k /\ clean (ve_Value e)) (D s)) ->
  0 <= i < NShards -> zlen (Shards old) = NShards -> zlen (Shards new) = NShards ->
  Num old < Num new ->
  (forall s gid, slice_get (Shards old) s = Some gid -> gid <> 0) ->
  (forall s gid, slice_get (Shards new) s = Some gid -> gid <> 0 /\ is_Some (Groups new !! gid)) ->
  exists w', Ctrler.change_shard old new w i = Some w' /\ mid old new D (i + 1) w'
    /\ steady old new w' /\ sw_ctl w' = sw_ctl w.
Proof.
  intros Hmid [Hst Hex] [Hsame Hapart] Hclean Hi Hlo Hln Hnum Hold0 Hnew0.
  destruct (slice_get_total (Shards old) i) as [gid1 Hg1]; [lia|].
  destruct (slice_get_total (Shards new) i) as [gid2 Hg2]; [lia|].
  unfold Ctrler.change_shard. rewrite Hg1, Hg2. cbn [mbind option_bind].
  destruct (mid_old _ _ _ _ _ Hmid i gid1 ltac:(lia) Hg1) as (srvs1 & g1 & Hgr1 & Hw1 & Hh1).
  destruct (Hnew0 i gid2 Hg2) as [Hz2 [srvs2 Hgr2]]. pose proof (Hold0 i gid1 Hg1) as Hz1.
  destruct (Z.eqb_spec gid1 gid2) as [->|Hne].
  { exists w. split; [done|]. split; [|done]. destruct Hmid as [Hn Ho Hgrp]. constructor.
    - intros s gid Hs Hgs. destruct (decide (s = i)) as [->|Hsi]; [|apply Hn; [lia|done]].
      simplify_eq. pose proof (Hsame _ _ _ Hgr1 Hgr2) as <-. by exists srvs1, g1.
    - intros s gid Hs. apply Ho. lia.
    - intros srvs g Hg. destruct (Hgrp srvs g Hg) as [Hl Hv]. split; [done|]. intros s.
      destruct (Hv s) as [? Hm]. split; [done|]. intros m Hm'. destruct (Hm m Hm'). split; [done|]. lia. }
  destruct (Z.eqb_spec gid1 0); [done|]. destruct (Z.eqb_spec gid2 0); [done|]. simpl.
  destruct (Hex gid2 srvs2 Hgr2) as [g2 Hw2].
  assert (Hsrvs : srvs1 <> srvs2) by (intros ->; eauto).
  pose proof (mid_groups _ _ _ _ _ Hmid) as Hgrp.
  destruct (Hgrp srvs1 g1 Hw1) as [Hl1 Hv1], (Hgrp srvs2 g2 Hw2) as [Hl2 Hv2].
  destruct (migrate_groups g1 g2 i (Num new) (D i)) as (g1' & g1'' & g2' & state & Hfr & Hin & Hdel
    & Hl1'' & Hl2' & Hh2 & Hsb1 & Hsb2 & Hd1 & Hm1 & Hm2); try done.
  { intros m Hm. destruct (Hv1 i) as [_ Hmax]. destruct (Hmax m Hm). lia. }
  { intros m Hm. destruct (Hv2 i) as [_ Hmax]. destruct (Hmax m Hm). lia. }
  { by apply Hv2. }
  unfold Ctrler.migrateShard. rewrite (Query_stored w old Hst). cbn [mbind option_bind].
  rewrite Hg1. cbn [mbind option_bind]. rewrite Z.eqb_refl. cbn [negb].
  rewrite (move_shard_data_ok w old new i gid1 gid2 srvs1 srvs2 g1 g2 g1' g1'' g2' state) by done.
  eexists. split; [done|]. split.
  { by eapply (mid_step old new D i w srvs1 srvs2 g1 g2 g1'' g2' gid2); auto; lia. }
  split; [|done]. constructor; [done|]. intros gid srvs Hgs. simpl.
  destruct (decide (srvs = srvs1)) as [->|]; [by rewrite lookup_insert_eq|].
  rewrite lookup_insert_ne by done. destruct (decide (srvs = srvs2)) as [->|]; [by rewrite lookup_insert_eq|].
  rewrite lookup_insert_ne by done. eauto.
Qed.

(** ** The theorem *)

(** Every shard is at the group its configuration names, with the entries [D]; what other
    groups still hold of it is a part of that, and no group has seen a later number. *)
Record placed w (cfg : ShardConfig) (D : Z -> data) : Prop := {
  pl_serving : forall s gid, 0 <= s < NShards -> slice_get (Shards cfg) s = Some gid ->
    exists srvs g, Groups cfg !! gid = Some srvs /\ sw_grps w !! srvs = Some g /\ holds g s (D s);
  pl_groups : forall srvs g, sw_grps w !! srvs = Some g -> live g /\
    forall s, dom (ShardGrp.shardData (ShardGrp.KeyValue (ShardGrp.read g)) s) ⊆ dom (D s)
      /\ (forall m, ShardGrp.maxShardNum (ShardGrp.read g) !! s = Some m -> m <= Num cfg);
}.

(** A configuration that assigns every shard to a group it lists. *)
Definition full (cfg : ShardConfig) : Prop :=
  zlen (Shards cfg) = NShards
  /\ forall s gid, slice_get (Shards cfg) s = Some gid -> gid <> 0 /\ is_Some (Groups cfg !! gid).

Lemma change_all old new D w k (i : Z) :
  mid old new D i w -> steady old new w -> compatible old new ->
  (forall s, map_Forall (fun k e => clean k /\ clean (ve_Value e)) (D s)) ->
  full old -> full new -> Num old < Num new -> 0 <= i -> i + Z.of_nat k = NShards ->
  exists w', run_steps (Ctrler.change_shard old new) w (Z.of_nat <$> seq (Z.to_nat i) k) = Some w'
    /\ mid old new D NShards w' /\ steady old new w' /\ sw_ctl w' = sw_ctl w.
Proof.
  revert w i. induction k as [|k IH]; intros w i Hmid Hsd Hco Hcl [Hlo Ho] [Hln Hn] Hnum Hi Hk.
  { exists w. split; [done|]. replace NShards with i by lia. done. }
  assert (Hseq : Z.of_nat <$> seq (Z.to_nat i) (S k) = i :: (Z.of_nat <$> seq (Z.to_nat (i + 1)) k)).
  { simpl. f_equal; [lia|]. do 2 f_equal. lia. }
  rewrite Hseq, run_steps_cons.
  destruct (change_shard_ok old new D i w) as (w1 & Hw1 & Hmid1 & Hsd1 & Hc1); try done; [lia| |].
  { intros s gid Hs. by destruct (Ho s gid Hs). }
  rewrite Hw1. cbn [mbind option_bind].
  destruct (IH w1 (i + 1)) as (w' & Hr & Hm & Hsd' & Hc); try done; [lia|lia|].
  exists w'. split_and!; [done..|congruence].
Qed.

Lemma placed_mid w old new D : placed w old D -> Num old < Num new -> mid old new D 0 w.
Proof.
  intros [Hs Hg] Hn. constructor.
  - intros s gid Hi. lia.
  - intros s gid Hi. apply Hs. lia.
  - intros srvs g Hw. destruct (Hg srvs g Hw) as [Hl Hv]. split; [done|]. intros s.
    destruct (Hv s) as [? Hm]. split; [done|]. intros m Hm'. specialize (Hm m Hm'). lia.
Qed.

Lemma mid_placed w old new D : mid old new D NShards w -> placed w new D.
Proof.
  intros [Hs _ Hg]. constructor; [done|].
  intros srvs g Hw. destruct (Hg srvs g Hw) as [Hl Hv]. split; [done|]. intros s.
  destruct (Hv s) as [? Hm]. split; [done|]. intros m Hm'. by destruct (Hm m Hm').
Qed.

(** What a client reads. *)
Definition read_of (D : Z -> data) (key : string) : string * Tversion * Err :=
  match D (Key2Shard key) !! key with
  | None => (""%string, 0, ErrNoKey)
  | Some e => (ve_Value e, ve_Version e, OK)
  end.

Lemma placed_get w cfg D key :
  placed w cfg D -> stored (sw_ctl w) cfg -> full cfg ->
  ShardClerk.Get 1 w key = Some (w, read_of D key).
Proof.
  intros [Hs _] Hst [Hlen _]. simpl. unfold ShardClerk.locate. rewrite (Query_stored w cfg Hst).
  cbn [mbind option_bind]. pose proof (Key2Shard_range key) as Hk.
  destruct (slice_get_total (Shards cfg) (Key2Shard key)) as [gid Hgid]; [lia|]. rewrite Hgid.
  destruct (Hs _ _ Hk Hgid) as (srvs & g & Hgr & Hg & [[Hf Hm] Hd]).
  cbn [mbind option_bind]. rewrite Hgr. cbn [default from_option id].
  rewrite (at_group_ok w srvs g (ShardGrp.GetVal (mkGetArgs key)) g _ Hg eq_refl).
  cbn [mbind option_bind]. rewrite insert_id, world_eta by done.
  rewrite (doGet_served g key Hf Hm), Hd. unfold read_of.
  by destruct (D (Key2Shard key) !! key).
Qed.

Lemma config_key_inj n m : Ctrler.config_key n = Ctrler.config_key m -> n = m.
Proof. unfold Ctrler.config_key. simpl. intros Heq. injection Heq as Heq. by apply Sprint_inj. Qed.

(** A [Put] that succeeds in the controller's store. *)
Lemma world_put w k v n :
  KvServer.live (sw_ctl w) -> n = KvModel.st_Version (KvServer.abs (sw_ctl w) k) ->
  exists ctl, ck_Put w k v n = Some (mkShardWorld ctl (sw_grps w), OK)
    /\ KvServer.live ctl /\ KVServer.lookup ctl k = Some (mkValueEntry v (u64 (n + 1)))
    /\ forall k', k' <> k -> KVServer.lookup ctl k' = KVServer.lookup (sw_ctl w) k'.
Proof.
  intros Hl ->.
  destruct (KvServer.DoOp_total (sw_ctl w) (KVServer.PutVal (mkPutArgs k v
    (KvModel.st_Version (KvServer.abs (sw_ctl w) k)))) Hl eq_refl) as (ctl & rep & Hr).
  exists ctl. pose proof (DoOp_put _ _ _ _ Hr) as Hp. cbn [pa_Key pa_Value pa_Version] in Hp.
  rewrite Z.eqb_refl in Hp. destruct Hp as (-> & Hk & Hne & Hl').
  cbn [ck_Put world_clerk]. rewrite Hr. done.
Qed.

Lemma stored_other ctl ctl' cfg k :
  stored ctl cfg -> KvServer.live ctl' -> k <> "latest"%string -> k <> Ctrler.config_key (Num cfg) ->
  (forall k', k' <> k -> KVServer.lookup ctl' k' = KVServer.lookup ctl k') -> stored ctl' cfg.
Proof.
  intros [_ [v Hv] [v' Hv']] Hl Hk1 Hk2 Hsame. constructor; [done|..].
  - exists v. by rewrite Hsame.
  - exists v'. by rewrite Hsame.
Qed.

(** The part of [ChangeConfigTo] after the new configuration has been written. *)
Lemma ChangeConfigTo_run w old new ctl v w2 :
  stored (sw_ctl w) old -> Num old < Num new ->
  ck_Put w (Ctrler.config_key (Num new)) (cfg_String new) 0
    = Some (mkShardWorld ctl (sw_grps w), OK) ->
  KVServer.lookup ctl "latest" = Some (mkValueEntry (Sprint (Num old)) v) ->
  run_steps (Ctrler.change_shard old new) (mkShardWorld ctl (sw_grps w)) Ctrler.all_shards = Some w2 ->
  Ctrler.ChangeConfigTo w new
  = '(w, _) ← ck_Put w2 "latest" (Sprint (Num new)) v; Some w.
Proof.
  intros Hst Hnum Hput Hlat Hrun. unfold Ctrler.ChangeConfigTo. rewrite (Query_stored w old Hst).
  cbn [mbind option_bind]. destruct (Z.leb_spec (Num new) (Num old)); [lia|].
  rewrite Hput. cbn [mbind option_bind]. rewrite (bool_decide_true (OK = OK)) by done.
  cbn [negb andb]. rewrite (world_get (mkShardWorld ctl (sw_grps w)) "latest" _ Hlat).
  cbn [mbind option_bind ve_Value ve_Version].
  rewrite (world_get (mkShardWorld ctl (sw_grps w)) "latest" _ Hlat).
  cbn [mbind option_bind ve_Value ve_Version]. rewrite Atoi_Sprint.
  destruct (Z.leb_spec (Num new) (Num old)); [lia|]. rewrite andb_false_r.
  by rewrite Hrun.
Qed.

(** [ChangeConfigTo] makes the new configuration the current one, moves every shard to where the
    new configuration says, and touches nothing else in the controller's store. *)
Lemma ChangeConfigTo_placed w old new D :
  stored (sw_ctl w) old -> placed w old D -> full old -> full new -> compatible old new ->
  Num old < Num new ->
  KVServer.lookup (sw_ctl w) (Ctrler.config_key (Num new)) = None ->
  (forall gid srvs, Groups new !! gid = Some srvs -> is_Some (sw_grps w !! srvs)) ->
  (forall s, map_Forall (fun k e => clean k /\ clean (ve_Value e)) (D s)) ->
  exists w', Ctrler.ChangeConfigTo w new = Some w' /\ stored (sw_ctl w') new /\ placed w' new D
    /\ (forall gid srvs, Groups new !! gid = Some srvs -> is_Some (sw_grps w' !! srvs))
    /\ (forall k, k <> "latest"%string -> k <> Ctrler.config_key (Num new) ->
          KVServer.lookup (sw_ctl w') k = KVServer.lookup (sw_ctl w) k).
Proof.
  intros Hst Hpl Hfo Hfn Hco Hnum Hfree Hex Hcl.
  assert (Hk1 : Ctrler.config_key (Num new) <> "latest"%string) by done.
  assert (Hk2 : Ctrler.config_key (Num new) <> Ctrler.config_key (Num old)).
  { intros Heq%config_key_inj. lia. }
  destruct (world_put w (Ctrler.config_key (Num new)) (cfg_String new) 0) as (ctl & Hput & Hl & Hnewk & Hne).
  { apply Hst. }
  { unfold KvServer.abs. by rewrite Hfree. }
  pose proof (stored_other _ _ _ _ Hst Hl Hk1 Hk2 Hne) as Hst1.
  destruct (st_latest _ _ Hst1) as [v Hlat].
  set (w1 := mkShardWorld ctl (sw_grps w)) in *.
  assert (Hmid : mid old new D 0 w1).
  { destruct (placed_mid w old new D Hpl Hnum) as [Ha Hb Hc]. by constructor. }
  destruct (change_all old new D w1 (Z.to_nat NShards) 0) as (w2 & Hrun & Hmid2 & Hsd2 & Hc2); try done.
  pose proof (ChangeConfigTo_run w old new ctl v w2 Hst Hnum Hput Hlat Hrun) as Hch.
  destruct (world_put w2 "latest" (Sprint (Num new)) v) as (ctl2 & Hput2 & Hl2 & Hlat2 & Hne2).
  { by rewrite Hc2. }
  { unfold KvServer.abs. rewrite Hc2. simpl. by rewrite Hlat. }
  rewrite Hput2 in Hch. cbn [mbind option_bind] in Hch.
  set (w' := mkShardWorld ctl2 (sw_grps w2)) in *.
  assert (Hst' : stored (sw_ctl w') new).
  { constructor; [done|by eexists|]. eexists. simpl. rewrite Hne2 by done. by rewrite Hc2. }
  assert (Hpl' : placed w' new D).
  { destruct (mid_placed w2 old new D Hmid2) as [Ha Hb]. by constructor. }
  exists w'. split_and!; [done..|exact (sd_exists _ _ _ Hsd2)|].
  intros k Hkl Hkc. simpl. rewrite Hne2 by done. by rewrite Hc2, Hne.
Qed.

(** Reconfiguration preserves the store.  From a configuration in which every shard is
    served where it belongs, [ChangeConfigTo] to a newer configuration that assigns all shards
    returns; the new configuration is then the current one, every shard is served where the
    new configuration says, and the sharded clerk reads the same value, version and error for
    every key as before. *)
Theorem reconfiguration_preserves_data (w : ShardWorld) (old new : ShardConfig) (D : Z -> data) :
  stored (sw_ctl w) old -> placed w old D -> full old -> full new -> compatible old new ->
  Num old < Num new ->
  KVServer.lookup (sw_ctl w) (Ctrler.config_key (Num new)) = None ->
  (forall gid srvs, Groups new !! gid = Some srvs -> is_Some (sw_grps w !! srvs)) ->
  (forall s, map_Forall (fun k e => clean k /\ clean (ve_Value e)) (D s)) ->
  exists w', Ctrler.ChangeConfigTo w new = Some w'
    /\ Ctrler.Query w' = Some (w', Some new) /\ placed w' new D
    /\ forall key, exists res,
         ShardClerk.Get 1 w key = Some (w, res) /\ ShardClerk.Get 1 w' key = Some (w', res).
Proof.
  intros Hst Hpl Hfo Hfn Hco Hnum Hfree Hex Hcl.
  destruct (ChangeConfigTo_placed w old new D) as (w' & Hch & Hst' & Hpl' & _); try done.
  exists w'. split_and!; [done|by apply Query_stored|done|].
  intros key. exists (read_of D key). split; by eapply placed_get.
Qed.
End Reconfigure.

(** ** A concrete reconfiguration *)

#[export] Instance ShardConfig_eq_dec : EqDecision ShardConfig.
Proof. solve_decision. Defined.

#[export] Instance ShardConfig_countable : Countable ShardConfig.
Proof.
  refine (inj_countable' (fun c => (Num c, Shards c, Groups c))
                         (fun '(n, l, m) => mkShardConfig n l m) _).
  by intros [].
Defined.

#[export] Instance decimal_cfg : CfgJson := {|
  cfg_String c := Sprint (Zpos (encode c));
  cfg_FromString s := match Atoi s with Zpos p => decode p | _ => None end;
|}.

#[export] Instance decimal_cfg_laws : CfgJsonLaws.
Proof. constructor. intros c. simpl. rewrite Atoi_Sprint. apply decode_encode. Qed.

(** Configuration 1 has one group; configuration 2 gives half of the shards to a second. *)
Definition cfg1 : ShardConfig := mkShardConfig 1 (replicate 12 1) {[1 := ["s1"]]}.
Definition cfg2 : ShardConfig :=
  mkShardConfig 2 (replicate 6 1 ++ replicate 6 2) {[1 := ["s1"]; 2 := ["s2"]]}.

Definition store1 : gmap string ValueEntry := {["a" := mkValueEntry "v" 3]}.

Definition world1 : ShardWorld :=
  mkShardWorld
    (KVServer.mkKVServer 0 0
       (Some {["latest" := mkValueEntry (Sprint 1) 1;
               Ctrler.config_key 1 := mkValueEntry (cfg_String cfg1) 1]}))
    {[["s1"] := group1; ["s2"] := group2]}.

Definition data1 (s : Z) : gmap string ValueEntry := ShardGrp.shardData store1 s.

Lemma world1_stored : stored (sw_ctl world1) cfg1.
Proof.
  constructor.
  - by eexists.
  - exists 1. unfold KVServer.lookup. simpl. by rewrite lookup_insert_eq.
  - exists 1. unfold KVServer.lookup. simpl. rewrite lookup_insert_ne by done.
    change (Ctrler.config_key (Num cfg1)) with (Ctrler.config_key 1). apply lookup_singleton_eq.
Qed.

Lemma full_shards cfg (l : list Z) :
  Shards cfg = l -> zlen l = NShards -> Forall (fun g => g <> 0 /\ is_Some (Groups cfg !! g)) l ->
  full cfg.
Proof.
  intros <- Hl Hall. split; [done|]. intros s gid [_ Hs]%slice_get_Some.
  by eapply Forall_lookup_1 in Hall.
Qed.

Lemma cfg1_full : full cfg1.
Proof.
  eapply full_shards; [done..|]. repeat constructor; try done; eexists; vm_compute; reflexivity.
Qed.

Lemma cfg2_full : full cfg2.
Proof.
  eapply full_shards; [done..|]. repeat constructor; try done; eexists; vm_compute; reflexivity.
Qed.

Lemma world1_placed : placed world1 cfg1 data1.
Proof.
  constructor.
  - intros s gid Hs [Hpos Hgid]%slice_get_Some. apply lookup_replicate in Hgid as [-> _].
    exists ["s1"], group1. split; [done|]. split; [done|]. by split.
  - intros srvs g Hg. unfold world1 in Hg. simpl in Hg.
    apply lookup_insert_Some in Hg as [[_ <-]|[_ Hg]].
    + split; [by eexists|]. intros s. split; [done|]. intros m Hm. discriminate Hm.
    + apply lookup_singleton_Some in Hg as [_ <-]. split; [by eexists|]. intros s. split.
      * unfold ShardGrp.shardData. simpl. rewrite map_filter_empty, dom_empty. apply empty_subseteq.
      * intros m Hm. discriminate Hm.
Qed.

Lemma reconfiguration_preserves_data_witness :
  exists w', Ctrler.ChangeConfigTo world1 cfg2 = Some w'
    /\ Ctrler.Query w' = Some (w', Some cfg2)
    /\ ShardClerk.Get 1 w' "a" = Some (w', ("v"%string, 3, OK)).
Proof.
  destruct (reconfiguration_preserves_data (clean:=fun _ => True) world1 cfg1 cfg2 data1)
    as (w' & Hr & Hq & _ & Hget).
  - exact world1_stored.
  - exact world1_placed.
  - exact cfg1_full.
  - exact cfg2_full.
  - constructor.
    + intros gid srvs1 srvs2 Ho Hn. unfold cfg1, cfg2 in *. cbn [Groups] in *.
      apply lookup_singleton_Some in Ho as [<- <-]. rewrite lookup_insert_eq in Hn. congruence.
    + intros gid1 gid2 srvs Ho Hn. unfold cfg1, cfg2 in *. cbn [Groups] in *.
      apply lookup_singleton_Some in Ho as [<- <-].
      apply lookup_insert_Some in Hn as [[<- _]|[_ Hn]]; [reflexivity|].
      apply lookup_singleton_Some in Hn as [_ Hn]. discriminate Hn.
  - reflexivity.
  - reflexivity.
  - intros gid srvs Hg. unfold cfg2 in Hg. cbn [Groups] in Hg.
    apply lookup_insert_Some in Hg as [[_ <-]|[_ Hg]]; [by eexists|].
    apply lookup_singleton_Some in Hg as [_ <-]. by eexists.
  - intros s k e _. split; exact I.
  - exists w'. split; [exact Hr|]. split; [exact Hq|].
    destruct (Hget "a"%string) as (res & H1 & H2). rewrite H2. f_equal. f_equal.
    rewrite (placed_get world1 cfg1 data1 "a" world1_placed world1_stored cfg1_full) in H1.
    injection H1 as <-. vm_compute. reflexivity.
Defined.
