(* ===== verification/KvSrv.v ===== *)
(** * The single-server key/value service with at-most-once requests: kvsrv and models/kv.go

    [KvSrv] models src/src/kvsrv: the server ([server.go]) with its table of clients, the
    clerk ([client.go]) that resends a request until it is acknowledged, and the messages
    ([common.go]).  [KvModel0] models the sequential specification in src/src/models/kv.go.
    The theorem: over a network that loses requests and replies, with other clients running
    at the same time, a clerk's [Put] or [Append] takes effect exactly once. *)

From S2P Require Import Prelude.

Module KvSrv.

(** [Puttype] and [Appendtype]. *)
Inductive PutAppendType := Puttype | Appendtype.

Record PutAppendArgs := mkPutAppendArgs {
  Key : string; Value : string; PutOrAppend : PutAppendType;
  ClientId : Z; TransactionId : Z }.

Record PutAppendReply := mkPutAppendReply { r_Value : string; r_ClientId : Z; r_AckId : Z }.

Record GetArgs := mkGetArgs { ga_Key : string; ga_ClientId : Z; ga_TransactionId : Z }.

Record GetReply := mkGetReply { gr_Value : string; gr_ClientId : Z; gr_AckId : Z }.

Record ClientAckTime := mkClientAckTime { AckID : Z; ValueBuffer : string }.

Record KVServer := mkKVServer {
  KeyValue : gmap string string; AckTime : list ClientAckTime; LenAckTime : Z }.

Definition set_KeyValue (kv : KVServer) (m : gmap string string) : KVServer :=
  mkKVServer m (AckTime kv) (LenAckTime kv).
Definition set_AckTime (kv : KVServer) (l : list ClientAckTime) : KVServer :=
  mkKVServer (KeyValue kv) l (LenAckTime kv).

(** [kv.KeyValue[key]]: a missing key reads as the empty string. *)
Definition read (kv : KVServer) (key : string) : string := default "" (KeyValue kv !! key).

Definition NewClient (kv : KVServer) (transactionId : Z) : KVServer * Z :=
  let newClientId := LenAckTime kv in
  (mkKVServer (KeyValue kv) (AckTime kv ++ [mkClientAckTime transactionId ""]) (1 + LenAckTime kv),
   newClientId).

Definition Get (kv : KVServer) (args : GetArgs) : GetReply :=
  mkGetReply (read kv (ga_Key args)) (ga_ClientId args) 0.

Definition Put (kv : KVServer) (args : PutAppendArgs) : option (KVServer * PutAppendReply) :=
  let value := read kv (Key args) in
  let clientId := ClientId args in
  if clientId =? -1 then
    let '(kv, clientId) := NewClient kv (TransactionId args) in
    Some (kv, mkPutAppendReply "" clientId (TransactionId args))
  else
    c ← slice_get (AckTime kv) clientId;
    if TransactionId args =? AckID c then
      acks ← slice_set (AckTime kv) clientId (mkClientAckTime (1 + AckID c) (ValueBuffer c));
      let kv := set_KeyValue (set_AckTime kv acks) (<[Key args := Value args]> (KeyValue kv)) in
      Some (kv, mkPutAppendReply value clientId (1 + AckID c))
    else
      Some (kv, mkPutAppendReply (ValueBuffer c) clientId (AckID c)).

Definition Append (kv : KVServer) (args : PutAppendArgs) : option (KVServer * PutAppendReply) :=
  let value := read kv (Key args) in
  let clientId := ClientId args in
  if clientId =? -1 then
    let '(kv, clientId) := NewClient kv (TransactionId args) in
    Some (kv, mkPutAppendReply "" clientId (TransactionId args))
  else
    c ← slice_get (AckTime kv) clientId;
    if TransactionId args =? AckID c then
      acks ← slice_set (AckTime kv) clientId (mkClientAckTime (1 + AckID c) (read kv (Key args)));
      let kv := set_KeyValue (set_AckTime kv acks)
                  (<[Key args := (read kv (Key args) +:+ Value args)%string]> (KeyValue kv)) in
      Some (kv, mkPutAppendReply value clientId (1 + AckID c))
    else
      Some (kv, mkPutAppendReply (ValueBuffer c) clientId (AckID c)).

Definition StartKVServer : KVServer := mkKVServer ∅ [] 0.

(** ** The clerk

    The network is a parameter: [call w method args] is [ck.server.Call], [None] when the
    server has no such method (labrpc ends the process); the reply is missing when the call
    returned false.  [Call] decodes into the caller's reply, and gob does not transmit a
    field that holds its zero value: such a field keeps what the earlier reply had there. *)

Record Clerk := mkClerk { ck_ClientId : Z; ck_TransactionId : Z }.

Definition MakeClerk : Clerk := mkClerk (-1) 0.

Definition gob_into (old new : PutAppendReply) : PutAppendReply :=
  mkPutAppendReply (if decide (r_Value new = "") then r_Value old else r_Value new)
    (if r_ClientId new =? 0 then r_ClientId old else r_ClientId new)
    (if r_AckId new =? 0 then r_AckId old else r_AckId new).

Section Clerk.
Context {W : Type} (call : W -> string -> PutAppendArgs -> option (W * option PutAppendReply)).
Context (call_get : W -> GetArgs -> W * option GetReply).

Fixpoint Get_loop (fuel : nat) (w : W) (args : GetArgs) : option (W * string) :=
  match fuel with
  | O => None
  | S fuel =>
      match call_get w args with
      | (w, Some reply) => Some (w, gr_Value reply)
      | (w, None) => Get_loop fuel w args
      end
  end.

Definition Clerk_Get (fuel : nat) (w : W) (ck : Clerk) (key : string) : option (W * string) :=
  Get_loop fuel w (mkGetArgs key (ck_ClientId ck) (ck_TransactionId ck)).

Definition set_ClientId (args : PutAppendArgs) (id : Z) : PutAppendArgs :=
  mkPutAppendArgs (Key args) (Value args) (PutOrAppend args) id (TransactionId args).

Fixpoint PutAppend_loop (fuel : nat) (w : W) (ck : Clerk) (args : PutAppendArgs)
    (reply : PutAppendReply) (op : string) : option (W * Clerk * string) :=
  match fuel with
  | O => None
  | S fuel =>
      '(w, ok) ← call w op args;
      match ok with
      | Some answer =>
          let reply := gob_into reply answer in
          if ck_ClientId ck =? -1 then
            let ck := mkClerk (r_ClientId reply) (ck_TransactionId ck) in
            PutAppend_loop fuel w ck (set_ClientId args (ck_ClientId ck)) reply op
          else if ck_TransactionId ck =? r_AckId reply - 1 then
            Some (w, mkClerk (ck_ClientId ck) (r_AckId reply), r_Value reply)
          else PutAppend_loop fuel w ck args reply op
      | None => PutAppend_loop fuel w ck args reply op
      end
  end.

Definition PutAppend (fuel : nat) (w : W) (ck : Clerk) (key value op : string)
    : option (W * Clerk * string) :=
  let put_or_append := if decide (op = "Append") then Appendtype else Puttype in
  let args := mkPutAppendArgs key value put_or_append (ck_ClientId ck) (ck_TransactionId ck) in
  PutAppend_loop fuel w ck args (mkPutAppendReply "" 0 0) op.

Definition Clerk_Put (fuel : nat) (w : W) (ck : Clerk) (key value : string) : option (W * Clerk) :=
  '(w, ck, _) ← PutAppend fuel w ck key value "Put";
  Some (w, ck).

Definition Clerk_Append (fuel : nat) (w : W) (ck : Clerk) (key value : string)
    : option (W * Clerk * string) :=
  PutAppend fuel w ck key value "Append".

End Clerk.
End KvSrv.

(** ** The sequential specification: src/src/models/kv.go *)

Module KvModel0.

Record KvInput := mkKvInput { in_Op : Z; in_Key : string; in_Value : string }.
Record KvOutput := mkKvOutput { out_Value : string }.

Definition Init : string := "".

(** One key's value: 0 is a get, 1 a put, 2 an append, anything else an append that returns
    the old value. *)
Definition Step (st : string) (inp : KvInput) (out : KvOutput) : bool * string :=
  if in_Op inp =? 0 then (bool_decide (out_Value out = st), st)
  else if in_Op inp =? 1 then (true, in_Value inp)
  else if in_Op inp =? 2 then (true, (st +:+ in_Value inp)%string)
  else (bool_decide (out_Value out = st), (st +:+ in_Value inp)%string).

(** For the visualization; an append that returns the old value has no description. *)
Definition DescribeOperation (inp : KvInput) (out : KvOutput) : string :=
  if in_Op inp =? 0 then ("get('" +:+ in_Key inp +:+ "') -> '" +:+ out_Value out +:+ "'")%string
  else if in_Op inp =? 1 then ("put('" +:+ in_Key inp +:+ "', '" +:+ in_Value inp +:+ "')")%string
  else if in_Op inp =? 2 then ("append('" +:+ in_Key inp +:+ "', '" +:+ in_Value inp +:+ "')")%string
  else "<invalid>".

End KvModel0.

(** ** A lossy network with other clients

    The schedule says, for every RPC of the clerk, which requests of other clients the server
    executes before it, and whether the request or its reply is lost. *)

Import KvSrv.

Inductive Fate := Lost | ReplyLost | Delivered.

#[export] Instance Fate_eq_dec : EqDecision Fate.
Proof. solve_decision. Defined.

Inductive Req := RPut (args : PutAppendArgs) | RAppend (args : PutAppendArgs).

Definition req_args (r : Req) : PutAppendArgs := match r with RPut a | RAppend a => a end.

Definition exec (kv : KVServer) (r : Req) : option (KVServer * PutAppendReply) :=
  match r with RPut args => Put kv args | RAppend args => Append kv args end.

Definition exec_state (kv : KVServer) (r : Req) : option KVServer := fst <$> exec kv r.

Definition srv_run (kv : KVServer) (rs : list Req) : option KVServer := run_steps exec_state kv rs.

Record Net := mkNet { n_srv : KVServer; n_sched : list (list Req * Fate) }.

(** The handler an RPC method name selects. *)
Definition method (op : string) (args : PutAppendArgs) : option Req :=
  if decide (op = "Put") then Some (RPut args)
  else if decide (op = "Append") then Some (RAppend args) else None.

Definition net_call (w : Net) (op : string) (args : PutAppendArgs)
    : option (Net * option PutAppendReply) :=
  match n_sched w with
  | [] => Some (w, None)
  | (others, fate) :: sched =>
      kv ← srv_run (n_srv w) others;
      r ← method op args;
      match fate with
      | Lost => Some (mkNet kv sched, None)
      | ReplyLost => '(kv, _) ← exec kv r; Some (mkNet kv sched, None)
      | Delivered => '(kv, reply) ← exec kv r; Some (mkNet kv sched, Some reply)
      end
  end.

Implicit Types (kv : KVServer) (sched : list (list Req * Fate)).

(** ** Invariant of the server, and what a request may do to another client's slot *)

Definition srv_wf kv : Prop := LenAckTime kv = zlen (AckTime kv).

(** A request of a client that was registered when the first [n] clients were, and is not [c]
    (or of one that registers now). *)
Definition other (n c : Z) (r : Req) : Prop :=
  ClientId (req_args r) = -1
  \/ 0 <= ClientId (req_args r) < n /\ ClientId (req_args r) <> c.

Definition slot kv (c : Z) : option ClientAckTime := slice_get (AckTime kv) c.

(** A request that returns leaves the slots of all other clients alone, and keeps them. *)
Record grows (c : Z) kv kv' : Prop := mkGrows {
  grows_wf : srv_wf kv -> srv_wf kv';
  grows_len : zlen (AckTime kv) <= zlen (AckTime kv');
  grows_slot : forall a, slot kv c = Some a -> slot kv' c = Some a }.

#[export] Instance grows_refl c : Reflexive (grows c).
Proof. intros kv. split; auto; lia. Qed.

#[export] Instance grows_trans c : Transitive (grows c).
Proof. intros x y z [] []. split; auto; lia. Qed.

Lemma slot_app kv m l n c a : slot kv c = Some a -> slot (mkKVServer m (AckTime kv ++ l) n) c = Some a.
Proof.
  unfold slot. rewrite !slice_get_Some. intros [? Hl]. split; [done|]. simpl.
  by apply lookup_app_l_Some.
Qed.

(** Both handlers have the same effect on the table of clients. *)
Lemma exec_other n c kv r :
  srv_wf kv -> n <= zlen (AckTime kv) -> other n c r ->
  exists kv' rep, exec kv r = Some (kv', rep) /\ grows c kv kv'.
Proof.
  intros Hwf Hn Ho. pose proof (zlen_nonneg (AckTime kv)) as Hp.
  assert (Hreg : forall t, grows c kv (NewClient kv t).1).
  { intros t. split; simpl; unfold srv_wf; simpl; autorewrite with zlen; [lia|lia|].
    intros a. apply slot_app. }
  assert (Hset : forall m i a, i <> c -> 0 <= i -> grows c kv
            (set_KeyValue (set_AckTime kv (<[Z.to_nat i := a]> (AckTime kv))) m)).
  { intros m i a Hi Hi0. split; simpl; unfold srv_wf; simpl; autorewrite with zlen; [done|lia|].
    intros b. unfold slot. rewrite !slice_get_Some. simpl. intros [? ?].
    rewrite list_lookup_insert_ne by lia. done. }
  destruct Ho as [Ho|[Hr Hne]].
  - destruct r as [args|args]; simpl in *; unfold Put, Append; rewrite Ho; simpl; eexists _, _;
      (split; [reflexivity|apply Hreg]).
  - destruct (slice_get_total (AckTime kv) (ClientId (req_args r)) ltac:(lia)) as [a Ha].
    destruct r as [args|args]; simpl in *; unfold Put, Append;
      (destruct (Z.eqb_spec (ClientId args) (-1)); [lia|]); rewrite Ha; simpl;
      (destruct (Z.eqb_spec (TransactionId args) (AckID a)); [|by eexists _, _]);
      rewrite slice_set_Some by lia; simpl; eexists _, _; (split; [reflexivity|]);
      apply Hset; lia.
Qed.

Lemma srv_run_cons kv r rs kv' rep :
  exec kv r = Some (kv', rep) -> srv_run kv (r :: rs) = srv_run kv' rs.
Proof.
  intros He. unfold srv_run. rewrite run_steps_cons.
  assert (exec_state kv r = Some kv') as -> by (unfold exec_state; by rewrite He). done.
Qed.

Lemma srv_run_app kv rs rs' kv' :
  srv_run kv rs = Some kv' -> srv_run kv (rs ++ rs') = srv_run kv' rs'.
Proof. intros Hr. unfold srv_run in *. rewrite run_steps_app, Hr. done. Qed.

Lemma srv_run_others n c kv rs :
  srv_wf kv -> n <= zlen (AckTime kv) -> Forall (other n c) rs ->
  exists kv', srv_run kv rs = Some kv' /\ grows c kv kv'.
Proof.
  intros Hwf Hn Hr. revert kv Hwf Hn. induction Hr as [|r rs Ho _ IH]; intros kv Hwf Hn; [by exists kv|].
  destruct (exec_other n c kv r Hwf Hn Ho) as (kv1 & rep & He & Hg).
  destruct (IH kv1) as (kv2 & Hr & Hg2); [by apply Hg|destruct Hg; lia|].
  exists kv2. rewrite (srv_run_cons _ _ _ _ _ He). split; [exact Hr|by etrans].
Qed.

(** ** The clerk's own requests *)

Definition own (op key value : string) (id t : Z) : PutAppendArgs :=
  mkPutAppendArgs key value (if decide (op = "Append") then Appendtype else Puttype) id t.

(** What the request means to the specification. *)
Definition kv_input (op key value : string) : KvModel0.KvInput :=
  KvModel0.mkKvInput (if decide (op = "Append") then 3 else 1) key value.

Definition is_op (op : string) : Prop := op = "Put" \/ op = "Append".

(** What the slot remembers for a resent request: [Append] needs the old value, the reply to
    [Put] is ignored. *)
Definition remembers (op key : string) kv (a : ClientAckTime) : Prop :=
  op = "Append" -> ValueBuffer a = read kv key.

(** The first copy that arrives takes effect; its reply and the slot hold the old value. *)
Lemma exec_fresh op key value c t kv a :
  is_op op -> c <> -1 -> srv_wf kv -> slot kv c = Some a -> AckID a = t ->
  exists r kv' rep a', method op (own op key value c t) = Some r /\ exec kv r = Some (kv', rep)
    /\ rep = mkPutAppendReply (read kv key) c (t + 1)
    /\ slot kv' c = Some a' /\ AckID a' = t + 1 /\ remembers op key kv a' /\ srv_wf kv'
    /\ zlen (AckTime kv') = zlen (AckTime kv)
    /\ KvModel0.Step (read kv key) (kv_input op key value) (KvModel0.mkKvOutput (read kv key))
       = (true, read kv' key)
    /\ forall k, k <> key -> read kv' k = read kv k.
Proof.
  intros Hop Hc Hwf Hs <-. pose proof (slice_get_lt _ _ _ Hs) as Hlt. unfold slot in Hs.
  destruct Hop as [->| ->]; eexists _, _, _, _; (split; [reflexivity|]); simpl; unfold Put, Append; simpl;
    (destruct (Z.eqb_spec c (-1)); [lia|]); rewrite Hs; simpl; rewrite Z.eqb_refl;
    rewrite slice_set_Some by lia; simpl; (split; [reflexivity|]);
    (split; [f_equal; lia|]); unfold slot; rewrite slice_get_Some; simpl;
    (split; [split; [lia|]; apply list_lookup_insert_eq; unfold zlen in *; lia|]);
    (split; [simpl; lia|]); (split; [intros Ha; try discriminate Ha; reflexivity|]);
    (split; [unfold srv_wf in *; simpl; autorewrite with zlen; done|]);
    (split; [by autorewrite with zlen|]); unfold KvModel0.Step, read; simpl.
  - split; [by rewrite lookup_insert_eq|]. intros k Hk. by rewrite lookup_insert_ne.
  - split; [|intros k Hk; by rewrite lookup_insert_ne].
    rewrite lookup_insert_eq, bool_decide_true by done. done.
Qed.

(** A copy that arrives later changes nothing and is answered from the slot. *)
Lemma exec_again op key value c t kv a :
  is_op op -> c <> -1 -> slot kv c = Some a -> AckID a = t + 1 ->
  exists r, method op (own op key value c t) = Some r
    /\ exec kv r = Some (kv, mkPutAppendReply (ValueBuffer a) c (t + 1)).
Proof.
  intros Hop Hc Hs Ha. unfold slot in Hs.
  destruct Hop as [->| ->]; eexists; (split; [reflexivity|]); simpl; unfold Put, Append; simpl;
    (destruct (Z.eqb_spec c (-1)); [lia|]); rewrite Hs; simpl;
    (destruct (Z.eqb_spec t (AckID a)); [lia|]); by rewrite Ha.
Qed.

(** A request without a client id only registers a new client. *)
Lemma exec_register op key value t kv :
  is_op op -> srv_wf kv ->
  exists r, method op (own op key value (-1) t) = Some r
    /\ exec kv r = Some ((NewClient kv t).1, mkPutAppendReply "" (zlen (AckTime kv)) t).
Proof. intros [->| ->] Hwf; eexists; (split; [reflexivity|]); unfold exec, Put, Append; simpl; by rewrite Hwf. Qed.

(** ** The resending loop *)

Definition reqs sched : list Req := mjoin sched.*1.

Definition others_ok (n c : Z) sched : Prop := Forall (fun p => Forall (other n c) p.1) sched.

(** How many RPCs of the schedule are answered. *)
Fixpoint answered sched : nat :=
  match sched with
  | [] => 0
  | (_, Delivered) :: sched => S (answered sched)
  | _ :: sched => answered sched
  end.

Definition registered kv (c t : Z) : Prop := exists a, slot kv c = Some a /\ AckID a = t.

(** The requests [rs] are executed with one execution of the clerk's request somewhere among
    them; the specification accepts [ret] as its answer there, and the other keys keep their
    values. *)
Definition once kv (rs : list Req) (op key value : string) (c t : Z) kv' (ret : string) : Prop :=
  exists pre post kv1 r rep kv2,
    rs = pre ++ post /\ srv_run kv pre = Some kv1
    /\ method op (own op key value c t) = Some r /\ exec kv1 r = Some (kv2, rep)
    /\ srv_run kv2 post = Some kv'
    /\ KvModel0.Step (read kv1 key) (kv_input op key value) (KvModel0.mkKvOutput ret)
       = (true, read kv2 key)
    /\ forall k, k <> key -> read kv2 k = read kv1 k.

Lemma once_later kv rs kv1 rs' op key value c t kv' ret :
  srv_run kv rs = Some kv1 -> once kv1 rs' op key value c t kv' ret ->
  once kv (rs ++ rs') op key value c t kv' ret.
Proof.
  intros Hr (pre & post & kv2 & r & rep & kv3 & -> & Hp & Hrest).
  exists (rs ++ pre), post, kv2, r, rep, kv3. rewrite app_assoc. split; [done|].
  rewrite (srv_run_app _ _ _ _ Hr). done.
Qed.

(** The specification checks the answer of an [Append] only. *)
Lemma Step_answer op key value st ret st' :
  is_op op -> (op = "Append" -> ret = st) ->
  KvModel0.Step st (kv_input op key value) (KvModel0.mkKvOutput st) = (true, st') ->
  KvModel0.Step st (kv_input op key value) (KvModel0.mkKvOutput ret) = (true, st').
Proof. intros [->| ->] Hret; [done|]. by rewrite Hret. Qed.

#[local] Arguments gob_into : simpl never.

Lemma gob_into_fields reply v c t :
  r_Value reply = "" -> 0 <= t ->
  r_Value (gob_into reply (mkPutAppendReply v c (t + 1))) = v
  /\ r_AckId (gob_into reply (mkPutAppendReply v c (t + 1))) = t + 1.
Proof.
  intros Hv Ht. unfold gob_into. simpl. rewrite Hv.
  destruct (Z.eqb_spec (t + 1) 0); [lia|]. split; [by case_decide|done].
Qed.

Lemma net_call_run kv others fate sched kv1 r kv2 rep op args :
  srv_run kv others = Some kv1 -> method op args = Some r -> exec kv1 r = Some (kv2, rep) ->
  net_call (mkNet kv ((others, fate) :: sched)) op args =
    Some (match fate with
          | Lost => (mkNet kv1 sched, None)
          | ReplyLost => (mkNet kv2 sched, None)
          | Delivered => (mkNet kv2 sched, Some rep)
          end).
Proof.
  intros Hr Hm He. unfold net_call. simpl. rewrite Hr. simpl. rewrite Hm. simpl.
  by destruct fate; rewrite ?He.
Qed.

(** A lost request or reply only costs another round. *)
Lemma loop_unanswered fuel w w' ck args reply op :
  net_call w op args = Some (w', None) ->
  PutAppend_loop net_call (S fuel) w ck args reply op = PutAppend_loop net_call fuel w' ck args reply op.
Proof. intros Hw. cbn [PutAppend_loop]. by rewrite Hw. Qed.

(** An answer to a request of a registered clerk ends the loop. *)
Lemma loop_answered fuel w w' v c t args reply op :
  net_call w op args = Some (w', Some (mkPutAppendReply v c (t + 1))) ->
  r_Value reply = "" -> 0 <= t -> c <> -1 ->
  PutAppend_loop net_call (S fuel) w (mkClerk c t) args reply op = Some (w', mkClerk c (t + 1), v).
Proof.
  intros Hw Hv Ht Hc. destruct (gob_into_fields reply v c t Hv Ht) as [G1 G2].
  cbn [PutAppend_loop]. rewrite Hw. cbn [mbind option_bind ck_ClientId ck_TransactionId].
  rewrite G1, G2. destruct (Z.eqb_spec c (-1)); [lia|].
  destruct (Z.eqb_spec t (t + 1 - 1)); [done|lia].
Qed.

#[local] Arguments PutAppend_loop : simpl never.

Section Loop.
Context (op key value : string) (n c t : Z).
Context (Hop : is_op op) (Hc : 0 <= c) (Ht : 0 <= t).

Abbreviation loop := (fun fuel kv sched reply =>
  PutAppend_loop net_call fuel (mkNet kv sched) (mkClerk c t) (own op key value c t) reply op).

(** After the request has taken effect: the clerk resends until it hears the remembered
    answer, and the server executes nothing but the requests of the others. *)
Lemma loop_after sched : forall kv a reply fuel,
  srv_wf kv -> n <= zlen (AckTime kv) -> slot kv c = Some a -> AckID a = t + 1 ->
  r_Value reply = "" -> others_ok n c sched ->
  (1 <= answered sched)%nat -> (length sched <= fuel)%nat ->
  exists used sched' kv', sched = used ++ sched'
    /\ srv_run kv (reqs used) = Some kv' /\ grows c kv kv'
    /\ loop fuel kv sched reply = Some (mkNet kv' sched', mkClerk c (t + 1), ValueBuffer a).
Proof.
  induction sched as [|[others fate] sched IH]; intros kv a reply fuel Hwf Hn Hs Ha Hv Ho Hans Hf;
    [simpl in Hans; lia|].
  destruct fuel as [|fuel]; simpl in Hf; [lia|]. apply Forall_cons in Ho as [Ho Hos]. simpl in Ho.
  destruct (srv_run_others n c kv others Hwf Hn Ho) as (kv1 & Hr & Hg).
  pose proof (grows_slot _ _ _ Hg _ Hs) as Hs1. pose proof (grows_wf _ _ _ Hg Hwf) as Hwf1.
  pose proof (grows_len _ _ _ Hg) as Hlen.
  destruct (exec_again op key value c t kv1 a Hop ltac:(lia) Hs1 Ha) as (r & Hm & He).
  pose proof (fun f => net_call_run kv others f sched kv1 r kv1 _ op _ Hr Hm He) as Hcall.
  destruct (decide (fate = Delivered)) as [->|Hfate].
  - exists [(others, Delivered)], sched, kv1. split; [done|]. unfold reqs. simpl. rewrite app_nil_r.
    split; [done|]. split; [done|]. apply loop_answered; [apply (Hcall Delivered)|done|done|lia].
  - assert (answered ((others, fate) :: sched) = answered sched) as Hsame by (by destruct fate).
    destruct (IH kv1 a reply fuel) as (used & sched' & kv' & -> & Hrun & Hg' & Hl); [done|lia|done..|lia|lia|].
    exists ((others, fate) :: used), sched', kv'. split; [done|]. unfold reqs. simpl.
    rewrite (srv_run_app _ _ _ _ Hr). split; [done|]. split; [by etrans|].
    rewrite <- Hl. apply loop_unanswered. rewrite (Hcall fate). by destruct fate.
Qed.

(** Before it has taken effect: the first copy that reaches the server does. *)
Lemma loop_before sched : forall kv reply fuel,
  srv_wf kv -> n <= zlen (AckTime kv) -> registered kv c t ->
  r_Value reply = "" -> others_ok n c sched ->
  (1 <= answered sched)%nat -> (length sched <= fuel)%nat ->
  exists used sched' kv' ret, sched = used ++ sched'
    /\ loop fuel kv sched reply = Some (mkNet kv' sched', mkClerk c (t + 1), ret)
    /\ once kv (reqs used) op key value c t kv' ret
    /\ registered kv' c (t + 1) /\ srv_wf kv'.
Proof.
  induction sched as [|[others fate] sched IH]; intros kv reply fuel Hwf Hn Hreg Hv Ho Hans Hf;
    [simpl in Hans; lia|].
  destruct fuel as [|fuel]; simpl in Hf; [lia|]. apply Forall_cons in Ho as [Ho Hos]. simpl in Ho.
  destruct (srv_run_others n c kv others Hwf Hn Ho) as (kv1 & Hr & Hg).
  destruct Hreg as (a & Hs & Ha). pose proof (grows_slot _ _ _ Hg _ Hs) as Hs1.
  pose proof (grows_wf _ _ _ Hg Hwf) as Hwf1. pose proof (grows_len _ _ _ Hg) as Hlen.
  destruct (exec_fresh op key value c t kv1 a Hop ltac:(lia) Hwf1 Hs1 Ha)
    as (r & kv2 & rep & a' & Hm & He & Hrep & Hs2 & Ha2 & Hrem & Hwf2 & Hlen2 & Hstep & Hkeys).
  pose proof (fun f => net_call_run kv others f sched kv1 r kv2 _ op _ Hr Hm He) as Hcall.
  assert (Honce : forall post kv' ret, (op = "Append" -> ret = read kv1 key) ->
            srv_run kv2 post = Some kv' -> once kv (others ++ post) op key value c t kv' ret).
  { intros post kv' ret Hret Hpost. exists others, post, kv1, r, rep, kv2. repeat (split; [done|]).
    split; [by apply (Step_answer _ _ _ _ ret)|done]. }
  destruct fate; simpl in Hans.
  - destruct (IH kv1 reply fuel) as (used & sched' & kv' & ret & -> & Hl & Hon & Hreg' & Hwf');
      [done|lia|by exists a|done|done|lia|lia|].
    exists ((others, Lost) :: used), sched', kv', ret. split; [done|].
    split; [rewrite <- Hl; apply loop_unanswered; apply (Hcall Lost)|].
    split; [|done]. by apply (once_later _ _ kv1).
  - destruct (loop_after sched kv2 a' reply fuel) as (used & sched' & kv' & -> & Hrun & Hg' & Hl);
      [done|lia|done..|lia|].
    exists ((others, ReplyLost) :: used), sched', kv', (ValueBuffer a'). split; [done|].
    split; [rewrite <- Hl; apply loop_unanswered; apply (Hcall ReplyLost)|].
    split; [by apply Honce|]. split; [exists a'; split; [by apply Hg'|done]|by apply Hg'].
  - exists [(others, Delivered)], sched, kv2, (read kv1 key). split; [done|].
    split; [apply loop_answered; [rewrite <- Hrep; apply (Hcall Delivered)|done|done|lia]|].
    unfold reqs. simpl. split; [by apply Honce|]. split; [by exists a'|done].
Qed.
End Loop.

(** The requests [rs] of the others with copies of [reg] anywhere between them. *)
Inductive interleaved (reg : Req) : list Req -> list Req -> Prop :=
  | il_nil : interleaved reg [] []
  | il_other r rs all : interleaved reg rs all -> interleaved reg (r :: rs) (r :: all)
  | il_own rs all : interleaved reg rs all -> interleaved reg rs (reg :: all).

Lemma interleaved_refl reg rs : interleaved reg rs rs.
Proof. induction rs; constructor; done. Qed.

Lemma interleaved_app reg l rs all : interleaved reg rs all -> interleaved reg (l ++ rs) (l ++ all).
Proof. induction l; simpl; [done|]. intros. constructor. auto. Qed.

(** Requests of others stay requests of others when a new client takes a later slot. *)
Lemma others_ok_new n c c' sched : n <= c' -> others_ok n c sched -> others_ok n c' sched.
Proof.
  intros Hc Ho. eapply Forall_impl; [exact Ho|]. intros [rs fate] Hrs.
  eapply Forall_impl; [exact Hrs|]. intros r [Hr|[Hr _]]; [by left|right; lia].
Qed.

(** One round of a clerk without an id: whatever reaches the server adds one client. *)
Lemma register_round op key value n t reg kv others :
  is_op op -> method op (own op key value (-1) t) = Some reg ->
  srv_wf kv -> n <= zlen (AckTime kv) -> Forall (other n (-1)) others ->
  exists kv1 kv2 c, srv_run kv others = Some kv1 /\ srv_run kv (others ++ [reg]) = Some kv2
    /\ srv_wf kv1 /\ srv_wf kv2 /\ n <= zlen (AckTime kv1) /\ n <= zlen (AckTime kv2)
    /\ n <= c /\ 0 <= c /\ registered kv2 c t
    /\ exec kv1 reg = Some (kv2, mkPutAppendReply "" c t).
Proof.
  intros Hop Hreg Hwf Hn Ho.
  destruct (srv_run_others n (-1) kv others Hwf Hn Ho) as (kv1 & Hr & Hg).
  pose proof (grows_wf _ _ _ Hg Hwf) as Hwf1. pose proof (grows_len _ _ _ Hg) as Hlen.
  destruct (exec_register op key value t kv1 Hop Hwf1) as (r & Hm & He).
  assert (r = reg) as -> by congruence. pose proof (zlen_nonneg (AckTime kv1)) as Hp.
  exists kv1, (NewClient kv1 t).1, (zlen (AckTime kv1)). split; [done|].
  split; [rewrite (srv_run_app _ _ _ _ Hr), (srv_run_cons _ _ _ _ _ He); done|].
  split; [done|]. unfold srv_wf. simpl. autorewrite with zlen. rewrite Hwf1.
  repeat (split; [lia|]). split; [|unfold NewClient in He; simpl in He; by rewrite Hwf1 in He].
  exists (mkClientAckTime t ""). split; [|done]. unfold slot. rewrite slice_get_Some. split; [lia|].
  unfold zlen. simpl. rewrite Nat2Z.id. by apply list_lookup_middle.
Qed.

(** The answer to a registration gives the clerk its id. *)
Lemma loop_registered fuel w w' c t op key value :
  net_call w op (own op key value (-1) t) = Some (w', Some (mkPutAppendReply "" c t)) ->
  exists reply, r_Value reply = "" /\
    PutAppend_loop net_call (S fuel) w (mkClerk (-1) t) (own op key value (-1) t)
      (mkPutAppendReply "" 0 0) op
    = PutAppend_loop net_call fuel w' (mkClerk c t) (own op key value c t) reply op.
Proof.
  intros Hw. exists (gob_into (mkPutAppendReply "" 0 0) (mkPutAppendReply "" c t)). split; [done|].
  unfold PutAppend_loop at 1; fold (@PutAppend_loop Net net_call). rewrite Hw.
  cbn [mbind option_bind ck_ClientId ck_TransactionId]. rewrite Z.eqb_refl.
  assert (r_ClientId (gob_into (mkPutAppendReply "" 0 0) (mkPutAppendReply "" c t)) = c) as ->; [|done].
  unfold gob_into. simpl. by destruct (Z.eqb_spec c 0).
Qed.

(** A clerk without an id first registers, then its request takes effect once. *)
Lemma loop_fresh op key value n t reg : is_op op -> 0 <= t ->
  method op (own op key value (-1) t) = Some reg ->
  forall sched kv fuel, srv_wf kv -> n <= zlen (AckTime kv) -> others_ok n (-1) sched ->
  (2 <= answered sched)%nat -> (length sched <= fuel)%nat ->
  exists used sched' all c kv' ret, sched = used ++ sched' /\ interleaved reg (reqs used) all
    /\ PutAppend_loop net_call fuel (mkNet kv sched) (mkClerk (-1) t) (own op key value (-1) t)
         (mkPutAppendReply "" 0 0) op = Some (mkNet kv' sched', mkClerk c (t + 1), ret)
    /\ once kv all op key value c t kv' ret /\ registered kv' c (t + 1) /\ srv_wf kv'.
Proof.
  intros Hop Ht Hreg. induction sched as [|[others fate] sched IH]; intros kv fuel Hwf Hn Ho Hans Hf;
    [simpl in Hans; lia|].
  destruct fuel as [|fuel]; simpl in Hf; [lia|]. apply Forall_cons in Ho as [Ho Hos]. simpl in Ho.
  destruct (register_round op key value n t reg kv others Hop Hreg Hwf Hn Ho)
    as (kv1 & kv2 & c & Hr & Hr2 & Hwf1 & Hwf2 & Hlen1 & Hlen2 & Hnc & Hc & Hnew & He).
  pose proof (fun f => net_call_run kv others f sched kv1 reg kv2 _ op _ Hr Hreg He) as Hcall.
  destruct fate; simpl in Hans.
  - destruct (IH kv1 fuel) as (used & sched' & all & c' & kv' & ret & -> & Hi & Hl & Hon & Hrest);
      [done|lia|done|lia|lia|].
    exists ((others, Lost) :: used), sched', (others ++ all), c', kv', ret. split; [done|].
    split; [by apply interleaved_app|].
    split; [rewrite <- Hl; apply loop_unanswered; apply (Hcall Lost)|].
    split; [by apply (once_later _ _ kv1)|done].
  - destruct (IH kv2 fuel) as (used & sched' & all & c' & kv' & ret & -> & Hi & Hl & Hon & Hrest);
      [done|lia|done|lia|lia|].
    exists ((others, ReplyLost) :: used), sched', (others ++ reg :: all), c', kv', ret. split; [done|].
    split; [apply interleaved_app; by constructor|].
    split; [rewrite <- Hl; apply loop_unanswered; apply (Hcall ReplyLost)|].
    split; [|done]. rewrite cons_middle, app_assoc. by apply (once_later _ _ kv2).
  - destruct (loop_registered fuel _ _ c t op key value (Hcall Delivered)) as (reply & Hv & Hstep).
    destruct (loop_before op key value n c t Hop Hc Ht sched kv2 reply fuel)
      as (used & sched' & kv' & ret & -> & Hl & Hon & Hrest);
      [done|lia|done|done|by apply (others_ok_new n (-1))|lia|lia|].
    exists ((others, Delivered) :: used), sched', (others ++ reg :: reqs used), c, kv', ret.
    split; [done|]. split; [apply interleaved_app; constructor; apply interleaved_refl|].
    split; [by rewrite <- Hl|]. split; [|done].
    rewrite cons_middle, app_assoc. by apply (once_later _ _ kv2).
Qed.

(** What a clerk knows: it has no id yet, or the server expects its next transaction. *)
Definition clerk_ok kv (ck : Clerk) : Prop :=
  0 <= ck_TransactionId ck
  /\ (ck_ClientId ck = -1 \/ 0 <= ck_ClientId ck /\ registered kv (ck_ClientId ck) (ck_TransactionId ck)).

(** A new clerk spends one reply on its registration. *)
Definition replies_needed (ck : Clerk) : nat := if ck_ClientId ck =? -1 then 2 else 1.

(** C30: exactly once.  A clerk (registered or new) calls [PutAppend] over a network that loses
    any of its requests and replies, while other clients run any requests in between.  If one
    request of a registered clerk, or two of a new one, are answered at all, the call returns;
    the server then has executed the requests of the others, possibly some registrations that
    write no key, and the clerk's operation exactly once, at a point where the sequential
    specification of models/kv.go accepts the returned value; and the clerk can go on. *)
Theorem clerk_exactly_once op key value kv ck sched fuel :
  is_op op -> srv_wf kv -> clerk_ok kv ck ->
  others_ok (zlen (AckTime kv)) (ck_ClientId ck) sched ->
  (replies_needed ck <= answered sched)%nat ->
  (length sched <= fuel)%nat ->
  exists reg used sched' all ck' kv' ret,
    method op (own op key value (-1) (ck_TransactionId ck)) = Some reg
    /\ PutAppend net_call fuel (mkNet kv sched) ck key value op = Some (mkNet kv' sched', ck', ret)
    /\ sched = used ++ sched' /\ interleaved reg (reqs used) all
    /\ (ck_ClientId ck <> -1 -> all = reqs used /\ ck_ClientId ck' = ck_ClientId ck)
    /\ once kv all op key value (ck_ClientId ck') (ck_TransactionId ck) kv' ret
    /\ srv_wf kv' /\ clerk_ok kv' ck' /\ ck_ClientId ck' <> -1.
Proof.
  intros Hop Hwf (Ht & Hck) Ho Hans Hf. destruct ck as [c t].
  unfold replies_needed in Hans. simpl in *.
  destruct (exec_register op key value t kv Hop Hwf) as (reg & Hreg & _).
  assert (Hslot : forall kv' c', registered kv' c' (t + 1) -> 0 <= c').
  { intros kv' c' (a & Hs & _). apply slice_get_lt in Hs. lia. }
  destruct Hck as [->|[Hc Hr]]; [|destruct (Z.eqb_spec c (-1)); [lia|]].
  - destruct (loop_fresh op key value _ t reg Hop Ht Hreg sched kv fuel Hwf ltac:(reflexivity) Ho Hans Hf)
      as (used & sched' & all & c & kv' & ret & Hu & Hi & Hl & Hon & Hr & Hwf').
    exists reg, used, sched', all, (mkClerk c (t + 1)), kv', ret. pose proof (Hslot _ _ Hr) as Hc.
    repeat (split; [done|]). split; [split; simpl; [lia|by right]|simpl; lia].
  - destruct (loop_before op key value _ c t Hop Hc Ht sched kv (mkPutAppendReply "" 0 0) fuel Hwf
      ltac:(reflexivity) Hr eq_refl Ho Hans Hf) as (used & sched' & kv' & ret & Hu & Hl & Hon & Hr' & Hwf').
    exists reg, used, sched', (reqs used), (mkClerk c (t + 1)), kv', ret.
    repeat (split; [done|]). split; [apply interleaved_refl|].
    repeat (split; [done|]). split; [split; simpl; [lia|by right]|simpl; lia].
Qed.

(** A new clerk appends while another client, already registered, puts: the first registration
    and the first copy of the request lose their replies. *)
Definition busy : KVServer := mkKVServer {["x" := "a"]} [mkClientAckTime 0 ""] 1.
Definition rival : Req := RPut (mkPutAppendArgs "x" "b" Puttype 0 0).
Definition rounds : list (list Req * Fate) :=
  [([], ReplyLost); ([], Delivered); ([rival], ReplyLost); ([rival], Delivered)].

Lemma clerk_exactly_once_witness :
  exists kv' ck', PutAppend net_call 4 (mkNet busy rounds) MakeClerk "x" "c" "Append"
                  = Some (mkNet kv' [], ck', "b")
    /\ KeyValue kv' = {["x" := "bc"]}.
Proof.
  destruct (clerk_exactly_once "Append" "x" "c" busy MakeClerk rounds 4)
    as (reg & used & sched' & all & ck' & kv' & ret & _ & Hl & _).
  - by right.
  - reflexivity.
  - split; [done|by left].
  - assert (other 1 (-1) rival) by (right; simpl; lia).
    repeat (apply Forall_cons_2; [cbn [fst]; by repeat (apply Forall_cons_2 || apply Forall_nil_2)|]).
    apply Forall_nil_2.
  - vm_compute. lia.
  - vm_compute. lia.
  - vm_compute in Hl. injection Hl as <- <- <- <-. eexists _, _. split; vm_compute; reflexivity.
Defined.
