(* ===== verification/MrCoordinator.v ===== *)
(** * The MapReduce coordinator: src/src/mr/coordinator.go

    The goroutine [schedule] owns the coordinator's state and serves one message at a time
    from [heartbeatCh] and [reportCh]; a step here is one message.  [HeartBeat] and [Report]
    only hand their message to that goroutine and wait for it.  A response points into
    [c.tasks] ([TtaskPtr = &(c.tasks[i])]): the model keeps the index. *)

From S2P Require Import Prelude.

Inductive taskStatus := Idle | Paused | Running | Finished.
Inductive SchedulePhase := Map | Reduce | Done.
Inductive JobType := MapJob | ReduceJob | WaitJob | CompleteJob.

#[export] Instance taskStatus_eq_dec : EqDecision taskStatus.
Proof. solve_decision. Defined.
#[export] Instance SchedulePhase_eq_dec : EqDecision SchedulePhase.
Proof. solve_decision. Defined.
#[export] Instance JobType_eq_dec : EqDecision JobType.
Proof. solve_decision. Defined.

(** [StartTime] in Unix seconds, the only unit the code looks at. *)
Record Task := mkTask { FileName : string; Id : Z; StartTime : Z; Sstatus : taskStatus }.

Record Coordinator := mkCoordinator {
  files : list string; NnReduce : Z; nMap : Z; phase : SchedulePhase; tasks : list Task }.

Record ReportRequest := mkReportRequest {
  rq_JjobType : JobType; rq_TtaskId : Z; rq_Sstatus : taskStatus }.

Record HeartbeatResponse := mkHeartbeatResponse {
  JjobType : JobType; TtaskId : Z; TtaskPtr : option Z; rs_NnReduce : Z }.

Definition set_phase (c : Coordinator) (p : SchedulePhase) : Coordinator :=
  mkCoordinator (files c) (NnReduce c) (nMap c) p (tasks c).
Definition set_tasks (c : Coordinator) (ts : list Task) : Coordinator :=
  mkCoordinator (files c) (NnReduce c) (nMap c) (phase c) ts.
Definition set_Sstatus (t : Task) (s : taskStatus) : Task :=
  mkTask (FileName t) (Id t) (StartTime t) s.
Definition set_StartTime (t : Task) (x : Z) : Task := mkTask (FileName t) (Id t) x (Sstatus t).

(** Can the task be handed out at time [now]?  The task as it then is. *)
Definition assign (now : Z) (t : Task) : option Task :=
  match Sstatus t with
  | Idle | Paused => Some (set_StartTime (set_Sstatus t Running) now)
  | Running => if now - StartTime t >? 10 then Some (set_StartTime t now) else None
  | Finished => None
  end.

(** The loops over the map tasks ([base = 0]) and over the reduce tasks ([base = c.nMap]):
    [clock i] is what [time.Now().Unix()] returns when task [i] is looked at.  The result is
    the index in the phase of the task handed out, and the new tasks. *)
Fixpoint scan (clock : Z -> Z) (base index : Z) (n : nat) (ts : list Task)
    : option (option (Z * list Task)) :=
  match n with
  | O => Some None
  | S n =>
      t ← slice_get ts (base + index);
      match assign (clock (base + index)) t with
      | Some t' => ts ← slice_set ts (base + index) t'; Some (Some (index, ts))
      | None => scan clock base (index + 1) n ts
      end
  end.

(** [case msg := <- c.heartbeatCh]. *)
Definition heartbeat (clock : Z -> Z) (c : Coordinator)
    : option (Coordinator * HeartbeatResponse) :=
  let wait := mkHeartbeatResponse WaitJob 0 None (NnReduce c) in
  match phase c with
  | Done => Some (c, mkHeartbeatResponse CompleteJob 0 None (NnReduce c))
  | Map =>
      r ← scan clock 0 0 (Z.to_nat (nMap c)) (tasks c);
      match r with
      | Some (i, ts) =>
          Some (set_tasks c ts, mkHeartbeatResponse MapJob i (Some i) (NnReduce c))
      | None => Some (c, wait)
      end
  | Reduce =>
      r ← scan clock (nMap c) 0 (Z.to_nat (NnReduce c)) (tasks c);
      match r with
      | Some (index, ts) =>
          Some (set_tasks c ts,
                mkHeartbeatResponse ReduceJob index (Some (index + nMap c)) (NnReduce c))
      | None => Some (c, wait)
      end
  end.

(** The loops that look for a task that is not [Finished]. *)
Fixpoint all_finished (ts : list Task) (i : Z) (n : nat) : option bool :=
  match n with
  | O => Some true
  | S n =>
      t ← slice_get ts i;
      if decide (Sstatus t = Finished) then all_finished ts (i + 1) n else Some false
  end.

(** [case msg := <- c.reportCh]. *)
Definition report (c : Coordinator) (request : ReportRequest) : option Coordinator :=
  let taskIdTemp := if decide (rq_JjobType request = ReduceJob)
                    then rq_TtaskId request + nMap c else rq_TtaskId request in
  t ← slice_get (tasks c) taskIdTemp;
  ts ← slice_set (tasks c) taskIdTemp (set_Sstatus t Finished);
  let c := set_tasks c ts in
  c ← (if decide (phase c = Reduce) then
         flag2Change ← all_finished (tasks c) (nMap c) (Z.to_nat (NnReduce c));
         Some (if flag2Change : bool then set_phase c Done else c)
       else Some c);
  if decide (phase c = Map) then
    flag2Change ← all_finished (tasks c) 0 (Z.to_nat (nMap c));
    Some (if flag2Change : bool then set_phase c Reduce else c)
  else Some c.

(** [Done()], which main/mrcoordinator.go polls. *)
Definition Coordinator_Done (c : Coordinator) : bool := bool_decide (phase c = Done).

Definition MakeCoordinator (fs : list string) (nReduce now : Z) : Coordinator :=
  mkCoordinator fs nReduce (zlen fs) Map
    (imap (fun i f => mkTask f (Z.of_nat i) now Idle) fs
     ++ map (fun i => mkTask "" (Z.of_nat i) now Idle) (seq (length fs) (Z.to_nat nReduce))).

(** ** Workers

    A worker asks for a task, runs it and reports it ([mr/worker.go], [Worker]).  It may
    report late, more than once after a retry, or never.  [w_given] holds the responses so
    far: the event [EReport k] is the report for the [k]-th of them.  [w_reported] are the
    indices of the tasks reported so far. *)

Record MrWorld := mkMrWorld {
  w_coord : Coordinator; w_given : list HeartbeatResponse; w_reported : list Z }.

Inductive MrEvent := EHeartBeat (clock : Z -> Z) | EReport (k : nat).

(** The index in [c.tasks] of the task of a response; none for [WaitJob] and [CompleteJob],
    which the worker does not report. *)
Definition job_index (c : Coordinator) (r : HeartbeatResponse) : option Z :=
  match JjobType r with
  | MapJob => Some (TtaskId r)
  | ReduceJob => Some (TtaskId r + nMap c)
  | _ => None
  end.

Definition mr_step (w : MrWorld) (e : MrEvent) : option MrWorld :=
  match e with
  | EHeartBeat clock =>
      '(c, r) ← heartbeat clock (w_coord w);
      Some (mkMrWorld c (w_given w ++ [r]) (w_reported w))
  | EReport k =>
      match w_given w !! k with
      | None => Some w
      | Some r =>
          match job_index (w_coord w) r with
          | None => Some w
          | Some i =>
              c ← report (w_coord w) (mkReportRequest (JjobType r) (TtaskId r) Finished);
              Some (mkMrWorld c (w_given w) (w_reported w ++ [i]))
          end
      end
  end.

Definition mr_run (w : MrWorld) (es : list MrEvent) : option MrWorld := run_steps mr_step w es.

Definition mr_start (fs : list string) (nReduce now : Z) : MrWorld :=
  mkMrWorld (MakeCoordinator fs nReduce now) [] [].

Implicit Types (c : Coordinator) (ts : list Task) (w : MrWorld).

(** ** The scheduling loops *)

(** The tasks from [lo] to before [hi] are all [Finished]. *)
Definition finished ts (lo hi : Z) : Prop :=
  forall i, lo <= i < hi -> exists t, slice_get ts i = Some t /\ Sstatus t = Finished.

Definition unfinished ts (lo hi : Z) : Prop :=
  exists i t, lo <= i < hi /\ slice_get ts i = Some t /\ Sstatus t <> Finished.

Lemma all_finished_spec ts n : forall i, 0 <= i -> i + Z.of_nat n <= zlen ts ->
  all_finished ts i n = Some true /\ finished ts i (i + Z.of_nat n)
  \/ all_finished ts i n = Some false /\ unfinished ts i (i + Z.of_nat n).
Proof.
  induction n as [|n IH]; intros i Hi Hn; [left; split; [done|]; intros j Hj; lia|].
  destruct (slice_get_total ts i ltac:(lia)) as [t Ht]. simpl. rewrite Ht. simpl.
  case_decide as Hs; [|right; split; [done|]; exists i, t; split; [lia|done]].
  destruct (IH (i + 1)) as [[-> Hf]|[-> (j & u & Hj & Hu)]]; [lia|lia| |].
  - left. split; [done|]. intros j Hj. destruct (decide (j = i)) as [->|]; [by exists t|].
    apply Hf. lia.
  - right. split; [done|]. exists j, u. split; [lia|done].
Qed.

(** What handing a task out changes, and when it is allowed. *)
Lemma assign_Some now t t' :
  assign now t = Some t' ->
  Sstatus t <> Finished /\ Sstatus t' = Running /\ StartTime t' = now
  /\ Id t' = Id t /\ FileName t' = FileName t
  /\ (Sstatus t = Running -> StartTime t + 10 < now).
Proof.
  unfold assign. destruct (Sstatus t) eqn:Hs; intros Ha; simplify_eq; [done..|].
  go_if_in Ha; simplify_eq. repeat (split; [done|]). intros _. lia.
Qed.

Lemma assign_None now t :
  assign now t = None -> Sstatus t = Finished \/ Sstatus t = Running /\ now <= StartTime t + 10.
Proof.
  unfold assign. destruct (Sstatus t) eqn:Hs; intros Ha; simplify_eq; [|by left].
  right. split; [done|]. go_if_in Ha; simplify_eq. lia.
Qed.

(** The loop hands out the first task that can be. *)
Lemma scan_spec clock base ts n : forall index, 0 <= base + index ->
  base + index + Z.of_nat n <= zlen ts ->
  (scan clock base index n ts = Some None
   /\ forall i t, index <= i < index + Z.of_nat n -> slice_get ts (base + i) = Some t ->
        assign (clock (base + i)) t = None)
  \/ exists i t t', index <= i < index + Z.of_nat n /\ slice_get ts (base + i) = Some t
       /\ assign (clock (base + i)) t = Some t'
       /\ scan clock base index n ts = Some (Some (i, <[Z.to_nat (base + i) := t']> ts)).
Proof.
  induction n as [|n IH]; intros index Hi Hn; [left; split; [done|]; intros; lia|].
  destruct (slice_get_total ts (base + index) ltac:(lia)) as [t Ht]. simpl. rewrite Ht. simpl.
  destruct (assign (clock (base + index)) t) as [t'|] eqn:Ha.
  - right. exists index, t, t'. rewrite slice_set_Some by lia. repeat split; auto; lia.
  - destruct (IH (index + 1)) as [[-> Hno]|(i & u & u' & Hr & Hu & Hau & ->)]; [lia|lia| |].
    + left. split; [done|]. intros i u Hr Hu. destruct (decide (i = index)) as [->|]; [congruence|].
      apply (Hno i); [lia|done].
    + right. exists i, u, u'. repeat split; auto; lia.
Qed.

Lemma get_upd {A} (l : list A) k x i :
  0 <= k < zlen l ->
  slice_get (<[Z.to_nat k := x]> l) i = if decide (i = k) then Some x else slice_get l i.
Proof.
  unfold slice_get, zlen. intros Hk. case_decide as Hi; destruct (Z.ltb_spec i 0); try lia; try done.
  - subst. apply list_lookup_insert_eq. lia.
  - apply list_lookup_insert_ne. lia.
Qed.

(** ** The invariant *)

(** The tasks of the current phase, as a range of [c.tasks]. *)
Definition phase_lo c : Z := match phase c with Map => 0 | _ => nMap c end.
Definition phase_hi c : Z := match phase c with Map => nMap c | _ => nMap c + NnReduce c end.

(** In the map phase no reduce task was ever handed out; the reduce phase starts when all map
    tasks are finished; while a phase lasts it has an unfinished task (if it has tasks). *)
Definition phase_wf c : Prop :=
  match phase c with
  | Map => (forall i t, nMap c <= i -> slice_get (tasks c) i = Some t -> Sstatus t = Idle)
           /\ (0 < nMap c -> unfinished (tasks c) 0 (nMap c))
  | Reduce => finished (tasks c) 0 (nMap c)
              /\ (0 < NnReduce c -> unfinished (tasks c) (nMap c) (nMap c + NnReduce c))
  | Done => finished (tasks c) 0 (nMap c + NnReduce c)
  end.

Record coord_wf c : Prop := mkCoordWf {
  cw_nMap : nMap c = zlen (files c);
  cw_red : 0 <= NnReduce c;
  cw_len : zlen (tasks c) = nMap c + NnReduce c;
  cw_task : forall i t, slice_get (tasks c) i = Some t ->
              Id t = i /\ FileName t = default "" (files c !! Z.to_nat i);
  cw_phase : phase_wf c }.

(** The same job, tasks with the same names. *)
Lemma coord_wf_update c i t t' p :
  coord_wf c -> slice_get (tasks c) i = Some t -> Id t' = Id t -> FileName t' = FileName t ->
  phase_wf (set_phase (set_tasks c (<[Z.to_nat i := t']> (tasks c))) p) ->
  coord_wf (set_phase (set_tasks c (<[Z.to_nat i := t']> (tasks c))) p).
Proof.
  intros Hc Ht Hid Hf Hp. pose proof (slice_get_lt _ _ _ Ht) as Hi.
  split; simpl; try apply Hc; [|intros j u|done].
  - rewrite zlen_insert. apply Hc.
  - rewrite get_upd by done. case_decide as Hj; [|apply Hc].
    intros [= <-]. subst j. rewrite Hid, Hf. by apply (cw_task _ Hc).
Qed.

(** ** A heartbeat *)

(** What the coordinator answers at [clock], and its state after it. *)
Inductive answer (clock : Z -> Z) c : HeartbeatResponse -> Coordinator -> Prop :=
  | answer_complete : phase c = Done ->
      answer clock c (mkHeartbeatResponse CompleteJob 0 None (NnReduce c)) c
  | answer_wait : phase c <> Done ->
      (forall i t, phase_lo c <= i < phase_hi c -> slice_get (tasks c) i = Some t ->
         assign (clock i) t = None) ->
      answer clock c (mkHeartbeatResponse WaitJob 0 None (NnReduce c)) c
  | answer_job i t t' : phase c <> Done -> phase_lo c <= i < phase_hi c ->
      slice_get (tasks c) i = Some t -> assign (clock i) t = Some t' ->
      answer clock c
        (mkHeartbeatResponse (if decide (phase c = Map) then MapJob else ReduceJob)
           (i - phase_lo c) (Some i) (NnReduce c))
        (set_tasks c (<[Z.to_nat i := t']> (tasks c))).

Lemma heartbeat_answers clock c :
  coord_wf c -> exists c' r, heartbeat clock c = Some (c', r) /\ answer clock c r c'.
Proof.
  intros Hc. pose proof (zlen_nonneg (files c)) as Hfs. pose proof (cw_nMap _ Hc) as Hn.
  pose proof (cw_red _ Hc) as Hr. pose proof (cw_len _ Hc) as Hlen. unfold heartbeat.
  destruct (phase c) eqn:Hp.
  - destruct (scan_spec clock 0 (tasks c) (Z.to_nat (nMap c)) 0)
      as [[-> Hno]|(i & t & t' & Hi & Ht & Ha & ->)]; [lia|lia| |]; simpl; eexists _, _; (split; [done|]).
    + apply answer_wait; [congruence|]. unfold phase_lo, phase_hi. rewrite Hp. intros i t Hi Ht.
      apply (Hno i); [lia|done].
    + pose proof (answer_job clock c i t t') as Hj. unfold phase_lo, phase_hi in Hj. rewrite Hp in Hj.
      rewrite Z.sub_0_r in Hj. apply Hj; [done|lia|done|done].
  - destruct (scan_spec clock (nMap c) (tasks c) (Z.to_nat (NnReduce c)) 0)
      as [[-> Hno]|(i & t & t' & Hi & Ht & Ha & ->)]; [lia|lia| |]; simpl; eexists _, _; (split; [done|]).
    + apply answer_wait; [congruence|]. unfold phase_lo, phase_hi. rewrite Hp. intros i t Hi Ht.
      replace i with (nMap c + (i - nMap c)) in Ht |- * by lia. apply Hno; [lia|done].
    + pose proof (answer_job clock c (nMap c + i) t t') as Hj. unfold phase_lo, phase_hi in Hj.
      rewrite Hp in Hj. replace (nMap c + i - nMap c) with i in Hj by lia.
      rewrite (Z.add_comm i (nMap c)). apply Hj; [done|lia|done|done].
  - eexists _, _. split; [done|]. by constructor.
Qed.

Lemma unfinished_upd ts i t t' lo hi :
  slice_get ts i = Some t -> Sstatus t' <> Finished -> unfinished ts lo hi ->
  unfinished (<[Z.to_nat i := t']> ts) lo hi.
Proof.
  intros Ht Hs (j & u & Hj & Hu & Hnf). pose proof (slice_get_lt _ _ _ Ht) as Hi.
  exists j. destruct (decide (j = i)) as [->|Hne].
  - exists t'. rewrite get_upd, decide_True by done. done.
  - exists u. rewrite get_upd, decide_False by done. done.
Qed.

Lemma finished_upd ts i t t' lo hi :
  slice_get ts i = Some t -> (lo <= i < hi -> Sstatus t' = Finished) -> finished ts lo hi ->
  finished (<[Z.to_nat i := t']> ts) lo hi.
Proof.
  intros Ht Hs Hf j Hj. pose proof (slice_get_lt _ _ _ Ht) as Hi. rewrite get_upd by done.
  case_decide as Hji; [|by apply Hf]. exists t'. subst. auto.
Qed.

Lemma answer_wf clock c r c' : coord_wf c -> answer clock c r c' -> coord_wf c'.
Proof.
  intros Hc [| |i t t' Hp Hi Ht Ha]; [done..|]. apply assign_Some in Ha as (Hnf & Hrun & _ & Hid & Hf & _).
  apply (coord_wf_update c i t t' (phase c)); try done. pose proof (cw_phase _ Hc) as Hw.
  pose proof (slice_get_lt _ _ _ Ht) as Hlt. unfold phase_lo, phase_hi, phase_wf in *. simpl.
  destruct (phase c); [| |done]; destruct Hw as [H1 H2].
  - split; [|intros H3; apply (unfinished_upd _ _ t); [done|congruence|auto]].
    intros j u Hj. rewrite get_upd by done. case_decide; [lia|by apply H1].
  - split; [apply (finished_upd _ _ t); [done|lia|done]|].
    intros H3. apply (unfinished_upd _ _ t); [done|congruence|auto].
Qed.

(** ** A report *)

Definition phase_rank (p : SchedulePhase) : Z := match p with Map => 0 | Reduce => 1 | Done => 2 end.

(** The request that reports task [i]. *)
Definition report_of c (i : Z) : ReportRequest :=
  if i <? nMap c then mkReportRequest MapJob i Finished
  else mkReportRequest ReduceJob (i - nMap c) Finished.

Lemma report_phase c i t :
  coord_wf c -> slice_get (tasks c) i = Some t -> Sstatus t <> Idle ->
  exists p, report c (report_of c i)
      = Some (set_phase (set_tasks c (<[Z.to_nat i := set_Sstatus t Finished]> (tasks c))) p)
    /\ phase_rank (phase c) <= phase_rank p
    /\ phase_wf (set_phase (set_tasks c (<[Z.to_nat i := set_Sstatus t Finished]> (tasks c))) p).
Proof.
  intros Hc Ht Hidle. pose proof (slice_get_lt _ _ _ Ht) as Hlt.
  pose proof (cw_len _ Hc) as Hlen. pose proof (cw_red _ Hc) as Hred.
  pose proof (cw_phase _ Hc) as Hw. pose proof (zlen_nonneg (files c)) as Hfs.
  rewrite <- (cw_nMap _ Hc) in Hfs. set (t' := set_Sstatus t Finished).
  assert (Hid : (if decide (rq_JjobType (report_of c i) = ReduceJob)
                 then rq_TtaskId (report_of c i) + nMap c else rq_TtaskId (report_of c i)) = i).
  { unfold report_of. destruct (Z.ltb_spec i (nMap c)); simpl; [done|lia]. }
  unfold report. rewrite Hid, Ht. cbn [mbind option_bind]. rewrite slice_set_Some by done.
  cbn [mbind option_bind]. clear Hid. fold t'. set (ts := <[Z.to_nat i := t']> (tasks c)).
  assert (Hzl : zlen ts = nMap c + NnReduce c) by (unfold ts; rewrite zlen_insert; lia).
  unfold phase_wf in Hw. unfold set_tasks, set_phase, phase_wf. simpl. destruct (phase c); simpl.
  - destruct Hw as [Hidles _].
    assert (Hi : i < nMap c) by (destruct (Z.ltb_spec i (nMap c)); [lia|by rewrite (Hidles i t) in Hidle]).
    assert (Hred' : forall j u, nMap c <= j -> slice_get ts j = Some u -> Sstatus u = Idle).
    { intros j u Hj. unfold ts. rewrite get_upd by done. case_decide; [lia|by apply Hidles]. }
    destruct (all_finished_spec ts (Z.to_nat (nMap c)) 0) as [[-> Hf]|[-> Hu]]; [lia|lia| |];
      rewrite Z2Nat.id, Z.add_0_l in * by lia; simpl; eexists; (split; [reflexivity|]); simpl; (split; [lia|]).
    + split; [done|]. intros Hpos. destruct (slice_get_total ts (nMap c) ltac:(lia)) as [u Hu].
      exists (nMap c), u. split; [lia|]. split; [done|]. by rewrite (Hred' (nMap c) u).
    + by split.
  - destruct Hw as [Hf _]. assert (Hf' : finished ts 0 (nMap c)) by (by apply (finished_upd _ _ t)).
    destruct (all_finished_spec ts (Z.to_nat (NnReduce c)) (nMap c)) as [[-> Hd]|[-> Hu]]; [lia|lia| |];
      rewrite Z2Nat.id in * by lia; simpl; eexists; (split; [reflexivity|]); simpl; (split; [lia|]).
    + intros j Hj. destruct (Z.ltb_spec j (nMap c)); [apply Hf'|apply Hd]; lia.
    + by split.
  - eexists. split; [reflexivity|]. simpl. split; [lia|]. by apply (finished_upd _ _ t).
Qed.

Lemma report_wf c i t :
  coord_wf c -> slice_get (tasks c) i = Some t -> Sstatus t <> Idle ->
  exists c' p, report c (report_of c i) = Some c' /\ coord_wf c'
    /\ c' = set_phase (set_tasks c (<[Z.to_nat i := set_Sstatus t Finished]> (tasks c))) p
    /\ phase_rank (phase c) <= phase_rank (phase c').
Proof.
  intros Hc Ht Hidle. destruct (report_phase c i t Hc Ht Hidle) as (p & Hr & Hle & Hw).
  eexists _, p. split; [exact Hr|]. split; [by apply (coord_wf_update c i t)|]. done.
Qed.

(** ** Every run *)

(** The job stays the same, the phase does not go back, and neither does a task. *)
Record advances c c' : Prop := mkAdvances {
  adv_files : files c' = files c;
  adv_red : NnReduce c' = NnReduce c;
  adv_nMap : nMap c' = nMap c;
  adv_phase : phase_rank (phase c) <= phase_rank (phase c');
  adv_task : forall i t, slice_get (tasks c) i = Some t ->
    exists t', slice_get (tasks c') i = Some t' /\ (Sstatus t <> Idle -> Sstatus t' <> Idle)
               /\ (Sstatus t = Finished -> Sstatus t' = Finished) }.

#[export] Instance advances_refl : Reflexive advances.
Proof. intros c. split; try done. intros i t Ht. by exists t. Qed.

#[export] Instance advances_trans : Transitive advances.
Proof.
  intros x y z [] []. split; try congruence; [lia|]. intros i t Ht.
  destruct (adv_task0 i t Ht) as (u & Hu & ? & ?). destruct (adv_task1 i u Hu) as (v & ? & ? & ?).
  exists v. auto.
Qed.

Lemma advances_update c i t t' p :
  slice_get (tasks c) i = Some t -> Sstatus t' <> Idle -> (Sstatus t = Finished -> Sstatus t' = Finished) ->
  phase_rank (phase c) <= phase_rank p ->
  advances c (set_phase (set_tasks c (<[Z.to_nat i := t']> (tasks c))) p).
Proof.
  intros Ht Hi Hf Hp. pose proof (slice_get_lt _ _ _ Ht) as Hlt. split; try done.
  intros j u Hu. simpl. rewrite get_upd by done. case_decide as Hj; [|by exists u].
  subst. exists t'. assert (u = t) as -> by congruence. auto.
Qed.

Lemma answer_advances clock c r c' : answer clock c r c' -> advances c c'.
Proof.
  intros [| |i t t' Hp Hi Ht Ha]; [done..|]. apply assign_Some in Ha as (Hnf & Hrun & _).
  apply (advances_update c i t t' (phase c)); [done|congruence|done|lia].
Qed.

Record world_wf w : Prop := mkWorldWf {
  ww_coord : coord_wf (w_coord w);
  ww_given : forall r i, r ∈ w_given w -> job_index (w_coord w) r = Some i ->
    mkReportRequest (JjobType r) (TtaskId r) Finished = report_of (w_coord w) i
    /\ exists t, slice_get (tasks (w_coord w)) i = Some t /\ Sstatus t <> Idle;
  ww_reported : forall i t, slice_get (tasks (w_coord w)) i = Some t -> Sstatus t = Finished ->
    i ∈ w_reported w }.

Lemma MakeCoordinator_wf fs nReduce now : 0 <= nReduce -> coord_wf (MakeCoordinator fs nReduce now).
Proof.
  intros Hr.
  assert (Htask : forall i t, slice_get (tasks (MakeCoordinator fs nReduce now)) i = Some t ->
    Id t = i /\ FileName t = default "" (fs !! Z.to_nat i) /\ Sstatus t = Idle).
  { intros i t. rewrite slice_get_Some. intros [Hi Ht]. simpl in Ht.
    apply lookup_app_Some in Ht as [Ht|[Hge Ht]].
    - apply list_lookup_imap_Some in Ht as (f & Hf & ->). simpl. rewrite Hf. split; [lia|done].
    - rewrite length_imap in *. rewrite list_lookup_fmap in Ht.
      apply fmap_Some in Ht as (k & Hk & ->). apply lookup_seq in Hk as [-> _]. simpl.
      rewrite lookup_ge_None_2 by lia. split; [lia|done]. }
  assert (Hlen : zlen (tasks (MakeCoordinator fs nReduce now)) = zlen fs + nReduce).
  { simpl. unfold zlen. rewrite length_app, length_imap, length_map, length_seq. lia. }
  split; simpl; try done.
  - intros i t Ht. destruct (Htask i t Ht) as (? & ? & _). done.
  - unfold phase_wf. simpl. split; [intros i t _ Ht; by apply (Htask i t)|].
    intros Hpos. destruct (slice_get_total (tasks (MakeCoordinator fs nReduce now)) 0) as [t Ht];
      [rewrite Hlen; lia|].
    exists 0, t. split; [lia|]. split; [exact Ht|]. destruct (Htask 0 t Ht) as (_ & _ & ->). done.
Qed.

(** The response of a handed out task is the one a worker reports as [report_of]. *)
Lemma answer_job_index clock c r c' i :
  coord_wf c -> answer clock c r c' -> job_index c' r = Some i ->
  mkReportRequest (JjobType r) (TtaskId r) Finished = report_of c' i
  /\ TtaskPtr r = Some i /\ phase_lo c <= i < phase_hi c
  /\ exists t t', slice_get (tasks c) i = Some t /\ assign (clock i) t = Some t'
                  /\ c' = set_tasks c (<[Z.to_nat i := t']> (tasks c)).
Proof.
  intros Hc Ha. pose proof (cw_nMap _ Hc) as Hn. pose proof (zlen_nonneg (files c)) as Hz.
  destruct Ha as [| |j t t' Hp Hj Ht Hass]; [done..|]. unfold job_index. simpl.
  assert (Hrep : mkReportRequest (if decide (phase c = Map) then MapJob else ReduceJob)
            (j - phase_lo c) Finished
          = report_of (set_tasks c (<[Z.to_nat j := t']> (tasks c))) j).
  { unfold report_of, phase_lo, phase_hi in *. simpl. destruct (phase c); simpl.
    - destruct (Z.ltb_spec j (nMap c)); [f_equal; lia|lia].
    - destruct (Z.ltb_spec j (nMap c)); [lia|done].
    - done. }
  intros Hi. assert (i = j) as ->.
  { unfold phase_lo in Hi. destruct (phase c); simpl in Hi; [| |done]; injection Hi as <-; lia. }
  split; [done|]. split; [done|]. split; [done|]. by exists t, t'.
Qed.

Lemma job_index_advances c c' r : advances c c' -> job_index c' r = job_index c r.
Proof. intros Ha. unfold job_index. by rewrite (adv_nMap _ _ Ha). Qed.

(** Responses and reports stay right when the coordinator advances. *)
Lemma given_advances c c' r i :
  advances c c' ->
  (mkReportRequest (JjobType r) (TtaskId r) Finished = report_of c i
   /\ exists t, slice_get (tasks c) i = Some t /\ Sstatus t <> Idle) ->
  mkReportRequest (JjobType r) (TtaskId r) Finished = report_of c' i
  /\ exists t, slice_get (tasks c') i = Some t /\ Sstatus t <> Idle.
Proof.
  intros Ha [Hr (t & Ht & Hi)]. unfold report_of in *. rewrite (adv_nMap _ _ Ha). split; [done|].
  destruct (adv_task _ _ Ha i t Ht) as (t' & Ht' & Hidle & _). exists t'. auto.
Qed.

Lemma mr_heartbeat clock w :
  world_wf w -> exists c' r, heartbeat clock (w_coord w) = Some (c', r)
    /\ answer clock (w_coord w) r c'
    /\ mr_step w (EHeartBeat clock) = Some (mkMrWorld c' (w_given w ++ [r]) (w_reported w))
    /\ world_wf (mkMrWorld c' (w_given w ++ [r]) (w_reported w)).
Proof.
  intros Hw. destruct w as [c given reported]. pose proof (ww_coord _ Hw) as Hc. simpl in *.
  destruct (heartbeat_answers clock c Hc) as (c' & r & Hh & Ha).
  pose proof (answer_advances _ _ _ _ Ha) as Hadv. pose proof (answer_wf _ _ _ _ Hc Ha) as Hc'.
  exists c', r. split; [done|]. split; [done|]. split; [by rewrite Hh|]. split; simpl; [done| |].
  - intros r' i Hr' Hi. apply elem_of_app in Hr' as [Hr'|Hr'%list_elem_of_singleton].
    + apply (given_advances c); [done|]. apply (ww_given _ Hw); [done|].
      simpl. by rewrite <- (job_index_advances c c').
    + subst r'. destruct (answer_job_index clock c r c' i Hc Ha Hi)
        as (Hrep & _ & _ & t & t' & Ht & Hass & ->).
      split; [done|]. exists t'. simpl. apply slice_get_lt in Ht as Hlt.
      rewrite get_upd, decide_True by done. split; [done|].
      apply assign_Some in Hass as (_ & -> & _). done.
  - intros i t Ht Hf. destruct Ha as [| |j u u' Hp Hj Hu Hass]; [by apply (ww_reported _ Hw i t)..|].
    simpl in Ht. apply slice_get_lt in Hu as Hlt. rewrite get_upd in Ht by done.
    case_decide as Hij; [|by apply (ww_reported _ Hw i t)].
    apply assign_Some in Hass as (_ & Hrun & _). congruence.
Qed.

(** A report for a response that named a task. *)
Lemma mr_report w k r i :
  world_wf w -> w_given w !! k = Some r -> job_index (w_coord w) r = Some i ->
  exists t p, slice_get (tasks (w_coord w)) i = Some t
    /\ let c' := set_phase (set_tasks (w_coord w)
                   (<[Z.to_nat i := set_Sstatus t Finished]> (tasks (w_coord w)))) p in
       mr_step w (EReport k) = Some (mkMrWorld c' (w_given w) (w_reported w ++ [i]))
       /\ world_wf (mkMrWorld c' (w_given w) (w_reported w ++ [i]))
       /\ advances (w_coord w) c'.
Proof.
  intros Hw Hk Hi. destruct w as [c given reported]. pose proof (ww_coord _ Hw) as Hc. simpl in *.
  apply list_elem_of_lookup_2 in Hk as Hin.
  destruct (ww_given _ Hw r i Hin Hi) as (Hrep & t & Ht & Hidle). simpl in *.
  destruct (report_wf c i t Hc Ht Hidle) as (c' & p & Hr & Hc' & -> & Hle).
  exists t, p. split; [done|]. rewrite Hk, Hi. simpl. rewrite Hrep, Hr. simpl.
  assert (Hadv : advances c (set_phase (set_tasks c
             (<[Z.to_nat i := set_Sstatus t Finished]> (tasks c))) p))
    by (by apply (advances_update c i t)).
  split; [done|]. split; [|done]. split; simpl; [done| |].
  - intros r' j Hr' Hj. apply (given_advances c); [done|]. apply (ww_given _ Hw); [done|].
    simpl. by rewrite <- (job_index_advances c _ r' Hadv).
  - intros j u Hu Hf. apply slice_get_lt in Ht as Hlt. rewrite get_upd in Hu by done. apply elem_of_app.
    case_decide as Hij; [right; apply list_elem_of_singleton; done|left].
    by apply (ww_reported _ Hw j u).
Qed.

Lemma mr_step_wf w e :
  world_wf w -> exists w', mr_step w e = Some w' /\ world_wf w' /\ advances (w_coord w) (w_coord w').
Proof.
  intros Hw. destruct e as [clock|k].
  - destruct (mr_heartbeat clock w Hw) as (c' & r & _ & Ha & Hs & Hw').
    eexists. split; [exact Hs|]. split; [done|]. by apply (answer_advances clock _ r).
  - destruct (w_given w !! k) as [r|] eqn:Hk; [|exists w; simpl; by rewrite Hk].
    destruct (job_index (w_coord w) r) as [i|] eqn:Hi; [|exists w; simpl; by rewrite Hk, Hi].
    destruct (mr_report w k r i Hw Hk Hi) as (t & p & _ & Hs & Hw' & Hadv). eexists. eauto.
Qed.

Lemma mr_run_wf w es :
  world_wf w -> exists w', mr_run w es = Some w' /\ world_wf w' /\ advances (w_coord w) (w_coord w').
Proof.
  revert w. induction es as [|e es IH]; intros w Hw; [by exists w|].
  destruct (mr_step_wf w e Hw) as (w1 & Hs & Hw1 & Ha1). destruct (IH w1 Hw1) as (w' & Hr & Hw' & Ha').
  exists w'. unfold mr_run. rewrite run_steps_cons, Hs. split; [exact Hr|]. split; [done|by etrans].
Qed.

Lemma mr_start_wf fs nReduce now : 0 <= nReduce -> world_wf (mr_start fs nReduce now).
Proof.
  intros Hr. pose proof (MakeCoordinator_wf fs nReduce now Hr) as Hc. split; [done| |].
  - intros r i Hin. by apply not_elem_of_nil in Hin.
  - intros i t Ht Hf. exfalso. simpl in Ht. apply slice_get_Some in Ht as [_ Ht].
    apply lookup_app_Some in Ht as [Ht|[_ Ht]].
    + apply list_lookup_imap_Some in Ht as (f & _ & ->). done.
    + rewrite list_lookup_fmap in Ht. apply fmap_Some in Ht as (k & _ & ->). done.
Qed.

(** What a response promises the worker about the coordinator [c] that gave it. *)
Definition response_ok (clock : Z -> Z) c (r : HeartbeatResponse) : Prop :=
  match JjobType r with
  | CompleteJob => finished (tasks c) 0 (nMap c + NnReduce c)
  | WaitJob => TtaskPtr r = None
  | MapJob => exists t, TtaskPtr r = Some (TtaskId r) /\ slice_get (tasks c) (TtaskId r) = Some t
      /\ 0 <= TtaskId r < nMap c /\ Id t = TtaskId r /\ files c !! Z.to_nat (TtaskId r) = Some (FileName t)
      /\ Sstatus t <> Finished
      /\ (Sstatus t = Running -> StartTime t + 10 < clock (TtaskId r))
  | ReduceJob => finished (tasks c) 0 (nMap c)
      /\ exists t, TtaskPtr r = Some (TtaskId r + nMap c)
      /\ slice_get (tasks c) (TtaskId r + nMap c) = Some t
      /\ 0 <= TtaskId r < NnReduce c /\ Sstatus t <> Finished
      /\ (Sstatus t = Running -> StartTime t + 10 < clock (TtaskId r + nMap c))
  end.

Lemma answer_response_ok clock c r c' : coord_wf c -> answer clock c r c' -> response_ok clock c r.
Proof.
  intros Hc [Hp|Hp _|i t t' Hp Hi Ht Ha]; unfold response_ok; simpl.
  - pose proof (cw_phase _ Hc) as Hw. unfold phase_wf in Hw. by rewrite Hp in Hw.
  - done.
  - apply assign_Some in Ha as (Hnf & _ & _ & _ & _ & Hlease). pose proof (cw_phase _ Hc) as Hw.
    destruct (cw_task _ Hc i t Ht) as [Hid Hf]. pose proof (cw_nMap _ Hc) as Hn.
    unfold phase_wf, phase_lo, phase_hi in *. destruct (phase c); simpl; [| |done].
    + rewrite Z.sub_0_r. exists t. repeat (split; [done|]). split; [|done].
      destruct (lookup_lt_is_Some_2 (files c) (Z.to_nat i)) as [f Hlf]; [unfold zlen in *; lia|].
      by rewrite Hf, Hlf.
    + destruct Hw as [Hfin _]. split; [done|]. exists t. replace (i - nMap c + nMap c) with i by lia.
      repeat (split; [done|]). split; [lia|done].
Qed.

(** C31: the scheduler is safe.  Whatever heartbeats, reports, repeated reports and crashes
    (missing reports) happen after [MakeCoordinator], [schedule] never panics; the phase never
    goes back; the job has left the map phase only if every map task is [Finished], is done only
    if every task is, and a task is [Finished] only if a worker it was handed to reported it.
    The next heartbeat is always answered: a map task comes with its file, a reduce task only
    after all map tasks finished, a finished task is never handed out again and a running one
    only after ten seconds. *)
Theorem mr_schedule_safe fs nReduce now es es' :
  0 <= nReduce ->
  exists w w', mr_run (mr_start fs nReduce now) es = Some w /\ mr_run w es' = Some w'
    /\ files (w_coord w') = fs /\ NnReduce (w_coord w') = nReduce
    /\ phase_rank (phase (w_coord w)) <= phase_rank (phase (w_coord w'))
    /\ (phase (w_coord w') <> Map -> finished (tasks (w_coord w')) 0 (zlen fs))
    /\ (phase (w_coord w') = Done -> finished (tasks (w_coord w')) 0 (zlen fs + nReduce))
    /\ (forall i t, slice_get (tasks (w_coord w')) i = Some t -> Sstatus t = Finished ->
          i ∈ w_reported w')
    /\ forall clock, exists c r, heartbeat clock (w_coord w') = Some (c, r)
         /\ response_ok clock (w_coord w') r.
Proof.
  intros Hr. destruct (mr_run_wf _ es (mr_start_wf fs nReduce now Hr)) as (w & Hrun & Hw & Ha).
  destruct (mr_run_wf w es' Hw) as (w' & Hrun' & Hw' & Ha').
  exists w, w'. split; [done|]. split; [done|].
  pose proof (adv_files _ _ (transitivity Ha Ha')) as Hfs. pose proof (adv_red _ _ (transitivity Ha Ha')) as Hre.
  pose proof (adv_nMap _ _ (transitivity Ha Ha')) as Hn. simpl in *.
  split; [done|]. split; [done|]. split; [apply Ha'|].
  pose proof (ww_coord _ Hw') as Hc. pose proof (cw_phase _ Hc) as Hph. unfold phase_wf in Hph.
  rewrite Hn, Hre in Hph. pose proof (zlen_nonneg fs) as Hz.
  split; [|split; [intros Hd; by rewrite Hd in Hph|split; [apply (ww_reported _ Hw')|]]].
  - destruct (phase (w_coord w')); [done|intros _; apply Hph|]. intros _ i Hi. apply Hph. lia.
  - intros clock. destruct (heartbeat_answers clock _ Hc) as (c' & r & Hh & Hans).
    exists c', r. split; [done|]. by apply (answer_response_ok _ _ _ c').
Qed.

(** A worker takes the only map task, dies; another takes it eleven seconds later, and both
    report it. *)
Definition slow_worker : list MrEvent :=
  [EHeartBeat (fun _ => 100); EHeartBeat (fun _ => 105); EHeartBeat (fun _ => 111);
   EReport 2; EReport 0].

Lemma mr_schedule_safe_witness :
  exists w, mr_run (mr_start ["a"] 1 90) slow_worker = Some w /\ phase (w_coord w) = Reduce
    /\ map JjobType (w_given w) = [MapJob; WaitJob; MapJob]
    /\ finished (tasks (w_coord w)) 0 1.
Proof.
  destruct (mr_schedule_safe ["a"] 1 90 slow_worker [] ltac:(lia))
    as (w & w' & Hr & Hr' & _ & _ & _ & Hmap & _).
  vm_compute in Hr. injection Hr as <-. injection Hr' as <-.
  eexists. split; [reflexivity|]. split; [reflexivity|]. split; [reflexivity|].
  by apply Hmap.
Defined.

(** ** Completion *)

(** How many tasks are not finished. *)
Definition remaining ts : nat := length (filter (fun t => Sstatus t <> Finished) ts).

Lemma remaining_finish ts i t t' :
  slice_get ts i = Some t -> Sstatus t <> Finished -> Sstatus t' = Finished ->
  remaining ts = S (remaining (<[Z.to_nat i := t']> ts)).
Proof.
  rewrite slice_get_Some. intros [_ Ht] Hs Hs'. unfold remaining.
  rewrite (insert_take_drop ts (Z.to_nat i)) by (by apply lookup_lt_Some in Ht).
  rewrite <- (take_drop_middle ts _ t Ht) at 1. rewrite !filter_app, !filter_cons, !length_app.
  rewrite decide_True by done. rewrite decide_False by (intros Hn; by apply Hn). simpl. lia.
Qed.

Lemma remaining_unfinished ts lo hi : unfinished ts lo hi -> (1 <= remaining ts)%nat.
Proof.
  intros (i & t & _ & Ht & Hs).
  rewrite (remaining_finish ts i t (set_Sstatus t Finished)) by done. lia.
Qed.

(** No lease is running any more when the clock is read. *)
Definition expired ts (clock : Z -> Z) : Prop :=
  forall i t, slice_get ts i = Some t -> Sstatus t = Running -> StartTime t + 10 < clock i.

(** A worker that asks for a task and reports it, at each of the given times; [n] responses
    were given before. *)
Fixpoint worker_events (n : nat) (clocks : list (Z -> Z)) : list MrEvent :=
  match clocks with
  | [] => []
  | clock :: clocks => EHeartBeat clock :: EReport n :: worker_events (S n) clocks
  end.

Lemma mr_run_two w e w1 e' w2 :
  mr_step w e = Some w1 -> mr_step w1 e' = Some w2 -> mr_run w [e; e'] = Some w2.
Proof. intros Hs Hs'. unfold mr_run. rewrite !run_steps_cons, Hs. simpl. by rewrite run_steps_cons, Hs'. Qed.

#[local] Arguments mr_step : simpl never.

(** One round finishes one task. *)
Lemma worker_round w clock :
  world_wf w -> 0 < nMap (w_coord w) -> 0 < NnReduce (w_coord w) ->
  phase (w_coord w) <> Done -> expired (tasks (w_coord w)) clock ->
  exists w', mr_run w [EHeartBeat clock; EReport (length (w_given w))] = Some w'
    /\ world_wf w' /\ advances (w_coord w) (w_coord w')
    /\ length (w_given w') = S (length (w_given w))
    /\ remaining (tasks (w_coord w)) = S (remaining (tasks (w_coord w')))
    /\ forall clock', expired (tasks (w_coord w)) clock' -> expired (tasks (w_coord w')) clock'.
Proof.
  intros Hw Hn Hr Hp Hx. destruct w as [c given reported]. simpl in *.
  destruct (mr_heartbeat clock _ Hw) as (c1 & r & _ & Ha & Hs & Hw1). simpl in *.
  pose proof (answer_advances _ _ _ _ Ha) as Hadv.
  destruct Ha as [|Hp' Hno|i t t' Hp' Hi Ht Ha]; [done| |].
  - exfalso. pose proof (cw_phase _ (ww_coord _ Hw)) as Hph. unfold phase_wf in Hph. simpl in Hph.
    assert (unfinished (tasks c) (phase_lo c) (phase_hi c)) as (i & t & Hi & Ht & Hnf)
      by (unfold phase_lo, phase_hi; destruct (phase c); naive_solver).
    destruct (assign_None _ _ (Hno i t Hi Ht)) as [|[Hrun Hlt]]; [done|].
    specialize (Hx i t Ht Hrun). lia.
  - set (r := mkHeartbeatResponse _ _ _ _) in *. apply assign_Some in Ha as (Hnf & Hrun & _).
    apply slice_get_lt in Ht as Hlt.
    set (c1 := set_tasks c (<[Z.to_nat i := t']> (tasks c))) in *.
    assert (Hji : job_index c1 r = Some i).
    { unfold job_index, r, c1, phase_lo in *. simpl. destruct (phase c); simpl; [| |done]; f_equal; lia. }
    destruct (mr_report (mkMrWorld c1 (given ++ [r]) reported) (length given) r i Hw1)
      as (u & p & Hu & Hs' & Hw' & Hadv'); simpl; [by apply list_lookup_middle|done|]. simpl in *.
    eexists. split; [exact (mr_run_two _ _ _ _ _ Hs Hs')|]. split; [done|]. simpl.
    split; [by etrans|]. split; [rewrite length_app; simpl; lia|].
    unfold c1 in Hu. simpl in Hu. rewrite get_upd, decide_True in Hu by done. injection Hu as <-.
    rewrite list_insert_insert_eq. split; [by apply (remaining_finish _ _ t)|].
    intros clock' Hx' j v Hv Hvr. rewrite get_upd in Hv by done. case_decide; [|by apply (Hx' j)].
    by injection Hv as <-.
Qed.

Lemma worker_finishes clocks : forall w,
  world_wf w -> 0 < nMap (w_coord w) -> 0 < NnReduce (w_coord w) ->
  (remaining (tasks (w_coord w)) <= length clocks)%nat ->
  Forall (expired (tasks (w_coord w))) clocks ->
  exists w', mr_run w (worker_events (length (w_given w)) clocks) = Some w'
    /\ phase (w_coord w') = Done.
Proof.
  induction clocks as [|clock clocks IH]; intros w Hw Hn Hr Hrem Hx.
  - exists w. split; [done|]. pose proof (cw_phase _ (ww_coord _ Hw)) as Hph. unfold phase_wf in Hph.
    simpl in Hrem. destruct (phase (w_coord w)); [| |done]; destruct Hph as [_ Hu];
      apply remaining_unfinished in Hu; (lia || done).
  - destruct (decide (phase (w_coord w) = Done)) as [Hd|Hd].
    + destruct (mr_run_wf w (worker_events (length (w_given w)) (clock :: clocks)) Hw)
        as (w' & Hrun & _ & Ha). exists w'. split; [done|]. pose proof (adv_phase _ _ Ha) as Hle.
      rewrite Hd in Hle. by destruct (phase (w_coord w')).
    + apply Forall_cons in Hx as [Hx1 Hxs].
      destruct (worker_round w clock Hw Hn Hr Hd Hx1) as (w1 & Hrun & Hw1 & Ha & Hlen & Hrem1 & Hx').
      destruct (IH w1 Hw1) as (w' & Hrun' & Hd').
      * by rewrite (adv_nMap _ _ Ha).
      * by rewrite (adv_red _ _ Ha).
      * simpl in Hrem. lia.
      * eapply Forall_impl; [exact Hxs|]. apply Hx'.
      * exists w'. split; [|done]. simpl. unfold mr_run in *.
        change (EHeartBeat clock :: EReport (length (w_given w)) :: ?l)
          with ([EHeartBeat clock; EReport (length (w_given w))] ++ l).
        rewrite run_steps_app, Hrun. simpl. by rewrite <- Hlen.
Qed.

(** C32: the job completes.  After any history of a job that has map and reduce tasks, however
    many workers have died with tasks in hand: once their leases have run out, a single worker
    that takes and reports one task per unfinished task brings the coordinator to [Done]. *)
Theorem mr_completes fs nReduce now es w clocks :
  0 < zlen fs -> 0 < nReduce -> mr_run (mr_start fs nReduce now) es = Some w ->
  (remaining (tasks (w_coord w)) <= length clocks)%nat ->
  Forall (expired (tasks (w_coord w))) clocks ->
  exists w', mr_run w (worker_events (length (w_given w)) clocks) = Some w'
    /\ Coordinator_Done (w_coord w') = true.
Proof.
  intros Hfs Hr Hrun Hrem Hx.
  destruct (mr_run_wf _ es (mr_start_wf fs nReduce now ltac:(lia))) as (w1 & Hrun1 & Hw & Ha).
  assert (w1 = w) as -> by congruence.
  destruct (worker_finishes clocks w Hw) as (w' & Hr' & Hd); try done.
  - by rewrite (adv_nMap _ _ Ha).
  - by rewrite (adv_red _ _ Ha).
  - exists w'. split; [done|]. unfold Coordinator_Done. by apply bool_decide_eq_true.
Qed.

Lemma mr_completes_witness :
  exists w w', mr_run (mr_start ["a"; "b"] 1 90) [EHeartBeat (fun _ => 100)] = Some w
    /\ mr_run w (worker_events 1 [fun _ => 111; fun _ => 112; fun _ => 113]) = Some w'
    /\ Coordinator_Done (w_coord w') = true.
Proof.
  eexists. destruct (mr_completes ["a"; "b"] 1 90 [EHeartBeat (fun _ => 100)] _
    [fun _ => 111; fun _ => 112; fun _ => 113] ltac:(reflexivity) ltac:(lia) ltac:(reflexivity))
    as (w' & Hr & Hd).
  - vm_compute. lia.
  - assert (Hlate : forall z, 110 < z -> expired
      [mkTask "a" 0 100 Running; mkTask "b" 1 90 Idle; mkTask "" 2 90 Idle] (fun _ => z)).
    { intros z Hz i t. rewrite slice_get_Some. intros [_ Ht].
      destruct (Z.to_nat i) as [|[|[|n]]]; simpl in Ht; simplify_eq; simpl; try done; lia. }
    repeat (apply Forall_cons_2; [apply Hlate; lia|]). apply Forall_nil_2.
  - exists w'. split; [reflexivity|]. split; [exact Hr|exact Hd].
Defined.

(** With no map task the map phase changes nothing but the list of responses. *)
Lemma no_files_step w e :
  nMap (w_coord w) = 0 -> phase (w_coord w) = Map ->
  Forall (fun r => JjobType r = WaitJob) (w_given w) ->
  exists w', mr_step w e = Some w' /\ w_coord w' = w_coord w
    /\ Forall (fun r => JjobType r = WaitJob) (w_given w').
Proof.
  intros Hn Hp Hg. destruct e as [clock|k]; unfold mr_step.
  - unfold heartbeat. rewrite Hp, Hn. simpl. eexists. split; [done|]. split; [done|].
    apply Forall_app. split; [done|]. by repeat constructor.
  - destruct (w_given w !! k) as [r|] eqn:Hk; [|by exists w].
    assert (JjobType r = WaitJob) as Hj by (by apply (Forall_lookup_1 _ _ _ _ Hg Hk)).
    unfold job_index. rewrite Hj. by exists w.
Qed.

Lemma no_files_run es : forall w,
  nMap (w_coord w) = 0 -> phase (w_coord w) = Map ->
  Forall (fun r => JjobType r = WaitJob) (w_given w) ->
  exists w', mr_run w es = Some w' /\ w_coord w' = w_coord w.
Proof.
  induction es as [|e es IH]; intros w Hn Hp Hg; [by exists w|].
  destruct (no_files_step w e Hn Hp Hg) as (w1 & Hs & Hc & Hg1).
  destruct (IH w1) as (w' & Hr & Hc'); [by rewrite Hc..|done|].
  exists w'. unfold mr_run. rewrite run_steps_cons, Hs. split; [exact Hr|congruence].
Qed.

(** A job without input files never completes: the phase changes only when a task is
    reported, and there is no map task to report, so every heartbeat is answered with
    [WaitJob] and [Done] stays false. *)
Theorem mr_no_files_never_done nReduce now es :
  exists w, mr_run (mr_start [] nReduce now) es = Some w
    /\ Coordinator_Done (w_coord w) = false
    /\ forall clock, exists c, heartbeat clock (w_coord w)
         = Some (c, mkHeartbeatResponse WaitJob 0 None nReduce).
Proof.
  destruct (no_files_run es (mr_start [] nReduce now)) as (w & Hrun & Hc); [done..|by constructor|].
  exists w. split; [done|]. unfold Coordinator_Done. rewrite Hc. split; [done|]. intros clock. by eexists.
Qed.
