(* ===== verification/MrWorker.v ===== *)
(** * The MapReduce worker and its files: src/src/mr/worker.go

    A worker runs map and reduce tasks over a shared directory.  Map task [m] leaves the pairs
    for reduce task [r] in the file [mr-out-m-r], reduce task [r] leaves its output in
    [mr-out-r]; both write to a file of a random name first and rename it when it is complete.

    What the code leaves open is in [Choices]: the order in which [sort.Sort] leaves equal
    keys, the order in which a Go map is iterated, and the random names that were drawn.  JSON
    is the class [KvJson]. *)

From S2P Require Import Prelude MrCoordinator.

Module Worker.

Record KeyValue := mkKeyValue { Key : string; Value : string }.

#[export] Instance KeyValue_eq_dec : EqDecision KeyValue.
Proof. solve_decision. Defined.

(** ** The directory *)

Inductive Node := File (content : string) | Dir.

#[export] Instance Node_eq_dec : EqDecision Node.
Proof. solve_decision. Defined.

Abbreviation FS := (gmap string Node).

(** [os.Stat(name)] finds something. *)
Definition Stat (fs : FS) (name : string) : bool := bool_decide (is_Some (fs !! name)).

(** [os.Create] of a name that does not exist. *)
Definition Create (fs : FS) (name : string) : FS := <[name := File ""]> fs.

(** [os.Open] and [ioutil.ReadAll]; a failure of either ends the process. *)
Definition ReadAll (fs : FS) (name : string) : option string :=
  match fs !! name with Some (File c) => Some c | _ => None end.

(** A write through an open file. *)
Definition Append (fs : FS) (name : string) (s : string) : option FS :=
  c ← ReadAll fs name; Some (<[name := File (c +:+ s)]> fs).

(** [os.Rename], whose error the callers ignore. *)
Definition Rename (fs : FS) (old new : string) : FS :=
  match fs !! old with Some nd => <[new := nd]> (delete old fs) | None => fs end.

(** [os.ReadDir]: the entries sorted by name. *)
Definition ReadDir (fs : FS) : list string := merge_sort String.le (elements (dom fs)).

(** [entry.IsDir()]. *)
Definition IsDir (fs : FS) (name : string) : bool := bool_decide (fs !! name = Some Dir).

(** ** Names *)

Definition is_digit (a : Ascii.ascii) : bool :=
  (48 <=? Z.of_N (Ascii.N_of_ascii a)) && (Z.of_N (Ascii.N_of_ascii a) <=? 57).

(** The longest prefix of digits, and the rest. *)
Fixpoint span_digits (s : string) : string * string :=
  match s with
  | String a s' =>
      if is_digit a then let '(d, r) := span_digits s' in (String a d, r) else ("", s)
  | EmptyString => ("", "")
  end.

Fixpoint strip_prefix (p s : string) : option string :=
  match p, s with
  | EmptyString, _ => Some s
  | String a p', String b s' => if decide (a = b) then strip_prefix p' s' else None
  | _, _ => None
  end.

(** [regexp.MatchString("^mr-out-\d+-<reduceId>$", name)]. *)
Definition match_name (reduceId : Z) (name : string) : bool :=
  match strip_prefix "mr-out-" name with
  | Some s => let '(d, r) := span_digits s in
      negb (bool_decide (d = ""))
      && bool_decide (r = ("-" +:+ Sprint reduceId)%string)
  | None => false
  end.

(** The names the tasks build with [strconv.Itoa]. *)
Definition inter_name (mapId reduceId : Z) : string :=
  ("mr-out-" +:+ Sprint mapId +:+ "-" +:+ Sprint reduceId)%string.
Definition out_name (reduceId : Z) : string := ("mr-out-" +:+ Sprint reduceId)%string.

Definition charset : string := "abcdefghijklmnopqrstuvwxyzABCDEFGHIJKLMNOPQRSTUVWXYZ0123456789".

(** What [generateRandomString(20)] can return. *)
Definition random_name (s : string) : Prop :=
  String.length s = 20%nat
  /\ Forall (fun a => a ∈ String.list_ascii_of_string charset) (String.list_ascii_of_string s).

(** ** Tasks *)

Record Choices := mkChoices {
  ch_sort : list KeyValue -> list KeyValue;
  ch_order : list string -> list string;
  ch_names : list string }.

(** [json.Encoder] writes a value to a file; [json.Decoder] reads values until the first
    error (the end of the file, here). *)
Class KvJson := {
  kv_encode : KeyValue -> string;
  kv_decode : string -> list KeyValue;
}.

(** The documented behaviour: a sequence of encoded values decodes to itself, if its strings
    are valid UTF-8 ([clean]). *)
Class KvJsonLaws `{KvJson} (clean : string -> Prop) : Prop := {
  kv_roundtrip : forall kvs, Forall (fun kv => clean (Key kv) /\ clean (Value kv)) kvs ->
    kv_decode (String.concat "" (kv_encode <$> kvs)) = kvs;
}.

Definition ihash (key : string) : Z := Z.land (fnv32a key) 2147483647.

Section Tasks.
Context `{KvJson}.
Context (mapf : string -> string -> list KeyValue) (reducef : string -> list string -> string).

(** Draw names until one is free, and create it. *)
Fixpoint create_temp (fs : FS) (names : list string) : option (FS * string * list string) :=
  match names with
  | [] => None
  | name :: names =>
      if Stat fs name then create_temp fs names else Some (Create fs name, name, names)
  end.

Fixpoint create_temps (n : nat) (fs : FS) (names : list string) : option (FS * list string) :=
  match n with
  | O => Some (fs, [])
  | S n =>
      '(fs, temp, names) ← create_temp fs names;
      '(fs, temps) ← create_temps n fs names;
      Some (fs, temp :: temps)
  end.

(** [key_group[kv.Key] = append(key_group[kv.Key], kv.Value)] for each pair. *)
Definition add_pair (m : gmap string (list string)) (kv : KeyValue) : gmap string (list string) :=
  <[Key kv := default [] (m !! Key kv) ++ [Value kv]]> m.

Definition group (kvs : list KeyValue) : gmap string (list string) := foldl add_pair ∅ kvs.

(** One iteration of [for key, values := range key_group]: a division by zero panics. *)
Definition write_key (nReduce : Z) (temps : list string) (groups : gmap string (list string))
    (fs : FS) (key : string) : option FS :=
  if nReduce =? 0 then None
  else
    let reduceId := Z.rem (ihash key) nReduce in
    temp ← slice_get temps reduceId;
    run_steps (fun fs value => Append fs temp (kv_encode (mkKeyValue key value))) fs
      (default [] (groups !! key)).

(** [doMapTask] until the files are complete. *)
Definition map_write (ch : Choices) (fs : FS) (filename : string) (nReduce : Z)
    : option (FS * list string) :=
  content ← ReadAll fs filename;
  let kva := ch_sort ch (mapf filename content) in
  let key_group := group kva in
  '(fs, temps) ← create_temps (Z.to_nat nReduce) fs (ch_names ch);
  fs ← run_steps (write_key nReduce temps key_group) fs (ch_order ch (elements (dom key_group)));
  Some (fs, temps).

(** One iteration of the loop that renames the files. *)
Definition publish (id : Z) (temps : list string) (fs : FS) (index : nat) : option FS :=
  temp ← temps !! index;
  let reduceFilename := inter_name id (Z.of_nat index) in
  Some (if Stat fs reduceFilename then fs else Rename fs temp reduceFilename).

Definition doMapTask (ch : Choices) (fs : FS) (filename : string) (id nReduce : Z) : option FS :=
  '(fs, temps) ← map_write ch fs filename nReduce;
  run_steps (publish id temps) fs (seq 0 (Z.to_nat nReduce)).

(** The files of reduce task [taskId]; a file that cannot be opened ends the process. *)
Definition reduceId2Filename (fs : FS) (taskId : Z) : list string :=
  filter (fun name => IsDir fs name = false /\ match_name taskId name = true) (ReadDir fs).

Definition DelFileByReduceId (fs : FS) (reduceId : Z) : FS :=
  foldl (fun fs name => delete name fs) fs (reduceId2Filename fs reduceId).

(** [fmt.Fprintf(ofile, "%v %v\n", key, output)]. *)
Definition out_line (key output : string) : string :=
  (key +:+ " " +:+ output +:+ String (Ascii.ascii_of_nat 10) "")%string.

(** [doReduceTask] until the output is complete; the result names it. *)
Definition reduce_write (ch : Choices) (fs : FS) (reduceId : Z) : option (FS * string) :=
  contents ← mapM (ReadAll fs) (reduceId2Filename fs reduceId);
  let mulKeyValue := group (mjoin (kv_decode <$> contents)) in
  let keys := merge_sort String.le (elements (dom mulKeyValue)) in
  '(fs, oname, _) ← create_temp fs (ch_names ch);
  fs ← run_steps (fun fs key => Append fs oname
                    (out_line key (reducef key (default [] (mulKeyValue !! key))))) fs keys;
  Some (fs, oname).

Definition reduce_publish (fs : FS) (oname : string) (reduceId : Z) : FS :=
  if Stat fs (out_name reduceId) then fs else Rename fs oname (out_name reduceId).

Definition doReduceTask (ch : Choices) (fs : FS) (reduceId : Z) : option FS :=
  '(fs, oname) ← reduce_write ch fs reduceId;
  Some (DelFileByReduceId (reduce_publish fs oname reduceId) reduceId).

(** The body of the loop of [Worker] for one response: the new directory, the report, and
    whether the loop goes on.  The response of a failed heartbeat is the zero value. *)
Definition Worker_body (ch : Choices) (ts : list Task) (fs : FS) (response : HeartbeatResponse)
    : option (FS * option ReportRequest * bool) :=
  match JjobType response with
  | MapJob =>
      ptr ← TtaskPtr response;
      t ← slice_get ts ptr;
      fs ← doMapTask ch fs (FileName t) (Id t) (rs_NnReduce response);
      Some (fs, Some (mkReportRequest MapJob (TtaskId response) Finished), true)
  | ReduceJob =>
      fs ← doReduceTask ch fs (TtaskId response);
      Some (fs, Some (mkReportRequest ReduceJob (TtaskId response) Finished), true)
  | WaitJob => Some (fs, None, true)
  | CompleteJob => Some (fs, None, false)
  end.
End Tasks.

Definition zero_response : HeartbeatResponse := mkHeartbeatResponse MapJob 0 None 0.

Definition doHeartbeat (reply : option HeartbeatResponse) : HeartbeatResponse :=
  default zero_response reply.

End Worker.
