(* ===== verification/MrTasks.v ===== *)
(** * What one map or reduce task does to the directory

    Facts about the names of the files, about grouping pairs by key, and about the two phases
    of each task (writing to files of random names, publishing them under their names). *)

From S2P Require Import Prelude MrCoordinator MrWorker.

Import Worker.

#[local] Arguments String.append !_ _ / : simpl nomatch.

(** ** Strings *)

Lemma append_nil_r s : (s +:+ "")%string = s.
Proof. induction s as [|a s IH]; simpl; [done|]. by rewrite IH. Qed.

Lemma append_assoc s t u : ((s +:+ t) +:+ u)%string = (s +:+ (t +:+ u))%string.
Proof. induction s as [|a s IH]; simpl; [done|]. by rewrite IH. Qed.

(** [String.concat] with an empty separator. *)
Definition join (l : list string) : string := String.concat "" l.

Lemma join_cons s l : join (s :: l) = (s +:+ join l)%string.
Proof. destruct l; simpl; [by rewrite append_nil_r|done]. Qed.

Lemma join_app l k : join (l ++ k) = (join l +:+ join k)%string.
Proof.
  induction l as [|s l IH]; [done|]. rewrite <- app_comm_cons, !join_cons, IH. by rewrite append_assoc.
Qed.

Lemma strip_prefix_app p s : strip_prefix p (p +:+ s) = Some s.
Proof. induction p as [|a p IH]; simpl; [done|]. by rewrite decide_True. Qed.

(** ** Names *)

Definition digits (s : string) : Prop := Forall (fun a => is_digit a = true) (String.list_ascii_of_string s).

Lemma span_digits_app d s :
  digits d -> (match s with String a _ => is_digit a = false | EmptyString => True end) ->
  span_digits (d +:+ s) = (d, s).
Proof.
  unfold digits. induction d as [|a d IH]; simpl; intros Hd Hs.
  - destruct s as [|a s]; simpl; [done|]. by rewrite Hs.
  - apply Forall_cons in Hd as [Ha Hd]. rewrite Ha, IH; done.
Qed.

Lemma string_of_uint_digits u : digits (DecimalString.NilEmpty.string_of_uint u).
Proof. unfold digits. induction u; simpl; constructor; done. Qed.

Lemma Sprint_digits n : 0 <= n -> digits (Sprint n) /\ Sprint n <> "".
Proof.
  intros Hn. unfold Sprint. destruct (Z.to_int n) as [u|u] eqn:Hu.
  - pose proof (string_of_uint_digits u) as Hd. unfold DecimalString.NilZero.string_of_int,
      DecimalString.NilZero.string_of_uint. destruct u; simpl in *; split; try done.
    by repeat constructor.
  - destruct n; [done|done|lia].
Qed.

Lemma match_inter m r r' :
  0 <= m -> match_name r (inter_name m r') = bool_decide (r' = r).
Proof.
  intros Hm. destruct (Sprint_digits m Hm) as [Hd Hne]. unfold match_name, inter_name.
  rewrite strip_prefix_app, span_digits_app by done. rewrite (bool_decide_false (Sprint m = "")) by done.
  simpl. apply bool_decide_ext. split; [intros [=Heq]; by apply Sprint_inj|by intros ->].
Qed.

Lemma match_out r r' : 0 <= r' -> match_name r (out_name r') = false.
Proof.
  intros Hr. destruct (Sprint_digits r' Hr) as [Hd Hne]. unfold match_name, out_name.
  rewrite strip_prefix_app. rewrite <- (append_nil_r (Sprint r')), span_digits_app by done.
  by rewrite andb_comm.
Qed.

(** Two numbers with a dash between them. *)
Lemma dashed_inj m r m' r' :
  0 <= m -> 0 <= m' ->
  (Sprint m +:+ "-" +:+ Sprint r)%string = (Sprint m' +:+ "-" +:+ Sprint r')%string -> m = m' /\ r = r'.
Proof.
  intros Hm Hm' Heq. apply (f_equal span_digits) in Heq.
  destruct (Sprint_digits m Hm) as [Hd _]. destruct (Sprint_digits m' Hm') as [Hd' _].
  rewrite !span_digits_app in Heq by done. injection Heq as H1 H2.
  split; by apply Sprint_inj.
Qed.

Lemma inter_name_inj m r m' r' :
  0 <= m -> 0 <= m' -> inter_name m r = inter_name m' r' -> m = m' /\ r = r'.
Proof.
  intros Hm Hm' Heq. apply (f_equal (strip_prefix "mr-out-")) in Heq. unfold inter_name in Heq.
  rewrite !strip_prefix_app in Heq. injection Heq as Heq. by apply dashed_inj.
Qed.

Lemma out_name_inj r r' : out_name r = out_name r' -> r = r'.
Proof.
  intros Heq. apply (f_equal (strip_prefix "mr-out-")) in Heq. unfold out_name in Heq.
  rewrite !strip_prefix_app in Heq. injection Heq as Heq. by apply Sprint_inj.
Qed.

Lemma inter_ne_out m r r' : 0 <= m -> 0 <= r' -> inter_name m r <> out_name r'.
Proof.
  intros Hm Hr Heq. pose proof (match_inter m r r Hm) as Hi. rewrite Heq, match_out in Hi by done.
  by rewrite bool_decide_true in Hi.
Qed.

(** A name of the job's own files. *)
Definition reserved (name : string) : Prop := is_Some (strip_prefix "mr-out-" name).

Lemma match_reserved r name : match_name r name = true -> reserved name.
Proof. unfold match_name, reserved. by destruct (strip_prefix _ _). Qed.

Lemma inter_reserved m r : reserved (inter_name m r).
Proof. unfold reserved, inter_name. rewrite strip_prefix_app. by eexists. Qed.

Lemma out_reserved r : reserved (out_name r).
Proof. unfold reserved, out_name. rewrite strip_prefix_app. by eexists. Qed.

Lemma random_not_reserved name : random_name name -> ~ reserved name.
Proof.
  unfold random_name, reserved. intros [_ Hf] [s Hs].
  destruct name as [|a1 [|a2 [|a3 name]]]; simpl in *; repeat case_decide; simplify_eq.
  apply Forall_cons in Hf as [_ Hf]. apply Forall_cons in Hf as [_ Hf]. apply Forall_cons in Hf as [Ha _].
  revert Ha. apply (bool_decide_unpack (~ _)). vm_compute. done.
Qed.

(** ** Grouping by key *)

Implicit Types (l kvs : list KeyValue) (k : string) (fs : FS).

(** The values of key [k], in order. *)
Definition values k l : list string := Value <$> filter (fun kv => Key kv = k) l.

Definition keys_of l : gset string := list_to_set (Key <$> l).

Lemma group_snoc l kv : group (l ++ [kv]) = add_pair (group l) kv.
Proof. unfold group. by rewrite foldl_app. Qed.

Lemma group_values l k : default [] (group l !! k) = values k l.
Proof.
  induction l as [|kv l IH] using rev_ind; [done|]. rewrite group_snoc. unfold add_pair, values.
  rewrite filter_app, fmap_app. destruct (decide (Key kv = k)) as [<-|Hk].
  - rewrite lookup_insert_eq. simpl. rewrite IH, filter_cons_True by done. done.
  - rewrite lookup_insert_ne by done. rewrite filter_cons_False by done. by rewrite app_nil_r.
Qed.

Lemma dom_group l : dom (group l) = keys_of l.
Proof.
  induction l as [|kv l IH] using rev_ind; [done|]. rewrite group_snoc. unfold add_pair, keys_of in *.
  rewrite dom_insert_L, IH, fmap_app, list_to_set_app_L. simpl. set_solver.
Qed.

Lemma values_perm k l l' : l ≡ₚ l' -> values k l ≡ₚ values k l'.
Proof. intros Hl. unfold values. by rewrite Hl. Qed.

Lemma keys_of_perm l l' : l ≡ₚ l' -> keys_of l = keys_of l'.
Proof. intros Hl. unfold keys_of. by rewrite Hl. Qed.

Lemma elem_of_keys_of k l : k ∈ keys_of l <-> k ∈ Key <$> l.
Proof. unfold keys_of. by rewrite elem_of_list_to_set. Qed.

(** The pairs of key [k], rebuilt from its values. *)
Lemma pairs_values k l : mkKeyValue k <$> values k l = filter (fun kv => Key kv = k) l.
Proof.
  unfold values. induction l as [|kv l IH]; [done|]. destruct (decide (Key kv = k)) as [<-|Hk].
  - rewrite filter_cons_True by done. rewrite !fmap_cons. rewrite IH. by destruct kv.
  - by rewrite filter_cons_False.
Qed.

(** Splitting by one key, and by several. *)
Lemma filter_key_split (ks : list string) k l :
  k ∉ ks ->
  filter (fun kv => Key kv = k) l ++ filter (fun kv => Key kv ∈ ks) l
  ≡ₚ filter (fun kv => Key kv ∈ k :: ks) l.
Proof.
  intros Hk. induction l as [|kv l IH]; [done|]. rewrite !filter_cons.
  destruct (decide (Key kv = k)) as [<-|Hne].
  - rewrite decide_False by done. rewrite decide_True by set_solver. simpl. by rewrite IH.
  - destruct (decide (Key kv ∈ ks)).
    + rewrite decide_True by set_solver. rewrite <- IH. by rewrite Permutation_middle.
    + by rewrite decide_False by set_solver.
Qed.

Lemma regroup (ks : list string) l :
  NoDup ks -> mjoin ((fun k => mkKeyValue k <$> values k l) <$> ks) ≡ₚ filter (fun kv => Key kv ∈ ks) l.
Proof.
  induction 1 as [|k ks Hk _ IH]; simpl.
  - induction l as [|kv l IH]; [done|]. rewrite filter_cons_False by set_solver. done.
  - rewrite pairs_values, IH. by apply filter_key_split.
Qed.

Lemma filter_iff_in {A} (P Q : A -> Prop) `{forall x, Decision (P x), forall x, Decision (Q x)} (l : list A) :
  (forall x, x ∈ l -> P x <-> Q x) -> filter P l = filter Q l.
Proof.
  induction l as [|x l IH]; intros Hpq; [done|]. rewrite !filter_cons, IH by set_solver.
  pose proof (Hpq x ltac:(left)). by repeat case_decide; try tauto.
Qed.

(** The reduce task a key belongs to. *)
Definition bucket (n : Z) k : Z := Z.rem (ihash k) n.

Definition part (n r : Z) l : list KeyValue := filter (fun kv => bucket n (Key kv) = r) l.

Lemma bucket_range n k : 0 < n -> 0 <= bucket n k < n.
Proof.
  intros Hn. unfold bucket, ihash. pose proof (fnv32a_range k) as Hr.
  assert (0 <= Z.land (fnv32a k) 2147483647) as Hl by (apply Z.land_nonneg; right; lia).
  pose proof (Z.rem_bound_pos (Z.land (fnv32a k) 2147483647) n Hl Hn). lia.
Qed.

Lemma part_perm n r l l' : l ≡ₚ l' -> part n r l ≡ₚ part n r l'.
Proof. intros Hl. unfold part. by rewrite Hl. Qed.

Lemma regroup_part n r (ks : list string) l :
  NoDup ks -> (forall k, k ∈ Key <$> l -> k ∈ ks) ->
  mjoin ((fun k => mkKeyValue k <$> values k l) <$> filter (fun k => bucket n k = r) ks) ≡ₚ part n r l.
Proof.
  intros Hnd Hks. rewrite regroup by (by apply NoDup_filter). unfold part.
  rewrite (filter_iff_in _ (fun kv => bucket n (Key kv) = r)); [done|].
  intros kv Hkv. rewrite list_elem_of_filter. split; [by intros [? _]|]. intros Hb. split; [done|].
  apply Hks. by apply list_elem_of_fmap_2.
Qed.

Lemma values_part n r k l : bucket n k = r -> values k (part n r l) = values k l.
Proof.
  intros Hk. unfold values, part. f_equal. rewrite list_filter_filter. apply filter_iff_in.
  intros kv _. split; [by intros [? ?]|]. intros <-. done.
Qed.

(** ** Files of random names *)

Lemma Stat_spec fs name : if Stat fs name then is_Some (fs !! name) else fs !! name = None.
Proof.
  unfold Stat. case_bool_decide as Hs; [done|]. by apply eq_None_not_Some.
Qed.

Lemma append_run {A} (f : A -> string) (vs : list A) : forall fs name c,
  fs !! name = Some (File c) ->
  run_steps (fun fs v => Append fs name (f v)) fs vs
  = Some (<[name := File (c +:+ join (f <$> vs))]> fs).
Proof.
  induction vs as [|v vs IH]; intros fs name c Hf.
  - simpl. rewrite append_nil_r. by rewrite insert_id.
  - assert (Append fs name (f v) = Some (<[name := File (c +:+ f v)]> fs)) as Ha
      by (unfold Append, ReadAll; by rewrite Hf).
    rewrite run_steps_cons, Ha. simpl.
    rewrite (IH _ _ (c +:+ f v)) by (by rewrite lookup_insert_eq).
    by rewrite insert_insert_eq, join_cons, append_assoc.
Qed.

(** Enough of the names drawn are free. *)
Definition supply fs (n : nat) (names : list string) : Prop :=
  Forall random_name names /\ NoDup names
  /\ (n <= length (filter (fun x => fs !! x = None) names))%nat.

Lemma create_temp_spec fs n names :
  supply fs (S n) names ->
  exists t rest, create_temp fs names = Some (Create fs t, t, rest)
    /\ fs !! t = None /\ random_name t /\ supply (Create fs t) n rest.
Proof.
  intros (Hr & Hnd & Hlen). induction names as [|x names IH]; [simpl in Hlen; lia|].
  apply Forall_cons in Hr as [Hx Hr]. apply NoDup_cons in Hnd as [Hni Hnd]. simpl.
  pose proof (Stat_spec fs x) as Hs. rewrite filter_cons in Hlen. destruct (Stat fs x).
  - rewrite decide_False in Hlen by (destruct Hs; congruence). by apply IH.
  - rewrite decide_True in Hlen by done. simpl in Hlen. exists x, names.
    repeat (split; [done|]). unfold Create.
    rewrite (filter_iff_in _ (fun y => fs !! y = None)); [lia|].
    intros y Hy. rewrite lookup_insert_ne by (intros ->; done). done.
Qed.

Lemma create_temps_spec n : forall fs names,
  supply fs n names ->
  exists fs' temps, create_temps n fs names = Some (fs', temps) /\ length temps = n /\ NoDup temps
    /\ Forall (fun t => fs !! t = None /\ random_name t) temps
    /\ (forall t, t ∈ temps -> fs' !! t = Some (File ""))
    /\ forall name, name ∉ temps -> fs' !! name = fs !! name.
Proof.
  induction n as [|n IH]; intros fs names Hs.
  - exists fs, []. repeat (split; [done || by constructor|]). split; [|done]. intros t Ht. set_solver.
  - destruct (create_temp_spec fs n names Hs) as (t & rest & Hc & Hn & Hr & Hs').
    destruct (IH _ _ Hs') as (fs' & temps & Hcs & Hlen & Hnd & Hf & Hin & Hout).
    simpl. rewrite Hc. simpl. rewrite Hcs. simpl. exists fs', (t :: temps). split; [done|].
    assert (Hnt : t ∉ temps).
    { intros Ht. rewrite Forall_forall in Hf. destruct (Hf t Ht) as [Hf' _].
      unfold Create in Hf'. by rewrite lookup_insert_eq in Hf'. }
    split; [simpl; lia|]. split; [by apply NoDup_cons|]. split; [|split].
    + apply Forall_cons. split; [done|]. eapply Forall_impl; [exact Hf|]. intros u [Hu ?].
      split; [|done]. unfold Create in Hu. by apply lookup_insert_None in Hu as [? _].
    + intros u Hu. apply elem_of_cons in Hu as [->|Hu]; [|by apply Hin].
      rewrite Hout by done. unfold Create. by rewrite lookup_insert_eq.
    + intros name Hname. apply not_elem_of_cons in Hname as [Hne Hni].
      rewrite Hout by done. unfold Create. by rewrite lookup_insert_ne by done.
Qed.

(** ** Writing the pairs of a map task *)

Section Tasks.
Context `{KvJson}.

Definition encs kvs : string := join (kv_encode <$> kvs).

Lemma encs_app kvs kvs' : encs (kvs ++ kvs') = (encs kvs +:+ encs kvs')%string.
Proof. unfold encs. by rewrite fmap_app, join_app. Qed.

(** The pairs of [ks] that go to bucket [r], in the order in which they are written. *)
Definition written (n : Z) (groups : gmap string (list string)) (ks : list string) (r : nat)
    : list KeyValue :=
  mjoin ((fun k => mkKeyValue k <$> default [] (groups !! k))
           <$> filter (fun k => bucket n k = Z.of_nat r) ks).

Lemma write_keys n temps groups ks : 0 < n -> zlen temps = n -> NoDup temps ->
  forall fs (cs : nat -> string),
  (forall r t, temps !! r = Some t -> fs !! t = Some (File (cs r))) ->
  exists fs', run_steps (write_key n temps groups) fs ks = Some fs'
    /\ (forall name, name ∉ temps -> fs' !! name = fs !! name)
    /\ forall r t, temps !! r = Some t ->
         fs' !! t = Some (File (cs r +:+ encs (written n groups ks r))).
Proof.
  intros Hn Hlen Hnd. induction ks as [|k ks IH]; intros fs cs Hcs.
  - exists fs. repeat (split; [done|]). intros r t Ht. unfold encs. simpl. rewrite append_nil_r. auto.
  - pose proof (bucket_range n k Hn) as Hb. destruct (slice_get_total temps (bucket n k) ltac:(lia)) as [tk Htk].
    set (rk := Z.to_nat (bucket n k)). set (vs := default [] (groups !! k)).
    set (add := join ((fun v => kv_encode (mkKeyValue k v)) <$> vs)).
    assert (temps !! rk = Some tk) as Hrk by (by apply slice_get_Some in Htk as [_ ?]).
    assert (write_key n temps groups fs k = Some (<[tk := File (cs rk +:+ add)]> fs)) as Hw.
    { unfold write_key. destruct (Z.eqb_spec n 0); [lia|]. fold (bucket n k). rewrite Htk.
      cbn [mbind option_bind]. by rewrite (append_run _ vs fs tk (cs rk)) by auto. }
    rewrite run_steps_cons, Hw. cbn [mbind option_bind].
    destruct (IH (<[tk := File (cs rk +:+ add)]> fs)
                 (fun r => if decide (r = rk) then cs rk +:+ add else cs r)) as (fs' & Hrun & Hout & Hin).
    { intros r t Ht. case_decide as Hr.
      - subst r. assert (t = tk) as -> by congruence. by rewrite lookup_insert_eq.
      - rewrite lookup_insert_ne; [auto|]. intros ->. apply Hr. by apply (NoDup_lookup temps r rk t). }
    exists fs'. split; [exact Hrun|]. split.
    + intros name Hname. rewrite Hout by done. rewrite lookup_insert_ne; [done|].
      intros <-. by apply list_elem_of_lookup_2 in Hrk.
    + intros r t Ht. rewrite (Hin r t Ht). unfold written. rewrite filter_cons.
      destruct (decide (r = rk)) as [->|Hr].
      * rewrite decide_True by (unfold rk; lia). simpl. rewrite encs_app, <- append_assoc.
        do 3 f_equal. unfold add, encs. by rewrite <- list_fmap_compose.
      * rewrite decide_False by (unfold rk in Hr; lia). done.
Qed.

Context (mapf : string -> string -> list KeyValue) (reducef : string -> list string -> string).

(** Choices the runtime can make: [sort.Sort] permutes, iterating a map visits each key once,
    and enough free random names are drawn for [n] files. *)
Definition choices_ok fs (n : nat) (ch : Choices) : Prop :=
  (forall l, ch_sort ch l ≡ₚ l) /\ (forall ks, ch_order ch ks ≡ₚ ks) /\ supply fs n (ch_names ch).

(** A complete map task in files of random names: file [r] holds the pairs of bucket [r]. *)
Lemma map_write_spec ch fs filename content n :
  0 < n -> fs !! filename = Some (File content) -> choices_ok fs (Z.to_nat n) ch ->
  exists fs' temps, map_write mapf ch fs filename n = Some (fs', temps)
    /\ zlen temps = n /\ NoDup temps
    /\ Forall (fun t => fs !! t = None /\ random_name t) temps
    /\ (forall name, name ∉ temps -> fs' !! name = fs !! name)
    /\ forall r t, temps !! r = Some t ->
         exists kvs, fs' !! t = Some (File (encs kvs)) /\ kvs ≡ₚ part n (Z.of_nat r) (mapf filename content).
Proof.
  intros Hn Hf (Hsort & Hord & Hsup).
  destruct (create_temps_spec _ _ _ Hsup) as (fs1 & temps & Hc & Hlen & Hnd & Hfree & Hin & Hout).
  set (kva := ch_sort ch (mapf filename content)). set (ks := ch_order ch (elements (dom (group kva)))).
  assert (Hz : zlen temps = n) by (unfold zlen; lia).
  destruct (write_keys n temps (group kva) ks Hn Hz Hnd fs1 (fun _ => ""))
    as (fs' & Hrun & Hout' & Hin'); [intros r t Ht; apply Hin; by apply list_elem_of_lookup_2 in Ht|].
  exists fs', temps. unfold map_write, ReadAll. rewrite Hf. cbn [mbind option_bind]. fold kva.
  rewrite Hc. cbn [mbind option_bind]. fold ks. rewrite Hrun. repeat (split; [done|]).
  split; [intros name Hname; by rewrite Hout', Hout|].
  intros r t Ht. exists (written n (group kva) ks r). split; [by rewrite (Hin' r t Ht)|].
  assert (Hks : ks ≡ₚ elements (dom (group kva))) by apply Hord.
  rewrite <- (part_perm n (Z.of_nat r) kva (mapf filename content)) by apply Hsort.
  rewrite <- (regroup_part n (Z.of_nat r) ks kva).
  - unfold written. erewrite list_fmap_ext; [reflexivity|]. intros _ k _. simpl. by rewrite group_values.
  - rewrite Hks. apply NoDup_elements.
  - intros k Hk. rewrite Hks, elem_of_elements, dom_group. by apply elem_of_keys_of.
Qed.

(** ** The output of a reduce task *)

(** The keys of [kvs] in order, each once. *)
Definition sorted_keys kvs : list string := merge_sort String.le (elements (keys_of kvs)).

Definition lines kvs (ks : list string) : string :=
  join ((fun k => out_line k (reducef k (values k kvs))) <$> ks).

Context (Hperm : forall k, Proper ((≡ₚ) ==> (=)) (reducef k)).

Lemma sorted_keys_perm kvs kvs' : kvs ≡ₚ kvs' -> sorted_keys kvs = sorted_keys kvs'.
Proof. intros Hp. unfold sorted_keys. by rewrite (keys_of_perm _ _ Hp). Qed.

Lemma lines_perm kvs kvs' ks : kvs ≡ₚ kvs' -> lines kvs ks = lines kvs' ks.
Proof.
  intros Hp. unfold lines. f_equal. apply list_fmap_ext. intros _ k _. f_equal.
  by apply Hperm, values_perm.
Qed.

(** Writing the output: the pairs read are [kvs] in some order. *)
Lemma reduce_write_spec ch fs r kvs contents :
  supply fs 1 (ch_names ch) ->
  mapM (ReadAll fs) (reduceId2Filename fs r) = Some contents ->
  mjoin (kv_decode <$> contents) ≡ₚ kvs ->
  exists fs' t, reduce_write reducef ch fs r = Some (fs', t)
    /\ fs !! t = None /\ random_name t
    /\ fs' = <[t := File (lines kvs (sorted_keys kvs))]> fs.
Proof.
  intros Hsup Hread Hkvs. destruct (create_temp_spec fs 0 _ Hsup) as (t & rest & Hc & Hn & Hr & _).
  unfold reduce_write. rewrite Hread. cbn [mbind option_bind]. rewrite Hc. cbn [mbind option_bind].
  set (l := mjoin (kv_decode <$> contents)) in *.
  rewrite (append_run (fun key => out_line key (reducef key (default [] (group l !! key)))) _ _ t "")
    by (unfold Create; by rewrite lookup_insert_eq). cbn [mbind option_bind].
  eexists _, t. repeat (split; [done|]). unfold Create. rewrite insert_insert_eq. do 2 f_equal.
  rewrite dom_group. fold (sorted_keys l). rewrite (sorted_keys_perm l kvs) by done.
  rewrite <- (lines_perm l kvs) by done. unfold lines. simpl. f_equal. apply list_fmap_ext.
  intros _ k _. by rewrite group_values.
Qed.
End Tasks.
