(* ===== verification/MrSequential.v ===== *)
(** * The sequential MapReduce program: src/src/main/mrsequential.go

    The reference the distributed runs are compared with: map every file, sort all pairs, call
    [reducef] on each run of equal keys. *)

From S2P Require Import Prelude MrCoordinator MrWorker MrTasks.

Import Worker.

Module Sequential.
Section Sequential.
Context (mapf : string -> string -> list KeyValue) (reducef : string -> list string -> string).

(** The pairs from the front of the list that have key [key], and the others. *)
Fixpoint span_key (key : string) (l : list KeyValue) : list string * list KeyValue :=
  match l with
  | kv :: l' => if decide (Key kv = key)
                then let '(vs, r) := span_key key l' in (Value kv :: vs, r) else ([], l)
  | [] => ([], [])
  end.

(** The loop that calls [reducef] on each run of equal keys; one unit of fuel per run. *)
Fixpoint loop (fuel : nat) (intermediate : list KeyValue) : option (list string) :=
  match intermediate with
  | [] => Some []
  | kv :: _ =>
      match fuel with
      | O => None
      | S fuel =>
          let '(vs, rest) := span_key (Key kv) intermediate in
          ls ← loop fuel rest;
          Some (out_line (Key kv) (reducef (Key kv) vs) :: ls)
      end
  end.

(** [main], up to loading the plugin: the lines written to [mr-out-0]. *)
Definition main (sort : list KeyValue -> list KeyValue) (fs : FS) (args : list string)
    : option (list string) :=
  contents ← mapM (ReadAll fs) args;
  let intermediate := sort (mjoin (zip_with mapf args contents)) in
  loop (length intermediate) intermediate.
End Sequential.
End Sequential.


(** ** What it computes *)

(** The order [ByKey] sorts by. *)
Definition key_le (a b : KeyValue) : Prop := String.le (Key a) (Key b).

(** What [sort.Sort(ByKey(l))] guarantees; equal keys come in any order. *)
Definition sorts (sort : list KeyValue -> list KeyValue) : Prop :=
  forall l, sort l ≡ₚ l /\ StronglySorted key_le (sort l).

Implicit Types (l : list KeyValue) (k : string).

Lemma sorted_keys_sorted l : StronglySorted String.le (sorted_keys l).
Proof. apply StronglySorted_merge_sort; apply _. Qed.

Lemma sorted_keys_elem l k : k ∈ sorted_keys l <-> k ∈ Key <$> l.
Proof.
  unfold sorted_keys. rewrite merge_sort_Permutation, elem_of_elements. apply elem_of_keys_of.
Qed.

Lemma NoDup_sorted_keys l : NoDup (sorted_keys l).
Proof. unfold sorted_keys. rewrite merge_sort_Permutation. apply NoDup_elements. Qed.

(** A sorted list of the same keys is the sorted list of the keys. *)
Lemma sorted_keys_unique l ks :
  StronglySorted String.le ks -> NoDup ks -> (forall k, k ∈ ks <-> k ∈ Key <$> l) -> sorted_keys l = ks.
Proof.
  intros Hs Hnd Hin. apply (StronglySorted_unique String.le); [apply sorted_keys_sorted|done|].
  apply NoDup_Permutation; [apply NoDup_sorted_keys|done|]. intros k. by rewrite sorted_keys_elem, Hin.
Qed.

Lemma StronglySorted_filter {A} (R : relation A) (P : A -> Prop) `{forall x, Decision (P x)} (xs : list A) :
  StronglySorted R xs -> StronglySorted R (filter P xs).
Proof.
  induction 1 as [|x xs Hs IH Hx]; [constructor|]. rewrite filter_cons. case_decide; [|done].
  constructor; [done|]. apply Forall_forall. intros y Hy. apply list_elem_of_filter in Hy as [_ Hy].
  rewrite Forall_forall in Hx. auto.
Qed.

(** The keys of one bucket, in order. *)
Lemma sorted_keys_part n r l : sorted_keys (part n r l) = filter (fun k => bucket n k = r) (sorted_keys l).
Proof.
  apply sorted_keys_unique.
  - apply StronglySorted_filter, sorted_keys_sorted.
  - apply NoDup_filter, NoDup_sorted_keys.
  - intros k. rewrite list_elem_of_filter, sorted_keys_elem, !list_elem_of_fmap. unfold part.
    setoid_rewrite list_elem_of_filter. naive_solver.
Qed.

Lemma filter_nothing {A} (P : A -> Prop) `{forall x, Decision (P x)} (xs : list A) :
  (forall x, x ∈ xs -> ~ P x) -> filter P xs = [].
Proof.
  induction xs as [|x xs IH]; intros Hn; [done|]. rewrite filter_cons_False by (apply Hn; left).
  apply IH. intros y Hy. apply Hn. by right.
Qed.

Lemma filter_everything {A} (P : A -> Prop) `{forall x, Decision (P x)} (xs : list A) :
  (forall x, x ∈ xs -> P x) -> filter P xs = xs.
Proof.
  induction xs as [|x xs IH]; intros Hp; [done|]. rewrite filter_cons_True by (apply Hp; left).
  f_equal. apply IH. intros y Hy. apply Hp. by right.
Qed.

(** The run of equal keys at the front of a sorted list is all of that key. *)
Lemma span_key_sorted k l :
  StronglySorted key_le l -> Forall (fun kv => String.le k (Key kv)) l ->
  Sequential.span_key k l = (values k l, filter (fun kv => Key kv <> k) l).
Proof.
  induction 1 as [|kv l Hs IH Hle]; [done|]. intros Hk. apply Forall_cons in Hk as [Hk Hks].
  simpl. unfold values. rewrite !filter_cons. destruct (decide (Key kv = k)) as [Heq|Hne].
  - rewrite decide_False by tauto. rewrite (IH Hks). done.
  - rewrite decide_True by done.
    assert (Hnone : forall kv', kv' ∈ l -> Key kv' <> k).
    { intros kv' Hin Heq. rewrite Forall_forall in Hle. specialize (Hle kv' Hin). unfold key_le in Hle.
      rewrite Heq in Hle. apply Hne. by apply (anti_symm String.le). }
    rewrite (filter_nothing (fun kv => Key kv = k)) by done.
    by rewrite (filter_everything (fun kv => Key kv <> k)).
Qed.

Section Loop.
Context (mapf : string -> string -> list KeyValue) (reducef : string -> list string -> string).

Definition line l k : string := out_line k (reducef k (values k l)).

(** The loop writes one line per key, in the order of the keys. *)
Lemma loop_spec fuel : forall l, StronglySorted key_le l -> (length l <= fuel)%nat ->
  Sequential.loop reducef fuel l = Some (line l <$> sorted_keys l).
Proof.
  induction fuel as [|fuel IH]; intros [|kv l] Hs Hlen; try done; [simpl in Hlen; lia|].
  set (L := kv :: l) in *. set (k := Key kv).
  pose proof (StronglySorted_inv Hs) as [_ Hle].
  assert (Hall : Forall (fun kv => String.le k (Key kv)) L) by (apply Forall_cons; split; [reflexivity|done]).
  set (rest := filter (fun kv => Key kv <> k) L).
  assert (Hspan : Sequential.span_key k L = (values k L, rest)) by (by apply span_key_sorted).
  assert (Hrest : (length rest < length L)%nat).
  { unfold rest, L. rewrite filter_cons_False by (intros Hn; by apply Hn). simpl. apply Nat.lt_succ_r, length_filter. }
  assert (Hks : sorted_keys L = k :: sorted_keys rest).
  { apply sorted_keys_unique.
    - constructor; [apply sorted_keys_sorted|]. apply Forall_forall. intros k' Hk'.
      rewrite sorted_keys_elem, list_elem_of_fmap in Hk'. destruct Hk' as (kv' & -> & Hin).
      apply list_elem_of_filter in Hin as [_ Hin]. rewrite Forall_forall in Hall. auto.
    - apply NoDup_cons. split; [|apply NoDup_sorted_keys]. rewrite sorted_keys_elem, list_elem_of_fmap.
      intros (kv' & Heq & Hin). by apply list_elem_of_filter in Hin as [Hne _].
    - intros k'. rewrite elem_of_cons, sorted_keys_elem, !list_elem_of_fmap. unfold rest.
      setoid_rewrite list_elem_of_filter. split.
      + intros [->|(kv' & -> & _ & Hin)]; [exists kv; split; [done|left]|by exists kv'].
      + intros (kv' & -> & Hin). destruct (decide (Key kv' = k)); [by left|right]. by exists kv'. }
  unfold L at 1. cbn [Sequential.loop]. fold L k. rewrite Hspan, (IH rest).
  - cbn [mbind option_bind]. rewrite Hks, fmap_cons. do 2 f_equal. apply list_fmap_ext. intros i k' Hk'.
    unfold line. do 2 f_equal. apply list_elem_of_lookup_2 in Hk'.
    rewrite sorted_keys_elem, list_elem_of_fmap in Hk'. destruct Hk' as (kv' & -> & Hin).
    apply list_elem_of_filter in Hin as [Hne _]. unfold values, rest. f_equal. rewrite list_filter_filter.
    apply filter_iff_in. intros x _. split; [by intros [? _]|]. intros Hx. split; [done|congruence].
  - apply StronglySorted_filter. done.
  - simpl in *. lia.
Qed.

Lemma main_spec (sort : list KeyValue -> list KeyValue) fs (args : list string) (inp : string -> string) :
  (forall k, Proper ((≡ₚ) ==> (=)) (reducef k)) -> sorts sort ->
  (forall f, f ∈ args -> fs !! f = Some (File (inp f))) ->
  let all := mjoin ((fun f => mapf f (inp f)) <$> args) in
  Sequential.main mapf reducef sort fs args = Some (line all <$> sorted_keys all).
Proof.
  intros Hperm Hsort Hin all. unfold Sequential.main.
  assert (mapM (ReadAll fs) args = Some (inp <$> args)) as ->.
  { apply mapM_Some_2, Forall2_fmap_r, Forall_Forall2_diag, Forall_forall. intros f Hf. simpl.
    unfold ReadAll. by rewrite Hin. }
  cbn [mbind option_bind]. assert (mjoin (zip_with mapf args (inp <$> args)) = all) as ->.
  { unfold all. f_equal. clear. induction args as [|f args IH]; [done|]. simpl. f_equal. exact IH. }
  destruct (Hsort all) as [Hp Hs]. rewrite loop_spec by done. f_equal.
  rewrite (sorted_keys_perm _ _ Hp). apply list_fmap_ext. intros _ k _. unfold line. f_equal.
  by apply Hperm, values_perm.
Qed.
End Loop.
