(* ===== verification/MrJob.v ===== *)
(** * A whole MapReduce job

    The coordinator of [MrCoordinator] and any number of workers of [MrWorker] over one
    directory.  Workers run the tasks they were handed, die at any point of them, run tasks
    that others run too, and report the tasks they finished.  When the coordinator is done,
    the output files are the sequential program's output (src/src/main/mrsequential.go), cut
    up by reduce task. *)

From S2P Require Import Prelude MrCoordinator MrWorker MrTasks MrSequential.

Import Worker.

(** ** The runs of a task *)

(** How far a worker gets with a task: to the end, or it dies while it writes (leaving files
    of random names), when the files are written, after it has published [k] of them (map) or
    deleted [k] of them (reduce). *)
Inductive Progress :=
  | Completed | Scratch (junk : list (string * string)) | Written | Published (k : nat).

Section Runs.
Context `{KvJson}.
Context (mapf : string -> string -> list KeyValue) (reducef : string -> list string -> string).

Definition scratch (fs : FS) (junk : list (string * string)) : FS :=
  foldr (fun f fs => <[f.1 := File f.2]> fs) fs junk.

Definition run_map (p : Progress) (ch : Choices) (fs : FS) (filename : string) (id nReduce : Z)
    : option FS :=
  match p with
  | Completed => doMapTask mapf ch fs filename id nReduce
  | Scratch junk => Some (scratch fs junk)
  | Written => fst <$> map_write mapf ch fs filename nReduce
  | Published k =>
      '(fs, temps) ← map_write mapf ch fs filename nReduce;
      run_steps (publish id temps) fs (take k (seq 0 (Z.to_nat nReduce)))
  end.

Definition run_reduce (p : Progress) (ch : Choices) (fs : FS) (r : Z) : option FS :=
  match p with
  | Completed => doReduceTask reducef ch fs r
  | Scratch junk => Some (scratch fs junk)
  | Written => fst <$> reduce_write reducef ch fs r
  | Published k =>
      '(fs, oname) ← reduce_write reducef ch fs r;
      let fs := reduce_publish fs oname r in
      Some (foldl (fun fs name => delete name fs) fs (take k (reduceId2Filename fs r)))
  end.

(** A worker with [response] in hand. *)
Definition run_task (p : Progress) (ch : Choices) (c : Coordinator) (fs : FS)
    (response : HeartbeatResponse) : option FS :=
  match p, JjobType response with
  | Completed, _ => '(fs, _, _) ← Worker_body mapf reducef ch (tasks c) fs response; Some fs
  | _, MapJob =>
      ptr ← TtaskPtr response;
      t ← slice_get (tasks c) ptr;
      run_map p ch fs (FileName t) (Id t) (rs_NnReduce response)
  | _, ReduceJob => run_reduce p ch fs (TtaskId response)
  | _, _ => Some fs
  end.
End Runs.

(** ** The directory during a job *)

Section Job.
Context `{KvJson} {clean : string -> Prop} `{!KvJsonLaws clean}.
Context (mapf : string -> string -> list KeyValue) (reducef : string -> list string -> string).
Context (Hperm : forall k, Proper ((≡ₚ) ==> (=)) (reducef k)).

(** The job: its input files with their contents, and the number of reduce tasks. *)
Context (inputs : list string) (inp : string -> string) (n : Z).

Definition kva (f : string) : list KeyValue := mapf f (inp f).

(** All pairs of the job. *)
Definition all_pairs : list KeyValue := mjoin (kva <$> inputs).

Record job_ok : Prop := mkJobOk {
  jo_n : 0 < n;
  jo_names : Forall (fun f => ~ reserved f) inputs;
  jo_clean : Forall (fun f => Forall (fun kv => clean (Key kv) /\ clean (Value kv)) (kva f)) inputs }.

Context (Hjob : job_ok).

Definition expected (r : Z) : string :=
  let kvs := part n r all_pairs in lines reducef kvs (sorted_keys kvs).

(** What a file of the job's own may hold: an intermediate file the pairs of its map task for
    its reduce task, an output file the whole output of its reduce task. *)
Definition named_ok (name : string) (nd : Node) : Prop :=
  (exists m f r kvs, inputs !! m = Some f /\ 0 <= r < n /\ name = inter_name (Z.of_nat m) r
     /\ nd = File (encs kvs) /\ kvs ≡ₚ part n r (kva f))
  \/ (exists r, 0 <= r < n /\ name = out_name r /\ nd = File (expected r)).

Record dir_ok (fs : FS) : Prop := mkDirOk {
  do_inputs : forall f, f ∈ inputs -> fs !! f = Some (File (inp f));
  do_named : forall name nd, fs !! name = Some nd -> reserved name -> named_ok name nd }.

Definition present (fs : FS) (name : string) : Prop := is_Some (fs !! name).

(** The job's own files of [fs] are in [fs'] too. *)
Definition keeps (fs fs' : FS) : Prop :=
  forall name, reserved name -> present fs name -> fs' !! name = fs !! name.

#[local] Instance keeps_refl : Reflexive keeps.
Proof. intros fs name. done. Qed.

#[local] Instance keeps_trans : Transitive keeps.
Proof.
  intros x y z Hxy Hyz name Hr Hp. rewrite Hyz; [by apply Hxy|done|].
  unfold present. by rewrite (Hxy name Hr Hp).
Qed.

Lemma input_not_reserved f : f ∈ inputs -> ~ reserved f.
Proof. intros Hf. pose proof (jo_names Hjob) as Hn. rewrite Forall_forall in Hn. auto. Qed.

(** Files that are neither inputs nor the job's own do not matter. *)
Lemma dir_ok_agree fs fs' :
  dir_ok fs -> (forall name, name ∈ inputs \/ reserved name -> fs' !! name = fs !! name) ->
  dir_ok fs' /\ keeps fs fs'.
Proof.
  intros Hd Ha. split; [split|].
  - intros f Hf. rewrite Ha by (by left). by apply Hd.
  - intros name nd Hnd Hr. rewrite Ha in Hnd by (by right). by apply Hd.
  - intros name Hr _. apply Ha. by right.
Qed.

(** A file of the job's own appears with the right content. *)
Lemma dir_ok_insert fs name nd t :
  dir_ok fs -> fs !! name = None -> named_ok name nd -> reserved name ->
  ~ reserved t -> t ∉ inputs ->
  dir_ok (<[name := nd]> (delete t fs)) /\ keeps fs (<[name := nd]> (delete t fs)).
Proof.
  intros Hd Hn Hok Hr Ht Hti. split; [split|].
  - intros f Hf. rewrite lookup_insert_ne by (intros ->; by apply (input_not_reserved f)).
    rewrite lookup_delete_ne by (intros ->; done). by apply Hd.
  - intros name' nd' Hnd' Hr'. apply lookup_insert_Some in Hnd' as [[<- <-]|[_ Hnd']]; [done|].
    apply lookup_delete_Some in Hnd' as [_ Hnd']. by apply Hd.
  - intros name' Hr' [nd' Hp]. rewrite lookup_insert_ne by congruence.
    by rewrite lookup_delete_ne by (intros ->; done).
Qed.

(** ** Map tasks *)

(** A written file of bucket [i] of map task [f]. *)
Definition temp_ok (f : string) (fs : FS) (temps : list string) (i : nat) : Prop :=
  exists t kvs, temps !! i = Some t /\ fs !! t = Some (File (encs kvs))
    /\ kvs ≡ₚ part n (Z.of_nat i) (kva f).

Lemma publish_one m f temps fs i :
  dir_ok fs -> inputs !! m = Some f -> Z.of_nat i < n ->
  Forall (fun t => ~ reserved t /\ t ∉ inputs) temps -> NoDup temps -> temp_ok f fs temps i ->
  exists fs', publish (Z.of_nat m) temps fs i = Some fs' /\ dir_ok fs' /\ keeps fs fs'
    /\ present fs' (inter_name (Z.of_nat m) (Z.of_nat i))
    /\ forall j, j <> i -> temp_ok f fs temps j -> temp_ok f fs' temps j.
Proof.
  intros Hd Hm Hi Htemps Hnd (t & kvs & Ht & Hft & Hkvs). unfold publish. rewrite Ht. cbn [mbind option_bind].
  rewrite Forall_forall in Htemps. destruct (Htemps t) as [Htr Hti]; [by apply list_elem_of_lookup_2 in Ht|].
  pose proof (Stat_spec fs (inter_name (Z.of_nat m) (Z.of_nat i))) as Hs.
  destruct (Stat fs _); [exists fs; split; [done|]; repeat (split; [done|]); done|].
  unfold Rename. rewrite Hft. pose proof (inter_reserved (Z.of_nat m) (Z.of_nat i)) as Hr.
  destruct (dir_ok_insert fs (inter_name (Z.of_nat m) (Z.of_nat i)) (File (encs kvs)) t)
    as [Hd' Hk']; try done.
  { left. exists m, f, (Z.of_nat i), kvs. repeat (split; [done || lia|]). done. }
  eexists. split; [done|]. split; [done|]. split; [done|].
  split; [unfold present; by rewrite lookup_insert_eq|].
  intros j Hj (u & kvs' & Hu & Hfu & Hk). exists u, kvs'. split; [done|]. split; [|done].
  destruct (Htemps u) as [Hur _]; [by apply list_elem_of_lookup_2 in Hu|].
  rewrite lookup_insert_ne by (intros <-; done).
  rewrite lookup_delete_ne; [done|]. intros <-. apply Hj. by apply (NoDup_lookup temps j i t).
Qed.

Lemma publish_run m f temps idx : forall fs,
  dir_ok fs -> inputs !! m = Some f -> Forall (fun i => Z.of_nat i < n) idx -> NoDup idx ->
  Forall (fun t => ~ reserved t /\ t ∉ inputs) temps -> NoDup temps ->
  Forall (temp_ok f fs temps) idx ->
  exists fs', run_steps (publish (Z.of_nat m) temps) fs idx = Some fs' /\ dir_ok fs' /\ keeps fs fs'
    /\ forall i, i ∈ idx -> present fs' (inter_name (Z.of_nat m) (Z.of_nat i)).
Proof.
  induction idx as [|i idx IH]; intros fs Hd Hm Hi Hnd Htemps Hndt Hok.
  - exists fs. repeat (split; [done|]). intros i Hin. set_solver.
  - apply Forall_cons in Hi as [Hi His]. apply NoDup_cons in Hnd as [Hni Hnd].
    apply Forall_cons in Hok as [Hok Hoks].
    destruct (publish_one m f temps fs i Hd Hm Hi Htemps Hndt Hok) as (fs1 & Hp & Hd1 & Hk1 & Hpr & Hrest).
    destruct (IH fs1) as (fs' & Hrun & Hd' & Hk' & Hall); try done.
    { apply Forall_forall. intros j Hj. rewrite Forall_forall in Hoks. apply Hrest; [|auto].
      intros ->. done. }
    exists fs'. rewrite run_steps_cons, Hp. split; [exact Hrun|]. split; [done|]. split; [by etrans|].
    intros j Hj. apply elem_of_cons in Hj as [->|Hj]; [|auto].
    unfold present. rewrite (Hk' _ (inter_reserved _ _) Hpr). done.
Qed.

(** Files of random names appear. *)
Definition junk_ok (fs : FS) (junk : list (string * string)) : Prop :=
  Forall (fun f => random_name f.1 /\ fs !! f.1 = None) junk.

Lemma scratch_ok fs junk : dir_ok fs -> junk_ok fs junk -> dir_ok (scratch fs junk) /\ keeps fs (scratch fs junk).
Proof.
  intros Hd Hj. apply dir_ok_agree; [done|]. intros name Hname. unfold scratch.
  induction Hj as [|[t c] junk [Ht Hn] _ IH]; simpl; [done|]. simpl in *.
  rewrite lookup_insert_ne; [done|]. intros ->. destruct Hname as [Hin|Hr].
  - rewrite (do_inputs _ Hd) in Hn by done. done.
  - by apply (random_not_reserved name).
Qed.

(** What a run of a task may rely on. *)
Definition progress_ok (fs : FS) (k : nat) (p : Progress) (ch : Choices) : Prop :=
  match p with Scratch junk => junk_ok fs junk | _ => choices_ok fs k ch end.

Lemma map_written m f fs ch :
  dir_ok fs -> inputs !! m = Some f -> choices_ok fs (Z.to_nat n) ch ->
  exists fs' temps, map_write mapf ch fs f n = Some (fs', temps) /\ dir_ok fs' /\ keeps fs fs'
    /\ NoDup temps /\ Forall (fun t => ~ reserved t /\ t ∉ inputs) temps
    /\ forall i, Z.of_nat i < n -> temp_ok f fs' temps i.
Proof.
  intros Hd Hm Hch. assert (Hf : f ∈ inputs) by (by apply list_elem_of_lookup_2 in Hm).
  destruct (map_write_spec mapf ch fs f (inp f) n (jo_n Hjob) (do_inputs _ Hd f Hf) Hch)
    as (fs' & temps & Hw & Hlen & Hnd & Hfree & Hout & Hin).
  exists fs', temps. split; [done|].
  assert (Htemps : Forall (fun t => ~ reserved t /\ t ∉ inputs) temps).
  { eapply Forall_impl; [exact Hfree|]. intros t [Ht Hr]. split; [by apply random_not_reserved|].
    intros Hti. by rewrite (do_inputs _ Hd) in Ht. }
  destruct (dir_ok_agree fs fs') as [Hd' Hk']; [done| |repeat (split; [done|])].
  { intros name Hname. apply Hout. intros Ht. rewrite Forall_forall in Htemps.
    destruct (Htemps name Ht). tauto. }
  intros i Hi. destruct (lookup_lt_is_Some_2 temps i) as [t Ht]; [unfold zlen in Hlen; lia|].
  destruct (Hin i t Ht) as (kvs & Hfs & Hkvs). by exists t, kvs.
Qed.

Lemma map_run m f fs p ch :
  dir_ok fs -> inputs !! m = Some f -> progress_ok fs (Z.to_nat n) p ch ->
  exists fs', run_map mapf p ch fs f (Z.of_nat m) n = Some fs' /\ dir_ok fs' /\ keeps fs fs'
    /\ (p = Completed -> forall r, 0 <= r < n -> present fs' (inter_name (Z.of_nat m) r)).
Proof.
  intros Hd Hm Hch.
  destruct p as [|junk| |k]; simpl in Hch; simpl;
    [|destruct (scratch_ok fs junk Hd Hch) as [? ?]; by eexists| |];
    destruct (map_written m f fs ch Hd Hm Hch) as (fs1 & temps & Hw & Hd1 & Hk1 & Hnd & Ht & Hok).
  - unfold doMapTask. rewrite Hw. cbn [mbind option_bind].
    destruct (publish_run m f temps (seq 0 (Z.to_nat n)) fs1) as (fs' & Hrun & Hd' & Hk' & Hall); try done.
    + apply Forall_seq. intros i Hi. lia.
    + apply NoDup_seq.
    + apply Forall_seq. intros i Hi. apply Hok. lia.
    + exists fs'. split; [done|]. split; [done|]. split; [by etrans|]. intros _ r Hr.
      rewrite <- (Z2Nat.id r) by lia. apply Hall. apply elem_of_seq. lia.
  - rewrite Hw. simpl. by exists fs1.
  - rewrite Hw. cbn [mbind option_bind].
    destruct (publish_run m f temps (take k (seq 0 (Z.to_nat n))) fs1) as (fs' & Hrun & Hd' & Hk' & _); try done.
    + apply Forall_take, Forall_seq. intros i Hi. lia.
    + eapply sublist_NoDup; [apply NoDup_seq|apply sublist_take].
    + apply Forall_take, Forall_seq. intros i Hi. apply Hok. lia.
    + exists fs'. split; [done|]. split; [done|]. split; [by etrans|done].
Qed.

(** ** Reduce tasks *)

(** The intermediate files of reduce task [r], in the order of the map tasks. *)
Definition inter_files (r : Z) : list string :=
  imap (fun m _ => inter_name (Z.of_nat m) r) inputs.

Lemma elem_of_inter_files r name :
  name ∈ inter_files r <-> exists m f, inputs !! m = Some f /\ name = inter_name (Z.of_nat m) r.
Proof.
  unfold inter_files. rewrite list_elem_of_lookup. split.
  - intros [m Hm]. apply list_lookup_imap_Some in Hm as (f & Hf & ->). by exists m, f.
  - intros (m & f & Hf & ->). exists m. apply list_lookup_imap_Some. by exists f.
Qed.

Lemma NoDup_inter_files r : NoDup (inter_files r).
Proof.
  apply NoDup_alt. intros i j name Hi Hj. unfold inter_files in *.
  apply list_lookup_imap_Some in Hi as (f & _ & ->). apply list_lookup_imap_Some in Hj as (g & _ & Heq).
  apply inter_name_inj in Heq as [Heq _]; lia.
Qed.

(** The entries of the directory that a reduce task finds are intermediate files of its own. *)
Lemma matching fs r name :
  dir_ok fs -> name ∈ reduceId2Filename fs r ->
  name ∈ inter_files r /\ reserved name
  /\ exists f kvs, f ∈ inputs /\ fs !! name = Some (File (encs kvs)) /\ kvs ≡ₚ part n r (kva f).
Proof.
  intros Hd Hin. unfold reduceId2Filename in Hin. apply list_elem_of_filter in Hin as [[_ Hmatch] Hin].
  unfold ReadDir in Hin. rewrite merge_sort_Permutation, elem_of_elements in Hin.
  apply elem_of_dom in Hin as [nd Hnd]. apply match_reserved in Hmatch as Hres.
  destruct (do_named _ Hd name nd Hnd Hres) as [(m & f & r' & kvs & Hm & Hr & -> & -> & Hkvs)|(r' & Hr & -> & _)].
  - rewrite match_inter in Hmatch by lia. apply bool_decide_eq_true in Hmatch as ->.
    split; [apply elem_of_inter_files; by exists m, f|]. split; [done|]. exists f, kvs.
    split; [by apply list_elem_of_lookup_2 in Hm|done].
  - rewrite match_out in Hmatch by lia. done.
Qed.

Lemma NoDup_reduceId2Filename fs r : NoDup (reduceId2Filename fs r).
Proof.
  unfold reduceId2Filename, ReadDir. apply NoDup_filter. rewrite merge_sort_Permutation. apply NoDup_elements.
Qed.

(** Every intermediate file that is there is found. *)
Lemma matching_all fs r :
  dir_ok fs -> (forall name, name ∈ inter_files r -> present fs name) ->
  reduceId2Filename fs r ≡ₚ inter_files r.
Proof.
  intros Hd Hp. apply NoDup_Permutation; [apply NoDup_reduceId2Filename|apply NoDup_inter_files|].
  intros name. split; [by intros [? _]%matching|]. intros Hin. destruct (Hp name Hin) as [nd Hnd].
  unfold reduceId2Filename. apply list_elem_of_filter.
  apply elem_of_inter_files in Hin as (m & f & Hm & ->).
  pose proof (inter_reserved (Z.of_nat m) r) as Hres.
  destruct (do_named _ Hd _ nd Hnd Hres)
    as [(m' & f' & r' & kvs & _ & Hr & Heq & -> & _)|(r' & Hr & Heq & _)].
  - apply inter_name_inj in Heq as [_ ->]; [|lia..]. split; [split|].
    + unfold IsDir. by rewrite Hnd.
    + rewrite match_inter by lia. by apply bool_decide_eq_true.
    + unfold ReadDir. rewrite merge_sort_Permutation. apply elem_of_elements, elem_of_dom. by exists (File (encs kvs)).
  - apply inter_ne_out in Heq; [done|lia..].
Qed.

(** The content of a file that is there. *)
Definition content fs name : string := default "" (ReadAll fs name).

Lemma read_matching fs r :
  dir_ok fs ->
  mapM (ReadAll fs) (reduceId2Filename fs r) = Some (content fs <$> reduceId2Filename fs r).
Proof.
  intros Hd. apply mapM_Some_2. apply Forall2_fmap_r, Forall_Forall2_diag, Forall_forall.
  intros name Hin. destruct (matching fs r name Hd Hin) as (_ & _ & f & kvs & _ & Hfs & _).
  simpl. unfold content, ReadAll. by rewrite Hfs.
Qed.

(** What a file of pairs decodes to. *)
Lemma decode_inter kvs f r :
  f ∈ inputs -> kvs ≡ₚ part n r (kva f) -> kv_decode (encs kvs) = kvs.
Proof.
  intros Hf Hkvs. unfold encs, join. apply kv_roundtrip. rewrite Hkvs. apply Forall_forall.
  intros kv Hkv. apply list_elem_of_filter in Hkv as [_ Hkv].
  pose proof (jo_clean Hjob) as Hc. rewrite Forall_forall in Hc. specialize (Hc f Hf).
  rewrite Forall_forall in Hc. by apply Hc.
Qed.

Lemma part_join r (fl : list string) :
  part n r (mjoin (kva <$> fl)) = mjoin ((fun f => part n r (kva f)) <$> fl).
Proof. induction fl as [|f fl IH]; simpl; [done|]. unfold part in *. rewrite filter_app. f_equal. exact IH. Qed.

(** With all intermediate files there, a reduce task reads its pairs, in some order. *)
Lemma read_all fs r :
  dir_ok fs -> 0 <= r < n -> (forall name, name ∈ inter_files r -> present fs name) ->
  mjoin (kv_decode <$> (content fs <$> reduceId2Filename fs r)) ≡ₚ part n r all_pairs.
Proof.
  intros Hd Hr Hp. rewrite (matching_all fs r Hd Hp). unfold all_pairs. rewrite part_join.
  rewrite <- list_fmap_compose. unfold inter_files. rewrite fmap_imap.
  assert (Hone : forall m f, inputs !! m = Some f ->
            kv_decode (content fs (inter_name (Z.of_nat m) r)) ≡ₚ part n r (kva f)).
  { intros m f Hm.
    assert (Hin : inter_name (Z.of_nat m) r ∈ inter_files r) by (apply elem_of_inter_files; by exists m, f).
    destruct (Hp _ Hin) as [nd Hnd].
    destruct (do_named _ Hd _ nd Hnd (inter_reserved _ _))
      as [(m' & f' & r' & kvs & Hm' & Hr' & Heq & -> & Hkvs)|(r' & Hr' & Heq & _)].
    - apply inter_name_inj in Heq as [Heq ->]; [|lia..]. assert (m' = m) as -> by lia.
      assert (f' = f) as -> by congruence. unfold content, ReadAll. rewrite Hnd. simpl.
      rewrite (decode_inter kvs f r'); [done|by apply list_elem_of_lookup_2 in Hm|done].
    - apply inter_ne_out in Heq; [done|lia..]. }
  assert (Hgen : forall (l : list string) (g : nat -> list KeyValue),
            (forall m f, l !! m = Some f -> g m ≡ₚ part n r (kva f)) ->
            mjoin (imap (fun m _ => g m) l) ≡ₚ mjoin ((fun f => part n r (kva f)) <$> l)).
  { induction l as [|f l IH]; intros g Hg; [done|]. simpl. rewrite (Hg 0%nat f) by done.
    f_equiv. apply (IH (fun m => g (S m))). intros m f' Hf'. by apply Hg. }
  apply (Hgen inputs (fun m => kv_decode (content fs (inter_name (Z.of_nat m) r)))). exact Hone.
Qed.

(** Reduce task [r] can run: its output is there, or all it needs. *)
Definition ready (fs : FS) (r : Z) : Prop :=
  present fs (out_name r) \/ forall name, name ∈ inter_files r -> present fs name.

(** A run of reduce task [r] loses none of the job's files but its own intermediate ones, and
    those only when its output is there. *)
Definition kept (r : Z) (fs fs' : FS) : Prop :=
  forall name, reserved name -> present fs name ->
    present fs' name \/ name ∈ inter_files r /\ present fs' (out_name r).

Lemma keeps_present fs fs' name : keeps fs fs' -> reserved name -> present fs name -> present fs' name.
Proof. intros Hk Hr Hp. unfold present. by rewrite (Hk name Hr Hp). Qed.

Lemma keeps_kept r fs fs' : keeps fs fs' -> kept r fs fs'.
Proof. intros Hk name Hr Hp. left. by apply (keeps_present fs). Qed.

Lemma reduce_written fs r ch :
  dir_ok fs -> 0 <= r < n -> choices_ok fs 1 ch ->
  exists fs' t out, reduce_write reducef ch fs r = Some (fs', t) /\ fs' = <[t := File out]> fs
    /\ dir_ok fs' /\ keeps fs fs' /\ ~ reserved t /\ t ∉ inputs
    /\ ((forall name, name ∈ inter_files r -> present fs name) -> out = expected r).
Proof.
  intros Hd Hr (_ & _ & Hsup). pose proof (read_matching fs r Hd) as Hread.
  set (kvs := mjoin (kv_decode <$> (content fs <$> reduceId2Filename fs r))).
  destruct (reduce_write_spec reducef Hperm ch fs r kvs _ Hsup Hread) as (fs' & t & Hw & Ht & Hrt & ->); [done|].
  assert (Hti : t ∉ inputs) by (intros Hti; by rewrite (do_inputs _ Hd) in Ht).
  apply random_not_reserved in Hrt as Hres.
  eexists _, t, _. split; [exact Hw|]. split; [reflexivity|].
  destruct (dir_ok_agree fs (<[t := File (lines reducef kvs (sorted_keys kvs))]> fs)) as [Hd' Hk']; [done| |].
  { intros name Hname. apply lookup_insert_ne. intros ->. tauto. }
  repeat (split; [done|]). intros Hall. pose proof (read_all fs r Hd Hr Hall) as Hp. fold kvs in Hp.
  unfold expected. rewrite <- (sorted_keys_perm kvs (part n r all_pairs)) by done. by apply lines_perm.
Qed.

Lemma reduce_published fs r ch :
  dir_ok fs -> 0 <= r < n -> ready fs r -> choices_ok fs 1 ch ->
  exists fs' t, reduce_write reducef ch fs r = Some (fs', t)
    /\ dir_ok fs' /\ keeps fs fs'
    /\ dir_ok (reduce_publish fs' t r) /\ keeps fs (reduce_publish fs' t r)
    /\ present (reduce_publish fs' t r) (out_name r).
Proof.
  intros Hd Hr Hready Hch.
  destruct (reduce_written fs r ch Hd Hr Hch) as (fs' & t & out & Hw & Hfs & Hd' & Hk' & Htr & Hti & Hout).
  exists fs', t. repeat (split; [done|]). unfold reduce_publish.
  pose proof (Stat_spec fs' (out_name r)) as Hs. destruct (Stat fs' (out_name r)); [by repeat split; try apply Hd'|].
  assert (Hall : forall name, name ∈ inter_files r -> present fs name).
  { destruct Hready as [Hp|Hall]; [|done]. unfold present in Hp.
    rewrite <- (Hk' _ (out_reserved r) Hp), Hs in Hp. by destruct Hp. }
  unfold Rename. rewrite Hfs, lookup_insert_eq, <- Hfs.
  destruct (dir_ok_insert fs' (out_name r) (File out) t) as [Hd2 Hk2]; try done.
  { right. exists r. split; [done|]. split; [done|]. by rewrite (Hout Hall). }
  { apply out_reserved. }
  split; [done|]. split; [by etrans|]. unfold present. by rewrite lookup_insert_eq.
Qed.

(** Deleting intermediate files of reduce task [r]. *)
Lemma delete_run r (l : list string) : forall fs,
  dir_ok fs -> present fs (out_name r) -> 0 <= r -> Forall (fun name => name ∈ inter_files r) l ->
  let fs' := foldl (fun fs name => delete name fs) fs l in
  dir_ok fs' /\ kept r fs fs' /\ present fs' (out_name r).
Proof.
  induction l as [|name l IH]; intros fs Hd Hp Hr Hl; simpl.
  - split; [done|]. split; [|done]. intros name _ ?. by left.
  - apply Forall_cons in Hl as [Hn Hl]. apply elem_of_inter_files in Hn as Hname.
    destruct Hname as (m & f & _ & ->). pose proof (inter_reserved (Z.of_nat m) r) as Hres.
    assert (Hne : inter_name (Z.of_nat m) r <> out_name r) by (apply inter_ne_out; lia).
    destruct (IH (delete (inter_name (Z.of_nat m) r) fs)) as (Hd' & Hk' & Hp'); [|by unfold present; rewrite lookup_delete_ne|done|done|].
    { split.
      - intros g Hg. rewrite lookup_delete_ne by (intros <-; by apply (input_not_reserved _ Hg)). by apply Hd.
      - intros name nd Hnd. apply lookup_delete_Some in Hnd as [_ Hnd]. by apply Hd. }
    split; [done|]. split; [|done]. intros name Hrn Hpn.
    destruct (decide (name = inter_name (Z.of_nat m) r)) as [->|Hd2]; [by right|].
    apply Hk'; [done|]. unfold present. by rewrite lookup_delete_ne.
Qed.

Lemma reduce_run r fs p ch :
  dir_ok fs -> 0 <= r < n -> ready fs r -> progress_ok fs 1 p ch ->
  exists fs', run_reduce reducef p ch fs r = Some fs' /\ dir_ok fs' /\ kept r fs fs'
    /\ (p = Completed -> present fs' (out_name r)).
Proof.
  intros Hd Hr Hready Hch.
  assert (Hdel : forall fs' l, dir_ok fs' -> keeps fs fs' -> present fs' (out_name r) ->
    l ⊆ reduceId2Filename fs' r ->
    let fs2 := foldl (fun fs name => delete name fs) fs' l in
    dir_ok fs2 /\ kept r fs fs2 /\ present fs2 (out_name r)).
  { intros fs' l Hd' Hk' Hp' Hl. destruct (delete_run r l fs' Hd' Hp' ltac:(lia)) as (Hd2 & Hk2 & Hp2).
    - apply Forall_forall. intros name Hin. apply Hl in Hin. by apply (matching fs' r name Hd').
    - split; [done|]. split; [|done]. intros name Hrn Hpn. apply Hk2; [done|]. by apply (keeps_present fs). }
  destruct p as [|junk| |k]; simpl in Hch; simpl;
    [|destruct (scratch_ok fs junk Hd Hch) as [? ?]; eexists; split; [done|]; split; [done|]; split; [by apply keeps_kept|done]| |];
    destruct (reduce_published fs r ch Hd Hr Hready Hch) as (fs' & t & Hw & Hd' & Hk' & Hd2 & Hk2 & Hp2).
  - unfold doReduceTask. rewrite Hw. cbn [mbind option_bind]. eexists. split; [done|].
    destruct (Hdel (reduce_publish fs' t r) (reduceId2Filename (reduce_publish fs' t r) r)); try done. tauto.
  - rewrite Hw. simpl. exists fs'. split; [done|]. split; [done|]. split; [by apply keeps_kept|done].
  - rewrite Hw. cbn [mbind option_bind]. eexists. split; [done|].
    destruct (Hdel (reduce_publish fs' t r) (take k (reduceId2Filename (reduce_publish fs' t r) r))); try done; [|tauto].
    intros name. apply subseteq_take.
Qed.

(** ** Coordinator and workers *)

(** [j_completed] are the indices of the tasks that some worker ran to the end. *)
Record JobWorld := mkJobWorld { j_mr : MrWorld; j_fs : FS; j_completed : list Z }.

(** [JRun k p ch]: the worker that was given response [k] runs its task, as far as [p] says.
    [JReport k]: it reports the task; a worker that did not get to the end does not. *)
Inductive JobEvent :=
  | JHeartBeat (clock : Z -> Z)
  | JRun (k : nat) (p : Progress) (ch : Choices)
  | JReport (k : nat).

Definition job_step (w : JobWorld) (e : JobEvent) : option JobWorld :=
  let c := w_coord (j_mr w) in
  match e with
  | JHeartBeat clock =>
      mr ← mr_step (j_mr w) (EHeartBeat clock);
      Some (mkJobWorld mr (j_fs w) (j_completed w))
  | JRun k p ch =>
      match w_given (j_mr w) !! k with
      | None => Some w
      | Some r =>
          fs ← run_task mapf reducef p ch c (j_fs w) r;
          let done := match p, job_index c r with Completed, Some i => [i] | _, _ => [] end in
          Some (mkJobWorld (j_mr w) fs (j_completed w ++ done))
      end
  | JReport k =>
      match w_given (j_mr w) !! k ≫= job_index c with
      | Some i =>
          if decide (i ∈ j_completed w) then
            mr ← mr_step (j_mr w) (EReport k);
            Some (mkJobWorld mr (j_fs w) (j_completed w))
          else Some w
      | None => Some w
      end
  end.

Definition job_run (w : JobWorld) (es : list JobEvent) : option JobWorld := run_steps job_step w es.

Definition job_start (now : Z) (fs : FS) : JobWorld := mkJobWorld (mr_start inputs n now) fs [].

(** The choices of a run are ones the runtime can make. *)
Definition event_ok (w : JobWorld) (e : JobEvent) : Prop :=
  match e with
  | JRun k p ch =>
      match JjobType <$> w_given (j_mr w) !! k with
      | Some MapJob => progress_ok (j_fs w) (Z.to_nat n) p ch
      | Some ReduceJob => progress_ok (j_fs w) 1 p ch
      | _ => True
      end
  | _ => True
  end.

(** All events of a run are. *)
Fixpoint events_ok (w : JobWorld) (es : list JobEvent) : Prop :=
  match es with
  | [] => True
  | e :: es => event_ok w e /\ forall w', job_step w e = Some w' -> events_ok w' es
  end.

Record job_inv (w : JobWorld) : Prop := mkJobInv {
  ji_mr : world_wf (j_mr w);
  ji_files : files (w_coord (j_mr w)) = inputs;
  ji_n : NnReduce (w_coord (j_mr w)) = n;
  ji_dir : dir_ok (j_fs w);
  ji_given : forall r i, r ∈ w_given (j_mr w) -> job_index (w_coord (j_mr w)) r = Some i ->
    TtaskPtr r = Some i /\ rs_NnReduce r = n;
  ji_reported : forall i, i ∈ w_reported (j_mr w) -> i ∈ j_completed w;
  ji_map : forall m f r, inputs !! m = Some f -> Z.of_nat m ∈ j_completed w -> 0 <= r < n ->
    present (j_fs w) (inter_name (Z.of_nat m) r) \/ present (j_fs w) (out_name r);
  ji_reduce : forall r, 0 <= r < n -> zlen inputs + r ∈ j_completed w -> present (j_fs w) (out_name r) }.

Lemma ji_nMap w : job_inv w -> nMap (w_coord (j_mr w)) = zlen inputs.
Proof. intros Hw. rewrite (cw_nMap _ (ww_coord _ (ji_mr _ Hw))). by rewrite (ji_files _ Hw). Qed.

(** Finished tasks have been run to the end. *)
Lemma finished_completed w lo hi i :
  job_inv w -> finished (tasks (w_coord (j_mr w))) lo hi -> lo <= i < hi -> i ∈ j_completed w.
Proof.
  intros Hw Hf Hi. destruct (Hf i Hi) as (t & Ht & Hs). apply (ji_reported _ Hw).
  by apply (ww_reported _ (ji_mr _ Hw) i t).
Qed.

(** The barrier: a reduce task is only handed out when everything it needs is there. *)
Lemma reduce_ready w r i :
  job_inv w -> r ∈ w_given (j_mr w) -> JjobType r = ReduceJob ->
  job_index (w_coord (j_mr w)) r = Some i ->
  0 <= TtaskId r < n /\ i = zlen inputs + TtaskId r /\ ready (j_fs w) (TtaskId r).
Proof.
  intros Hw Hr Hj Hi. pose proof (ji_mr _ Hw) as Hmr. pose proof (ww_coord _ Hmr) as Hc.
  pose proof (ji_nMap _ Hw) as Hn. destruct (ww_given _ Hmr r i Hr Hi) as (Hrep & t & Ht & Hidle).
  unfold job_index in Hi. rewrite Hj in Hi. injection Hi as Hi. pose proof (slice_get_lt _ _ _ Ht) as Hlt.
  rewrite (cw_len _ Hc), (ji_n _ Hw) in Hlt.
  assert (Hge : 0 <= TtaskId r).
  { unfold report_of in Hrep. rewrite Hj in Hrep. destruct (Z.ltb_spec i (nMap (w_coord (j_mr w)))); [done|lia]. }
  split; [lia|]. split; [lia|].
  assert (Hfin : finished (tasks (w_coord (j_mr w))) 0 (nMap (w_coord (j_mr w)))).
  { pose proof (cw_phase _ Hc) as Hph. unfold phase_wf in Hph. destruct (phase (w_coord (j_mr w))).
    - destruct Hph as [Hph _]. by rewrite (Hph i t ltac:(lia) Ht) in Hidle.
    - apply Hph.
    - intros j Hj'. apply Hph. rewrite (ji_n _ Hw). lia. }
  destruct (decide (is_Some (j_fs w !! out_name (TtaskId r)))) as [Ho|Ho]; [by left|right].
  intros name Hname. apply elem_of_inter_files in Hname as (m & f & Hm & ->).
  destruct (ji_map _ Hw m f (TtaskId r) Hm); [|lia|done|done].
  apply (finished_completed w _ _ _ Hw Hfin). apply lookup_lt_Some in Hm. unfold zlen in Hn. lia.
Qed.

#[local] Arguments mr_step : simpl never.

Lemma job_heartbeat w clock :
  job_inv w -> exists w', job_step w (JHeartBeat clock) = Some w' /\ job_inv w'.
Proof.
  intros Hw. destruct (mr_heartbeat clock _ (ji_mr _ Hw)) as (c' & r & _ & Ha & Hs & Hmr).
  pose proof (answer_advances _ _ _ _ Ha) as Hadv. pose proof (ww_coord _ (ji_mr _ Hw)) as Hc.
  unfold job_step. rewrite Hs. cbn [mbind option_bind]. eexists. split; [done|].
  split; simpl; try apply Hw; [done| | |].
  - rewrite (adv_files _ _ Hadv). apply Hw.
  - rewrite (adv_red _ _ Hadv). apply Hw.
  - intros r' i Hr' Hi. apply elem_of_app in Hr' as [Hr'|Hr'%list_elem_of_singleton].
    + apply (ji_given _ Hw); [done|]. by rewrite <- (job_index_advances _ c').
    + subst r'. destruct (answer_job_index clock _ r c' i Hc Ha Hi) as (_ & Hptr & _). split; [done|].
      rewrite <- (ji_n _ Hw). by destruct Ha.
Qed.

Lemma job_report w k : job_inv w -> exists w', job_step w (JReport k) = Some w' /\ job_inv w'.
Proof.
  intros Hw. unfold job_step. destruct (w_given (j_mr w) !! k) as [r|] eqn:Hk; simpl; [|by exists w].
  destruct (job_index (w_coord (j_mr w)) r) as [i|] eqn:Hi; [|by exists w].
  case_decide as Hin; [|by exists w].
  destruct (mr_report (j_mr w) k r i (ji_mr _ Hw) Hk Hi) as (t & p & _ & Hs & Hmr & Hadv).
  rewrite Hs. cbn [mbind option_bind]. eexists. split; [done|].
  split; simpl; [done|apply Hw|apply Hw|apply Hw| | |apply Hw|apply Hw].
  - intros r' j Hr' Hj. apply (ji_given _ Hw); [done|]. by rewrite <- (job_index_advances _ _ r' Hadv).
  - intros j Hj. apply elem_of_app in Hj as [Hj|Hj%list_elem_of_singleton]; [by apply Hw|by subst].
Qed.

(** A run that loses nothing the invariant needs. *)
Lemma job_inv_run w fs' new :
  job_inv w -> dir_ok fs' ->
  (forall m f r, inputs !! m = Some f -> 0 <= r < n ->
     present (j_fs w) (inter_name (Z.of_nat m) r) \/ present (j_fs w) (out_name r)
     \/ Z.of_nat m ∈ new ->
     present fs' (inter_name (Z.of_nat m) r) \/ present fs' (out_name r)) ->
  (forall r, 0 <= r < n -> present (j_fs w) (out_name r) \/ zlen inputs + r ∈ new -> present fs' (out_name r)) ->
  job_inv (mkJobWorld (j_mr w) fs' (j_completed w ++ new)).
Proof.
  intros Hw Hd Hmap Hred. split; simpl; try apply Hw; [done| | |].
  - intros i Hi. apply elem_of_app. left. by apply (ji_reported _ Hw).
  - intros m f r Hm Hin Hr. apply (Hmap m f r Hm Hr). apply elem_of_app in Hin as [Hin|Hin]; [|tauto].
    destruct (ji_map _ Hw m f r Hm Hin Hr); tauto.
  - intros r Hr Hin. apply Hred; [done|]. apply elem_of_app in Hin as [Hin|Hin]; [|tauto].
    left. by apply (ji_reduce _ Hw).
Qed.

(** The response of a map task names its input file. *)
Lemma map_task w r i :
  job_inv w -> r ∈ w_given (j_mr w) -> JjobType r = MapJob ->
  job_index (w_coord (j_mr w)) r = Some i ->
  exists m f t, inputs !! m = Some f /\ i = Z.of_nat m /\ TtaskPtr r = Some i /\ rs_NnReduce r = n
    /\ slice_get (tasks (w_coord (j_mr w))) i = Some t /\ FileName t = f /\ Id t = Z.of_nat m.
Proof.
  intros Hw Hr Hj Hi. pose proof (ji_mr _ Hw) as Hmr. pose proof (ww_coord _ Hmr) as Hc.
  pose proof (ji_nMap _ Hw) as Hn. destruct (ww_given _ Hmr r i Hr Hi) as (Hrep & t & Ht & _).
  destruct (ji_given _ Hw r i Hr Hi) as [Hptr Hnr]. pose proof (slice_get_lt _ _ _ Ht) as Hlt.
  assert (Hi' : i < zlen inputs).
  { unfold report_of in Hrep. rewrite Hj, Hn in Hrep. by destruct (Z.ltb_spec i (zlen inputs)). }
  destruct (cw_task _ Hc i t Ht) as [Hid Hf]. rewrite (ji_files _ Hw) in Hf.
  destruct (lookup_lt_is_Some_2 inputs (Z.to_nat i)) as [f Hfi]; [unfold zlen in Hi'; lia|].
  exists (Z.to_nat i), f, t. rewrite Hfi in Hf. split; [done|]. split; [lia|]. repeat (split; [done|]). lia.
Qed.

Lemma job_run_map w k r p ch :
  job_inv w -> w_given (j_mr w) !! k = Some r -> JjobType r = MapJob ->
  progress_ok (j_fs w) (Z.to_nat n) p ch ->
  exists w', job_step w (JRun k p ch) = Some w' /\ job_inv w'.
Proof.
  intros Hw Hk Hj Hp. apply list_elem_of_lookup_2 in Hk as Hin.
  assert (Hi : job_index (w_coord (j_mr w)) r = Some (TtaskId r)) by (unfold job_index; by rewrite Hj).
  destruct (map_task w r _ Hw Hin Hj Hi) as (m & f & t & Hm & Him & Hptr & Hnr & Ht & Hf & Hid).
  destruct (map_run m f (j_fs w) p ch (ji_dir _ Hw) Hm Hp) as (fs' & Hrun & Hd' & Hk' & Hall).
  assert (Htask : run_task mapf reducef p ch (w_coord (j_mr w)) (j_fs w) r = Some fs').
  { unfold run_task, Worker_body. rewrite Hj, Hptr. cbn [mbind option_bind]. rewrite Ht. cbn [mbind option_bind].
    rewrite Hf, Hid, Hnr. destruct p; simpl in *; by rewrite ?Hrun. }
  unfold job_step. rewrite Hk, Htask. cbn [mbind option_bind]. rewrite Hi. eexists. split; [done|].
  apply lookup_lt_Some in Hm as Hlt.
  apply job_inv_run; [done|done| |].
  - intros m' f' r' Hm' Hr' [Hp'|[Hp'|Hnew]]; [left|right|left].
    + by apply (keeps_present (j_fs w)); [|apply inter_reserved|].
    + by apply (keeps_present (j_fs w)); [|apply out_reserved|].
    + destruct p; simpl in Hnew; try (by apply not_elem_of_nil in Hnew).
      apply list_elem_of_singleton in Hnew. assert (m' = m) as -> by lia. by apply Hall.
  - intros r' Hr' [Hp'|Hnew]; [by apply (keeps_present (j_fs w)); [|apply out_reserved|]|].
    destruct p; simpl in Hnew; try (by apply not_elem_of_nil in Hnew).
    apply list_elem_of_singleton in Hnew. unfold zlen in Hnew. lia.
Qed.

Lemma job_run_reduce w k r p ch :
  job_inv w -> w_given (j_mr w) !! k = Some r -> JjobType r = ReduceJob ->
  progress_ok (j_fs w) 1 p ch ->
  exists w', job_step w (JRun k p ch) = Some w' /\ job_inv w'.
Proof.
  intros Hw Hk Hj Hp. apply list_elem_of_lookup_2 in Hk as Hin.
  assert (Hi : job_index (w_coord (j_mr w)) r = Some (TtaskId r + nMap (w_coord (j_mr w))))
    by (unfold job_index; by rewrite Hj).
  destruct (reduce_ready w r _ Hw Hin Hj Hi) as (Hr & Hir & Hready).
  destruct (reduce_run (TtaskId r) (j_fs w) p ch (ji_dir _ Hw) Hr Hready Hp)
    as (fs' & Hrun & Hd' & Hk' & Hall).
  assert (Htask : run_task mapf reducef p ch (w_coord (j_mr w)) (j_fs w) r = Some fs').
  { unfold run_task, Worker_body. rewrite Hj. destruct p; simpl in *; by rewrite ?Hrun. }
  unfold job_step. rewrite Hk, Htask. cbn [mbind option_bind]. rewrite Hi, Hir. eexists. split; [done|].
  assert (Hout : forall r', 0 <= r' -> present (j_fs w) (out_name r') -> present fs' (out_name r')).
  { intros r' Hr' Hp'. destruct (Hk' _ (out_reserved r') Hp') as [|[Hin' _]]; [done|].
    apply elem_of_inter_files in Hin' as (m & f & _ & Heq). symmetry in Heq.
    apply inter_ne_out in Heq; [done|lia..]. }
  apply job_inv_run; [done|done| |].
  - intros m f r' Hm Hr' [Hp'|[Hp'|Hnew]].
    + destruct (Hk' _ (inter_reserved _ _) Hp') as [|[Hin' Ho]]; [by left|right].
      apply elem_of_inter_files in Hin' as (m' & f' & _ & Heq).
      apply inter_name_inj in Heq as [_ ->]; [done|lia..].
    + right. by apply Hout; [lia|].
    + exfalso. apply lookup_lt_Some in Hm. destruct p; simpl in Hnew; try (by apply not_elem_of_nil in Hnew).
      apply list_elem_of_singleton in Hnew. unfold zlen in Hnew. lia.
  - intros r' Hr' [Hp'|Hnew]; [by apply Hout; [lia|]|].
    destruct p; simpl in Hnew; try (by apply not_elem_of_nil in Hnew).
    apply list_elem_of_singleton in Hnew. assert (r' = TtaskId r) as -> by lia. by apply Hall.
Qed.

Lemma job_step_inv w e : job_inv w -> event_ok w e -> exists w', job_step w e = Some w' /\ job_inv w'.
Proof.
  intros Hw He. destruct e as [clock|k p ch|k]; [by apply job_heartbeat| |by apply job_report].
  simpl in He. destruct (w_given (j_mr w) !! k) as [r|] eqn:Hk; simpl in He;
    [|exists w; unfold job_step; by rewrite Hk].
  destruct (JjobType r) eqn:Hj.
  1: by apply (job_run_map w k r). 1: by apply (job_run_reduce w k r).
  all: exists (mkJobWorld (j_mr w) (j_fs w) (j_completed w ++ [])); unfold job_step, run_task, Worker_body, job_index;
    rewrite Hk, Hj; (split; [by destruct p|]); rewrite app_nil_r; by destruct w.
Qed.

Lemma job_run_inv es : forall w,
  job_inv w -> events_ok w es -> exists w', job_run w es = Some w' /\ job_inv w'.
Proof.
  induction es as [|e es IH]; intros w Hw Hok; [by exists w|]. destruct Hok as [He Hes].
  destruct (job_step_inv w e Hw He) as (w1 & Hs & Hw1). destruct (IH w1 Hw1 (Hes w1 Hs)) as (w' & Hr & Hw').
  exists w'. unfold job_run. rewrite run_steps_cons, Hs. done.
Qed.

Lemma job_start_inv now fs :
  (forall f, f ∈ inputs -> fs !! f = Some (File (inp f))) ->
  (forall name, present fs name -> ~ reserved name) ->
  job_inv (job_start now fs).
Proof.
  intros Hin Hfree. pose proof (jo_n Hjob) as Hn. split; simpl; try done.
  - apply mr_start_wf. lia.
  - split; [done|]. intros name nd Hnd Hr. by destruct (Hfree name ltac:(by exists nd)).
  - intros r i Hr. by apply not_elem_of_nil in Hr.
  - intros m f r _ Hm. by apply not_elem_of_nil in Hm.
  - intros r _ Hm. by apply not_elem_of_nil in Hm.
Qed.

(** The output of a finished job. *)
Lemma done_output w r :
  job_inv w -> phase (w_coord (j_mr w)) = Done -> 0 <= r < n ->
  j_fs w !! out_name r = Some (File (expected r)).
Proof.
  intros Hw Hd Hr. pose proof (ww_coord _ (ji_mr _ Hw)) as Hc. pose proof (cw_phase _ Hc) as Hph.
  unfold phase_wf in Hph. rewrite Hd, (ji_n _ Hw), (ji_nMap _ Hw) in Hph.
  pose proof (zlen_nonneg inputs) as Hz.
  destruct (ji_reduce _ Hw r Hr) as [nd Hnd]; [by apply (finished_completed w _ _ _ Hw Hph); lia|].
  destruct (do_named _ (ji_dir _ Hw) _ nd Hnd (out_reserved r))
    as [(m & f & r' & kvs & _ & Hr' & Heq & _)|(r' & Hr' & Heq & ->)].
  - symmetry in Heq. apply inter_ne_out in Heq; [done|lia..].
  - apply out_name_inj in Heq as ->. done.
Qed.
End Job.

(** What the output files of a finished job hold. *)
Lemma job_output `{KvJson} {clean : string -> Prop} `{!KvJsonLaws clean}
    (mapf : string -> string -> list KeyValue) (reducef : string -> list string -> string)
    (inputs : list string) (inp : string -> string) (n now : Z) (fs : FS) (es : list JobEvent) :
  (forall k, Proper ((≡ₚ) ==> (=)) (reducef k)) ->
  job_ok (clean:=clean) mapf inputs inp n ->
  (forall f, f ∈ inputs -> fs !! f = Some (File (inp f))) ->
  (forall name, present fs name -> ~ reserved name) ->
  events_ok mapf reducef n (job_start inputs n now fs) es ->
  let all := all_pairs mapf inputs inp in
  exists w, job_run mapf reducef (job_start inputs n now fs) es = Some w
    /\ (Coordinator_Done (w_coord (j_mr w)) = true -> forall r, 0 <= r < n ->
        j_fs w !! out_name r
        = Some (File (join (MrSequential.line reducef all
                              <$> filter (fun k => bucket n k = r) (sorted_keys all))))).
Proof.
  intros Hperm Hjob Hin Hfree Hes all.
  destruct (job_run_inv (clean:=clean) mapf reducef Hperm inputs inp n Hjob es (job_start inputs n now fs))
    as (w & Hrun & Hw); [by apply (job_start_inv (clean:=clean))|done|].
  exists w. split; [done|]. intros Hd r Hr. apply bool_decide_eq_true in Hd.
  rewrite (done_output mapf reducef inputs inp n w r Hw Hd Hr).
  unfold expected, lines. fold all. rewrite sorted_keys_part. do 3 f_equal. apply list_fmap_ext.
  intros i k Hk. apply list_elem_of_lookup_2, list_elem_of_filter in Hk as [Hk _].
  unfold MrSequential.line. by rewrite (values_part n r).
Qed.


(** ** A job that runs

    A codec for strings without line breaks: a key and a value on a line each. *)

#[local] Arguments String.append !_ _ / : simpl nomatch.

Definition nl : Ascii.ascii := Ascii.ascii_of_nat 10.

Fixpoint read_lines (acc : string) (key : option string) (s : string) : list KeyValue :=
  match s with
  | EmptyString => []
  | String a s =>
      if decide (a = nl) then
        match key with
        | None => read_lines "" (Some acc) s
        | Some k => mkKeyValue k acc :: read_lines "" None s
        end
      else read_lines (acc +:+ String a "") key s
  end.

#[export] Instance line_json : KvJson := {|
  kv_encode kv := (Key kv +:+ String nl (Value kv +:+ String nl ""))%string;
  kv_decode := read_lines "" None;
|}.

Definition one_line (s : string) : Prop := nl ∉ String.list_ascii_of_string s.

Lemma read_line s : forall acc key rest, one_line s ->
  read_lines acc key (s +:+ String nl rest)
  = match key with
    | None => read_lines "" (Some (acc +:+ s)%string) rest
    | Some k => mkKeyValue k (acc +:+ s)%string :: read_lines "" None rest
    end.
Proof.
  unfold one_line. induction s as [|a s IH]; intros acc key rest Hs; simpl in *.
  - rewrite append_nil_r. by destruct key.
  - apply not_elem_of_cons in Hs as [Ha Hs]. rewrite decide_False by congruence.
    rewrite IH by done. by rewrite append_assoc.
Qed.

#[export] Instance line_json_laws : KvJsonLaws one_line.
Proof.
  split. intros kvs Hc. change (read_lines "" None (join (kv_encode <$> kvs)) = kvs).
  induction Hc as [|kv kvs [Hk Hv] _ IH]; [done|]. rewrite fmap_cons, join_cons.
  cbn [kv_encode line_json]. rewrite append_assoc. cbn [String.append]. rewrite read_line by done.
  rewrite append_assoc. cbn [String.append]. rewrite read_line by done.
  destruct kv as [k v]. f_equal. exact IH.
Qed.

(** Word count ([mrapps/wc.go]'s [Reduce]) over two files of one word each. *)
Definition wc_Reduce (key : string) (vs : list string) : string := Sprint (zlen vs).

Lemma wc_Reduce_perm k : Proper ((≡ₚ) ==> (=)) (wc_Reduce k).
Proof. intros l l' Hl. unfold wc_Reduce, zlen. by rewrite Hl. Qed.

Definition two_words (file contents : string) : list KeyValue :=
  [mkKeyValue "the" "1"; mkKeyValue contents "1"].

Definition small_fs : FS := {["f1" := File "cat"]} ∪ {["f2" := File "dog"]}.

Definition small_inp (f : string) : string := if decide (f = "f1") then "cat" else "dog".

Definition draw (a b : string) : Choices :=
  mkChoices (fun l => l) (fun ks => ks)
    [join (replicate 20 a); join (replicate 20 b)].

(** The worker with the first map task dies after publishing one of its two files; the task
    is handed out again after its lease. *)
Definition small_run : list JobEvent :=
  [JHeartBeat (fun _ => 100); JRun 0 (Published 1) (draw "a" "b");
   JHeartBeat (fun _ => 100); JRun 1 Completed (draw "c" "d"); JReport 1;
   JHeartBeat (fun _ => 120); JRun 2 Completed (draw "e" "f"); JReport 2;
   JHeartBeat (fun _ => 121); JRun 3 Completed (draw "g" "h"); JReport 3;
   JHeartBeat (fun _ => 122); JRun 4 Completed (draw "i" "j"); JReport 4].

#[local] Instance random_name_dec s : Decision (random_name s).
Proof. unfold random_name. apply _. Defined.

#[local] Instance supply_dec fs k names : Decision (supply fs k names).
Proof. unfold supply. apply _. Defined.

#[local] Instance key_le_dec : RelDecision key_le.
Proof. intros a b. unfold key_le. apply _. Defined.

Definition merge_keys (l : list KeyValue) : list KeyValue := merge_sort key_le l.

Lemma merge_keys_sorts : sorts merge_keys.
Proof.
  intros l. split; [apply merge_sort_Permutation|]. apply StronglySorted_merge_sort.
  - intros a b c. unfold key_le. apply transitivity.
  - intros a b. unfold key_le. apply (total String.le).
Qed.

Lemma small_job : job_ok (clean:=one_line) two_words ["f1"; "f2"] small_inp 2.
Proof.
  split; [lia| |].
  - repeat (apply Forall_cons_2; [intros [s Hs]; discriminate Hs|]). apply Forall_nil_2.
  - assert (Hc : forall s, bool_decide (one_line s) = true -> one_line s) by (intros s; apply bool_decide_eq_true_1).
    repeat (apply Forall_cons_2 || apply Forall_nil_2); split; apply Hc; vm_compute; reflexivity.
Qed.

Lemma small_events_ok :
  events_ok two_words wc_Reduce 2 (job_start ["f1"; "f2"] 2 90 small_fs) small_run.
Proof.
  assert (Hch : forall fs a b k, bool_decide (supply fs k (ch_names (draw a b))) = true ->
            choices_ok fs k (draw a b)) by (intros fs a b k Hs; split; [done|]; split; [done|];
                                            by apply bool_decide_eq_true in Hs).
  repeat (split; [first [exact I | apply Hch; vm_compute; reflexivity]
                 |intros w' Hs; vm_compute in Hs; injection Hs as <-]).
  exact I.
Qed.

