(* ===== verification/GoText.v ===== *)
(** * Text in Go strings

    What the MapReduce applications use of Go's text functions: ranging over the runes of a
    string (UTF-8, every byte that is not part of a valid encoding is [RuneError] by itself) and
    [strings.FieldsFunc], with what it returns: the maximal runs of runes that are no separators. *)

From S2P Require Import Prelude MrTasks.

#[local] Arguments String.append !_ _ / : simpl nomatch.

Module GoText.

Definition RuneError : Z := 65533.

Definition byte (a : Ascii.ascii) : Z := Z.of_N (Ascii.N_of_ascii a).

Definition between (lo hi : Z) (a : Ascii.ascii) : bool := (lo <=? byte a) && (byte a <=? hi).

(** The range of the second byte of an encoding that starts with [p0]. *)
Definition accept (p0 : Z) : Z * Z :=
  if p0 =? 224 then (160, 191)        (* 0xE0 *)
  else if p0 =? 237 then (128, 159)   (* 0xED *)
  else if p0 =? 240 then (144, 191)   (* 0xF0 *)
  else if p0 =? 244 then (128, 143)   (* 0xF4 *)
  else (128, 191).

(** [utf8.DecodeRune]: the first rune, its bytes and the rest of the string. *)
Definition decode_rune (s : string) : option (Z * string * string) :=
  match s with
  | EmptyString => None
  | String a s1 =>
      let p0 := byte a in
      let bad := Some (RuneError, String a "", s1) in
      if p0 <? 128 then Some (p0, String a "", s1)
      else if (p0 <? 194) || (244 <? p0) then bad
      else
        match s1 with
        | EmptyString => bad
        | String b s2 =>
            if negb (between (accept p0).1 (accept p0).2 b) then bad
            else if p0 <? 224 then
              Some (Z.lor (Z.shiftl (Z.land p0 31) 6) (Z.land (byte b) 63), String a (String b ""), s2)
            else
              match s2 with
              | EmptyString => bad
              | String c s3 =>
                  if negb (between 128 191 c) then bad
                  else if p0 <? 240 then
                    Some (Z.lor (Z.lor (Z.shiftl (Z.land p0 15) 12) (Z.shiftl (Z.land (byte b) 63) 6))
                            (Z.land (byte c) 63), String a (String b (String c "")), s3)
                  else
                    match s3 with
                    | EmptyString => bad
                    | String d s4 =>
                        if negb (between 128 191 d) then bad
                        else
                          Some (Z.lor (Z.lor (Z.lor (Z.shiftl (Z.land p0 7) 18)
                                                (Z.shiftl (Z.land (byte b) 63) 12))
                                        (Z.shiftl (Z.land (byte c) 63) 6)) (Z.land (byte d) 63),
                                String a (String b (String c (String d ""))), s4)
                    end
              end
        end
  end.

(** [for _, r := range s]: the runes, each with its bytes. *)
Fixpoint runes_from (fuel : nat) (s : string) : list (Z * string) :=
  match fuel with
  | O => []
  | S fuel =>
      match decode_rune s with
      | None => []
      | Some (r, b, s) => (r, b) :: runes_from fuel s
      end
  end.

Definition runes (s : string) : list (Z * string) := runes_from (String.length s) s.

Definition text (rs : list (Z * string)) : string := join rs.*2.

(** [strings.FieldsFunc(s, f)] over the runes of [s]: [word] holds the bytes since [start],
    if a field has begun. *)
Fixpoint fields (f : Z -> bool) (rs : list (Z * string)) (word : option string) : list string :=
  match rs with
  | [] => option_list word
  | (r, b) :: rs =>
      if f r then option_list word ++ fields f rs None
      else fields f rs (Some (default "" word +:+ b)%string)
  end.

Definition FieldsFunc (s : string) (f : Z -> bool) : list string := fields f (runes s) None.

(** [utf8.ValidString]. *)
Definition bad_rune (rb : Z * string) : Prop := rb.1 = RuneError /\ String.length rb.2 = 1%nat.
Definition ValidString (s : string) : Prop := Forall (fun rb => ~ bad_rune rb) (runes s).

(** [strings.Join]. *)
Definition Join (l : list string) (sep : string) : string := String.concat sep l.
End GoText.
Import GoText.

(** ** Decoding *)

Lemma decode_rune_split s r b s' :
  decode_rune s = Some (r, b, s') -> s = (b +:+ s')%string /\ (String.length s' < String.length s)%nat /\ b <> "".
Proof.
  unfold decode_rune. destruct s as [|a [|b1 [|b2 [|b3 s4]]]]; intros Hd; repeat case_match; simplify_eq;
    simpl; (split; [done|]; split; [lia|done]).
Qed.

(** The decoding of a valid rune does not look beyond its bytes. *)
Lemma decode_rune_stable s r b s' rest :
  decode_rune s = Some (r, b, s') -> ~ bad_rune (r, b) ->
  decode_rune (b +:+ rest) = Some (r, b, rest).
Proof.
  intros Hd Hb. unfold decode_rune in Hd.
  destruct s as [|a [|b1 [|b2 [|b3 s4]]]]; repeat case_match; simplify_eq;
    try (exfalso; apply Hb; by split); unfold decode_rune; simpl;
    repeat match goal with H : _ = true |- _ => rewrite H | H : _ = false |- _ => rewrite H end; done.
Qed.

Lemma runes_from_enough fuel : forall s, (String.length s <= fuel)%nat -> runes_from fuel s = runes s.
Proof.
  intros s Hf. unfold runes. remember (String.length s) as n eqn:Hn. revert fuel s Hn Hf.
  induction n as [n IH] using lt_wf_ind. intros fuel s Hn Hf.
  destruct fuel as [|fuel], n as [|n]; [done|lia| |].
  - by destruct s.
  - simpl. destruct (decode_rune s) as [[[r b] s']|] eqn:E; [|done].
    apply decode_rune_split in E as (_ & Hlt & _). f_equal.
    rewrite (IH (String.length s')) by lia. by rewrite (IH (String.length s') ltac:(lia) n) by lia.
Qed.

Lemma runes_step s r b s' : decode_rune s = Some (r, b, s') -> runes s = (r, b) :: runes s'.
Proof.
  intros Hd. pose proof (decode_rune_split _ _ _ _ Hd) as (_ & Hlt & _). unfold runes at 1.
  destruct (String.length s) as [|n] eqn:Hn; [lia|]. simpl. rewrite Hd. f_equal.
  apply runes_from_enough. lia.
Qed.

Lemma decode_rune_None s : decode_rune s = None -> s = "".
Proof. unfold decode_rune. destruct s as [|a s]; [done|]. intros Hd. repeat case_match; simplify_eq. Qed.

Lemma runes_ind (P : string -> Prop) :
  P "" -> (forall s r b s', decode_rune s = Some (r, b, s') -> P s' -> P s) -> forall s, P s.
Proof.
  intros H0 Hs s. remember (String.length s) as n eqn:Hn. revert s Hn.
  induction n as [n IH] using lt_wf_ind. intros s Hn.
  destruct (decode_rune s) as [[[r b] s']|] eqn:E; [|by apply decode_rune_None in E as ->].
  eapply Hs; [exact E|]. apply decode_rune_split in E as (_ & Hlt & _). apply (IH (String.length s')); lia.
Qed.

(** ** Runs of runes *)

Implicit Types (rs w : list (Z * string)) (f : Z -> bool).

Lemma text_cons r b rs : text ((r, b) :: rs) = (b +:+ text rs)%string.
Proof. apply join_cons. Qed.

Lemma text_app rs rs' : text (rs ++ rs') = (text rs +:+ text rs')%string.
Proof. unfold text. by rewrite fmap_app, join_app. Qed.

(** The runes of a string hold all its bytes. *)
Lemma text_runes s : text (runes s) = s.
Proof.
  induction s as [|s r b s' Hd IH] using runes_ind; [done|].
  rewrite (runes_step _ _ _ _ Hd), text_cons, IH. by apply decode_rune_split in Hd as [-> _].
Qed.

(** A valid rune, as any string that starts with it decodes. *)
Definition stable (rb : Z * string) : Prop :=
  forall rest, decode_rune (rb.2 +:+ rest) = Some (rb.1, rb.2, rest).

Lemma runes_text rs : Forall stable rs -> runes (text rs) = rs.
Proof.
  induction 1 as [|[r b] rs Hs _ IH]; [done|]. rewrite text_cons.
  specialize (Hs (text rs)). simpl in Hs. by rewrite (runes_step _ _ _ _ Hs), IH.
Qed.

Lemma runes_stable s : Forall (fun rb => stable rb \/ rb.1 = RuneError) (runes s).
Proof.
  induction s as [|s r b s' Hd IH] using runes_ind; [constructor|].
  rewrite (runes_step _ _ _ _ Hd). constructor; [|done].
  destruct (decide (r = RuneError)) as [|Hr]; [by right|left]. intros rest.
  eapply decode_rune_stable; [exact Hd|]. by intros [? _].
Qed.

Lemma valid_text rs : Forall stable rs -> Forall (fun rb => rb.1 <> RuneError) rs -> ValidString (text rs).
Proof.
  intros Hs Hr. unfold ValidString. rewrite runes_text by done.
  eapply Forall_impl; [exact Hr|]. intros rb Hne [? _]. done.
Qed.

(** ** What [FieldsFunc] returns *)

(** The words between separators: each a run of other runes that is not empty and ends at a
    separator or at the end. *)
Inductive splits f : list (Z * string) -> list string -> Prop :=
  | sp_end seps : Forall (fun rb => f rb.1 = true) seps -> splits f seps []
  | sp_word seps w rest words :
      Forall (fun rb => f rb.1 = true) seps ->
      w <> [] -> Forall (fun rb => f rb.1 = false) w ->
      (forall rb, head rest = Some rb -> f rb.1 = true) ->
      splits f rest words -> splits f (seps ++ w ++ rest) (text w :: words).

Lemma splits_sep f rb rs words : f rb.1 = true -> splits f rs words -> splits f (rb :: rs) words.
Proof.
  intros Hf. destruct 1 as [seps Hs|seps w rest words Hs Hw Hn Hh Hr].
  - apply sp_end. by constructor.
  - apply (sp_word f (rb :: seps)); [by constructor|done..].
Qed.

Lemma fields_splits f rs :
  splits f rs (fields f rs None)
  /\ forall w, w <> [] -> Forall (fun rb => f rb.1 = false) w ->
       splits f (w ++ rs) (fields f rs (Some (text w))).
Proof.
  induction rs as [|[r b] rs [IH1 IH2]]; simpl.
  - split; [by apply sp_end|]. intros w Hw Hn. apply (sp_word f [] w [] []); try done. by apply sp_end.
  - destruct (f r) eqn:Hf; simpl.
    + assert (splits f ((r, b) :: rs) (fields f rs None)) by (by apply splits_sep).
      split; [done|]. intros w Hw Hn. apply (sp_word f [] w ((r, b) :: rs)); try done. by intros ? [= <-].
    + split.
      * replace b with (text [(r, b)]) at 2 by (rewrite text_cons; apply append_nil_r).
        apply (IH2 [(r, b)]); [done|]. by constructor.
      * intros w Hw Hn. rewrite cons_middle, app_assoc.
        replace (text w +:+ b)%string with (text (w ++ [(r, b)]))
          by (by rewrite text_app, text_cons, append_nil_r).
        apply IH2; [by destruct w|]. apply Forall_app. split; [done|]. by constructor.
Qed.

Lemma FieldsFunc_splits s f : splits f (runes s) (FieldsFunc s f).
Proof. apply fields_splits. Qed.

(** The words are valid UTF-8 even if the text is not. *)
Lemma splits_valid f rs words :
  f RuneError = true -> Forall (fun rb => stable rb \/ rb.1 = RuneError) rs ->
  splits f rs words -> Forall ValidString words.
Proof.
  intros Hf Hrs Hs. induction Hs as [|seps w rest words _ _ Hn _ _ IH]; [constructor|].
  apply Forall_app in Hrs as [_ Hrs]. apply Forall_app in Hrs as [Hw Hrest].
  constructor; [|auto]. rewrite Forall_forall in Hn. rewrite Forall_forall in Hw.
  assert (Hne : forall rb, rb ∈ w -> rb.1 <> RuneError).
  { intros rb Hin Heq. specialize (Hn rb Hin). simpl in Hn. congruence. }
  apply valid_text; apply Forall_forall; [|done]. intros rb Hin. by destruct (Hw rb Hin); [|destruct (Hne rb)].
Qed.

Lemma FieldsFunc_valid s f : f RuneError = true -> Forall ValidString (FieldsFunc s f).
Proof. intros Hf. eapply splits_valid; [done|apply runes_stable|apply FieldsFunc_splits]. Qed.

(** Letters, separators, a byte that is not UTF-8 and a two-byte letter. *)
Example FieldsFunc_example :
  let letter r := ((97 <=? r) && (r <=? 122)) || (r =? 233) in
  FieldsFunc ("ab, c" +:+ String (Ascii.ascii_of_nat 255) ("d" +:+ String (Ascii.ascii_of_nat 195) (String (Ascii.ascii_of_nat 169) " ")))
    (fun r => negb (letter r))
  = ["ab"; "c"; ("d" +:+ String (Ascii.ascii_of_nat 195) (String (Ascii.ascii_of_nat 169) ""))%string].
Proof. vm_compute. reflexivity. Qed.
