(* ===== verification/LabGob.v ===== *)
(** * labgob: lec-2025/src/labgob/labgob.go

    The wrapper around [encoding/gob] that warns about field names that gob does not transmit
    and about decoding into variables that are not empty.  The types of a program are a table
    (a type may refer to itself, through pointers, slices and maps); values are in a heap, so a
    value may contain itself.  [encoding/gob] is a parameter.

    The theorem: [checkType] visits every type that can be reached, ends on recursive types,
    and complains once about every lower-case field. *)

From S2P Require Import Prelude GoText.
Import GoText.

Module LabGob.

(** What reflection shows of a type; types are known by number. *)
Inductive Kind :=
  | Struct (fields : list (string * nat)) | Slice (elem : nat) | Array (elem : nat) | Ptr (elem : nat)
  | Map (key elem : nat) | Basic | Interface.

Record Typ := mkTyp { t_Name : string; t_Kind : Kind }.

(** The package's variables, with what it printed. *)
Inductive Message :=
  | LowerCase (field typ : string)
  | NonDefault (what : string).

Record State := mkState { errorCount : Z; checked : gset nat; printed : list Message }.

Definition init : State := mkState 0 ∅ [].

Section Check.
Context (types : gmap nat Typ).
(** [unicode.IsUpper]. *)
Context (IsUpper : Z -> bool).

(** [utf8.DecodeRuneInString]: [RuneError] for the empty string. *)
Definition first_rune (name : string) : Z :=
  match decode_rune name with Some (r, _, _) => r | None => RuneError end.

Definition lower_case (name : string) : bool := negb (IsUpper (first_rune name)).

Definition complain (st : State) (f t : string) : State :=
  mkState (errorCount st + 1) (checked st) (printed st ++ [LowerCase f t]).

(** One field of a struct: the complaint, then its type. *)
Definition check_field (check : State -> nat -> option State) (tname : string) (st : State) (f : string * nat)
    : option State :=
  check (if lower_case f.1 then complain st f.1 tname else st) f.2.

(** [checkType]; a type that is not in the table is the nil type, on which [Kind] panics. *)
Fixpoint checkType (fuel : nat) (st : State) (t : nat) : option State :=
  match fuel with
  | O => None
  | S fuel =>
      ty ← types !! t;
      if decide (t ∈ checked st) then Some st
      else
        let st := mkState (errorCount st) ({[t]} ∪ checked st) (printed st) in
        match t_Kind ty with
        | Struct fields => run_steps (check_field (checkType fuel) (t_Name ty)) st fields
        | Slice e | Array e | Ptr e => checkType fuel st e
        | Map k e => st ← checkType fuel st e; checkType fuel st k
        | Basic | Interface => Some st
        end
  end.
End Check.

(** ** Values *)

Inductive Val :=
  | VStruct (fields : list (string * Val))
  | VPtr (target : option nat)
  | VScalar (tname : string) (isZero : bool)
  | VOther.

Section Default.
(** What a pointer points to. *)
Context (heap : nat -> Val).

Definition warn (st : State) (name tname : string) : State :=
  let what := if decide (name = "") then tname else name in
  mkState (errorCount st + 1) (checked st)
    (if errorCount st <? 1 then printed st ++ [NonDefault what] else printed st).

Definition sub_name (name f : string) : string := if decide (name = "") then f else (name +:+ "." +:+ f)%string.

(** [checkDefault1] with [levels] levels left: [depth] is [4 - levels], and nothing is done
    beyond depth 3, so that it ends on a value that contains itself. *)
Fixpoint checkDefault1 (levels : nat) (st : State) (value : Val) (name : string) : State :=
  match levels with
  | O => st
  | S levels =>
      match value with
      | VStruct fields =>
          foldl (fun st '(f, vv) => checkDefault1 levels st vv (sub_name name f)) st fields
      | VPtr None => st
      | VPtr (Some p) => checkDefault1 levels st (heap p) name
      | VScalar tname isZero => if isZero then st else warn st name tname
      | VOther => st
      end
  end.

(** [None] is the nil interface. *)
Definition checkDefault (st : State) (value : option Val) : State :=
  match value with
  | None => st
  | Some v => checkDefault1 3 st v ""
  end.
End Default.

(** ** Encoding and decoding *)

Section Codec.
Context (types : gmap nat Typ) (IsUpper : Z -> bool) (heap : nat -> Val) (fuel : nat).
(** What [encoding/gob] does with a value: [Encoder.Encode], [Encoder.EncodeValue],
    [Decoder.Decode], and [Register] and [RegisterName], which may panic ([None]). *)
Context {B R : Type} (gob_Encode gob_EncodeValue : Val -> option B) (gob_Decode : B -> Val -> option Val).
Context (gob_Register : Val -> option R) (gob_RegisterName : string -> Val -> option R).

(** Of a value of type [t]. *)
Definition checkValue (st : State) (t : nat) : option State := checkType types IsUpper fuel st t.

Definition Encode (st : State) (t : nat) (e : Val) : option (State * option B) :=
  st ← checkValue st t;
  Some (st, gob_Encode e).

Definition EncodeValue (st : State) (t : nat) (value : Val) : option (State * option B) :=
  st ← checkValue st t;
  Some (st, gob_EncodeValue value).

Definition Decode (st : State) (t : nat) (e : Val) (b : B) : option (State * option Val) :=
  st ← checkValue st t;
  Some (checkDefault heap st (Some e), gob_Decode b e).

Definition Register (st : State) (t : nat) (value : Val) : option (State * option R) :=
  st ← checkValue st t;
  Some (st, gob_Register value).

Definition RegisterName (name : string) (st : State) (t : nat) (value : Val) : option (State * option R) :=
  st ← checkValue st t;
  Some (st, gob_RegisterName name value).

Inductive Call :=
  | CallEncode (t : nat) (e : Val) | CallEncodeValue (t : nat) (e : Val)
  | CallDecode (t : nat) (e : Val) (b : B)
  | CallRegister (t : nat) (e : Val) | CallRegisterName (name : string) (t : nat) (e : Val).

(** What a call leaves in the package's variables, whatever gob then answers. *)
Definition call_step (st : State) (c : Call) : option State :=
  match c with
  | CallEncode t e => fst <$> Encode st t e
  | CallEncodeValue t e => fst <$> EncodeValue st t e
  | CallDecode t e b => fst <$> Decode st t e b
  | CallRegister t e => fst <$> Register st t e
  | CallRegisterName name t e => fst <$> RegisterName name st t e
  end.

Definition call_type (c : Call) : nat :=
  match c with
  | CallEncode t _ | CallEncodeValue t _ | CallDecode t _ _ | CallRegister t _ | CallRegisterName _ t _ => t
  end.
End Codec.
End LabGob.
Import LabGob.

(** ** What is visited *)

Section Visit.
Context (types : gmap nat Typ) (IsUpper : Z -> bool).
Implicit Types (st : State) (t u : nat).

Definition children (k : Kind) : list nat :=
  match k with
  | Struct fields => fields.*2
  | Slice e | Array e | Ptr e => [e]
  | Map key e => [e; key]
  | Basic | Interface => []
  end.

(** The types [t] refers to. *)
Definition refers t u : Prop := exists ty, types !! t = Some ty /\ u ∈ children (t_Kind ty).

Abbreviation reachable := (rtc refers).

(** Every type that is mentioned exists. *)
Definition closed : Prop := forall t u, refers t u -> is_Some (types !! u).

(** The complaints about a type. *)
Definition complaints t : list Message :=
  match types !! t with
  | Some ty =>
      match t_Kind ty with
      | Struct fields => (fun f => LowerCase f.1 (t_Name ty)) <$> filter (fun f => lower_case IsUpper f.1 = true) fields
      | _ => []
      end
  | None => []
  end.

(** How the checks of types change the state: [new] are the types they visited; [todo] the
    complaints that belong to a type whose fields are being checked. *)
Record visited st st' (new : gset nat) (from : nat -> Prop) (extra : list Message) : Prop := {
  vi_checked : checked st' = new ∪ checked st;
  vi_fresh : new ## checked st;
  vi_count : errorCount st' - errorCount st = zlen (printed st') - zlen (printed st);
  vi_types : forall t, t ∈ new -> is_Some (types !! t);
  vi_from : forall t, t ∈ new -> exists s, from s /\ reachable s t;
  vi_children : forall t u, t ∈ new -> refers t u -> u ∈ checked st';
  vi_printed : exists msgs, printed st' = printed st ++ msgs
                 /\ msgs ≡ₚ extra ++ mjoin (complaints <$> elements new);
}.

Lemma mjoin_elements_union (X Y : gset nat) : X ## Y ->
  mjoin (complaints <$> elements (X ∪ Y)) ≡ₚ mjoin (complaints <$> elements X) ++ mjoin (complaints <$> elements Y).
Proof.
  intros Hd. rewrite (elements_disj_union X Y Hd), fmap_app. by rewrite join_app.
Qed.

Lemma visited_refl st from : visited st st ∅ from [].
Proof. split; try set_solver; [lia|]. exists []. by rewrite app_nil_r, elements_empty. Qed.

Lemma visited_trans st st1 st2 new new1 (from from1 from' : nat -> Prop) extra extra1 :
  visited st st1 new from extra -> visited st1 st2 new1 from1 extra1 ->
  (forall s, from s -> from' s) -> (forall s, from1 s -> from' s) ->
  visited st st2 (new ∪ new1) from' (extra ++ extra1).
Proof.
  intros [] [] Hf Hf1.
  rewrite vi_checked0 in vi_fresh1. assert (Hd : new ## new1) by (clear -vi_fresh1; set_solver).
  split; [| |lia| | | |].
  - rewrite vi_checked1, vi_checked0, (union_comm_L new new1). by rewrite (assoc_L (∪)).
  - clear -vi_fresh0 vi_fresh1. set_solver.
  - intros t [Ht|Ht]%elem_of_union; auto.
  - intros t [Ht|Ht]%elem_of_union; [destruct (vi_from0 t Ht) as (s & ? & ?)|destruct (vi_from1 t Ht) as (s & ? & ?)]; eauto.
  - intros t u [Ht|Ht]%elem_of_union Hr; [|by eapply vi_children1].
    rewrite vi_checked1. apply elem_of_union_r. by eapply vi_children0.
  - destruct vi_printed0 as (m & Hp & Hm), vi_printed1 as (m1 & Hp1 & Hm1). exists (m ++ m1).
    rewrite Hp1, Hp, app_assoc. split; [done|]. rewrite Hm, Hm1, mjoin_elements_union by done.
    rewrite !app_assoc. apply Permutation_app_tail. rewrite <- !app_assoc. apply Permutation_app_head, Permutation_app_comm.
Qed.

(** A type is marked before what it refers to is checked. *)
Lemma visited_mark st st' new (from : nat -> Prop) t ty :
  types !! t = Some ty -> t ∉ checked st ->
  visited (mkState (errorCount st) ({[t]} ∪ checked st) (printed st)) st' new from (complaints t) ->
  (forall s, from s -> refers t s) -> (forall u, refers t u -> u ∈ checked st') ->
  visited st st' ({[t]} ∪ new) (eq t) [].
Proof.
  intros Hty Hnot [] Hfrom Hch. simpl in *.
  assert (Ht : t ∉ new) by (clear -vi_fresh0; set_solver).
  split; [| |done| | | |].
  - rewrite vi_checked0, (union_comm_L {[t]} new). by rewrite (assoc_L (∪)).
  - clear -vi_fresh0 Hnot. set_solver.
  - intros u [->%elem_of_singleton|Hu]%elem_of_union; eauto.
  - intros u [->%elem_of_singleton|Hu]%elem_of_union; [by exists t|].
    destruct (vi_from0 u Hu) as (s & Hs & Hr). exists t. split; [done|]. eapply rtc_l; eauto.
  - intros u w [->%elem_of_singleton|Hu]%elem_of_union Hr; eauto.
  - destruct vi_printed0 as (m & Hp & Hm). exists m. split; [done|].
    rewrite Hm, mjoin_elements_union by (clear -Ht; set_solver). rewrite elements_singleton. simpl. by rewrite app_nil_r.
Qed.

Lemma visited_complain st st' new from f tname :
  visited (complain st f tname) st' new from [] -> visited st st' new from [LowerCase f tname].
Proof.
  intros []. simpl in *. split; try done.
  - rewrite zlen_app in vi_count0. unfold zlen in *. simpl in *. lia.
  - destruct vi_printed0 as (m & Hp & Hm). exists (LowerCase f tname :: m). rewrite Hp, <- app_assoc. split; [done|].
    simpl. by rewrite Hm.
Qed.

Definition unchecked st : nat := size (dom types ∖ checked st).

Lemma visited_unchecked st st' new from extra : visited st st' new from extra -> (unchecked st' <= unchecked st)%nat.
Proof. intros []. unfold unchecked. apply subseteq_size. rewrite vi_checked0. set_solver. Qed.

Lemma unchecked_mark st t ty e p :
  types !! t = Some ty -> t ∉ checked st -> (unchecked (mkState e ({[t]} ∪ checked st) p) < unchecked st)%nat.
Proof.
  intros Hty Hnot. unfold unchecked. simpl. apply subset_size. apply elem_of_dom_2 in Hty. set_solver.
Qed.

Section Closed.
Context (Hclosed : closed).

(** The fields of a struct, given that [check] checks types. *)
Lemma fields_visited (check : State -> nat -> option State) tname fuel :
  (forall st t, is_Some (types !! t) -> (unchecked st < fuel)%nat ->
     exists st' new, check st t = Some st' /\ visited st st' new (eq t) [] /\ t ∈ checked st') ->
  forall fs st, Forall (fun f => is_Some (types !! f.2)) fs -> (unchecked st < fuel)%nat ->
  exists st' new, run_steps (check_field IsUpper check tname) st fs = Some st'
    /\ visited st st' new (fun s => s ∈ fs.*2)
         ((fun f => LowerCase f.1 tname) <$> filter (fun f => lower_case IsUpper f.1 = true) fs)
    /\ forall u, u ∈ fs.*2 -> u ∈ checked st'.
Proof.
  intros Hcheck fs. induction fs as [|[f u] fs IH]; intros st Ht Hf.
  - exists st, ∅. split; [done|]. split; [apply visited_refl|]. set_solver.
  - apply Forall_cons in Ht as [Hu Ht]. simpl in Hu.
    set (st0 := if lower_case IsUpper f then complain st f tname else st).
    assert (Hf0 : (unchecked st0 < fuel)%nat) by (unfold st0; destruct (lower_case IsUpper f); exact Hf).
    destruct (Hcheck st0 u Hu Hf0) as (st1 & new & Hc & Hv & Hin).
    assert (Hstep : check_field IsUpper check tname st (f, u) = Some st1) by exact Hc.
    rewrite run_steps_cons, Hstep. cbn [mbind option_bind].
    destruct (IH st1 Ht) as (st' & new1 & Hr & Hv1 & Hall).
    { pose proof (visited_unchecked _ _ _ _ _ Hv). lia. }
    exists st', (new ∪ new1). split; [done|]. split.
    + assert (Hv0 : visited st st1 new (eq u) (if lower_case IsUpper f then [LowerCase f tname] else [])).
      { unfold st0 in Hv. destruct (lower_case IsUpper f); [by apply visited_complain|done]. }
      pose proof (visited_trans _ _ _ _ _ _ _ (fun s => s ∈ u :: fs.*2) _ _ Hv0 Hv1) as Hv2.
      rewrite filter_cons. simpl. destruct (lower_case IsUpper f); simpl in *; apply Hv2; set_solver.
    + intros w [->|Hw]%elem_of_cons; [|auto]. rewrite (vi_checked _ _ _ _ _ Hv1). set_solver.
Qed.

Lemma refers_exists t ty u : types !! t = Some ty -> u ∈ children (t_Kind ty) -> is_Some (types !! u).
Proof. intros Ht Hu. apply (Hclosed t). by exists ty. Qed.

(** [checkType] ends, visits what it can reach through unchecked types, and complains. *)
Lemma checkType_visited fuel : forall st t, is_Some (types !! t) -> (unchecked st < fuel)%nat ->
  exists st' new, checkType types IsUpper fuel st t = Some st' /\ visited st st' new (eq t) [] /\ t ∈ checked st'.
Proof.
  induction fuel as [|fuel IH]; intros st t [ty Hty] Hf; [lia|]. cbn [checkType]. rewrite Hty. cbn [mbind option_bind].
  destruct (decide (t ∈ checked st)) as [Hin|Hnot].
  { exists st, ∅. split; [done|]. split; [apply visited_refl|done]. }
  set (st1 := mkState (errorCount st) ({[t]} ∪ checked st) (printed st)).
  assert (Hf1 : (unchecked st1 < fuel)%nat).
  { pose proof (unchecked_mark st t ty (errorCount st) (printed st) Hty Hnot). fold st1 in H. lia. }
  assert (Hdone : forall r (from : nat -> Prop) extra, extra = complaints t -> (forall s, from s <-> s ∈ children (t_Kind ty)) ->
    (exists st' new, r = Some st' /\ visited st1 st' new from extra /\ forall u, from u -> u ∈ checked st') ->
    exists st' new, r = Some st' /\ visited st st' new (eq t) [] /\ t ∈ checked st').
  { intros r from extra -> Hfrom (st' & new & Hr & Hv & Hall). exists st', ({[t]} ∪ new). split; [done|].
    split; [|rewrite (vi_checked _ _ _ _ _ Hv); unfold st1; set_solver].
    apply (visited_mark st st' new from t ty Hty Hnot Hv).
    - intros s Hs. exists ty. split; [done|]. by apply Hfrom.
    - intros u (ty' & Hty' & Hu). simplify_eq. by apply Hall, Hfrom. }
  pose proof (fun u => refers_exists t ty u Hty) as Hex.
  assert (Hone : forall e, children (t_Kind ty) = [e] -> complaints t = [] ->
    exists st' new, checkType types IsUpper fuel st1 e = Some st' /\ visited st st' new (eq t) [] /\ t ∈ checked st').
  { intros e Hc Hno. apply (Hdone _ (eq e) []); [done|rewrite Hc; set_solver|].
    destruct (IH st1 e) as (st' & new & ? & ? & ?); [apply Hex; rewrite Hc; set_solver|done|].
    exists st', new. split_and!; [done..|by intros ? <-]. }
  destruct ty as [name [fields|e|e|e|key e| |]]; simpl in Hex; simpl t_Kind.
  - apply (Hdone _ (fun s => s ∈ fields.*2) ((fun f => LowerCase f.1 name) <$> filter (fun f => lower_case IsUpper f.1 = true) fields));
      [unfold complaints; by rewrite Hty|done|].
    apply (fields_visited _ name fuel); [done| |done]. apply Forall_forall. intros f Hfi. apply Hex. by apply list_elem_of_fmap_2.
  - apply Hone; [done|unfold complaints; by rewrite Hty].
  - apply Hone; [done|unfold complaints; by rewrite Hty].
  - apply Hone; [done|unfold complaints; by rewrite Hty].
  - apply (Hdone _ (fun s => s = e \/ s = key) []); [unfold complaints; by rewrite Hty|simpl; set_solver|].
    destruct (IH st1 e) as (st2 & new & -> & Hv & Hin); [apply Hex; set_solver|done|]. cbn [mbind option_bind].
    destruct (IH st2 key) as (st' & new1 & -> & Hv1 & Hin1); [apply Hex; set_solver| |].
    { pose proof (visited_unchecked _ _ _ _ _ Hv). lia. }
    exists st', (new ∪ new1). split; [done|]. split.
    + apply (visited_trans _ _ _ _ _ _ _ _ [] [] Hv Hv1); intros s <-; auto.
    + intros u [->| ->]; [rewrite (vi_checked _ _ _ _ _ Hv1); set_solver|done].
  - apply (Hdone _ (fun _ => False) []); [unfold complaints; by rewrite Hty|simpl; set_solver|].
    exists st1, ∅. split; [done|]. split; [apply visited_refl|done].
  - apply (Hdone _ (fun _ => False) []); [unfold complaints; by rewrite Hty|simpl; set_solver|].
    exists st1, ∅. split; [done|]. split; [apply visited_refl|done].
Qed.
End Closed.

(** ** A program that encodes and decodes *)

Definition is_lower (m : Message) : Prop := match m with LowerCase _ _ => True | NonDefault _ => False end.

#[export] Instance is_lower_dec m : Decision (is_lower m).
Proof. destruct m; apply _. Defined.

Lemma complaints_lower t : Forall is_lower (complaints t).
Proof.
  unfold complaints. destruct (types !! t) as [[name [fs|?|?|?|? ?| |]]|]; try constructor.
  simpl. apply Forall_fmap, Forall_forall. done.
Qed.

(** After checks of the types [ts]. *)
Record told (ts : list nat) st : Prop := {
  td_all : forall t, t ∈ ts -> t ∈ checked st;
  td_from : forall t, t ∈ checked st -> exists s, s ∈ ts /\ reachable s t;
  td_closed : forall t u, t ∈ checked st -> refers t u -> u ∈ checked st;
  td_lower : filter is_lower (printed st) ≡ₚ mjoin (complaints <$> elements (checked st));
  td_count : zlen (printed st) <= errorCount st;
  td_first : forall k what, printed st !! k = Some (NonDefault what) -> k = 0%nat;
}.

Lemma told_init : told [] init.
Proof. split; simpl; set_solver || done. Qed.

Lemma mjoin_Forall {A} (P : A -> Prop) (ls : list (list A)) : Forall (Forall P) ls -> Forall P (mjoin ls).
Proof. induction 1; [constructor|]. by apply Forall_app. Qed.

Lemma filter_true {A} (P : A -> Prop) `{!forall x, Decision (P x)} (l : list A) : Forall P l -> filter P l = l.
Proof. induction 1; [done|]. rewrite filter_cons_True by done. by f_equal. Qed.

Lemma told_visited ts st st' new t :
  told ts st -> visited st st' new (eq t) [] -> t ∈ checked st' -> told (ts ++ [t]) st'.
Proof.
  intros [] [] Ht. destruct vi_printed0 as (msgs & Hp & Hm). simpl in Hm.
  assert (Hlow : Forall is_lower msgs).
  { rewrite Hm. apply mjoin_Forall, Forall_fmap, Forall_forall. intros u _. apply complaints_lower. }
  split.
  - intros u [Hu|Hu%list_elem_of_singleton]%elem_of_app; [|by subst]. rewrite vi_checked0. apply elem_of_union_r. auto.
  - intros u Hu. rewrite vi_checked0 in Hu. apply elem_of_union in Hu as [Hu|Hu].
    + destruct (vi_from0 u Hu) as (s & <- & Hr). exists t. split; [set_solver|done].
    + destruct (td_from0 u Hu) as (s & Hs & Hr). exists s. split; [set_solver|done].
  - intros u w Hu Hr. rewrite vi_checked0 in Hu. apply elem_of_union in Hu as [Hu|Hu]; [eauto|].
    rewrite vi_checked0. apply elem_of_union_r. eauto.
  - rewrite Hp, filter_app, td_lower0, (filter_true _ msgs Hlow), Hm, vi_checked0.
    rewrite mjoin_elements_union by done. apply Permutation_app_comm.
  - lia.
  - intros k what Hk. rewrite Hp in Hk. apply lookup_app_Some in Hk as [Hk|[_ Hk]]; [eauto|].
    rewrite Forall_forall in Hlow. apply list_elem_of_lookup_2 in Hk. by destruct (Hlow _ Hk).
Qed.

Lemma told_warn ts st name tname : told ts st -> told ts (warn st name tname).
Proof.
  intros []. pose proof (zlen_nonneg (printed st)) as Hz. split; simpl; try done.
  - destruct (errorCount st <? 1); [|done]. rewrite filter_app, td_lower0. simpl. by rewrite app_nil_r.
  - destruct (errorCount st <? 1); autorewrite with zlen; lia.
  - destruct (Z.ltb_spec (errorCount st) 1) as [Hlt|]; [|done].
    destruct (printed st) as [|m l]; [|unfold zlen in *; simpl in *; lia].
    intros [|k] what Hk; [done|]. by rewrite lookup_nil in Hk || simpl in Hk.
Qed.

Lemma told_default ts heap levels : forall st v name, told ts st -> told ts (checkDefault1 heap levels st v name).
Proof.
  induction levels as [|levels IH]; intros st v name Ht; [done|]. simpl.
  destruct v as [fs|[p|]|tname [|]|]; auto using told_warn.
  revert st Ht. induction fs as [|[f vv] fs IHf]; intros st Ht; simpl; auto.
Qed.
End Visit.

(** labgob complains once.  A program encodes, decodes and registers values of types that
    may be recursive, in any order, values that may contain themselves.  No check fails or runs
    for ever (fuel beyond the number of types is never needed); the types that were checked are
    those that can be reached from the types of the values; every lower-case field of theirs, and
    no other, was reported exactly once; and at most one warning about decoding into a non-empty
    variable was printed, before everything else. *)
Theorem labgob_complains_once {B R} (types : gmap nat Typ) (IsUpper : Z -> bool) (heap : nat -> Val) (fuel : nat)
    (genc gencv : Val -> option B) (gdec : B -> Val -> option Val)
    (greg : Val -> option R) (gregn : string -> Val -> option R) (calls : list (Call (B:=B))) :
  closed types -> (size types < fuel)%nat -> Forall (fun c => is_Some (types !! call_type c)) calls ->
  exists st, run_steps (call_step types IsUpper heap fuel genc gencv gdec greg gregn) init calls = Some st
    /\ (forall t, t ∈ checked st <-> exists c, c ∈ calls /\ rtc (refers types) (call_type c) t)
    /\ filter is_lower (printed st) ≡ₚ mjoin (complaints types IsUpper <$> elements (checked st))
    /\ forall k what, printed st !! k = Some (NonDefault what) -> k = 0%nat.
Proof.
  intros Hcl Hfuel Hcalls.
  assert (Hrun : forall cs ts st, told types IsUpper ts st -> Forall (fun c => is_Some (types !! call_type c)) cs ->
    exists st', run_steps (call_step types IsUpper heap fuel genc gencv gdec greg gregn) st cs = Some st'
      /\ told types IsUpper (ts ++ (call_type <$> cs)) st').
  { induction cs as [|c cs IH]; intros ts st Ht Hc; [exists st; by rewrite app_nil_r|].
    apply Forall_cons in Hc as [Hc Hcs].
    assert (Hf : (unchecked types st < fuel)%nat).
    { unfold unchecked. eapply Nat.le_lt_trans; [|exact Hfuel]. rewrite <- size_dom. apply subseteq_size. set_solver. }
    destruct (checkType_visited types IsUpper Hcl fuel st (call_type c) Hc Hf) as (st1 & new & Hs & Hv & Hin).
    assert (Ht1 : told types IsUpper (ts ++ [call_type c]) st1) by (by eapply told_visited).
    assert (exists st2, call_step types IsUpper heap fuel genc gencv gdec greg gregn st c = Some st2
              /\ told types IsUpper (ts ++ [call_type c]) st2) as (st2 & Hstep & Ht2).
    { destruct c as [t e|t e|t e b|t e|name t e]; simpl in Hs; simpl;
        unfold Encode, EncodeValue, Decode, Register, RegisterName, checkValue; rewrite Hs;
        eexists; (split; [done|]); [done|done|by apply told_default|done|done]. }
    rewrite run_steps_cons, Hstep. cbn [mbind option_bind].
    destruct (IH (ts ++ [call_type c]) st2 Ht2 Hcs) as (st' & Hr & Ht'). exists st'. split; [done|].
    rewrite fmap_cons, cons_middle, app_assoc. done. }
  destruct (Hrun calls [] init (told_init types IsUpper) Hcalls) as (st & Hr & []). exists st. split; [done|].
  split; [|done]. intros t. split.
  - intros Ht. destruct (td_from0 t Ht) as (s & Hs & Hreach). apply list_elem_of_fmap in Hs as (c & -> & Hc). by exists c.
  - intros (c & Hc & Hreach). assert (Hin : call_type c ∈ checked st) by (apply td_all0; by apply list_elem_of_fmap_2).
    clear Hc. induction Hreach as [|x y z Hxy _ IH]; [done|]. apply IH. by eapply td_closed0.
Qed.

(** A list type that refers to itself, with a lower-case field, and a pointer that points to a
    struct that holds the pointer. *)
Definition list_types : gmap nat Typ :=
  {[ 0%nat := mkTyp "node" (Struct [("Value", 1%nat); ("next", 2%nat)]);
     1%nat := mkTyp "int" Basic; 2%nat := mkTyp "" (Ptr 0) ]}.

Definition ascii_upper (r : Z) : bool := (65 <=? r) && (r <=? 90).

Definition cyclic (_ : nat) : Val := VStruct [("Value", VScalar "int" false); ("next", VPtr (Some 0%nat))].

Lemma labgob_complains_once_witness :
  exists st, run_steps (call_step list_types ascii_upper cyclic 4 (fun _ => Some tt) (fun _ => Some tt) (fun _ v => Some v)
                 (fun _ => Some tt) (fun _ _ => Some tt)) init
               [CallRegister 0%nat (cyclic 0); CallDecode 2%nat (VPtr (Some 0%nat)) tt; CallEncode 0%nat (cyclic 0)] = Some st
    /\ filter is_lower (printed st) ≡ₚ mjoin (complaints list_types ascii_upper <$> elements (checked st))
    /\ printed st = [LowerCase "next" "node"] /\ errorCount st = 2.
Proof.
  destruct (labgob_complains_once list_types ascii_upper cyclic 4 (fun _ => Some tt) (fun _ => Some tt) (fun _ v => Some v)
    (fun _ => Some tt) (fun _ _ => Some tt) [CallRegister 0%nat (cyclic 0); CallDecode 2%nat (VPtr (Some 0%nat)) tt; CallEncode 0%nat (cyclic 0)]) as (st & Hr & _ & Hl & _).
  - intros t u (ty & Ht & Hu). unfold list_types in *.
    repeat (apply lookup_insert_Some in Ht as [[<- <-]|[_ Ht]]; [simpl in Hu; repeat (apply elem_of_cons in Hu as [->|Hu]; [by eexists|]); by apply not_elem_of_nil in Hu|]).
    apply lookup_singleton_Some in Ht as [<- <-]. simpl in Hu. apply list_elem_of_singleton in Hu as ->. by eexists.
  - vm_compute. lia.
  - repeat (apply Forall_cons_2; [by eexists|]). apply Forall_nil_2.
  - exists st. split; [exact Hr|]. split; [exact Hl|]. vm_compute in Hr. injection Hr as <-. split; reflexivity.
Defined.
