(* ===== verification/MrApps.v ===== *)
(** * MapReduce applications: src/src/mrapps

    The map and reduce functions of the applications that do not depend on time or process
    numbers: word count ([wc.go]), the inverted index ([indexer.go]), and the test applications
    [nocrash.go], [crash.go] (its crashes are the workers' deaths of [MrJob]) and [early_exit.go].
    With [MrJob] they give what a distributed word count or index leaves in its output files. *)

From S2P Require Import Prelude MrCoordinator MrWorker MrTasks MrSequential MrJob GoText.
Import Worker GoText.

(** [sort.Strings]. *)
Definition Strings (l : list string) : list string := merge_sort String.le l.

(** ** wc.go *)

Module Wc.
Section Wc.
(** [unicode.IsLetter]. *)
Context (IsLetter : Z -> bool).

Definition words (contents : string) : list string := FieldsFunc contents (fun r => negb (IsLetter r)).

Definition Map (filename contents : string) : list KeyValue :=
  (fun w => mkKeyValue w "1") <$> words contents.

Definition Reduce (key : string) (values : list string) : string := Sprint (zlen values).
End Wc.
End Wc.

(** ** indexer.go *)

Module Indexer.
Section Indexer.
Context (IsLetter : Z -> bool).
(** The order in which a Go map with these keys is iterated. *)
Context (order : gset string -> list string).

Definition Map (document value : string) : list KeyValue :=
  let m : gset string := list_to_set (Wc.words IsLetter value) in
  (fun w => mkKeyValue w document) <$> order m.

Definition Reduce (key : string) (values : list string) : string :=
  (Sprint (zlen values) +:+ " " +:+ Join (Strings values) ",")%string.
End Indexer.
End Indexer.

(** ** nocrash.go, crash.go, early_exit.go *)

Module Nocrash.
Definition Map (filename contents : string) : list KeyValue :=
  [mkKeyValue "a" filename; mkKeyValue "b" (Sprint (Z.of_nat (String.length filename)));
   mkKeyValue "c" (Sprint (Z.of_nat (String.length contents))); mkKeyValue "d" "xyzzy"].

Definition Reduce (key : string) (values : list string) : string := Join (Strings values) " ".
End Nocrash.

Module EarlyExit.
Definition Map (filename contents : string) : list KeyValue := [mkKeyValue filename "1"].

Definition Reduce (key : string) (values : list string) : string := Sprint (zlen values).
End EarlyExit.

(** ** The reduce functions do not depend on the order of their values *)

Lemma Strings_perm l l' : l ≡ₚ l' -> Strings l = Strings l'.
Proof.
  intros Hp. unfold Strings. apply (StronglySorted_unique String.le).
  - apply StronglySorted_merge_sort; apply _.
  - apply StronglySorted_merge_sort; apply _.
  - by rewrite !merge_sort_Permutation.
Qed.

Lemma zlen_perm {A} (l l' : list A) : l ≡ₚ l' -> zlen l = zlen l'.
Proof. intros Hp. unfold zlen. by rewrite Hp. Qed.

#[export] Instance Wc_Reduce_perm k : Proper ((≡ₚ) ==> (=)) (Wc.Reduce k).
Proof. intros l l' Hp. unfold Wc.Reduce. by rewrite (zlen_perm _ _ Hp). Qed.

#[export] Instance Indexer_Reduce_perm k : Proper ((≡ₚ) ==> (=)) (Indexer.Reduce k).
Proof. intros l l' Hp. unfold Indexer.Reduce. by rewrite (zlen_perm _ _ Hp), (Strings_perm _ _ Hp). Qed.

#[export] Instance Nocrash_Reduce_perm k : Proper ((≡ₚ) ==> (=)) (Nocrash.Reduce k).
Proof. intros l l' Hp. unfold Nocrash.Reduce. by rewrite (Strings_perm _ _ Hp). Qed.

(** ** What the applications compute *)

Section Apps.
Context (IsLetter : Z -> bool) (inputs : list string) (inp : string -> string).
Implicit Types (k f : string).

Abbreviation words := (Wc.words IsLetter).

(** How often [k] is a word of the input. *)
Definition occurrences k : Z := zlen (filter (fun w => w = k) (mjoin ((fun f => words (inp f)) <$> inputs))).

(** The inputs that have [k] as a word. *)
Definition documents k : list string := filter (fun f => k ∈ words (inp f)) inputs.

Lemma values_app k l l' : values k (l ++ l') = values k l ++ values k l'.
Proof. unfold values. by rewrite filter_app, fmap_app. Qed.

Lemma values_key k v (ws : list string) :
  values k ((fun w => mkKeyValue w v) <$> ws) = replicate (length (filter (fun w => w = k) ws)) v.
Proof.
  unfold values. induction ws as [|w ws IH]; [done|]. rewrite fmap_cons, !filter_cons.
  cbn [Key]. destruct (decide (w = k)); [by rewrite fmap_cons, IH|done].
Qed.

Lemma mjoin_cons {A} (l : list A) ls : mjoin (l :: ls) = l ++ mjoin ls.
Proof. done. Qed.

Lemma wc_values k : zlen (values k (all_pairs (Wc.Map IsLetter) inputs inp)) = occurrences k.
Proof.
  unfold all_pairs, occurrences, kva, Wc.Map. induction inputs as [|f l IH]; [done|].
  rewrite !fmap_cons, !mjoin_cons.
  rewrite values_app, filter_app, !zlen_app, IH, values_key. f_equal. unfold zlen. by rewrite length_replicate.
Qed.

Lemma values_keys k l : values k l <> [] <-> k ∈ Key <$> l.
Proof.
  unfold values. rewrite list_elem_of_fmap. split.
  - intros Hne. destruct (filter (fun kv => Key kv = k) l) as [|kv l'] eqn:E; [done|].
    assert (Hin : kv ∈ filter (fun kv => Key kv = k) l) by (rewrite E; left).
    apply list_elem_of_filter in Hin as [Hk Hin]. by exists kv.
  - intros (kv & -> & Hin) Hnil. apply fmap_nil_inv in Hnil.
    assert (Hf : kv ∈ filter (fun kv' => Key kv' = Key kv) l) by (by apply list_elem_of_filter).
    rewrite Hnil in Hf. set_solver.
Qed.

Context (order : gset string -> list string) (Horder : forall X, order X ≡ₚ elements X).

Lemma indexer_values k : values k (all_pairs (Indexer.Map IsLetter order) inputs inp) = documents k.
Proof.
  unfold all_pairs, documents, kva, Indexer.Map. induction inputs as [|f l IH]; [done|].
  rewrite fmap_cons, mjoin_cons.
  rewrite values_app, IH, values_key, filter_cons.
  assert (Hf : length (filter (fun w => w = k) (order (list_to_set (words (inp f)))))
               = if decide (k ∈ words (inp f)) then 1%nat else 0%nat).
  { set (X := list_to_set (words (inp f)) : gset string).
    assert (HX : k ∈ order X <-> k ∈ words (inp f)).
    { rewrite Horder, elem_of_elements. unfold X. by rewrite elem_of_list_to_set. }
    assert (Hnd : NoDup (filter (fun w => w = k) (order X))) by (apply NoDup_filter; rewrite Horder; apply NoDup_elements).
    assert (Hall : forall w, w ∈ filter (fun w => w = k) (order X) <-> w = k /\ k ∈ words (inp f)).
    { intros w. rewrite list_elem_of_filter, <- HX. naive_solver. }
    destruct (decide (k ∈ words (inp f))) as [Hin|Hnot].
    - assert (Hp : filter (fun w => w = k) (order X) ≡ₚ [k]).
      { apply NoDup_Permutation; [done|apply NoDup_singleton|]. intros w. rewrite Hall, list_elem_of_singleton. tauto. }
      by rewrite Hp.
    - destruct (filter (fun w => w = k) (order X)) as [|w ws]; [done|]. destruct (Hall w) as [Hw _].
      destruct Hw as [_ ?]; [left|done]. }
  rewrite Hf. by destruct (decide (k ∈ words (inp f))).
Qed.
End Apps.

(** ** The output files *)

(** The lines of reduce task [r] in a file: one for each of its keys that has something, in
    order. *)
Definition output_file (n r : Z) (has : string -> Prop) (line : string -> string) (file : option Node) : Prop :=
  exists ks, file = Some (File (join (line <$> ks)))
    /\ StronglySorted String.le ks /\ NoDup ks /\ forall k, k ∈ ks <-> bucket n k = r /\ has k.

Lemma output_file_keys n r l (reducef : string -> list string -> string) (has : string -> Prop)
    (line : string -> string) :
  (forall k, has k <-> values k l <> []) -> (forall k, line k = out_line k (reducef k (values k l))) ->
  output_file n r has line
    (Some (File (join (MrSequential.line reducef l <$> filter (fun k => bucket n k = r) (sorted_keys l))))).
Proof.
  intros Hhas Hline. exists (filter (fun k => bucket n k = r) (sorted_keys l)). split_and!.
  - do 3 f_equal. apply list_fmap_ext. intros _ k _. by rewrite Hline.
  - apply StronglySorted_filter, sorted_keys_sorted.
  - apply NoDup_filter, NoDup_sorted_keys.
  - intros k. by rewrite list_elem_of_filter, sorted_keys_elem, Hhas, values_keys.
Qed.

Lemma words_valid (IsLetter : Z -> bool) s :
  IsLetter RuneError = false -> Forall ValidString (Wc.words IsLetter s).
Proof. intros HL. apply FieldsFunc_valid. by rewrite HL. Qed.

(** C26.  A distributed word count counts words.  The inputs are any files (also such that are
    not UTF-8), workers die and are slow as they like; JSON round-trips valid UTF-8 and
    [unicode.IsLetter] is any predicate that does not hold of U+FFFD.  No run fails, and when the
    coordinator is done, output file [r] has one line for each word of the inputs in its bucket, in
    order, with the number of occurrences; the words of an input are the maximal runs of letters
    of its contents. *)
Theorem word_count_correct `{KvJson} `{!KvJsonLaws ValidString} (IsLetter : Z -> bool)
    (inputs : list string) (inp : string -> string) (n now : Z) (fs : FS) (es : list JobEvent) :
  IsLetter RuneError = false -> 0 < n -> Forall (fun f => ~ reserved f) inputs ->
  (forall f, f ∈ inputs -> fs !! f = Some (File (inp f))) ->
  (forall name, present fs name -> ~ reserved name) ->
  events_ok (Wc.Map IsLetter) Wc.Reduce n (job_start inputs n now fs) es ->
  (forall f, splits (fun r => negb (IsLetter r)) (runes (inp f)) (Wc.words IsLetter (inp f)))
  /\ exists w, job_run (Wc.Map IsLetter) Wc.Reduce (job_start inputs n now fs) es = Some w
     /\ (Coordinator_Done (w_coord (j_mr w)) = true -> forall r, 0 <= r < n ->
         output_file n r (fun k => 0 < occurrences IsLetter inputs inp k)
           (fun k => out_line k (Sprint (occurrences IsLetter inputs inp k))) (j_fs w !! out_name r)).
Proof.
  intros HL Hn Hnames Hfs Hfree Hes. split; [intros f; apply FieldsFunc_splits|].
  destruct (job_output (clean:=ValidString) (Wc.Map IsLetter) Wc.Reduce inputs inp n now fs es)
    as (w & Hrun & Hout); [apply _| |done..|].
  - split; [done|done|]. apply Forall_forall. intros f _. apply Forall_fmap.
    eapply Forall_impl; [apply (words_valid IsLetter (inp f) HL)|].
    intros k Hk. split; [exact Hk|]. repeat constructor. by intros [? _].
  - exists w. split; [done|]. intros Hd r Hr. rewrite (Hout Hd r Hr). apply output_file_keys.
    + intros k. rewrite <- wc_values. unfold zlen. destruct (values k _); simpl; [|naive_solver lia].
      split; [lia|done].
    + intros k. unfold Wc.Reduce. by rewrite wc_values.
Qed.

(** A distributed index lists, for each word, how many inputs have it and which, in order. *)
Theorem indexer_correct `{KvJson} `{!KvJsonLaws ValidString} (IsLetter : Z -> bool)
    (order : gset string -> list string)
    (inputs : list string) (inp : string -> string) (n now : Z) (fs : FS) (es : list JobEvent) :
  IsLetter RuneError = false -> (forall X, order X ≡ₚ elements X) ->
  0 < n -> Forall (fun f => ~ reserved f /\ ValidString f) inputs ->
  (forall f, f ∈ inputs -> fs !! f = Some (File (inp f))) ->
  (forall name, present fs name -> ~ reserved name) ->
  events_ok (Indexer.Map IsLetter order) Indexer.Reduce n (job_start inputs n now fs) es ->
  exists w, job_run (Indexer.Map IsLetter order) Indexer.Reduce (job_start inputs n now fs) es = Some w
    /\ (Coordinator_Done (w_coord (j_mr w)) = true -> forall r, 0 <= r < n ->
        let docs := documents IsLetter inputs inp in
        output_file n r (fun k => docs k <> [])
          (fun k => out_line k (Sprint (zlen (docs k)) +:+ " " +:+ Join (Strings (docs k)) ","))
          (j_fs w !! out_name r)).
Proof.
  intros HL Ho Hn Hnames Hfs Hfree Hes.
  destruct (job_output (clean:=ValidString) (Indexer.Map IsLetter order) Indexer.Reduce inputs inp n now fs es)
    as (w & Hrun & Hout); [apply _| |done..|].
  - split; [done|eapply Forall_impl; [exact Hnames|]; by intros f [? _]|].
    eapply Forall_impl; [exact Hnames|]. intros f [_ Hf]. apply Forall_fmap. simpl.
    pose proof (words_valid IsLetter (inp f) HL) as Hv. rewrite Forall_forall in Hv.
    apply Forall_forall. intros k Hk. rewrite Ho, elem_of_elements, elem_of_list_to_set in Hk.
    split; [exact (Hv k Hk)|done].
  - exists w. split; [done|]. intros Hd r Hr docs. rewrite (Hout Hd r Hr). apply output_file_keys.
    + intros k. by rewrite indexer_values.
    + intros k. unfold Indexer.Reduce. by rewrite indexer_values.
Qed.

(** ** A word count that runs

    A codec for all strings: every character of a string is marked, and so is the end. *)

#[local] Arguments String.append !_ _ / : simpl nomatch.

Definition bang : Ascii.ascii := Ascii.ascii_of_nat 33.
Definition dot : Ascii.ascii := Ascii.ascii_of_nat 46.

Fixpoint marked (s rest : string) : string :=
  match s with
  | EmptyString => String bang rest
  | String a s => String dot (String a (marked s rest))
  end.

Fixpoint read_marked (acc : string) (key : option string) (s : string) : list KeyValue :=
  match s with
  | EmptyString => []
  | String m s =>
      if decide (m = bang) then
        match key with
        | None => read_marked "" (Some acc) s
        | Some k => mkKeyValue k acc :: read_marked "" None s
        end
      else match s with
           | EmptyString => []
           | String a s => read_marked (acc +:+ String a "") key s
           end
  end.

#[local] Instance marked_json : KvJson := {|
  kv_encode kv := marked (Key kv) (marked (Value kv) "");
  kv_decode := read_marked "" None;
|}.

Lemma marked_append s rest t : (marked s rest +:+ t)%string = marked s (rest +:+ t).
Proof. induction s as [|a s IH]; simpl; [done|]. by rewrite IH. Qed.

Lemma read_marked_key s : forall acc key rest,
  read_marked acc key (marked s rest)
  = match key with
    | None => read_marked "" (Some (acc +:+ s)%string) rest
    | Some k => mkKeyValue k (acc +:+ s)%string :: read_marked "" None rest
    end.
Proof.
  induction s as [|a s IH]; intros acc key rest; simpl.
  - rewrite append_nil_r. by destruct key.
  - rewrite IH. by rewrite append_assoc.
Qed.

#[local] Instance marked_json_laws clean : KvJsonLaws clean.
Proof.
  split. intros kvs _. change (read_marked "" None (join (kv_encode <$> kvs)) = kvs).
  induction kvs as [|kv kvs IH]; [done|]. rewrite fmap_cons, join_cons. cbn [kv_encode marked_json].
  rewrite marked_append, read_marked_key, marked_append, read_marked_key. cbn [String.append].
  destruct kv as [k v]. f_equal. exact IH.
Qed.

Definition ascii_letter (r : Z) : bool := ((65 <=? r) && (r <=? 90)) || ((97 <=? r) && (r <=? 122)).

(** The second word ends at a byte that is not UTF-8. *)
Definition odd_text : string := ("to be, " +:+ String (Ascii.ascii_of_nat 255) "to")%string.
Definition one_file : FS := {["f" := File odd_text]}.
Definition one_run : list JobEvent :=
  [JHeartBeat (fun _ => 100); JRun 0 Completed (draw "a" "b"); JReport 0;
   JHeartBeat (fun _ => 101); JRun 1 Completed (draw "c" "d"); JReport 1].

#[local] Instance random_name_dec s : Decision (random_name s).
Proof. unfold random_name. apply _. Defined.
#[local] Instance supply_dec fs k names : Decision (supply fs k names).
Proof. unfold supply. apply _. Defined.

Ltac check_events :=
  repeat (split; [first [exact I
                        | split; [done|]; split; [done|]; cbn [ch_names draw];
                          apply (bool_decide_eq_true_1 (supply _ _ _)); vm_compute; reflexivity]
                 |intros ? Hs; vm_compute in Hs; injection Hs as <-]); exact I.

Lemma one_file_free name : present one_file name -> ~ reserved name.
Proof. intros [nd Hnd] [s Hs]. unfold one_file in Hnd. apply lookup_singleton_Some in Hnd as [<- _]. discriminate Hs. Qed.

Lemma one_file_inputs f : f ∈ ["f"] -> one_file !! f = Some (File odd_text).
Proof. intros ->%list_elem_of_singleton. reflexivity. Qed.

Lemma word_count_correct_witness :
  exists w ks, job_run (Wc.Map ascii_letter) Wc.Reduce (job_start ["f"] 1 90 one_file) one_run = Some w
    /\ j_fs w !! out_name 0 = Some (File (join ((fun k => out_line k (Sprint (occurrences ascii_letter ["f"] (fun _ => odd_text) k))) <$> ks)))
    /\ j_fs w !! out_name 0 = Some (File (out_line "be" "1" +:+ out_line "to" "2")).
Proof.
  destruct (word_count_correct ascii_letter ["f"] (fun _ => odd_text) 1 90 one_file one_run)
    as (_ & w & Hrun & Hout).
  - reflexivity.
  - lia.
  - apply Forall_singleton. intros [s Hs]. discriminate Hs.
  - exact one_file_inputs.
  - exact one_file_free.
  - check_events.
  - vm_compute in Hrun. injection Hrun as <-.
    destruct (Hout eq_refl 0 ltac:(lia)) as (ks & Hks & _). eexists _, ks. split; [vm_compute; reflexivity|].
    split; [exact Hks|]. vm_compute. reflexivity.
Defined.

Lemma indexer_correct_witness :
  exists w, job_run (Indexer.Map ascii_letter elements) Indexer.Reduce (job_start ["f"] 1 90 one_file) one_run = Some w
    /\ j_fs w !! out_name 0 = Some (File (out_line "be" "1 f" +:+ out_line "to" "1 f")).
Proof.
  destruct (indexer_correct ascii_letter elements ["f"] (fun _ => odd_text) 1 90 one_file one_run)
    as (w & Hrun & Hout).
  - reflexivity.
  - done.
  - lia.
  - apply Forall_singleton. split; [intros [s Hs]; discriminate Hs|]. repeat constructor. intros [Hr _]. discriminate Hr.
  - exact one_file_inputs.
  - exact one_file_free.
  - check_events.
  - exists w. split; [exact Hrun|]. vm_compute in Hrun. injection Hrun as <-. vm_compute. reflexivity.
Defined.
