(* ===== verification/Porcupine.v ===== *)
(** * The linearizability checker

    [src/porcupine]: [model.go], [bitset.go] and the search of [checker.go], with which the
    testers judge the histories of the key/value services.  The entries of a history are nodes
    of a doubly linked list on a heap; the search unlinks the two nodes of an operation when
    it linearizes it and links them back when it backtracks.  [None] is a panic (a nil
    dereference, an index out of range) or too little fuel. *)

From S2P Require Import Prelude.

Module Porcupine.

(** ** bitset.go

    A [bitset] is a slice of 64-bit words. *)

Abbreviation bitset := (list Z).

Definition newBitset (bits : Z) : bitset :=
  let extra := if negb (bits mod 64 =? 0) then 1 else 0 in
  let chunks := bits / 64 + extra in
  replicate (Z.to_nat chunks) 0.

Definition bitsetIndex (pos : Z) : Z * Z := (pos / 64, pos mod 64).

Definition set (b : bitset) (pos : Z) : option bitset :=
  let '(major, minor) := bitsetIndex pos in
  w ← slice_get b major; slice_set b major (Z.lor w (Z.shiftl 1 minor)).

Definition clear (b : bitset) (pos : Z) : option bitset :=
  let '(major, minor) := bitsetIndex pos in
  w ← slice_get b major; slice_set b major (Z.ldiff w (Z.shiftl 1 minor)).

Definition get (b : bitset) (pos : Z) : option bool :=
  let '(major, minor) := bitsetIndex pos in
  w ← slice_get b major; Some (negb (Z.land w (Z.shiftl 1 minor) =? 0)).

(** [bits.OnesCount64]. *)
Definition OnesCount64 (w : Z) : Z :=
  zlen (filter (fun k => Z.testbit w (Z.of_nat k) = true) (seq 0 64)).

Definition popcnt (b : bitset) : Z := foldl (fun total v => total + OnesCount64 v) 0 b.

Definition hash (b : bitset) : Z := foldl Z.lxor (popcnt b) b.

Definition equals (b b2 : bitset) : bool :=
  if negb (zlen b =? zlen b2) then false
  else forallb (fun '(x, y) => x =? y) (zip b b2).

(** ** model.go *)

Section Checker.
(** The dynamic types of the inputs and outputs that a model's [Step] asserts its arguments to
    have, and of the states.  A value of a history is an input or an output. *)
Context {In Out State : Type} `{!EqDecision State}.
Abbreviation Val := (In + Out)%type.

Record Operation := mkOperation {
  op_ClientId : Z; op_Input : In; op_Call : Z; op_Output : Out; op_Return : Z }.

Inductive EventKind := CallEvent | ReturnEvent.

Record Event := mkEvent { ev_ClientId : Z; ev_Kind : EventKind; ev_Value : Val; ev_Id : Z }.

(** The functions of a model that the search uses; a [nil] field is [None]. *)
Record Model := mkModel {
  Partition : option (list Operation -> list (list Operation));
  PartitionEvent : option (list Event -> list (list Event));
  Init : State;
  Step : State -> In -> Out -> bool * State;
  Equal : option (State -> State -> bool) }.

Definition NoPartition (history : list Operation) : list (list Operation) := [history].
Definition NoPartitionEvent (history : list Event) : list (list Event) := [history].
Definition ShallowEqual (state1 state2 : State) : bool := bool_decide (state1 = state2).

Definition fillDefault (model : Model) : Model :=
  mkModel (Some (default NoPartition (Partition model)))
          (Some (default NoPartitionEvent (PartitionEvent model)))
          (Init model) (Step model) (Some (default ShallowEqual (Equal model))).

(** [model.Equal(..)]; calling a [nil] function panics. *)
Definition call_Equal (model : Model) (s1 s2 : State) : option bool :=
  eq ← Equal model; Some (eq s1 s2).

(** ** checker.go: entries *)

Inductive entryKind := callEntry | returnEntry.

#[export] Instance entryKind_eq_dec : EqDecision entryKind.
Proof. solve_decision. Defined.

Record entry := mkEntry {
  en_kind : entryKind; en_value : Val; en_id : Z; en_time : Z; en_clientId : Z }.

(** [byTime.Less]. *)
Definition Less (a b : entry) : bool :=
  if negb (en_time a =? en_time b) then en_time a <? en_time b
  else bool_decide (en_kind a = callEntry) && bool_decide (en_kind b = returnEntry).

(** The loop of [makeEntries], from [id]. *)
Fixpoint entries_of (history : list Operation) (id : Z) : list entry :=
  match history with
  | [] => []
  | elem :: history =>
      mkEntry callEntry (inl (op_Input elem)) id (op_Call elem) (op_ClientId elem)
      :: mkEntry returnEntry (inr (op_Output elem)) id (op_Return elem) (op_ClientId elem)
      :: entries_of history (id + 1)
  end.

(** [sort.Sort] may order equal elements as it likes: it is an argument. *)
Definition makeEntries (sort_Sort : (entry -> entry -> bool) -> list entry -> list entry)
    (history : list Operation) : list entry :=
  sort_Sort Less (entries_of history 0).

(** The loop of [renumber]; [m] is the renumbering, [id] the next number. *)
Fixpoint renumber_from (events : list Event) (m : gmap Z Z) (id : Z) : list Event :=
  match events with
  | [] => []
  | v :: events =>
      match m !! ev_Id v with
      | Some r => mkEvent (ev_ClientId v) (ev_Kind v) (ev_Value v) r :: renumber_from events m id
      | None =>
          mkEvent (ev_ClientId v) (ev_Kind v) (ev_Value v) id
          :: renumber_from events (<[ev_Id v := id]> m) (id + 1)
      end
  end.

Definition renumber (events : list Event) : list Event := renumber_from events ∅ 0.

Definition convertEntries (events : list Event) : list entry :=
  imap (fun i elem =>
    let kind := match ev_Kind elem with ReturnEvent => returnEntry | CallEvent => callEntry end in
    mkEntry kind (ev_Value elem) (ev_Id elem) (Z.of_nat i) (ev_ClientId elem)) events.

(** ** checker.go: the list of nodes *)

(** A pointer is a position of the heap, [nil] is [None]. *)
Record node := mkNode {
  n_value : option Val; n_match : option nat; n_id : Z;
  n_next : option nat; n_prev : option nat }.

Abbreviation heap := (list node).

Definition new (hp : heap) (n : node) : heap * nat := (hp ++ [n], length hp).

(** [p.next = v] and [p.prev = v]. *)
Definition set_next (hp : heap) (p : nat) (v : option nat) : option heap :=
  n ← hp !! p; Some (<[p := mkNode (n_value n) (n_match n) (n_id n) v (n_prev n)]> hp).
Definition set_prev (hp : heap) (p : nat) (v : option nat) : option heap :=
  n ← hp !! p; Some (<[p := mkNode (n_value n) (n_match n) (n_id n) (n_next n) v]> hp).

(** [p.next], [p.prev], [p.match]. *)
Definition get_next (hp : heap) (p : nat) : option (option nat) := n_next <$> hp !! p.
Definition get_prev (hp : heap) (p : nat) : option (option nat) := n_prev <$> hp !! p.
Definition get_match (hp : heap) (p : nat) : option (option nat) := n_match <$> hp !! p.

Definition insertBefore (hp : heap) (n : nat) (mark : option nat) : option heap :=
  match mark with
  | None => Some hp
  | Some mark =>
      beforeMark ← get_prev hp mark;
      hp ← set_prev hp mark (Some n);
      hp ← set_next hp n (Some mark);
      match beforeMark with
      | Some beforeMark =>
          hp ← set_prev hp n (Some beforeMark);
          set_next hp beforeMark (Some n)
      | None => Some hp
      end
  end.

(** [length(n)]: one unit of fuel per node of the heap. *)
Fixpoint node_length (fuel : nat) (hp : heap) (n : option nat) : option Z :=
  match n with
  | None => Some 0
  | Some p =>
      match fuel with
      | O => None
      | S fuel => nx ← get_next hp p; l ← node_length fuel hp nx; Some (l + 1)
      end
  end.

(** The loop of [makeLinkedEntries], which runs from the last entry to the first; [rest] is
    what is left, last entry first. *)
Fixpoint link_entries (rest : list entry) (hp : heap) (root : option nat) (mt : gmap Z nat)
    : option (heap * option nat) :=
  match rest with
  | [] => Some (hp, root)
  | elem :: rest =>
      match en_kind elem with
      | returnEntry =>
          let '(hp, e) := new hp (mkNode (Some (en_value elem)) None (en_id elem) None None) in
          let mt := <[en_id elem := e]> mt in
          hp ← insertBefore hp e root;
          link_entries rest hp (Some e) mt
      | callEntry =>
          let '(hp, e) :=
            new hp (mkNode (Some (en_value elem)) (mt !! en_id elem) (en_id elem) None None) in
          hp ← insertBefore hp e root;
          link_entries rest hp (Some e) mt
      end
  end.

Definition makeLinkedEntries (entries : list entry) : option (heap * option nat) :=
  link_entries (reverse entries) [] None ∅.

Definition lift (hp : heap) (e : nat) : option heap :=
  prev ← get_prev hp e; p ← prev;
  next ← get_next hp e;
  hp ← set_next hp p next;
  next ← get_next hp e; n ← next;
  prev ← get_prev hp e;
  hp ← set_prev hp n prev;
  mtch ← get_match hp e; m ← mtch;
  prev ← get_prev hp m; p ← prev;
  next ← get_next hp m;
  hp ← set_next hp p next;
  next ← get_next hp m;
  match next with
  | Some n => prev ← get_prev hp m; set_prev hp n prev
  | None => Some hp
  end.

Definition unlift (hp : heap) (e : nat) : option heap :=
  mtch ← get_match hp e; m ← mtch;
  prev ← get_prev hp m; p ← prev;
  hp ← set_next hp p (Some m);
  next ← get_next hp m;
  hp ← (match next with Some n => set_prev hp n (Some m) | None => Some hp end);
  prev ← get_prev hp e; p ← prev;
  hp ← set_next hp p (Some e);
  next ← get_next hp e; n ← next;
  set_prev hp n (Some e).

(** ** checker.go: the search *)

Record cacheEntry := mkCacheEntry { ce_linearized : bitset; ce_state : State }.

Fixpoint cache_scan (model : Model) (elems : list cacheEntry) (entry : cacheEntry) : option bool :=
  match elems with
  | [] => Some false
  | elem :: elems =>
      if equals (ce_linearized entry) (ce_linearized elem) then
        b ← call_Equal model (ce_state entry) (ce_state elem);
        if (b : bool) then Some true else cache_scan model elems entry
      else cache_scan model elems entry
  end.

Definition cacheContains (model : Model) (cache : gmap Z (list cacheEntry)) (entry : cacheEntry)
    : option bool :=
  cache_scan model (default [] (cache !! hash (ce_linearized entry))) entry.

Record callsEntry := mkCallsEntry { ca_entry : nat; ca_state : State }.

(** The variables of the loop of [checkSingle].  The sequences that [longest] points to are
    kept in [s_seqs], a pointer is a position there. *)
Record search := mkSearch {
  s_heap : heap; s_entry : option nat; s_state : State; s_linearized : bitset;
  s_cache : gmap Z (list cacheEntry); s_calls : list callsEntry;
  s_seqs : list (list Z); s_longest : list (option nat) }.

(** The ids of the linearized calls, in order. *)
Definition call_ids (hp : heap) (calls : list callsEntry) : option (list Z) :=
  mapM (fun v => n_id <$> hp !! ca_entry v) calls.

(** The loop over [calls] that updates [longest]; [seq] is the sequence created by this
    iteration of the search, if it has been created. *)
Fixpoint update_longest (hp : heap) (calls todo : list callsEntry) (seq : option nat)
    (seqs : list (list Z)) (longest : list (option nat))
    : option (list (list Z) * list (option nat)) :=
  match todo with
  | [] => Some (seqs, longest)
  | v :: todo =>
      id ← n_id <$> hp !! ca_entry v;
      old ← slice_get longest id;
      improves ← (match old with
                  | None => Some true
                  | Some q => l ← seqs !! q; Some (zlen l <? zlen calls)
                  end);
      if (improves : bool) then
        '(q, seqs) ← (match seq with
                      | Some q => Some (q, seqs)
                      | None => ids ← call_ids hp calls; Some (length seqs, seqs ++ [ids])
                      end);
        longest ← slice_set longest id (Some q);
        update_longest hp calls todo (Some q) seqs longest
      else update_longest hp calls todo seq seqs longest
  end.

(** The type assertions of [Step]: they panic on a value of another type. *)
Definition as_input (v : option Val) : option In :=
  match v with Some (inl i) => Some i | _ => None end.
Definition as_output (v : option Val) : option Out :=
  match v with Some (inr o) => Some o | _ => None end.

(** The body of the loop of [checkSingle] when [entry] is the call [e], whose return is [m]:
    linearize it, if the model allows that and the result has not been seen before. *)
Definition check_call (model : Model) (head : nat) (s : search) (e : nat) (nd : node) (m : nat)
    : option search :=
  matching ← s_heap s !! m;
  input ← as_input (n_value nd);
  output ← as_output (n_value matching);
  let '(ok, newState) := Step model (s_state s) input output in
  let skip := mkSearch (s_heap s) (n_next nd) (s_state s) (s_linearized s) (s_cache s) (s_calls s)
                (s_seqs s) (s_longest s) in
  if (ok : bool) then
    newLinearized ← set (s_linearized s) (n_id nd);
    let newCacheEntry := mkCacheEntry newLinearized newState in
    seen ← cacheContains model (s_cache s) newCacheEntry;
    if negb seen then
      let h := hash newLinearized in
      let cache := <[h := default [] (s_cache s !! h) ++ [newCacheEntry]]> (s_cache s) in
      let calls := s_calls s ++ [mkCallsEntry e (s_state s)] in
      linearized ← set (s_linearized s) (n_id nd);
      hp ← lift (s_heap s) e;
      entry ← get_next hp head;
      Some (mkSearch hp entry newState linearized cache calls (s_seqs s) (s_longest s))
    else Some skip
  else Some skip.

(** The body of the loop when [entry] is a return: backtrack.  The flag is [false] when there
    is nothing to go back to. *)
Definition check_return (computePartial : bool) (s : search) : option (search * bool) :=
  match last (s_calls s) with
  | None => Some (s, false)
  | Some callsTop =>
      '(seqs, longest) ←
        (if computePartial
         then update_longest (s_heap s) (s_calls s) (s_calls s) None (s_seqs s) (s_longest s)
         else Some (s_seqs s, s_longest s));
      let e := ca_entry callsTop in
      nd ← s_heap s !! e;
      linearized ← clear (s_linearized s) (n_id nd);
      calls ← slice_to (s_calls s) (zlen (s_calls s) - 1);
      hp ← unlift (s_heap s) e;
      entry ← get_next hp e;
      Some (mkSearch hp entry (ca_state callsTop) linearized (s_cache s) calls seqs longest, true)
  end.

(** The body of the loop: the new state, and whether the loop goes on. *)
Definition check_step (model : Model) (computePartial : bool) (head : nat) (s : search)
    : option (search * bool) :=
  e ← s_entry s;
  nd ← s_heap s !! e;
  match n_match nd with
  | Some m => s ← check_call model head s e nd m; Some (s, true)
  | None => check_return computePartial s
  end.

(** The loop; [kill it] is what iteration [it] reads from the flag. *)
Fixpoint check_loop (model : Model) (computePartial : bool) (kill : nat -> bool) (head : nat)
    (fuel it : nat) (s : search) : option (search * bool) :=
  nx ← get_next (s_heap s) head;
  match nx with
  | None => Some (s, true)
  | Some _ =>
      match fuel with
      | O => None
      | S fuel =>
          if kill it then Some (s, false)
          else
            '(s, go_on) ← check_step model computePartial head s;
            if (go_on : bool)
            then check_loop model computePartial kill head fuel (S it) s
            else Some (s, false)
      end
  end.

(** The state before the loop, and [headEntry]. *)
Definition check_init (model : Model) (history : list entry) : option (search * nat) :=
  '(hp, entry) ← makeLinkedEntries history;
  len ← node_length (length hp) hp entry;
  let n := Z.quot len 2 in
  let '(hp, head) := new hp (mkNode None None (-1) None None) in
  hp ← insertBefore hp head entry;
  Some (mkSearch hp entry (Init model) (newBitset n) ∅ [] [] (replicate (Z.to_nat n) None), head).

(** The verdict, the sequences, and the pointers of [longest] to them. *)
Definition checkSingle_pointers (model : Model) (history : list entry) (computePartial : bool)
    (kill : nat -> bool) (fuel : nat) : option (bool * list (list Z) * list (option nat)) :=
  '(s, head) ← check_init model history;
  '(s, ok) ← check_loop model computePartial kill head fuel 0 s;
  if (ok : bool) then
    seq ← call_ids (s_heap s) (s_calls s);
    Some (true, s_seqs s ++ [seq], (fun _ => Some (length (s_seqs s))) <$> s_longest s)
  else Some (false, s_seqs s, s_longest s).

Definition deref_seq (seqs : list (list Z)) (o : option nat) : option (list Z) := q ← o; seqs !! q.

(** The verdict and [longest], whose pointers are dereferenced. *)
Definition checkSingle (model : Model) (history : list entry) (computePartial : bool)
    (kill : nat -> bool) (fuel : nat) : option (bool * list (option (list Z))) :=
  '(ok, seqs, longest) ← checkSingle_pointers model history computePartial kill fuel;
  Some (ok, fmap (M:=list) (deref_seq seqs) longest).

(** ** checker.go: several partitions *)

Inductive CheckResult := Unknown | Ok | Illegal.

(** What the loop of [checkParallel] receives: the result of the checker of a partition, or
    the timeout. *)
Inductive Arrival := Result (i : nat) | Timeout.

(** The loop: whether all results so far were positive, and whether it timed out.  [results]
    are the results of the checkers while [kill] is not set; the loop has left before it sets
    [kill].  [None]: nothing arrives any more and the loop is blocked. *)
Fixpoint parallel_loop (results : list bool) (computeInfo : bool) (arrivals : list Arrival)
    (ok : bool) (count : nat) : option (bool * bool) :=
  match arrivals with
  | [] => None
  | Timeout :: _ => Some (ok, true)
  | Result i :: arrivals =>
      result ← results !! i;
      let count := S count in
      let ok := ok && result in
      if negb ok && negb computeInfo then Some (ok, false)
      else if (length results <=? count)%nat then Some (ok, false)
      else parallel_loop results computeInfo arrivals ok count
  end.

Definition checkParallel (model : Model) (history : list (list entry)) (computeInfo : bool)
    (arrivals : list Arrival) (fuel : nat) : option CheckResult :=
  results ← mapM (fun h => fst <$> checkSingle model h computeInfo (fun _ => false) fuel) history;
  '(ok, timedOut) ← parallel_loop results computeInfo arrivals true 0;
  Some (if negb (ok : bool) then Illegal else if (timedOut : bool) then Unknown else Ok).

(** Lines 320 to 341.  The pointers of [longest] as a set, listed in any [order]. *)
Record linearizationInfo := mkInfo {
  li_history : list (list entry); li_partialLinearizations : list (list (list Z)) }.

Definition unique_partials (order : list nat -> list nat) (seqs : list (list Z))
    (longest : list (option nat)) : option (list (list Z)) :=
  mapM (fun q => seqs !! q) (order (remove_dups (omap id longest))).

(** [kill i] is what the checker of partition [i] reads from the flag, which a timeout sets. *)
Definition parallel_info (model : Model) (history : list (list entry)) (kill : nat -> nat -> bool)
    (order : nat -> list nat -> list nat) (fuel : nat) : option linearizationInfo :=
  partials ← mapM (fun '(i, h) =>
    '(_, seqs, longest) ← checkSingle_pointers model h true (kill i) fuel;
    unique_partials (order i) seqs longest) (zip (seq 0 (length history)) history);
  Some (mkInfo history partials).

Definition checkEvents (model : Model) (history : list Event) (verbose : bool)
    (arrivals : list Arrival) (fuel : nat) : option CheckResult :=
  let model := fillDefault model in
  part ← PartitionEvent model;
  checkParallel model ((fun h => convertEntries (renumber h)) <$> part history) verbose arrivals fuel.

Definition checkOperations (sort_Sort : (entry -> entry -> bool) -> list entry -> list entry)
    (model : Model) (history : list Operation) (verbose : bool) (arrivals : list Arrival)
    (fuel : nat) : option CheckResult :=
  let model := fillDefault model in
  part ← Partition model;
  checkParallel model (makeEntries sort_Sort <$> part history) verbose arrivals fuel.

(** ** porcupine.go

    Without a timeout only results arrive, those of the partitions [order] in this order. *)

Definition is_Ok (res : CheckResult) : bool := match res with Ok => true | _ => false end.

Definition CheckOperations (sort_Sort : (entry -> entry -> bool) -> list entry -> list entry)
    (model : Model) (history : list Operation) (order : list nat) (fuel : nat) : option bool :=
  res ← checkOperations sort_Sort model history false (Result <$> order) fuel;
  Some (is_Ok res).

Definition CheckOperationsTimeout (sort_Sort : (entry -> entry -> bool) -> list entry -> list entry)
    (model : Model) (history : list Operation) (arrivals : list Arrival) (fuel : nat) : option CheckResult :=
  checkOperations sort_Sort model history false arrivals fuel.

Definition CheckEvents (model : Model) (history : list Event) (order : list nat) (fuel : nat) : option bool :=
  res ← checkEvents model history false (Result <$> order) fuel;
  Some (is_Ok res).

Definition CheckEventsTimeout (model : Model) (history : list Event) (arrivals : list Arrival)
    (fuel : nat) : option CheckResult :=
  checkEvents model history false arrivals fuel.

Definition CheckOperationsVerbose (sort_Sort : (entry -> entry -> bool) -> list entry -> list entry)
    (model : Model) (history : list Operation) (arrivals : list Arrival) (kill : nat -> nat -> bool)
    (order : nat -> list nat -> list nat) (fuel : nat) : option (CheckResult * linearizationInfo) :=
  res ← checkOperations sort_Sort model history true arrivals fuel;
  part ← Partition (fillDefault model);
  info ← parallel_info (fillDefault model) (makeEntries sort_Sort <$> part history) kill order fuel;
  Some (res, info).

Definition CheckEventsVerbose (model : Model) (history : list Event) (arrivals : list Arrival)
    (kill : nat -> nat -> bool) (order : nat -> list nat -> list nat) (fuel : nat)
    : option (CheckResult * linearizationInfo) :=
  res ← checkEvents model history true arrivals fuel;
  part ← PartitionEvent (fillDefault model);
  info ← parallel_info (fillDefault model) ((fun h => convertEntries (renumber h)) <$> part history)
           kill order fuel;
  Some (res, info).
End Checker.

Arguments Operation : clear implicits.
Arguments Event : clear implicits.
Arguments entry : clear implicits.
Arguments node : clear implicits.
Arguments Model : clear implicits.
Arguments cacheEntry : clear implicits.
Arguments callsEntry : clear implicits.
Arguments search : clear implicits.
Arguments linearizationInfo : clear implicits.
End Porcupine.
