(* ===== verification/PorcBitset.v ===== *)
(** * Bit sets of the linearizability checker

    The slices of words of [bitset.go] represent sets of operations: setting a bit adds an
    operation, clearing it restores the very slice, equal slices are equal sets. *)

From S2P Require Import Prelude Porcupine.
Import Porcupine.

(** [b] represents the set [L] of numbers below [n]. *)
Record denotes (n : Z) (b : bitset) (L : gset Z) : Prop := {
  dn_length : zlen b = zlen (newBitset n);
  dn_range : forall i, i ∈ L -> 0 <= i < n;
  dn_get : forall i, 0 <= i < n -> get b i = Some (bool_decide (i ∈ L));
}.

Lemma land_bit w m : 0 <= m -> negb (Z.land w (Z.shiftl 1 m) =? 0) = Z.testbit w m.
Proof.
  intros Hm. destruct (Z.testbit w m) eqn:E; destruct (Z.eqb_spec (Z.land w (Z.shiftl 1 m)) 0) as [Hz|Hz];
    try done; exfalso.
  - apply (f_equal (fun x => Z.testbit x m)) in Hz.
    rewrite Z.land_spec, Z.shiftl_spec, Z.sub_diag, Z.bits_0, E in Hz by lia. done.
  - apply Hz. apply Z.bits_inj'. intros j Hj. rewrite Z.land_spec, Z.bits_0, Z.shiftl_spec by lia.
    destruct (decide (j = m)) as [->|Hne]; [by rewrite E|].
    replace (Z.testbit 1 (j - m)) with false; [apply andb_false_r|]. symmetry.
    destruct (Z.lt_ge_cases (j - m) 0); [by apply Z.testbit_neg_r|].
    apply (Z.pow2_bits_false 0). lia.
Qed.

Lemma get_eq b i :
  get b i = (fun w => Z.testbit w (i mod 64)) <$> slice_get b (i / 64).
Proof.
  unfold get, bitsetIndex. destruct (slice_get b (i / 64)); simpl; [|done].
  rewrite land_bit; [done|]. pose proof (Z.mod_pos_bound i 64). lia.
Qed.

Lemma testbit_one m j : 0 <= m -> 0 <= j -> Z.testbit (Z.shiftl 1 m) j = bool_decide (m = j).
Proof.
  intros Hm Hj. rewrite Z.shiftl_1_l. case_bool_decide as E; [subst; by apply Z.pow2_bits_true|].
  by apply Z.pow2_bits_false.
Qed.

Lemma zlen_newBitset n i : 0 <= i < n -> 0 <= i / 64 < zlen (newBitset n).
Proof.
  intros Hi. unfold newBitset, zlen. rewrite length_replicate.
  pose proof (Z.div_mod n 64). pose proof (Z.mod_pos_bound n 64).
  split; [by apply Z.div_pos; lia|]. rewrite Z2Nat.id.
  - destruct (Z.eqb_spec (n mod 64) 0); simpl; apply Z.div_lt_upper_bound; lia.
  - pose proof (Z.div_pos n 64). destruct (negb _); lia.
Qed.

Lemma denotes_new n : denotes n (newBitset n) ∅.
Proof.
  constructor; [done|set_solver|]. intros i Hi. rewrite get_eq.
  pose proof (zlen_newBitset n i Hi) as Hl.
  destruct (slice_get_total (newBitset n) (i / 64) Hl) as [w Hw]. rewrite Hw.
  apply slice_get_Some in Hw as [_ Hw]. unfold newBitset in Hw.
  apply lookup_replicate in Hw as [-> _]. simpl. by rewrite Z.bits_0, bool_decide_false by set_solver.
Qed.

(** Adding an operation, and taking it out again. *)
Lemma denotes_set n b L i :
  denotes n b L -> 0 <= i < n -> i ∉ L ->
  exists b', set b i = Some b' /\ denotes n b' ({[i]} ∪ L) /\ clear b' i = Some b.
Proof.
  intros [Hlen Hrange Hget] Hi Hni. pose proof (zlen_newBitset n i Hi) as Hl. rewrite <- Hlen in Hl.
  pose proof (Z.mod_pos_bound i 64 ltac:(lia)) as Hm.
  destruct (slice_get_total b (i / 64) Hl) as [w Hw].
  unfold set, bitsetIndex. rewrite Hw. simpl. rewrite slice_set_Some by lia.
  set (w' := Z.lor w (Z.shiftl 1 (i mod 64))). eexists. split; [done|].
  assert (Hw' : slice_get (<[Z.to_nat (i / 64) := w']> b) (i / 64) = Some w').
  { apply slice_get_Some. split; [lia|]. apply list_lookup_insert_eq. unfold zlen in Hl. lia. }
  assert (Hbit : Z.testbit w (i mod 64) = false).
  { specialize (Hget i Hi). rewrite get_eq, Hw, bool_decide_false in Hget by done. by injection Hget. }
  split.
  - constructor; [by rewrite zlen_insert|set_solver|]. intros j Hj. rewrite get_eq.
    pose proof (Z.mod_pos_bound j 64 ltac:(lia)).
    destruct (decide (j / 64 = i / 64)) as [Heq|Hne].
    + specialize (Hget j Hj). rewrite get_eq, Heq, Hw in Hget. simpl in Hget.
      rewrite Heq, Hw'. simpl. f_equal. unfold w'. rewrite Z.lor_spec, testbit_one by lia.
      injection Hget as ->.
      assert (Hij : i mod 64 = j mod 64 <-> i = j).
      { split; [|congruence]. intros Hmod. rewrite (Z.div_mod i 64), (Z.div_mod j 64); lia. }
      rewrite (bool_decide_ext (i mod 64 = j mod 64) (i = j)) by done. repeat case_bool_decide; set_solver.
    + rewrite (bool_decide_ext _ (j ∈ L)); [|assert (j <> i) by congruence; set_solver].
      rewrite <- (Hget j Hj), get_eq. unfold slice_get.
      destruct (Z.ltb_spec (j / 64) 0); [done|]. rewrite list_lookup_insert_ne; [done|lia].
  - unfold clear, bitsetIndex. rewrite Hw'. simpl. rewrite slice_set_Some by (rewrite zlen_insert; lia).
    f_equal. rewrite list_insert_insert_eq. apply list_insert_id.
    apply slice_get_Some in Hw as [_ ->]. f_equal. apply Z.bits_inj'. intros j Hj. unfold w'.
    rewrite Z.ldiff_spec, Z.lor_spec, testbit_one by lia.
    case_bool_decide as E; [subst; by rewrite Hbit|]. by rewrite orb_false_r, andb_true_r.
Qed.

Lemma equals_eq b b2 : equals b b2 = true -> b = b2.
Proof.
  unfold equals. intros He. destruct (Z.eqb_spec (zlen b) (zlen b2)) as [Hl|]; [|done].
  simpl in He. unfold zlen in Hl. apply Nat2Z.inj in Hl. revert b2 He Hl. induction b as [|x b IH]; intros [|y b2] He Hl; simplify_eq/=; [done|].
  apply andb_prop in He as [Hx He]. go_bool. f_equal; auto.
Qed.

Lemma denotes_inj n b L L' : denotes n b L -> denotes n b L' -> L = L'.
Proof.
  intros [_ Hr Hg] [_ Hr' Hg']. apply set_eq. intros i. split; intros Hi.
  - specialize (Hr i Hi). pose proof (Hg i Hr) as H1. rewrite (Hg' i Hr) in H1.
    rewrite (bool_decide_true (i ∈ L)) in H1 by done. injection H1 as H1.
    by apply bool_decide_eq_true in H1.
  - specialize (Hr' i Hi). pose proof (Hg i Hr') as H1. rewrite (Hg' i Hr') in H1.
    rewrite (bool_decide_true (i ∈ L')) in H1 by done. injection H1 as H1.
    by symmetry in H1; apply bool_decide_eq_true in H1.
Qed.
