(* ===== verification/PorcList.v ===== *)
(** * The linked list of the linearizability checker

    [lift] takes the two nodes of an operation out of the list, [unlift] puts them back: the
    heap is then the one it was, so that backtracking restores the search. *)

From S2P Require Import Prelude Porcupine.
Import Porcupine.

Section PorcList.
Context {In Out : Type}.
Implicit Types (hp : list (node In Out)) (l A B C : list nat) (nd : node In Out).

Definition with_next (v : option nat) nd : node In Out :=
  mkNode (n_value nd) (n_match nd) (n_id nd) v (n_prev nd).
Definition with_prev (v : option nat) nd : node In Out :=
  mkNode (n_value nd) (n_match nd) (n_id nd) (n_next nd) v.

Lemma set_next_Some hp p v nd : hp !! p = Some nd -> set_next hp p v = Some (alter (with_next v) p hp).
Proof. intros Hp. unfold set_next. rewrite Hp. simpl. f_equal. apply list_eq. intros i.
  destruct (decide (i = p)) as [->|].
  - rewrite list_lookup_alter_eq, Hp, list_lookup_insert_eq by (by eapply lookup_lt_Some). done.
  - by rewrite list_lookup_alter_ne, list_lookup_insert_ne by done.
Qed.

Lemma set_prev_Some hp p v nd : hp !! p = Some nd -> set_prev hp p v = Some (alter (with_prev v) p hp).
Proof. intros Hp. unfold set_prev. rewrite Hp. simpl. f_equal. apply list_eq. intros i.
  destruct (decide (i = p)) as [->|].
  - rewrite list_lookup_alter_eq, Hp, list_lookup_insert_eq by (by eapply lookup_lt_Some). done.
  - by rewrite list_lookup_alter_ne, list_lookup_insert_ne by done.
Qed.

(** ** List segments

    The nodes [l] are linked in order; [pv] precedes and [nx] follows them. *)

Definition first (l : list nat) (nx : option nat) : option nat :=
  match l with [] => nx | a :: _ => Some a end.

Fixpoint dll hp (pv : option nat) l (nx : option nat) : Prop :=
  match l with
  | [] => True
  | a :: l =>
      (exists nd, hp !! a = Some nd /\ n_prev nd = pv /\ n_next nd = first l nx)
      /\ dll hp (Some a) l nx
  end.

Lemma first_app A B nx : first (A ++ B) nx = first A (first B nx).
Proof. by destruct A. Qed.

Lemma dll_app hp pv A B nx :
  dll hp pv (A ++ B) nx
  <-> dll hp pv A (first B nx) /\ dll hp (match last A with Some a => Some a | None => pv end) B nx.
Proof.
  revert pv. induction A as [|a A IH]; intros pv; simpl; [tauto|].
  rewrite IH, first_app. destruct A as [|b A]; simpl; [tauto|].
  assert (is_Some (last (b :: A))) as [x Hx] by (apply last_is_Some; done).
  simpl in Hx. rewrite Hx. tauto.
Qed.

(** Changes outside of a segment do not matter. *)
Lemma dll_alter hp pv l nx p f : p ∉ l -> dll hp pv l nx -> dll (alter f p hp) pv l nx.
Proof.
  revert pv. induction l as [|a l IH]; intros pv Hp; simpl; [done|].
  intros [(nd & Hnd & ?) Hl]. apply not_elem_of_cons in Hp as [Hne Hp]. split; [|auto].
  exists nd. by rewrite list_lookup_alter_ne.
Qed.

Lemma dll_last hp pv A a nx v :
  a ∉ A -> dll hp pv (A ++ [a]) nx -> dll (alter (with_next v) a hp) pv (A ++ [a]) v.
Proof.
  intros Ha. rewrite !dll_app. simpl. intros [HA [(nd & Hnd & Hp & Hn) _]].
  split; [by apply dll_alter|]. split; [|done]. exists (with_next v nd).
  by rewrite list_lookup_alter_eq, Hnd.
Qed.

Lemma dll_first hp pv b B nx v :
  b ∉ B -> dll hp pv (b :: B) nx -> dll (alter (with_prev v) b hp) v (b :: B) nx.
Proof.
  intros Hb [(nd & Hnd & Hp & Hn) HB]. split; [|by apply dll_alter]. exists (with_prev v nd).
  by rewrite list_lookup_alter_eq, Hnd.
Qed.

Lemma dll_node hp pv A p B nx :
  dll hp pv (A ++ p :: B) nx ->
  exists nd, hp !! p = Some nd /\ n_next nd = first B nx
    /\ n_prev nd = match last A with Some a => Some a | None => pv end.
Proof. rewrite dll_app. intros [_ [(nd & ? & ? & ?) _]]. eauto. Qed.

(** ** Taking out one node *)

(** [p.prev.next = p.next; if p.next != nil { p.next.prev = p.prev }]. *)
Definition unlink hp (p : nat) : option (list (node In Out)) :=
  prev ← get_prev hp p; a ← prev;
  next ← get_next hp p;
  hp ← set_next hp a next;
  next ← get_next hp p;
  match next with
  | Some n => prev ← get_prev hp p; set_prev hp n prev
  | None => Some hp
  end.

(** [p.prev.next = p; if p.next != nil { p.next.prev = p }]. *)
Definition relink hp (p : nat) : option (list (node In Out)) :=
  prev ← get_prev hp p; a ← prev;
  hp ← set_next hp a (Some p);
  next ← get_next hp p;
  match next with Some n => set_prev hp n (Some p) | None => Some hp end.

(** The part of a node that never changes. *)
Definition static nd : option (In + Out) * option nat * Z := (n_value nd, n_match nd, n_id nd).

Lemma alter_static hp p f q :
  (forall nd, static (f nd) = static nd) -> static <$> alter f p hp !! q = static <$> hp !! q.
Proof.
  intros Hf. destruct (decide (q = p)) as [->|]; [|by rewrite list_lookup_alter_ne].
  rewrite list_lookup_alter_eq. destruct (hp !! p); simpl; [by rewrite Hf|done].
Qed.

(** What [unlink] computes. *)
Lemma unlink_eq hp A a p B :
  NoDup (A ++ a :: p :: B) -> dll hp None (A ++ a :: p :: B) None ->
  unlink hp p = Some (match B with
                      | [] => alter (with_next None) a hp
                      | b :: _ => alter (with_prev (Some a)) b (alter (with_next (Some b)) a hp)
                      end).
Proof.
  intros Hnd Hl. apply NoDup_app in Hnd as (_ & _ & Hnd).
  apply NoDup_cons in Hnd as [Ha Hnd]. apply NoDup_cons in Hnd as [Hp _].
  apply not_elem_of_cons in Ha as [Hap HaB].
  pose proof (dll_node hp None (A ++ [a]) p B None) as Hnode. rewrite <- app_assoc in Hnode.
  destruct (Hnode Hl) as (nd & Hnp & Hnx & Hpv). rewrite last_snoc in Hpv.
  destruct (dll_node _ _ _ _ _ _ Hl) as (nda & Hna & _).
  unfold unlink, get_prev, get_next. rewrite Hnp. simpl. rewrite Hpv. simpl.
  rewrite (set_next_Some _ _ _ _ Hna). simpl. rewrite list_lookup_alter_ne, Hnp by done. simpl.
  rewrite Hnx. destruct B as [|b B]; simpl; [done|].
  apply not_elem_of_cons in HaB as [Hab _].
  replace (A ++ a :: p :: b :: B) with ((A ++ [a; p]) ++ b :: B) in Hl by by rewrite <- app_assoc.
  destruct (dll_node _ _ _ _ _ _ Hl) as (ndb & Hnb & _).
  rewrite Hpv. by rewrite (set_prev_Some _ _ _ ndb) by (by rewrite list_lookup_alter_ne).
Qed.

Lemma unlink_dll hp A a p B :
  NoDup (A ++ a :: p :: B) -> dll hp None (A ++ a :: p :: B) None ->
  exists hp', unlink hp p = Some hp' /\ dll hp' None (A ++ a :: B) None
    /\ hp' !! p = hp !! p /\ (forall q, static <$> hp' !! q = static <$> hp !! q)
    /\ relink hp' p = Some hp.
Proof.
  intros Hnd Hl. rewrite (unlink_eq hp A a p B Hnd Hl). eexists. split; [done|].
  apply NoDup_app in Hnd as (_ & HA & Hnd).
  apply NoDup_cons in Hnd as [Ha Hnd]. apply NoDup_cons in Hnd as [Hp HB].
  apply not_elem_of_cons in Ha as [Hap HaB]. assert (HaA : a ∉ A) by set_solver.
  replace (A ++ a :: p :: B) with ((A ++ [a]) ++ p :: B) in Hl by by rewrite <- app_assoc.
  destruct (dll_node _ _ _ _ _ _ Hl) as (nd & Hnp & Hnx & Hpv). rewrite last_snoc in Hpv.
  apply dll_app in Hl as [HlA Hl]. rewrite last_snoc in Hl. simpl in HlA.
  destruct (dll_node _ _ A a [] _ HlA) as (nda & Hna & Hnxa & _).
  destruct Hl as [_ HlB]. unfold relink, get_prev, get_next.
  replace (A ++ a :: B) with ((A ++ [a]) ++ B) by by rewrite <- app_assoc.
  rewrite dll_app, last_snoc. destruct B as [|b B].
  - split_and!; [by eapply dll_last|done|by rewrite list_lookup_alter_ne|by intros; apply alter_static|].
    rewrite !list_lookup_alter_ne, Hnp by done. simpl. rewrite Hpv. simpl.
    rewrite (set_next_Some _ _ _ (with_next None nda)) by (by rewrite list_lookup_alter_eq, Hna).
    simpl. rewrite !list_lookup_alter_ne, Hnp by done. simpl. rewrite Hnx. simpl. f_equal.
    apply list_eq. intros i. destruct (decide (i = a)) as [->|];
      [|by rewrite !list_lookup_alter_ne]. rewrite !list_lookup_alter_eq, Hna. simpl. f_equal.
    destruct nda; simpl in *; by subst.
  - apply not_elem_of_cons in HaB as [Hab HaB], Hp as [Hpb HpB]. apply NoDup_cons in HB as [HbB _].
    destruct HlB as [(ndb & Hnb & Hpb' & Hnxb) HlB].
    assert (Hdb : dll hp (Some p) (b :: B) None) by (split; eauto).
    split_and!.
    + apply dll_alter; [set_solver|]. by eapply dll_last.
    + eapply dll_first; [done|]. apply dll_alter; [set_solver|exact Hdb].
    + by rewrite !list_lookup_alter_ne.
    + intros q. rewrite alter_static by done. by apply alter_static.
    + rewrite !list_lookup_alter_ne, Hnp by done. simpl. rewrite Hpv. simpl.
      rewrite (set_next_Some _ _ _ (with_next (Some b) nda))
        by (by rewrite list_lookup_alter_ne, list_lookup_alter_eq, Hna by done).
      simpl. rewrite !list_lookup_alter_ne, Hnp by done. simpl. rewrite Hnx. simpl.
      rewrite (set_prev_Some _ _ _ (with_prev (Some a) ndb))
        by (by rewrite list_lookup_alter_ne, list_lookup_alter_eq, list_lookup_alter_ne, Hnb by done).
      f_equal. apply list_eq. intros i. destruct (decide (i = b)) as [->|];
        [|destruct (decide (i = a)) as [->|]].
      * rewrite list_lookup_alter_eq, list_lookup_alter_ne, list_lookup_alter_eq, list_lookup_alter_ne,
          Hnb by done. simpl. f_equal. destruct ndb; simpl in *; by subst.
      * rewrite list_lookup_alter_ne, list_lookup_alter_eq, list_lookup_alter_ne, list_lookup_alter_eq,
          Hna by done. simpl. f_equal. destruct nda; simpl in *; by subst.
      * by rewrite !list_lookup_alter_ne.
Qed.

(** ** Lifting an operation *)

Lemma lift_unlink hp e m nd n :
  hp !! e = Some nd -> n_match nd = Some m -> n_next nd = Some n -> n_prev nd <> Some e ->
  n <> e ->
  lift hp e = hp' ← unlink hp e; unlink hp' m.
Proof.
  intros He Hm Hn Hpe Hne. unfold lift, unlink, get_prev, get_next, get_match. rewrite He. simpl.
  destruct (n_prev nd) as [p|] eqn:Hp; simpl; [|done].
  destruct (set_next hp p (n_next nd)) as [hp1|] eqn:E; simpl; [|done].
  assert (He1 : hp1 !! e = Some nd).
  { unfold set_next in E. go_bind E. injection E as <-.
    rewrite list_lookup_insert_ne; [done|congruence]. }
  rewrite He1. simpl. rewrite Hn. simpl. rewrite Hp.
  destruct (set_prev hp1 n (Some p)) as [hp2|] eqn:E2; simpl; [|done].
  assert (He2 : hp2 !! e = Some nd).
  { unfold set_prev in E2. go_bind E2. injection E2 as <-. by rewrite list_lookup_insert_ne. }
  rewrite He2. simpl. by rewrite Hm.
Qed.

Lemma unlift_relink hp e m nd hp' nd' n :
  hp !! e = Some nd -> n_match nd = Some m -> relink hp m = Some hp' ->
  hp' !! e = Some nd' -> n_next nd' = Some n -> n_prev nd' <> Some e ->
  unlift hp e = relink hp' e.
Proof.
  intros He Hm Hr He' Hn Hpe. unfold unlift, get_match. rewrite He. simpl. rewrite Hm. simpl.
  unfold relink in Hr. apply bind_Some in Hr as (prev & -> & Hr).
  apply bind_Some in Hr as (p & -> & Hr). apply bind_Some in Hr as (hp1 & Hhp1 & Hr). simpl.
  rewrite Hhp1. simpl. apply bind_Some in Hr as (next & -> & Hr). simpl. rewrite Hr. simpl.
  unfold relink, get_prev, get_next. rewrite He'. simpl.
  destruct (n_prev nd') as [q|]; simpl; [|done].
  destruct (set_next hp' q (Some e)) as [hp2|] eqn:E; simpl; [|done].
  assert (He2 : hp2 !! e = Some nd').
  { unfold set_next in E. go_bind E. injection E as <-.
    rewrite list_lookup_insert_ne; [done|congruence]. }
  rewrite He2. simpl. by rewrite Hn.
Qed.

(** The call [e] and its return [m] are in the list: [lift] takes both out, and [unlift]
    restores the heap. *)
Lemma lift_spec hp a X e Y m C :
  NoDup (a :: X ++ e :: Y ++ m :: C) -> dll hp None (a :: X ++ e :: Y ++ m :: C) None ->
  (exists nd, hp !! e = Some nd /\ n_match nd = Some m) ->
  exists hp', lift hp e = Some hp' /\ dll hp' None (a :: X ++ Y ++ C) None
    /\ (forall q, static <$> hp' !! q = static <$> hp !! q)
    /\ unlift hp' e = Some hp.
Proof.
  intros Hnd Hl (nd & He & Hm).
  (* the node before [e] *)
  assert (exists A' p, a :: X = A' ++ [p]) as (A' & p & HA').
  { destruct (exists_last (l:=a :: X)) as (A' & p & ?); [done|]. eauto. }
  assert (Hsplit : a :: X ++ e :: Y ++ m :: C = A' ++ p :: e :: (Y ++ m :: C)).
  { rewrite app_comm_cons, HA', <- app_assoc. done. }
  rewrite Hsplit in Hl, Hnd.
  assert (Hne : exists n, n_next nd = Some n /\ n <> e /\ n_prev nd = Some p /\ p <> e).
  { pose proof (dll_node hp None (A' ++ [p]) e (Y ++ m :: C) None) as Hnode.
    rewrite <- app_assoc in Hnode. destruct (Hnode Hl) as (nd' & He' & Hnx & Hpv).
    rewrite last_snoc in Hpv. rewrite He in He'. injection He' as <-.
    apply NoDup_app in Hnd as (_ & _ & Hnd). apply NoDup_cons in Hnd as [Hp Hnd].
    apply NoDup_cons in Hnd as [Hin _]. destruct Y as [|y Y]; simpl in Hnx; eexists;
      (split; [exact Hnx|]); set_solver. }
  destruct Hne as (n & Hn & Hne & Hpv & Hpe).
  destruct (unlink_dll hp A' p e (Y ++ m :: C) Hnd Hl) as (hp1 & Hu1 & Hl1 & He1 & Hst1 & Hr1).
  assert (exists B q, A' ++ p :: Y = B ++ [q]) as (B & q & HB).
  { destruct (exists_last (l:=A' ++ p :: Y)) as (B & q & ?); [by destruct A'|]. eauto. }
  assert (Hsplit1 : A' ++ p :: Y ++ m :: C = B ++ q :: m :: C).
  { rewrite app_comm_cons, app_assoc, HB, <- app_assoc. done. }
  assert (Hnd1 : NoDup (A' ++ p :: Y ++ m :: C)).
  { eapply sublist_NoDup; [exact Hnd|]. apply sublist_app; [done|]. by apply sublist_skip, sublist_cons. }
  rewrite Hsplit1 in Hl1, Hnd1.
  destruct (unlink_dll hp1 B q m C Hnd1 Hl1) as (hp2 & Hu2 & Hl2 & Hm2 & Hst2 & Hr2).
  exists hp2. split_and!.
  - rewrite (lift_unlink hp e m nd n) by congruence. by rewrite Hu1.
  - replace (a :: X ++ Y ++ C) with (B ++ q :: C); [done|].
    rewrite app_comm_cons, HA', <- app_assoc. simpl.
    rewrite app_comm_cons, (app_assoc A'), HB, <- app_assoc. done.
  - intros r. by rewrite Hst2.
  - assert (He2 : exists nd2, hp2 !! e = Some nd2 /\ n_match nd2 = Some m).
    { pose proof (Hst2 e) as Hs. rewrite He1, He in Hs. simpl in Hs.
      destruct (hp2 !! e) as [nd2|]; [|done]. exists nd2. split; [done|].
      injection Hs as _ Hmm _. by rewrite Hmm. }
    destruct He2 as (nd2 & He2 & Hm2'). rewrite He in He1.
    rewrite (unlift_relink hp2 e m nd2 hp1 nd n) by congruence. done.
Qed.

(** ** Building the list *)

Lemma dll_app_heap hp nd pv l nx : dll hp pv l nx -> dll (hp ++ [nd]) pv l nx.
Proof.
  revert pv. induction l as [|a l IH]; intros pv; simpl; [done|].
  intros [(n & Hn & ?) Hl]. split; [|auto]. exists n. by rewrite (lookup_app_l_Some _ _ _ _ Hn).
Qed.

Lemma dll_fresh hp pv l nx : dll hp pv l nx -> length hp ∉ l.
Proof.
  revert pv. induction l as [|a l IH]; intros pv; simpl; [set_solver|].
  intros [(n & Hn%lookup_lt_Some & _) Hl]. apply not_elem_of_cons. split; [lia|eauto].
Qed.

(** [insertBefore(n, root)] for a new node [n]. *)
Lemma insertBefore_first hp l v mt id :
  NoDup l -> dll hp None l None ->
  let '(hp1, n) := new hp (mkNode v mt id None None) in
  exists hp', insertBefore hp1 n (first l None) = Some hp' /\ dll hp' None (n :: l) None
    /\ length hp' = S (length hp)
    /\ forall q, static <$> hp' !! q = static <$> hp1 !! q.
Proof.
  intros Hnd Hl. unfold new. pose proof (dll_fresh _ _ _ _ Hl) as Hf.
  set (nd := mkNode v mt id None None). set (n := length hp). set (hp1 := hp ++ [nd]).
  assert (Hn : hp1 !! n = Some nd) by (apply list_lookup_middle; done).
  apply (dll_app_heap _ nd) in Hl. fold hp1 in Hl.
  assert (Hlen : length hp1 = S (length hp)) by (unfold hp1; rewrite length_app; simpl; lia).
  destruct l as [|b l]; simpl.
  { exists hp1. split_and!; try done. exists nd. done. }
  apply not_elem_of_cons in Hf as [Hnb Hnl]. fold n in Hnb, Hnl.
  pose proof Hl as [(ndb & Hb & Hpb & Hnxb) Hl']. unfold get_prev. rewrite Hb. simpl. rewrite Hpb.
  rewrite (set_prev_Some _ _ _ _ Hb). simpl.
  rewrite (set_next_Some _ _ _ nd) by (by rewrite list_lookup_alter_ne).
  eexists. split; [done|]. apply NoDup_cons in Hnd as [Hbl _]. split_and!.
  - exists (with_next (Some b) nd).
    by rewrite list_lookup_alter_eq, list_lookup_alter_ne, Hn by done.
  - exists (with_prev (Some n) ndb).
    by rewrite list_lookup_alter_ne, list_lookup_alter_eq, Hb by done.
  - apply dll_alter; [done|]. by apply dll_alter.
  - by rewrite !length_alter.
  - intros q. by rewrite !alter_static.
Qed.

(** The nodes of [n] entries in order: the last entry was linked first. *)
Definition addrs (n : nat) : list nat := reverse (seq 0 n).

Lemma addrs_S n : addrs (S n) = n :: addrs n.
Proof. unfold addrs. by rewrite seq_S, reverse_snoc. Qed.

Lemma addrs_NoDup n : NoDup (addrs n).
Proof. unfold addrs. rewrite reverse_Permutation. apply NoDup_seq. Qed.

Lemma elem_of_addrs n a : a ∈ addrs n <-> (a < n)%nat.
Proof. unfold addrs. rewrite elem_of_reverse, elem_of_seq. lia. Qed.

(** The node of an entry, given the entries [pr] that were linked so far, last entry first. *)
Definition node_for (pr : list (entry In Out)) (a : nat) (e : entry In Out) nd : Prop :=
  n_value nd = Some (en_value e) /\ n_id nd = en_id e
  /\ match en_kind e with
     | returnEntry => n_match nd = None
     | callEntry => forall b r, (b < a)%nat -> pr !! b = Some r ->
         en_kind r = returnEntry -> en_id r = en_id e -> n_match nd = Some b
     end.

Definition linked (pr : list (entry In Out)) hp (mt : gmap Z nat) : Prop :=
  length hp = length pr /\ dll hp None (addrs (length pr)) None
  /\ (forall a e, pr !! a = Some e -> exists nd, hp !! a = Some nd /\ node_for pr a e nd)
  /\ forall b r, pr !! b = Some r -> en_kind r = returnEntry -> mt !! en_id r = Some b.

(** No two returns have the same id. *)
Definition returns_unique (l : list (entry In Out)) : Prop :=
  forall a b x y, l !! a = Some x -> l !! b = Some y ->
    en_kind x = returnEntry -> en_kind y = returnEntry -> en_id x = en_id y -> a = b.

Lemma linked_snoc pr hp mt e v hp' :
  linked pr hp mt -> returns_unique (pr ++ [e]) ->
  v = match en_kind e with returnEntry => None | callEntry => mt !! en_id e end ->
  length hp' = S (length hp) -> dll hp' None (length hp :: addrs (length pr)) None ->
  (forall q, static <$> hp' !! q
     = static <$> (hp ++ [mkNode (Some (en_value e)) v (en_id e) None None]) !! q) ->
  linked (pr ++ [e]) hp'
    (match en_kind e with returnEntry => <[en_id e := length hp]> mt | callEntry => mt end).
Proof.
  intros (Hlen & _ & Hnodes & Hmt) Hun -> Hlen' Hdll Hst. unfold linked.
  rewrite length_app, Nat.add_1_r. split; [lia|]. split; [by rewrite addrs_S, <- Hlen at 1|]. split.
  - intros a x Hx. specialize (Hst a). apply lookup_app_Some in Hx as [Hx|[Ha Hx]].
    + destruct (Hnodes a x Hx) as (nd & Hnd & Hv & Hi & Hk).
      rewrite (lookup_app_l_Some _ _ _ _ Hnd) in Hst. simpl in Hst.
      destruct (hp' !! a) as [nd'|]; [|done]. injection Hst as Hv' Hm' Hi'.
      exists nd'. split; [done|]. split_and!; [congruence|congruence|].
      destruct (en_kind x); [|congruence]. intros b r Hb Hr. rewrite Hm'. apply Hk; [done|].
      by rewrite lookup_app_l in Hr by (apply lookup_lt_Some in Hx; lia).
    + apply list_lookup_singleton_Some in Hx as [Ha' <-].
      assert (a = length hp) as -> by lia. rewrite list_lookup_middle in Hst by done. simpl in Hst.
      destruct (hp' !! length hp) as [nd'|]; [|done]. injection Hst as Hv' Hm' Hi'.
      exists nd'. split; [done|]. split_and!; [done|done|].
      destruct (en_kind e); [|done]. intros b r Hb Hr Hk Hid. rewrite Hm', <- Hid.
      rewrite lookup_app_l in Hr by lia. by apply Hmt.
  - intros b r Hr Hk. apply lookup_app_Some in Hr as [Hr|[Hb Hr]].
    + destruct (en_kind e) eqn:E; [by apply Hmt|]. rewrite lookup_insert_ne; [by apply Hmt|].
      intros Heq. assert (b = length pr); [|apply lookup_lt_Some in Hr; lia].
      eapply (Hun b (length pr) r e); try done; [by apply lookup_app_l_Some|by apply list_lookup_middle].
    + apply list_lookup_singleton_Some in Hr as [Hb' <-]. rewrite Hk, lookup_insert_eq. f_equal. lia.
Qed.

Lemma link_entries_spec rest pr hp mt :
  returns_unique (pr ++ rest) -> linked pr hp mt ->
  exists hp' mt', link_entries rest hp (first (addrs (length pr)) None) mt
      = Some (hp', first (addrs (length (pr ++ rest))) None)
    /\ linked (pr ++ rest) hp' mt'.
Proof.
  revert pr hp mt. induction rest as [|e rest IH]; intros pr hp mt Hun Hl.
  { rewrite app_nil_r. simpl. eauto. }
  replace (pr ++ e :: rest) with ((pr ++ [e]) ++ rest) in * by by rewrite <- app_assoc.
  assert (Hun1 : returns_unique (pr ++ [e])).
  { intros a b x y Ha Hb. apply Hun; by apply lookup_app_l_Some. }
  pose proof Hl as (Hlen & Hd & _). set (v := match en_kind e with returnEntry => None | callEntry => mt !! en_id e end).
  pose proof (insertBefore_first hp _ (Some (en_value e)) v (en_id e) (addrs_NoDup _) Hd)
    as (hp' & Hins & Hd' & Hlen' & Hst).
  pose proof (linked_snoc pr hp mt e v hp' Hl Hun1 eq_refl Hlen' Hd' Hst) as Hl'.
  assert (Hroot : Some (length hp) = first (addrs (length (pr ++ [e]))) None).
  { rewrite length_app, Nat.add_1_r, addrs_S. simpl. by rewrite Hlen. }
  destruct (IH _ _ _ Hun Hl') as (hp2 & mt2 & Hr & Hl2). exists hp2, mt2. split; [|done].
  rewrite <- Hr, <- Hroot. simpl. unfold new, v in *.
  destruct (en_kind e); rewrite Hins; done.
Qed.

(** The list that [makeLinkedEntries] builds; entry [a] from the end is node [a]. *)
Lemma makeLinkedEntries_spec (h : list (entry In Out)) :
  returns_unique (reverse h) ->
  exists hp mt, makeLinkedEntries h = Some (hp, first (addrs (length h)) None)
    /\ linked (reverse h) hp mt.
Proof.
  intros Hun. destruct (link_entries_spec (reverse h) [] [] ∅) as (hp & mt & Hr & Hl); [done| |].
  - split; [done|]. split; [done|]. split; [intros a e Ha|intros b r Hb]; done.
  - exists hp, mt. simpl in Hr. rewrite length_reverse in Hr. done.
Qed.

Lemma node_length_spec hp pv l fuel :
  dll hp pv l None -> (length l <= fuel)%nat -> node_length fuel hp (first l None) = Some (zlen l).
Proof.
  revert pv fuel. induction l as [|a l IH]; intros pv fuel Hl Hf; simpl; [by destruct fuel|].
  destruct Hl as [(nd & Hnd & _ & Hnx) Hl]. simpl in Hf. destruct fuel as [|fuel]; [lia|]. simpl.
  unfold get_next. rewrite Hnd. simpl. rewrite Hnx, (IH (Some a)) by (done || lia). simpl.
  rewrite zlen_cons. f_equal. lia.
Qed.
End PorcList.
