(* ===== verification/PorcLin.v ===== *)
(** * Linearizations

    The order in which the search linearizes the operations of a history ([Lin]: again and
    again an operation that no other has to precede), and the definition of a linearization: an
    order of all operations that respects real time and that the model can execute. *)

From S2P Require Import Prelude Porcupine.
Import Porcupine.

(** ** Pairs in a list *)

Lemma pair_sublist_elem {A} (x y : A) l : [x; y] `sublist_of` l -> x ∈ l /\ y ∈ l.
Proof. intros Hs%sublist_subseteq. split; apply Hs; set_solver. Qed.

Lemma pair_sublist_app {A} (X Y : list A) x y : x ∈ X -> y ∈ Y -> [x; y] `sublist_of` X ++ Y.
Proof.
  intros Hx Hy. apply (sublist_app [x] X [y] Y); by apply singleton_sublist_l.
Qed.

Lemma pair_sublist_cons {A} (x y z : A) l :
  [x; y] `sublist_of` z :: l <-> [x; y] `sublist_of` l \/ x = z /\ y ∈ l.
Proof.
  rewrite sublist_cons_r. split.
  - intros [?|(l' & [= -> <-] & Hl')]; [by left|right]. split; [done|].
    by apply singleton_sublist_l in Hl'.
  - intros [?|[-> Hy]]; [by left|right]. exists [y]. split; [done|]. by apply singleton_sublist_l.
Qed.

Lemma pair_sublist_lookup {A} (l : list A) x y :
  [x; y] `sublist_of` l <-> exists p q, (p < q)%nat /\ l !! p = Some x /\ l !! q = Some y.
Proof.
  induction l as [|z l IH].
  { split; [by intros ?%sublist_nil_r|]. by intros (p & q & _ & ? & _). }
  rewrite pair_sublist_cons, IH. split.
  - intros [(p & q & ? & ? & ?)|[-> (q & Hq)%list_elem_of_lookup]].
    + exists (S p), (S q). split; [lia|done].
    + exists 0%nat, (S q). split; [lia|done].
  - intros ([|p] & [|q] & ? & Hp & Hq); try lia; simplify_eq/=.
    + right. split; [done|]. by eapply list_elem_of_lookup_2.
    + left. exists p, q. split; [lia|done].
Qed.

(** What comes before an element that occurs once. *)
Lemma pair_sublist_before {A} (X Y : list A) x y :
  NoDup (X ++ y :: Y) -> [x; y] `sublist_of` X ++ y :: Y -> x ∈ X.
Proof.
  induction X as [|z X IH]; simpl; intros Hnd Hs; apply NoDup_cons in Hnd as [Hz Hnd];
    apply pair_sublist_cons in Hs as [Hs|[-> Hy]].
  - apply pair_sublist_elem in Hs as [_ ?]. done.
  - done.
  - right. auto.
  - left.
Qed.

Lemma pair_sublist_after {A} (X Y : list A) x y :
  NoDup (X ++ x :: Y) -> [x; y] `sublist_of` X ++ x :: Y -> y ∈ Y.
Proof.
  induction X as [|z X IH]; simpl; intros Hnd Hs; apply NoDup_cons in Hnd as [Hz Hnd];
    apply pair_sublist_cons in Hs as [Hs|[Hx Hy]]; auto.
  - by apply pair_sublist_elem in Hs as [_ ?].
  - subst z. set_solver.
Qed.

Lemma filter_all {A} (P : A -> Prop) `{!forall x, Decision (P x)} l : Forall P l -> filter P l = l.
Proof. induction 1; [done|]. rewrite filter_cons_True by done. by f_equal. Qed.

Lemma pair_sublist_total {A} (l : list A) x y :
  x ∈ l -> y ∈ l -> x <> y -> [x; y] `sublist_of` l \/ [y; x] `sublist_of` l.
Proof.
  induction l as [|z l IH]; intros Hx Hy Hne; [set_solver|]. rewrite !pair_sublist_cons.
  apply elem_of_cons in Hx, Hy. destruct Hx as [->|Hx], Hy as [->|Hy]; try done; [naive_solver..|].
  destruct (IH Hx Hy Hne); auto.
Qed.

Lemma pair_sublist_filter {A} (P : A -> Prop) `{!forall x, Decision (P x)} l x y :
  [x; y] `sublist_of` filter P l <-> [x; y] `sublist_of` l /\ P x /\ P y.
Proof.
  split.
  - intros Hs. pose proof (pair_sublist_elem _ _ _ Hs) as [[? _]%list_elem_of_filter [? _]%list_elem_of_filter].
    split; [|done]. etrans; [exact Hs|]. apply sublist_filter.
  - intros (Hs & Hx & Hy). induction l as [|z l IH]; [by apply sublist_nil_r in Hs|].
    rewrite filter_cons. apply pair_sublist_cons in Hs as [Hs|[-> Hin]].
    + destruct (decide (P z)); [apply sublist_cons|]; auto.
    + rewrite decide_True by done. apply pair_sublist_cons. right. split; [done|].
      by apply list_elem_of_filter.
Qed.

Lemma pair_sublist_fmap {A B} (f : A -> B) l x y :
  [x; y] `sublist_of` f <$> l -> exists a b, [a; b] `sublist_of` l /\ x = f a /\ y = f b.
Proof.
  induction l as [|z l IH]; simpl; intros Hs; [by apply sublist_nil_r in Hs|].
  apply pair_sublist_cons in Hs as [Hs|[-> Hy]].
  - destruct (IH Hs) as (a & b & ? & -> & ->). exists a, b. split; [by apply sublist_cons|done].
  - apply list_elem_of_fmap in Hy as (b & -> & Hb). exists z, b. split; [|done].
    apply pair_sublist_cons. by right.
Qed.

Lemma StronglySorted_pair {A} (Rel : relation A) l x y :
  StronglySorted Rel l -> [x; y] `sublist_of` l -> Rel x y.
Proof.
  induction 1 as [|z l _ IH Hz]; intros Hs; [by apply sublist_nil_r in Hs|].
  apply pair_sublist_cons in Hs as [?|[-> Hy]]; [auto|]. by eapply Forall_forall in Hz.
Qed.

Section PorcLin.
(** The items of a history are calls and returns of numbered operations. *)
Context {A State : Type} `{!EqDecision A} (kind : A -> entryKind) (idf : A -> Z).
(** [stepi s i]: the state after operation [i], if its output is right. *)
Context (stepi : State -> Z -> option State).
Implicit Types (l X Y : list A) (x y : A).

(** Operation [j] has returned before [i] is called. *)
Definition prec l (j i : Z) : Prop :=
  exists x y, [x; y] `sublist_of` l /\ kind x = returnEntry /\ idf x = j
    /\ kind y = callEntry /\ idf y = i.

Definition called l (i : Z) : Prop := exists x, x ∈ l /\ kind x = callEntry /\ idf x = i.

Definition remove l (i : Z) : list A := filter (fun x => idf x <> i) l.

Inductive Lin : list A -> State -> list Z -> Prop :=
  | Lin_nil s : Lin [] s []
  | Lin_cons l s i s' order :
      called l i -> (forall j, ~ prec l j i) -> stepi s i = Some s' ->
      Lin (remove l i) s' order -> Lin l s (i :: order).

Fixpoint legal (s : State) (order : list Z) : Prop :=
  match order with
  | [] => True
  | i :: order => exists s', stepi s i = Some s' /\ legal s' order
  end.

(** An order of the operations that respects real time and that the model can execute. *)
Record linearization l (s : State) (order : list Z) : Prop := {
  ln_nodup : NoDup order;
  ln_all : forall i, i ∈ order <-> called l i;
  ln_realtime : forall i j, [i; j] `sublist_of` order -> ~ prec l j i;
  ln_legal : legal s order;
}.

(** Every call has its return behind it and conversely. *)
Record history_wf l : Prop := {
  hw_nodup : NoDup l;
  hw_unique : forall x y, x ∈ l -> y ∈ l -> kind x = kind y -> idf x = idf y -> x = y;
  hw_call : forall x, x ∈ l -> kind x = callEntry ->
              exists y, [x; y] `sublist_of` l /\ kind y = returnEntry /\ idf y = idf x;
  hw_return : forall y, y ∈ l -> kind y = returnEntry -> called l (idf y);
}.

Lemma elem_of_remove l i x : x ∈ remove l i <-> idf x <> i /\ x ∈ l.
Proof. unfold remove. by rewrite list_elem_of_filter. Qed.

(** Leaving out whole operations. *)
Lemma filter_wf (P : Z -> Prop) `{!forall i, Decision (P i)} l :
  history_wf l -> history_wf (filter (fun x => P (idf x)) l).
Proof.
  intros [Hnd Hun Hc Hr]. constructor.
  - by apply NoDup_filter.
  - intros x y [_ Hx]%list_elem_of_filter [_ Hy]%list_elem_of_filter. by apply Hun.
  - intros x [HP Hx]%list_elem_of_filter Hk. destruct (Hc x Hx Hk) as (y & Hs & Hy & Hid).
    exists y. split; [|done]. apply pair_sublist_filter. split; [done|]. by rewrite Hid.
  - intros y [HP Hy]%list_elem_of_filter Hk. destruct (Hr y Hy Hk) as (x & Hx & Hkx & Hid).
    exists x. split; [|done]. apply list_elem_of_filter. by rewrite Hid.
Qed.

Lemma remove_wf l i : history_wf l -> history_wf (remove l i).
Proof. exact (filter_wf (fun j => j <> i) l). Qed.

Lemma prec_remove l i j k : prec (remove l i) j k <-> prec l j k /\ j <> i /\ k <> i.
Proof.
  split.
  - intros (x & y & (Hs & ? & ?)%pair_sublist_filter & ? & <- & ? & <-). split; [|done].
    exists x, y. done.
  - intros ((x & y & Hs & ? & <- & ? & <-) & ? & ?). exists x, y. split; [|done].
    by apply pair_sublist_filter.
Qed.

Lemma called_remove l i j : called (remove l i) j <-> called l j /\ j <> i.
Proof.
  split; [intros (x & [? ?]%elem_of_remove & ? & <-); split; [by exists x|done]|].
  intros ((x & ? & ? & <-) & ?). exists x. by rewrite elem_of_remove.
Qed.

Lemma prec_irrefl l i : history_wf l -> ~ prec l i i.
Proof.
  intros [Hnd Hun Hc _] (x & y & Hs & Hkx & Hx & Hky & Hy).
  destruct (pair_sublist_elem _ _ _ Hs) as [Hxl Hyl].
  destruct (Hc y Hyl Hky) as (z & Hs' & Hkz & Hz). destruct (pair_sublist_elem _ _ _ Hs') as [_ Hzl].
  assert (z = x) as -> by (apply Hun; congruence).
  apply list_elem_of_split in Hyl as (X & Y & ->).
  pose proof (pair_sublist_before X Y x y Hnd Hs) as HxX.
  apply list_elem_of_split in HxX as (X1 & X2 & ->).
  rewrite <- !app_assoc in Hs', Hnd. simpl in Hs', Hnd.
  pose proof (pair_sublist_before X1 (X2 ++ y :: Y) y x Hnd Hs') as HyX.
  apply NoDup_app in Hnd as (_ & Hd & _). specialize (Hd y HyX). set_solver.
Qed.

Lemma Lin_linearization l s order : Lin l s order -> linearization l s order.
Proof.
  induction 1 as [s|l s i s' order Hc Hp Hst _ [Hnd Hall Hrt Hleg]].
  - constructor; [constructor| | |done].
    + intros i. split; [set_solver|]. intros (x & Hx & _). set_solver.
    + intros i j Hs. by apply sublist_nil_r in Hs.
  - assert (Hi : i ∉ order) by (rewrite Hall, called_remove; tauto). constructor.
    + by constructor.
    + intros j. rewrite elem_of_cons, Hall, called_remove.
      destruct (decide (j = i)) as [->|]; [tauto|naive_solver].
    + intros a b [Hs|[-> Hb]]%pair_sublist_cons; [|apply Hp]. intros Hpr.
      apply (Hrt a b Hs). apply prec_remove. destruct (pair_sublist_elem _ _ _ Hs).
      split; [done|]. set_solver.
    + simpl. eauto.
Qed.

Lemma linearization_Lin l s order : history_wf l -> linearization l s order -> Lin l s order.
Proof.
  revert l s. induction order as [|i order IH]; intros l s Hwf [Hnd Hall Hrt Hleg].
  - destruct l as [|x l]; [constructor|exfalso].
    assert (called (x :: l) (idf x)) as Hc; [|apply Hall in Hc; set_solver].
    destruct (kind x) eqn:Hk; [by exists x; split; [left|]|].
    apply (hw_return _ Hwf); [left|done].
  - apply NoDup_cons in Hnd as [Hi Hnd]. destruct Hleg as (s' & Hst & Hleg).
    econstructor; [|intros j Hp|exact Hst|apply IH; [by apply remove_wf|constructor]]; try done.
    + apply Hall. left.
    + assert (Hj : j ∈ i :: order).
      { apply Hall. destruct Hp as (x & y & Hs & Hk & <- & _).
        apply (hw_return _ Hwf); [|done]. by apply pair_sublist_elem in Hs as [? _]. }
      apply elem_of_cons in Hj as [->|Hj]; [by eapply prec_irrefl|].
      apply (Hrt i j); [|done]. apply pair_sublist_cons. by right.
    + intros j. rewrite called_remove, <- Hall, elem_of_cons.
      destruct (decide (j = i)) as [->|]; naive_solver.
    + intros a b Hs Hp. apply prec_remove in Hp as (Hp & _). apply (Hrt a b); [|done].
      apply pair_sublist_cons. by left.
Qed.

(** ** The candidates for the first place *)

Lemma no_prec X x Y :
  history_wf (X ++ x :: Y) -> Forall (fun z => kind z = callEntry) X -> kind x = callEntry ->
  forall j, ~ prec (X ++ x :: Y) j (idf x).
Proof.
  intros [Hnd Hun _ _] HX Hk j (r & y & Hs & Hkr & _ & Hky & Hid).
  destruct (pair_sublist_elem _ _ _ Hs) as [_ Hy].
  assert (y = x) as -> by (apply Hun; [done|set_solver|congruence|done]).
  pose proof (pair_sublist_before X Y r x Hnd Hs) as Hr.
  eapply Forall_forall in HX; [|exact Hr]. congruence.
Qed.

(** Only a call in front of the first return can come first. *)
Lemma Lin_first X y Y s i order :
  kind y = returnEntry -> Lin (X ++ y :: Y) s (i :: order) ->
  exists x, x ∈ X /\ kind x = callEntry /\ idf x = i.
Proof.
  intros Hk Hl. inversion Hl as [|? ? ? ? ? (x & Hx & Hkx & Hid) Hp]; subst.
  exists x. split; [|done]. apply elem_of_app in Hx as [?|Hx]; [done|exfalso].
  apply elem_of_cons in Hx as [->|Hx]; [congruence|].
  apply (Hp (idf y)). exists y, x. split; [|done].
  apply sublist_inserts_l. apply pair_sublist_cons. by right.
Qed.

(** No linearization starts with one of the calls of [X]. *)
Definition failed l (s : State) (i : Z) : Prop :=
  forall s' order, stepi s i = Some s' -> ~ Lin (remove l i) s' order.

Lemma failed_all X y Y s order :
  kind y = returnEntry -> Forall (fun x => failed (X ++ y :: Y) s (idf x)) X ->
  ~ Lin (X ++ y :: Y) s order.
Proof.
  intros Hk HX Hl. destruct order as [|i order]; [inversion Hl; by destruct X|].
  destruct (Lin_first _ _ _ _ _ _ Hk Hl) as (x & Hx & _ & Hid).
  eapply Forall_forall in HX; [|exact Hx]. inversion Hl; subst. by eapply HX.
Qed.
End PorcLin.
