(* ===== verification/PorcSearch.v ===== *)
(** * The search of the linearizability checker

    The loop of [checkSingle] explores the linearizations of the operations that are left in
    the list.  [explore] says what it does with them: it finds a linearization and stops, or
    there is none and it comes back to where it started, having remembered only hopeless
    states.  The number of iterations is bounded. *)

From S2P Require Import Prelude Porcupine PorcBitset PorcList PorcLin.
Import Porcupine.

Section PorcSearch.
Context {In Out State : Type} `{!EqDecision State}.
Context (model : Model In Out State) (eqv : State -> State -> bool).
Context (Heq : Equal model = Some eqv) (Heqv : forall s s', eqv s s' = true -> s = s').
(** The nodes of the history, what they stand for, and the sentinel. *)
Context (A0 : list nat) (kind : nat -> entryKind) (idf : nat -> Z) (n : Z) (head : nat).
Context (stepi : State -> Z -> option State) (cp : bool).
Context (Hwf : history_wf kind idf A0) (Hids : forall a, a ∈ A0 -> 0 <= idf a < n).
Context (Hhead : head ∉ A0).
Implicit Types (hp : list (node In Out)) (L : gset Z) (s : search In Out State).

Notation Lin := (Lin kind idf stepi).
Notation loop := (check_loop model cp (fun _ => false) head).

(** The nodes of [hp] carry the calls and returns. *)
Definition sound hp : Prop :=
  forall a, a ∈ A0 -> exists nd, hp !! a = Some nd /\ n_id nd = idf a
    /\ match kind a with
       | returnEntry => n_match nd = None
       | callEntry => exists m ndm v w, n_match nd = Some m /\ [a; m] `sublist_of` A0
           /\ kind m = returnEntry /\ idf m = idf a /\ hp !! m = Some ndm
           /\ n_value nd = Some (inl v) /\ n_value ndm = Some (inr w)
           /\ forall st, stepi st (idf a)
                = let '(ok, st') := Step model st v w in if (ok : bool) then Some st' else None
       end.

Lemma sound_static hp hp' :
  (forall q, static <$> hp' !! q = static <$> hp !! q) -> sound hp -> sound hp'.
Proof.
  intros Hst Hs a Ha. destruct (Hs a Ha) as (nd & Hnd & Hid & Hk). pose proof (Hst a) as Hsa.
  rewrite Hnd in Hsa. destruct (hp' !! a) as [nd'|]; [|done]. injection Hsa as Hv' Hm' Hi'.
  exists nd'. split; [done|]. split; [congruence|]. destruct (kind a); [|congruence].
  destruct Hk as (m & ndm & v & w & ? & ? & ? & ? & Hndm & ? & ? & ?). pose proof (Hst m) as Hsm.
  rewrite Hndm in Hsm. destruct (hp' !! m) as [ndm'|] eqn:E; [|done]. injection Hsm as Hvm' _ _.
  exists m, ndm', v, w. rewrite E. split_and!; (done || congruence).
Qed.

(** The operations that are left when those of [L] are linearized. *)
Definition R L : list nat := filter (fun a => idf a ∉ L) A0.

Lemma R_wf L : history_wf kind idf (R L).
Proof. exact (filter_wf kind idf (fun i => i ∉ L) A0 Hwf). Qed.

Lemma R_add L i : R ({[i]} ∪ L) = remove idf (R L) i.
Proof.
  unfold R, remove. rewrite list_filter_filter. apply list_filter_iff. intros a. set_solver.
Qed.

Lemma R_sub L a : a ∈ R L -> a ∈ A0 /\ idf a ∉ L.
Proof. unfold R. rewrite list_elem_of_filter. tauto. Qed.

Lemma head_R L : NoDup (head :: R L).
Proof. constructor; [intros [? _]%R_sub; done|]. apply NoDup_filter, Hwf. Qed.

(** The call [a] and its return [m] in what is left. *)
Lemma R_split L a m X Y :
  R L = X ++ a :: Y -> kind a = callEntry -> kind m = returnEntry -> idf m = idf a ->
  [a; m] `sublist_of` A0 ->
  exists Y1 Y2, Y = Y1 ++ m :: Y2 /\ R ({[idf a]} ∪ L) = X ++ Y1 ++ Y2.
Proof.
  intros HR Ha Hm Hid Hs. pose proof (R_wf L) as Hw. pose proof (hw_nodup _ _ _ Hw) as Hnd.
  assert (HaR : a ∈ R L) by (rewrite HR; set_solver).
  destruct (R_sub _ _ HaR) as [_ HaL].
  assert (Hs' : [a; m] `sublist_of` R L).
  { apply pair_sublist_filter. split; [done|]. by rewrite Hid. }
  assert (HmY : m ∈ Y) by (rewrite HR in Hs', Hnd; by eapply pair_sublist_after).
  apply list_elem_of_split in HmY as (Y1 & Y2 & ->). exists Y1, Y2. split; [done|].
  rewrite R_add. unfold remove.
  assert (Hp : X ++ a :: Y1 ++ m :: Y2 ≡ₚ a :: m :: X ++ Y1 ++ Y2).
  { rewrite <- Permutation_middle. f_equiv. rewrite app_assoc, <- Permutation_middle.
    by rewrite <- app_assoc. }
  rewrite HR, Hp in Hnd. apply NoDup_cons in Hnd as [Hna Hnd]. apply NoDup_cons in Hnd as [Hnm _].
  assert (Hoth : Forall (fun x => idf x <> idf a) (X ++ Y1 ++ Y2)).
  { apply Forall_forall. intros x Hx Hidx. assert (HxR : x ∈ R L) by (rewrite HR; set_solver).
    destruct (kind x) eqn:Hk.
    - assert (x = a) as -> by (apply (hw_unique _ _ _ Hw); congruence). set_solver.
    - assert (x = m) as -> by (apply (hw_unique _ _ _ Hw); [|rewrite HR|..]; (congruence || set_solver)).
      set_solver. }
  rewrite !Forall_app in Hoth. destruct Hoth as (HX & HY1 & HY2).
  rewrite HR, filter_app, filter_cons_False, filter_app, filter_cons_False by tauto.
  by rewrite !filter_all.
Qed.

(** ** [longest] *)

Definition longest_ok (seqs : list (list Z)) (longest : list (option nat)) : Prop :=
  zlen longest = n /\ forall q, Some q ∈ longest -> (q < length seqs)%nat.

Definition calls_ok (calls : list (callsEntry State)) : Prop :=
  Forall (fun v => ca_entry v ∈ A0) calls.

Lemma call_ids_spec hp calls :
  sound hp -> calls_ok calls -> call_ids hp calls = Some ((fun v => idf (ca_entry v)) <$> calls).
Proof.
  intros Hs Hc. unfold call_ids. apply mapM_Some. apply Forall2_fmap_r, Forall_Forall2_diag.
  eapply Forall_impl; [exact Hc|]. intros v Hv. simpl. destruct (Hs _ Hv) as (nd & -> & <- & _). done.
Qed.

Lemma update_longest_spec hp calls todo seq seqs longest :
  sound hp -> calls_ok calls -> calls_ok todo -> longest_ok seqs longest ->
  (forall q, seq = Some q -> (q < length seqs)%nat) ->
  exists seqs' longest', update_longest hp calls todo seq seqs longest = Some (seqs', longest')
    /\ longest_ok seqs' longest'.
Proof.
  intros Hs Hc Ht. unfold calls_ok in Ht. revert seq seqs longest.
  induction Ht as [|v todo Hv _ IH];
    intros seq seqs longest Hok Hseq; simpl; [eauto|]. pose proof Hok as [Hlen Hq].
  destruct (Hs _ Hv) as (nd & -> & Hid & _). simpl. rewrite Hid. pose proof (Hids _ Hv).
  destruct (slice_get_total longest (idf (ca_entry v))) as [old Hold]; [lia|]. rewrite Hold. simpl.
  assert (Hoq : forall q, old = Some q -> (q < length seqs)%nat).
  { intros q ->. apply Hq. apply slice_get_Some in Hold as [_ Hold]. by eapply list_elem_of_lookup_2. }
  assert (exists b : bool, (match old with None => Some true
            | Some q => l ← seqs !! q; Some (zlen l <? zlen calls) end) = Some b) as (b & ->).
  { destruct old as [q|]; [|eauto]. destruct (lookup_lt_is_Some_2 seqs q) as [l ->]; simpl; eauto. }
  simpl. destruct b; [|by apply IH].
  rewrite (call_ids_spec hp calls Hs Hc).
  assert (Hins : forall q seqs', (length seqs <= length seqs')%nat -> (q < length seqs')%nat ->
            longest_ok seqs' (<[Z.to_nat (idf (ca_entry v)):=Some q]> longest)).
  { intros q seqs' Hle Hlt. split; [by rewrite zlen_insert|].
    intros q' Hq'. apply list_elem_of_lookup in Hq' as (k & Hk).
    apply list_lookup_insert_Some in Hk as [(_ & [= <-] & _)|[_ Hk]]; [done|].
    apply list_elem_of_lookup_2, Hq in Hk. lia. }
  destruct seq as [q|]; simpl; rewrite slice_set_Some by lia; simpl; (apply IH; [apply Hins|]);
    rewrite ?length_app; simpl; try (intros ? [= <-]); auto; lia.
Qed.

(** ** The cache *)

Definition in_cache (cache : gmap Z (list (cacheEntry State))) (x : cacheEntry State) : Prop :=
  exists h, x ∈ default [] (cache !! h).

(** A state from which the rest of the history cannot be linearized. *)
Definition dead (x : cacheEntry State) : Prop :=
  exists L, denotes n (ce_linearized x) L /\ forall order, ~ Lin (R L) (ce_state x) order.

Definition cache_ok cache (k : nat) : Prop :=
  forall x, in_cache cache x ->
    dead x \/ exists L, denotes n (ce_linearized x) L /\ (size L <= k)%nat.

Definition cache_post cache cache' : Prop :=
  forall x, in_cache cache' x -> in_cache cache x \/ dead x.

Lemma cache_post_ok cache cache' k : cache_post cache cache' -> cache_ok cache k -> cache_ok cache' k.
Proof. intros Hp Hc x [?|?]%Hp; auto. Qed.

Lemma in_cache_insert cache h x y :
  in_cache (<[h := default [] (cache !! h) ++ [x]]> cache) y -> in_cache cache y \/ y = x.
Proof.
  intros (h' & Hy). destruct (decide (h' = h)) as [->|];
    [|rewrite lookup_insert_ne in Hy by done; left; by exists h'].
  rewrite lookup_insert_eq in Hy. simpl in Hy. apply elem_of_app in Hy as [Hy|Hy].
  - left. by exists h.
  - right. set_solver.
Qed.

Lemma cacheContains_spec cache x :
  exists b, cacheContains model cache x = Some b /\ (b = true -> in_cache cache x).
Proof.
  assert (Hscan : forall elems, exists b, cache_scan model elems x = Some b /\ (b = true -> x ∈ elems)).
  { induction elems as [|y elems (b & IH & IHb)]; simpl; [by exists false|].
    unfold call_Equal. rewrite Heq. simpl. destruct (equals _ _) eqn:E1; [|exists b; set_solver].
    destruct (eqv _ _) eqn:E2; [|exists b; set_solver]. exists true. split; [done|]. intros _.
    apply equals_eq in E1. apply Heqv in E2. destruct x, y; simpl in *. subst. left. }
  destruct (Hscan (default [] (cache !! hash (ce_linearized x)))) as (b & Hb & Hin).
  exists b. split; [done|]. intros Hbt. eexists. by apply Hin.
Qed.

(** A cached state that is larger than those on the way to it is dead. *)
Lemma cache_hit cache L b L' st :
  cache_ok cache (size L) -> in_cache cache (mkCacheEntry b st) ->
  denotes n b L' -> (size L < size L')%nat -> forall order, ~ Lin (R L') st order.
Proof.
  intros Hc [(L1 & Hd & Hno)|(L1 & Hd & Hsz)]%Hc Hd' Hlt; simpl in *;
    rewrite (denotes_inj _ _ _ _ Hd Hd') in *; [done|lia].
Qed.

(** ** Single iterations *)

Definition reaches (k : nat) s s' : Prop :=
  forall fuel it, loop (k + fuel) it s = loop fuel (k + it) s'.

Lemma reaches_refl s : reaches 0 s s.
Proof. intros fuel it. done. Qed.

Lemma reaches_trans k1 k2 s s1 s2 : reaches k1 s s1 -> reaches k2 s1 s2 -> reaches (k1 + k2) s s2.
Proof.
  intros H1 H2 fuel it. rewrite <- Nat.add_assoc, H1, H2. f_equal. lia.
Qed.

Record frame s L : Prop := {
  fr_sound : sound (s_heap s);
  fr_list : dll (s_heap s) None (head :: R L) None;
  fr_bits : denotes n (s_linearized s) L;
  fr_calls : calls_ok (s_calls s);
  fr_longest : longest_ok (s_seqs s) (s_longest s);
}.

Lemma frame_next s L : frame s L -> get_next (s_heap s) head = Some (first (R L) None).
Proof. intros [_ [(nd & Hnd & _ & Hnx) _] _ _ _]. unfold get_next. rewrite Hnd. simpl. by rewrite Hnx. Qed.

Lemma reaches_step s L s' a :
  frame s L -> a ∈ R L -> check_step model cp head s = Some (s', true) -> reaches 1 s s'.
Proof.
  intros Hf Ha Hs fuel it. simpl. rewrite (frame_next s L Hf).
  destruct (R L); [set_solver|]. simpl. rewrite Hs. done.
Qed.

Definition at_entry s (e : option nat) : search In Out State :=
  mkSearch (s_heap s) e (s_state s) (s_linearized s) (s_cache s) (s_calls s) (s_seqs s) (s_longest s).

(** What a state is after the call [a] has been linearized. *)
Record pushed s s' L (a : nat) : Prop := {
  pu_step : stepi (s_state s) (idf a) = Some (s_state s');
  pu_frame : frame s' ({[idf a]} ∪ L);
  pu_entry : s_entry s' = first (R ({[idf a]} ∪ L)) None;
  pu_calls : s_calls s' = s_calls s ++ [mkCallsEntry a (s_state s)];
  pu_heap : unlift (s_heap s') a = Some (s_heap s);
  pu_bits : clear (s_linearized s') (idf a) = Some (s_linearized s);
  pu_cache : forall x, in_cache (s_cache s') x ->
               in_cache (s_cache s) x \/ x = mkCacheEntry (s_linearized s') (s_state s');
}.

Lemma size_add L i : i ∉ L -> size ({[i]} ∪ L) = S (size L).
Proof. intros Hi. rewrite size_union by set_solver. by rewrite size_singleton. Qed.

Lemma dll_next hp pv X a Y nx : dll hp pv (X ++ a :: Y) nx -> get_next hp a = Some (first Y nx).
Proof. intros (nd & Hnd & Hnx & _)%dll_node. unfold get_next. rewrite Hnd. simpl. by rewrite Hnx. Qed.

(** An iteration at a call: the model refuses it, or the result has been seen, and it is passed
    over; or it is linearized. *)
Lemma step_call_cases s L a X Y :
  frame s L -> R L = X ++ a :: Y -> s_entry s = Some a -> kind a = callEntry ->
  ((stepi (s_state s) (idf a) = None
    \/ exists b st', stepi (s_state s) (idf a) = Some st' /\ denotes n b ({[idf a]} ∪ L)
         /\ in_cache (s_cache s) (mkCacheEntry b st'))
   /\ check_step model cp head s = Some (at_entry s (first Y None), true))
  \/ exists s', pushed s s' L a /\ s_seqs s' = s_seqs s /\ s_longest s' = s_longest s
       /\ check_step model cp head s = Some (s', true).
Proof.
  intros Hf HR He Hk. pose proof Hf as [Hs Hl Hb Hcl Hlo].
  assert (HaR : a ∈ R L) by (rewrite HR; set_solver). destruct (R_sub _ _ HaR) as [Ha0 HaL].
  destruct (Hs a Ha0) as (nd & Hnd & Hid & Hmatch). rewrite Hk in Hmatch.
  destruct Hmatch as (m & ndm & v & w & Hm & Hsub & Hkm & Hidm & Hndm & Hv & Hw & Hstep).
  assert (Hnx : n_next nd = first Y None).
  { rewrite HR in Hl. apply (dll_next _ _ (head :: X)) in Hl. unfold get_next in Hl.
    rewrite Hnd in Hl. by injection Hl. }
  unfold check_step. rewrite He. simpl. rewrite Hnd. simpl. rewrite Hm. unfold check_call.
  rewrite Hndm. simpl. rewrite Hv, Hw. simpl. rewrite Hnx, Hid.
  specialize (Hstep (s_state s)). destruct (Step model (s_state s) v w) as [ok st'].
  destruct ok; [|by left; split; [left|]].
  destruct (denotes_set n _ L (idf a) Hb (Hids a Ha0) HaL) as (b & Hset & Hden & Hclr).
  rewrite Hset. simpl.
  destruct (cacheContains_spec (s_cache s) (mkCacheEntry b st')) as (seen & -> & Hseen). simpl.
  destruct seen; simpl.
  { left. split; [|done]. right. exists b, st'. split; [done|]. split; [done|]. by apply Hseen. }
  destruct (R_split L a m X Y HR Hk Hkm Hidm Hsub) as (Y1 & Y2 & -> & HR').
  pose proof (head_R L) as Hnodup. rewrite HR in Hl, Hnodup.
  destruct (lift_spec (s_heap s) head X a Y1 m Y2 Hnodup Hl) as (hp' & Hlift & Hl' & Hst' & Hun);
    [by exists nd|].
  rewrite Hlift. simpl. right.
  assert (Hnext : get_next hp' head = Some (first (R ({[idf a]} ∪ L)) None)).
  { rewrite HR'. by apply (dll_next hp' None [] head) in Hl'. }
  rewrite Hnext. simpl. eexists. split_and!; [..|done]; [|done..]. constructor; simpl; try done.
  - constructor; simpl; try done; [by eapply sound_static|by rewrite HR'|].
    apply Forall_app. split; [done|]. by constructor.
  - intros x. apply in_cache_insert.
Qed.

(** With a cache of dead states, what is passed over is hopeless. *)
Lemma step_call s L a X Y :
  frame s L -> R L = X ++ a :: Y -> s_entry s = Some a -> kind a = callEntry ->
  cache_ok (s_cache s) (size L) ->
  (failed kind idf stepi (R L) (s_state s) (idf a)
   /\ check_step model cp head s = Some (at_entry s (first Y None), true))
  \/ exists s', pushed s s' L a /\ check_step model cp head s = Some (s', true).
Proof.
  intros Hf HR He Hk Hc. assert (HaL : idf a ∉ L) by (apply (R_sub L a); rewrite HR; set_solver).
  destruct (step_call_cases s L a X Y Hf HR He Hk) as [[Hno Hs]|(s' & Hpu & _ & _ & Hs)];
    [left|right; eauto]. split; [|done]. intros s' order Hs'.
  destruct Hno as [?|(b & st' & Hst & Hden & Hin)]; [congruence|].
  assert (s' = st') as -> by congruence. rewrite <- R_add.
  eapply cache_hit; [exact Hc|exact Hin|exact Hden|]. rewrite size_add by done. lia.
Qed.

(** An iteration at a return: the last linearized call is taken back. *)
Lemma step_return s s1 s2 L a X Y y :
  frame s L -> R L = X ++ a :: Y -> pushed s s1 L a ->
  s_heap s2 = s_heap s1 -> s_linearized s2 = s_linearized s1 -> s_calls s2 = s_calls s1 ->
  longest_ok (s_seqs s2) (s_longest s2) ->
  s_entry s2 = Some y -> y ∈ A0 -> kind y = returnEntry ->
  exists seqs longest, longest_ok seqs longest
    /\ (if cp then update_longest (s_heap s2) (s_calls s2) (s_calls s2) None (s_seqs s2) (s_longest s2)
        else Some (s_seqs s2, s_longest s2)) = Some (seqs, longest)
    /\ check_step model cp head s2
       = Some (mkSearch (s_heap s) (first Y None) (s_state s) (s_linearized s) (s_cache s2)
                 (s_calls s) seqs longest, true).
Proof.
  intros Hf HR [_ Hf1 _ Hcalls Hun Hclr _] Hh Hb Hc Hlo He Hy Hk.
  pose proof (fr_sound _ _ Hf1) as Hs. destruct (Hs y Hy) as (ndy & Hndy & _ & Hm). rewrite Hk in Hm.
  assert (Ha0 : a ∈ A0) by (apply (R_sub L); rewrite HR; set_solver).
  destruct (Hs a Ha0) as (nd & Hnd & Hid & _).
  assert (Hup : exists seqs longest, (if cp
      then update_longest (s_heap s1) (s_calls s1) (s_calls s1) None (s_seqs s2) (s_longest s2)
      else Some (s_seqs s2, s_longest s2)) = Some (seqs, longest) /\ longest_ok seqs longest).
  { destruct cp; [|eauto]. pose proof (fr_calls _ _ Hf1).
    by apply (update_longest_spec (s_heap s1) (s_calls s1) (s_calls s1) None). }
  destruct Hup as (seqs & longest & Hup & Hok). exists seqs, longest. split; [done|].
  split; [by rewrite Hh, Hc|]. unfold check_step, check_return. rewrite He. simpl. rewrite Hh, Hndy. simpl. rewrite Hm, Hc, Hb.
  rewrite Hup. rewrite Hcalls at 1. rewrite last_snoc. simpl. rewrite Hnd. simpl.
  rewrite Hid, Hclr. simpl. rewrite Hcalls, zlen_app, zlen_cons, zlen_nil.
  replace (zlen (s_calls s) + (1 + 0) - 1) with (zlen (s_calls s)) by lia.
  rewrite slice_to_Some by (rewrite zlen_app; pose proof (zlen_nonneg (s_calls s)); unfold zlen in *; simpl; lia).
  simpl. rewrite Hun. simpl. pose proof (fr_list _ _ Hf) as Hl. rewrite HR in Hl.
  rewrite (dll_next _ _ (head :: X) _ _ _ Hl). simpl. unfold zlen.
  by rewrite Nat2Z.id, take_app_length.
Qed.

(** ** The search *)

(** The iterations for [m] operations: each of the [2 * m] nodes is passed over, or linearized,
    searched from and taken back. *)
Fixpoint search_cost (m : nat) : nat :=
  match m with O => O | S m => 2 * S m * (search_cost m + 2) end.

(** The search stops with a linearization of what was left in [s]. *)
Record found s s' L (order : list Z) : Prop := {
  fo_next : get_next (s_heap s') head = Some None;
  fo_lin : Lin (R L) (s_state s) order;
  fo_sound : sound (s_heap s');
  fo_longest : longest_ok (s_seqs s') (s_longest s');
  fo_calls : exists vs, s_calls s' = s_calls s ++ vs /\ calls_ok (s_calls s')
               /\ (fun v => idf (ca_entry v)) <$> vs = order;
}.

(** The search is at the first return, and there is no linearization of what is left. *)
Record gives_up s s' L : Prop := {
  gu_none : forall order, ~ Lin (R L) (s_state s) order;
  gu_heap : s_heap s' = s_heap s;
  gu_bits : s_linearized s' = s_linearized s;
  gu_calls : s_calls s' = s_calls s;
  gu_state : s_state s' = s_state s;
  gu_cache : cache_post (s_cache s) (s_cache s');
  gu_longest : longest_ok (s_seqs s') (s_longest s');
  gu_entry : exists y, s_entry s' = Some y /\ y ∈ R L /\ kind y = returnEntry;
}.

Definition explored (k : nat) s L : Prop :=
  exists k' s', (k' <= k)%nat /\ reaches k' s s'
    /\ ((exists order, found s s' L order) \/ gives_up s s' L).

Lemma explored_step k k1 s s1 L :
  reaches k1 s s1 -> s_state s1 = s_state s -> s_heap s1 = s_heap s ->
  s_linearized s1 = s_linearized s -> s_calls s1 = s_calls s ->
  cache_post (s_cache s) (s_cache s1) -> explored k s1 L -> explored (k1 + k) s L.
Proof.
  intros Hr Hst Hh Hb Hc Hp (k' & s' & Hk & Hr' & Hcase). exists (k1 + k')%nat, s'.
  split; [lia|]. split; [by eapply reaches_trans|]. destruct Hcase as [(order & [])|[]].
  - left. exists order. constructor; rewrite <- ?Hst, <- ?Hc; done.
  - right. constructor; rewrite <- ?Hst, <- ?Hc, <- ?Hh, <- ?Hb; try done.
    intros x Hx. destruct (gu_cache0 x Hx); auto.
Qed.

Lemma frame_same s s1 L :
  s_heap s1 = s_heap s -> s_linearized s1 = s_linearized s -> s_calls s1 = s_calls s ->
  longest_ok (s_seqs s1) (s_longest s1) -> frame s L -> frame s1 L.
Proof. intros Hh Hb Hc Hlo []. constructor; by rewrite ?Hh, ?Hb, ?Hc. Qed.

(** The linearization that the search found behind a call, with the call in front. *)
Lemma found_cons s s1 s' L a order X Y :
  R L = X ++ a :: Y -> Forall (fun x => kind x = callEntry) X -> kind a = callEntry ->
  pushed s s1 L a -> found s1 s' ({[idf a]} ∪ L) order -> found s s' L (idf a :: order).
Proof.
  intros HR HX Hk [Hstep _ _ Hcalls _ _ _] [Hnx Hlin Hs Hlo (vs & Hvs & Hok & Hids')].
  constructor; try done.
  - rewrite R_add in Hlin. econstructor; [|intros j|exact Hstep|exact Hlin].
    + exists a. split; [|done]. rewrite HR. set_solver.
    + rewrite HR. apply no_prec; [|done..]. rewrite <- HR. apply R_wf.
  - exists (mkCallsEntry a (s_state s) :: vs). rewrite Hcalls in Hvs.
    split; [by rewrite Hvs, <- app_assoc|]. split; [done|]. by rewrite fmap_cons, Hids'.
Qed.

Lemma R_has_return L : R L <> [] -> ~ Forall (fun x => kind x = callEntry) (R L).
Proof.
  intros Hne HX. destruct (R L) as [|x l] eqn:E; [done|]. rewrite <- E, Forall_forall in HX.
  assert (Hx : x ∈ R L) by (rewrite E; left).
  destruct (hw_call _ _ _ (R_wf L) x Hx (HX x Hx)) as (y & Hs & Hy & _).
  apply pair_sublist_elem in Hs as [_ Hs]. apply HX in Hs. congruence.
Qed.

Lemma R_length L a :
  a ∈ R L -> kind a = callEntry -> length (R L) = S (S (length (R ({[idf a]} ∪ L)))).
Proof.
  intros Ha Hk. destruct (R_sub _ _ Ha) as [Ha0 _].
  destruct (hw_call _ _ _ Hwf a Ha0 Hk) as (m & Hs & Hm & Hid).
  apply list_elem_of_split in Ha as (X & Y & HR).
  destruct (R_split L a m X Y HR Hk Hm Hid Hs) as (Y1 & Y2 & -> & HR').
  rewrite HR, HR'. repeat (rewrite length_app; simpl). lia.
Qed.

Lemma pushed_cache_ok s s1 L a :
  pushed s s1 L a -> cache_ok (s_cache s) (size L) -> cache_ok (s_cache s1) (size ({[idf a]} ∪ L)).
Proof.
  intros [_ Hf _ _ _ _ Hcache] Hc x [Hx| ->]%Hcache.
  - destruct (Hc x Hx) as [?|(L1 & ? & ?)]; [by left|]. right. exists L1. split; [done|].
    etrans; [done|]. apply subseteq_size. set_solver.
  - right. eexists. split; [apply Hf|done].
Qed.

(** After a search in vain behind a call, only dead states are new in the cache. *)
Lemma pushed_cache_post s s1 s' L a :
  pushed s s1 L a -> gives_up s1 s' ({[idf a]} ∪ L) -> cache_post (s_cache s) (s_cache s').
Proof.
  intros [_ Hf _ _ _ _ Hcache] [Hno _ _ _ _ Hpost _ _] x [Hx|?]%Hpost; [|by right].
  apply Hcache in Hx as [?| ->]; [by left|]. right. eexists. split; [apply Hf|done].
Qed.

Lemma explore_from m Y s L X :
  (forall s' L', frame s' L' -> length (R L') = (2 * m)%nat -> s_entry s' = first (R L') None ->
     cache_ok (s_cache s') (size L') -> explored (search_cost m) s' L') ->
  frame s L -> length (R L) = (2 * S m)%nat -> R L = X ++ Y -> s_entry s = first Y None ->
  Forall (fun x => kind x = callEntry) X ->
  Forall (fun x => failed kind idf stepi (R L) (s_state s) (idf x)) X ->
  cache_ok (s_cache s) (size L) -> explored (length Y * (search_cost m + 2)) s L.
Proof.
  intros Hrec. revert s X. induction Y as [|a Y IH]; intros s X Hf Hlen HR He HX Hfail Hc.
  { exfalso. rewrite app_nil_r in HR. apply (R_has_return L); [by destruct (R L)|by rewrite HR]. }
  assert (HaR : a ∈ R L) by (rewrite HR; set_solver). destruct (R_sub _ _ HaR) as [Ha0 HaL].
  destruct (kind a) eqn:Hk.
  2: { exists 0%nat, s. split; [lia|]. split; [apply reaches_refl|]. right.
       constructor; try done; [|by intros x; left|apply Hf|by exists a].
       intros order. rewrite HR in Hfail |- *. by apply failed_all. }
  assert (Hnext : forall s1, s_state s1 = s_state s -> s_heap s1 = s_heap s ->
            s_linearized s1 = s_linearized s -> s_calls s1 = s_calls s ->
            longest_ok (s_seqs s1) (s_longest s1) -> cache_post (s_cache s) (s_cache s1) ->
            s_entry s1 = first Y None -> failed kind idf stepi (R L) (s_state s) (idf a) ->
            explored (length Y * (search_cost m + 2)) s1 L).
  { intros s1 Hst Hh Hb Hcl Hlo Hp He1 Hfa. apply (IH s1 (X ++ [a])); try done.
    - by eapply frame_same.
    - by rewrite HR, <- app_assoc.
    - apply Forall_app. split; [done|]. by constructor.
    - rewrite Hst. apply Forall_app. split; [done|]. by constructor.
    - by eapply cache_post_ok. }
  destruct (step_call s L a X Y Hf HR He Hk Hc) as [[Hfa Hs]|(s1 & Hpu & Hs)].
  { eapply reaches_step in Hs; [|done|exact HaR].
    assert (Hex : explored (1 + length Y * (search_cost m + 2)) s L)
      by (eapply explored_step; [exact Hs|done..|by intros x; left|apply Hnext]; try done;
          [apply Hf|by intros x; left]).
    destruct Hex as (k' & s' & ? & ?). exists k', s'. split; [simpl; lia|done]. }
  pose proof (reaches_step s L s1 a Hf HaR Hs) as Hr1. pose proof (pu_frame _ _ _ _ Hpu) as Hf1.
  pose proof (R_length L a HaR Hk) as Hlen1.
  destruct (Hrec s1 _ Hf1 ltac:(lia) (pu_entry _ _ _ _ Hpu) (pushed_cache_ok _ _ _ _ Hpu Hc))
    as (k & s2 & Hk2 & Hr2 & [(order & Hfo)|Hgu]).
  { exists (1 + k)%nat, s2. split; [simpl; lia|]. split; [by eapply reaches_trans|].
    left. exists (idf a :: order). by eapply found_cons. }
  pose proof Hgu as [Hno Hh2 Hb2 Hc2 _ _ Hlo2 (y & Hy & HyR & Hky)].
  destruct (R_sub _ _ HyR) as [Hy0 _].
  destruct (step_return s s1 s2 L a X Y y) as (seqs & longest & Hok & _ & Hs3); try done.
  eapply reaches_step in Hs3; [|by eapply (frame_same s1)|exact HyR].
  assert (Hex : explored (1 + k + 1 + length Y * (search_cost m + 2)) s L).
  { pose proof (pushed_cache_post _ _ _ _ _ Hpu Hgu). eapply explored_step;
      [eapply reaches_trans; [eapply reaches_trans; [exact Hr1|exact Hr2]|exact Hs3]|done..|].
    apply Hnext; try done. intros st' order Hst'. rewrite (pu_step _ _ _ _ Hpu) in Hst'.
    injection Hst' as <-. rewrite <- R_add. apply Hno. }
  destruct Hex as (k' & s' & ? & ?). exists k', s'. split; [simpl; lia|done].
Qed.

Lemma explore m s L :
  frame s L -> length (R L) = (2 * m)%nat -> s_entry s = first (R L) None ->
  cache_ok (s_cache s) (size L) -> explored (search_cost m) s L.
Proof.
  revert s L. induction m as [|m IH]; intros s L Hf Hlen He Hc.
  - apply length_zero_iff_nil in Hlen. exists 0%nat, s. split; [done|]. split; [apply reaches_refl|].
    left. exists []. constructor; [| |apply Hf|apply Hf|].
    + by rewrite (frame_next s L Hf), Hlen.
    + rewrite Hlen. constructor.
    + exists []. split; [by rewrite app_nil_r|]. split; [apply Hf|done].
  - destruct (explore_from m (R L) s L []) as (k & s' & Hk & ?); try done; [by constructor..|].
    exists k, s'. rewrite Hlen in Hk. split; [|done]. exact Hk.
Qed.

(** The loop from the start, with enough fuel: it finds a linearization if there is one, and
    says so if there is none. *)
Lemma loop_verdict m s fuel :
  frame s ∅ -> length (R ∅) = (2 * m)%nat -> s_entry s = first (R ∅) None -> s_cache s = ∅ ->
  s_calls s = [] -> (search_cost m < fuel)%nat ->
  exists s' ok, loop fuel 0 s = Some (s', ok)
    /\ if (ok : bool) then exists order, found s s' ∅ order
       else (forall order, ~ Lin (R ∅) (s_state s) order) /\ longest_ok (s_seqs s') (s_longest s').
Proof.
  intros Hf Hlen He Hca Hcl Hfuel.
  destruct (explore m s ∅ Hf Hlen He) as (k & s' & Hk & Hr & Hcase).
  { rewrite Hca. intros x (h & Hx). rewrite lookup_empty in Hx. simpl in Hx. set_solver. }
  destruct (Nat.le_exists_sub k fuel) as (f & -> & _); [lia|]. rewrite Nat.add_comm, Hr.
  destruct Hcase as [(order & Hfo)|Hgu].
  - exists s', true. split; [|eauto]. destruct f; simpl; by rewrite (fo_next _ _ _ _ Hfo).
  - destruct f as [|f]; [lia|]. exists s', false.
    destruct Hgu as [Hno Hh _ Hc _ _ Hlo (y & Hy & HyR & Hky)]. split; [|done].
    destruct (fr_sound _ _ Hf y) as (nd & Hnd & _ & Hm); [by apply (R_sub ∅)|]. rewrite Hky in Hm.
    simpl. rewrite Hh, (frame_next s ∅ Hf). destruct (R ∅); [set_solver|]. simpl.
    unfold check_step, check_return. rewrite Hy. simpl. rewrite Hh, Hnd. simpl. rewrite Hm, Hc, Hcl. done.
Qed.
End PorcSearch.
