(* ===== verification/PorcCheck.v ===== *)
(** * The verdict of the linearizability checker

    What [checkOperations] answers about a history of operations is right: each partition is
    linearizable or not, by the definition of linearizability ([linearizable]), and the search
    ends. *)

From S2P Require Import Prelude Porcupine PorcBitset PorcList PorcLin PorcSearch.
Import Porcupine.

Section Spec.
Context {In Out State : Type}.
Implicit Types (ops order : list (Operation In Out)) (M : Model In Out State).

Fixpoint executes M (st : State) (order : list (Operation In Out)) : Prop :=
  match order with
  | [] => True
  | o :: order =>
      exists st', Step M st (op_Input o) (op_Output o) = (true, st') /\ executes M st' order
  end.

(** The operations can be ordered so that none comes before one that had returned before it
    was called, and that the model executes them in this order with the recorded outputs. *)
Definition linearizable M ops : Prop :=
  exists order, order ≡ₚ ops
    /\ (forall a b, [a; b] `sublist_of` order -> ~ op_Return b < op_Call a)
    /\ executes M (Init M) order.

(** What [sort.Sort] guarantees for [byTime]: a permutation without inversions. *)
Definition sorts (sort_Sort : (entry In Out -> entry In Out -> bool) -> list (entry In Out) -> list (entry In Out))
    : Prop :=
  forall l, sort_Sort Less l ≡ₚ l
    /\ forall x y, [x; y] `sublist_of` sort_Sort Less l -> Less y x = false.
End Spec.

(** A sort that meets the guarantee. *)
Section TimeSort.
Context {In Out : Type}.

Definition not_after (x y : entry In Out) : Prop := Less y x = false.

Definition time_sort (less : entry In Out -> entry In Out -> bool) (l : list (entry In Out))
    : list (entry In Out) :=
  @merge_sort _ (fun x y => less y x = false) (fun x y => bool_eq_dec (less y x) false) l.

#[local] Instance not_after_trans : Transitive not_after.
Proof.
  intros [k1 v1 i1 t1 c1] [k2 v2 i2 t2 c2] [k3 v3 i3 t3 c3]. unfold not_after, Less. simpl.
  destruct (Z.eqb_spec t2 t1), (Z.eqb_spec t3 t2), (Z.eqb_spec t3 t1); simpl; rewrite ?Z.ltb_ge;
    try lia; destruct k1, k2, k3; simpl; done || lia.
Qed.

#[local] Instance not_after_total : Total not_after.
Proof.
  intros [k1 v1 i1 t1 c1] [k2 v2 i2 t2 c2]. unfold not_after, Less. simpl.
  destruct (Z.eqb_spec t2 t1), (Z.eqb_spec t1 t2); simpl; rewrite ?Z.ltb_ge; try lia.
  destruct k1, k2; simpl; auto.
Qed.

Lemma time_sort_sorts : sorts time_sort.
Proof.
  intros l. split; [apply merge_sort_Permutation|]. intros x y Hs.
  refine (StronglySorted_pair not_after _ x y _ Hs). apply (StronglySorted_merge_sort not_after).
Qed.
End TimeSort.

Section PorcCheck.
Context {In Out State : Type} `{!EqDecision State}.
Context (M : Model In Out State) (eqv : State -> State -> bool).
Context (Heq : Equal M = Some eqv) (Heqv : forall s s', eqv s s' = true -> s = s').
Context (sort_Sort : (entry In Out -> entry In Out -> bool) -> list (entry In Out) -> list (entry In Out)).
Context (Hsort : sorts sort_Sort).
Context (ops : list (Operation In Out)) (Htimes : Forall (fun o => op_Call o <= op_Return o) ops).

(** ** The entries of a history *)

Definition call_of (i : Z) (o : Operation In Out) : entry In Out :=
  mkEntry callEntry (inl (op_Input o)) i (op_Call o) (op_ClientId o).
Definition return_of (i : Z) (o : Operation In Out) : entry In Out :=
  mkEntry returnEntry (inr (op_Output o)) i (op_Return o) (op_ClientId o).

Lemma elem_of_entries (l : list (Operation In Out)) k e :
  e ∈ entries_of l k <-> exists i o, l !! i = Some o
    /\ (e = call_of (k + Z.of_nat i) o \/ e = return_of (k + Z.of_nat i) o).
Proof.
  revert k. induction l as [|o l IH]; intros k; simpl.
  { split; [set_solver|]. intros (i & o & Hi & _). done. }
  rewrite !elem_of_cons, IH. split.
  - intros [->|[->|(i & o' & Hi & He)]].
    + exists 0%nat, o. rewrite Z.add_0_r. auto.
    + exists 0%nat, o. rewrite Z.add_0_r. auto.
    + exists (S i), o'. split; [done|]. replace (k + Z.of_nat (S i)) with (k + 1 + Z.of_nat i) by lia. done.
  - intros ([|i] & o' & Hi & He); simplify_eq/=.
    + rewrite Z.add_0_r in He. tauto.
    + right. right. exists i, o'. split; [done|].
      replace (k + 1 + Z.of_nat i) with (k + Z.of_nat (S i)) by lia. done.
Qed.

Definition tag (e : entry In Out) : entryKind * Z := (en_kind e, en_id e).

Lemma entries_tags (l : list (Operation In Out)) k : NoDup (tag <$> entries_of l k).
Proof.
  revert k. induction l as [|o l IH]; intros k; simpl; [constructor|].
  assert (Hlow : forall kd, (kd, k) ∉ tag <$> entries_of l (k + 1)).
  { intros kd (e & He & Hin)%list_elem_of_fmap. apply elem_of_entries in Hin as (i & o' & _ & Hin).
    destruct Hin as [-> | ->]; unfold tag in He; simpl in He; injection He; lia. }
  constructor; [|constructor]; [|apply Hlow|apply IH].
  apply not_elem_of_cons. split; [done|apply Hlow].
Qed.

Lemma entries_length (l : list (Operation In Out)) k : length (entries_of l k) = (2 * length l)%nat.
Proof. revert k. induction l as [|o l IH]; intros k; simpl; [done|]. rewrite IH. lia. Qed.

Definition h : list (entry In Out) := makeEntries sort_Sort ops.

Lemma h_perm : h ≡ₚ entries_of ops 0.
Proof. apply Hsort. Qed.

Lemma h_elem e : e ∈ h <-> exists i o, slice_get ops i = Some o /\ (e = call_of i o \/ e = return_of i o).
Proof.
  rewrite h_perm, elem_of_entries. split.
  - intros (i & o & Hi & He). exists (Z.of_nat i), o. split; [|done].
    apply slice_get_Some. rewrite Nat2Z.id. split; [lia|done].
  - intros (i & o & [Hi Ho]%slice_get_Some & He). exists (Z.to_nat i), o. split; [done|].
    by rewrite Z2Nat.id by lia.
Qed.

Lemma h_length : length h = (2 * length ops)%nat.
Proof. by rewrite h_perm, entries_length. Qed.

(** An operation is called before it returns. *)
Lemma h_call_first i o : slice_get ops i = Some o -> [call_of i o; return_of i o] `sublist_of` h.
Proof.
  intros Ho. destruct (pair_sublist_total h (call_of i o) (return_of i o)) as [?|Hs];
    [apply h_elem; eauto..|done|done|].
  apply Hsort in Hs. apply slice_get_Some in Ho as [_ Ho]. eapply Forall_lookup_1 in Htimes; [|exact Ho].
  unfold Less in Hs. simpl in Hs. destruct (Z.eqb_spec (op_Call o) (op_Return o)); simpl in Hs; [done|].
  go_bool. lia.
Qed.

(** The order of a return and a call in the history is that of their times. *)
Lemma h_order i o j o' :
  slice_get ops i = Some o -> slice_get ops j = Some o' ->
  [return_of j o'; call_of i o] `sublist_of` h <-> op_Return o' < op_Call o.
Proof.
  intros Ho Ho'. split.
  - intros Hs%Hsort. unfold Less in Hs. simpl in Hs.
    destruct (Z.eqb_spec (op_Call o) (op_Return o')); simpl in Hs; [done|]. go_bool. lia.
  - intros Hlt. destruct (pair_sublist_total h (return_of j o') (call_of i o)) as [?|Hs];
      [apply h_elem; eauto..|done|done|].
    apply Hsort in Hs. unfold Less in Hs. simpl in Hs.
    destruct (Z.eqb_spec (op_Return o') (op_Call o)); simpl in Hs; [lia|]. go_bool. lia.
Qed.

(** ** The nodes of a history

    Node [a] carries the entry [a] from the end. *)

Definition pr : list (entry In Out) := reverse h.
Definition kind (a : nat) : entryKind := from_option en_kind callEntry (pr !! a).
Definition idf (a : nat) : Z := from_option en_id (-1) (pr !! a).
Definition A0 : list nat := addrs (length h).

Lemma A0_elem a : a ∈ A0 <-> is_Some (pr !! a).
Proof. unfold A0, pr. by rewrite elem_of_addrs, lookup_lt_is_Some, length_reverse. Qed.

Lemma A0_pair a b : [a; b] `sublist_of` A0 <-> (b < a < length h)%nat.
Proof.
  unfold A0. generalize (length h) as k. induction k as [|k IH].
  { split; [by intros ?%sublist_nil_r|lia]. }
  rewrite addrs_S, pair_sublist_cons, IH, elem_of_addrs. lia.
Qed.

Lemma h_tags : NoDup (tag <$> h).
Proof. rewrite h_perm. apply entries_tags. Qed.

Lemma pr_elem a e : pr !! a = Some e -> e ∈ h.
Proof. unfold pr. intros Ha%list_elem_of_lookup_2. by rewrite elem_of_reverse in Ha. Qed.

Lemma elem_pr e : e ∈ h -> exists a, pr !! a = Some e.
Proof. intros He. unfold pr. apply list_elem_of_lookup. by rewrite elem_of_reverse. Qed.

(** Nodes are in the order of their entries. *)
Lemma A0_entries a b x y :
  pr !! a = Some x -> pr !! b = Some y -> [a; b] `sublist_of` A0 <-> [x; y] `sublist_of` h.
Proof.
  intros Ha Hb. pose proof (lookup_lt_Some _ _ _ Ha). pose proof (lookup_lt_Some _ _ _ Hb).
  unfold pr in *. rewrite length_reverse in *. rewrite reverse_lookup in Ha, Hb by done.
  rewrite A0_pair, pair_sublist_lookup. split.
  - intros ?. exists (length h - S a)%nat, (length h - S b)%nat. split; [lia|done].
  - intros (p & q & Hlt & Hp & Hq). pose proof (NoDup_fmap_1 _ _ h_tags) as Hnd.
    pose proof (NoDup_lookup _ _ _ _ Hnd Ha Hp). pose proof (NoDup_lookup _ _ _ _ Hnd Hb Hq). lia.
Qed.

(** The operation of a node. *)
Lemma A0_op a :
  a ∈ A0 -> exists o, slice_get ops (idf a) = Some o
    /\ pr !! a = Some (match kind a with callEntry => call_of (idf a) o | returnEntry => return_of (idf a) o end).
Proof.
  intros [e He]%A0_elem. pose proof (pr_elem _ _ He) as Hin.
  apply h_elem in Hin as (i & o & Ho & Hcase). unfold kind, idf. rewrite He. simpl.
  exists o. destruct Hcase as [-> | ->]; done.
Qed.

(** The other node of an operation. *)
Lemma A0_other i o kd :
  slice_get ops i = Some o -> exists b, b ∈ A0 /\ kind b = kd /\ idf b = i
    /\ pr !! b = Some (match kd with callEntry => call_of i o | returnEntry => return_of i o end).
Proof.
  intros Ho. set (e := match kd with callEntry => call_of i o | returnEntry => return_of i o end).
  destruct (elem_pr e) as (b & Hb); [apply h_elem; exists i, o; destruct kd; auto|].
  exists b. split; [apply A0_elem; eauto|]. unfold kind, idf. rewrite Hb. by destruct kd.
Qed.

Lemma A0_wf : history_wf kind idf A0.
Proof.
  constructor.
  - apply addrs_NoDup.
  - intros a b Ha Hb Hk Hid. destruct (A0_op a Ha) as (o & Ho & Hpa), (A0_op b Hb) as (o' & Ho' & Hpb).
    assert (Hnd : NoDup (tag <$> pr)) by (unfold pr; rewrite reverse_Permutation; apply h_tags).
    eapply (NoDup_lookup _ a b); [exact Hnd|rewrite list_lookup_fmap, Hpa; done|].
    rewrite list_lookup_fmap, Hpb, Hk, Hid. simpl. by destruct (kind b).
  - intros a Ha Hk. destruct (A0_op a Ha) as (o & Ho & Hpa). rewrite Hk in Hpa.
    destruct (A0_other _ o returnEntry Ho) as (b & _ & Hkb & Hidb & Hpb).
    exists b. split; [|done]. apply (A0_entries _ _ _ _ Hpa Hpb). by apply h_call_first.
  - intros a Ha Hk. destruct (A0_op a Ha) as (o & Ho & _).
    destruct (A0_other _ o callEntry Ho) as (b & Hb & Hkb & Hidb & _). by exists b.
Qed.

Definition stepi (st : State) (i : Z) : option State :=
  o ← slice_get ops i;
  let '(ok, st') := Step M st (op_Input o) (op_Output o) in
  if (ok : bool) then Some st' else None.

Lemma A0_sound hp mt : linked pr hp mt -> sound M A0 kind idf stepi hp.
Proof.
  intros (_ & _ & Hnodes & _) a Ha. destruct (A0_op a Ha) as (o & Ho & Hpa).
  destruct (Hnodes a _ Hpa) as (nd & Hnd & Hv & Hid & Hm). exists nd. split; [done|].
  destruct (kind a) eqn:Hk; simpl in *; [|done]. split; [done|].
  destruct (A0_other _ o returnEntry Ho) as (m & _ & Hkm & Hidm & Hpm).
  destruct (Hnodes m _ Hpm) as (ndm & Hndm & Hvm & _).
  assert (Hs : [a; m] `sublist_of` A0) by (apply (A0_entries _ _ _ _ Hpa Hpm); by apply h_call_first).
  exists m, ndm, (op_Input o), (op_Output o). split_and!; try done.
  - apply A0_pair in Hs. by eapply Hm; [|exact Hpm|..]; [lia|..].
  - intros st. unfold stepi. by rewrite Ho.
Qed.

(** ** Linearizations of the nodes are linearizations of the operations *)

Lemma called_iff i : called kind idf A0 i <-> is_Some (slice_get ops i).
Proof.
  split.
  - intros (a & Ha & _ & <-). destruct (A0_op a Ha) as (o & Ho & _). eauto.
  - intros [o Ho]. destruct (A0_other i o callEntry Ho) as (b & Hb & Hk & Hid & _). by exists b.
Qed.

Lemma prec_iff i o j o' :
  slice_get ops i = Some o -> slice_get ops j = Some o' ->
  prec kind idf A0 j i <-> op_Return o' < op_Call o.
Proof.
  intros Ho Ho'. rewrite <- (h_order i o j o' Ho Ho'). split.
  - intros (a & b & Hs & Hka & <- & Hkb & <-). destruct (pair_sublist_elem _ _ _ Hs) as [Ha Hb].
    destruct (A0_op a Ha) as (x & Hx & Hpa), (A0_op b Hb) as (y & Hy & Hpb).
    rewrite Hka in Hpa. rewrite Hkb in Hpb. simplify_eq. by apply (A0_entries _ _ _ _ Hpa Hpb).
  - intros Hs. destruct (A0_other j o' returnEntry Ho') as (a & Ha & Hka & Hida & Hpa).
    destruct (A0_other i o callEntry Ho) as (b & Hb & Hkb & Hidb & Hpb).
    exists a, b. split; [|done]. by apply (A0_entries _ _ _ _ Hpa Hpb).
Qed.

(** The operations with their numbers. *)
Definition numbered : list (Z * Operation In Out) := imap (fun k o => (Z.of_nat k, o)) ops.

Lemma numbered_elem i o : (i, o) ∈ numbered <-> slice_get ops i = Some o.
Proof.
  unfold numbered. rewrite list_elem_of_lookup, slice_get_Some. split.
  - intros (k & Hk). rewrite list_lookup_imap in Hk. apply fmap_Some in Hk as (o' & Hk & [= -> ->]).
    rewrite Nat2Z.id. split; [lia|done].
  - intros [Hi Ho]. exists (Z.to_nat i). rewrite list_lookup_imap, Ho. simpl. by rewrite Z2Nat.id by lia.
Qed.

Lemma numbered_ops : numbered.*2 = ops.
Proof.
  apply list_eq. intros k. unfold numbered. rewrite list_lookup_fmap, list_lookup_imap.
  by destruct (ops !! k).
Qed.

Lemma numbered_ids : NoDup numbered.*1.
Proof.
  apply NoDup_alt. intros a b x Ha Hb. rewrite list_lookup_fmap in Ha, Hb. unfold numbered in *.
  rewrite list_lookup_imap in Ha, Hb. destruct (ops !! a), (ops !! b); simplify_eq/=. lia.
Qed.

(** An order of the numbered operations that is right. *)
Definition right_order (l : list (Z * Operation In Out)) : Prop :=
  l ≡ₚ numbered
  /\ (forall x y, [x; y] `sublist_of` l -> ~ op_Return y.2 < op_Call x.2)
  /\ executes M (Init M) l.*2.

Lemma legal_executes l st :
  Forall (fun x => slice_get ops x.1 = Some x.2) l -> legal stepi st l.*1 <-> executes M st l.*2.
Proof.
  intros Hl. revert st. induction Hl as [|[i o] l Ho Hl IH]; intros st; [done|]. simpl in *.
  unfold stepi at 1. rewrite Ho. simpl. destruct (Step M st (op_Input o) (op_Output o)) as [ok st'].
  split; intros (st1 & Hst & Hrest); exists st1; rewrite ?IH in *; destruct ok; by simplify_eq.
Qed.

Lemma numbered_Forall l : l ≡ₚ numbered -> Forall (fun x => slice_get ops x.1 = Some x.2) l.
Proof.
  intros Hp. rewrite Hp. apply Forall_forall. intros [i o] Hin. by apply numbered_elem.
Qed.

Lemma right_order_linearization l :
  right_order l -> linearization kind idf stepi A0 (Init M) l.*1.
Proof.
  intros (Hp & Hrt & Hex). pose proof (numbered_Forall l Hp) as Hall. constructor.
  - rewrite Hp. apply numbered_ids.
  - intros i. rewrite Hp, called_iff, list_elem_of_fmap. split.
    + intros ([i' o] & -> & Hin%numbered_elem). eauto.
    + intros [o Ho]. exists (i, o). split; [done|]. by apply numbered_elem.
  - intros i j Hs Hpr. destruct (pair_sublist_fmap _ _ _ _ Hs) as (x & y & Hxy & -> & ->).
    rewrite Forall_forall in Hall. destruct (pair_sublist_elem _ _ _ Hxy) as [Hx Hy].
    apply (prec_iff _ _ _ _ (Hall x Hx) (Hall y Hy)) in Hpr. by eapply Hrt.
  - by apply legal_executes.
Qed.

Lemma linearization_right_order order :
  linearization kind idf stepi A0 (Init M) order -> exists l, right_order l /\ l.*1 = order.
Proof.
  intros [Hnd Hall Hrt Hleg].
  assert (Hex : exists l, l.*1 = order /\ Forall (fun x => slice_get ops x.1 = Some x.2) l).
  { assert (Hin : forall i, i ∈ order -> is_Some (slice_get ops i)) by (intros i; rewrite Hall; apply called_iff).
    clear -Hin. induction order as [|i order IH]; [by exists []|].
    destruct (Hin i) as [o Ho]; [left|]. destruct IH as (l & <- & Hl); [set_solver|].
    exists ((i, o) :: l). split; [done|]. by constructor. }
  destruct Hex as (l & <- & Hl). exists l. split; [|done]. split; [|split].
  - apply NoDup_Permutation; [by eapply NoDup_fmap_1|eapply NoDup_fmap_1, numbered_ids|].
    intros [i o]. rewrite numbered_elem. rewrite Forall_forall in Hl. split; [by intros ?%Hl|].
    intros Ho. assert (i ∈ l.*1) as ([i' o'] & -> & Hin)%list_elem_of_fmap
      by (apply Hall, called_iff; eauto). apply Hl in Hin as Ho'. simpl in *. by simplify_eq.
  - intros x y Hs Hlt. destruct (pair_sublist_elem _ _ _ Hs) as [Hx Hy]. rewrite Forall_forall in Hl.
    apply (Hrt x.1 y.1); [|by apply (prec_iff _ _ _ _ (Hl x Hx) (Hl y Hy))].
    apply pair_sublist_lookup in Hs as (p & q & ? & Hp & Hq). apply pair_sublist_lookup.
    exists p, q. by rewrite !list_lookup_fmap, Hp, Hq.
  - by apply legal_executes.
Qed.

Lemma linearizable_iff :
  (exists order, Lin kind idf stepi A0 (Init M) order) <-> linearizable M ops.
Proof.
  split.
  - intros (order & Hl%Lin_linearization). apply linearization_right_order in Hl as (l & (Hp & Hrt & Hex) & _).
    exists l.*2. split; [by rewrite Hp, numbered_ops|]. split; [|done].
    intros a b (x & y & Hs & -> & ->)%pair_sublist_fmap. by apply Hrt.
  - intros (order & Hp & Hrt & Hex). rewrite <- numbered_ops in Hp.
    apply Permutation_map_inv in Hp as (l & -> & Hp). exists l.*1.
    apply linearization_Lin; [apply A0_wf|]. apply right_order_linearization. split; [done|].
    split; [|done]. intros x y Hs. apply Hrt.
    apply pair_sublist_lookup in Hs as (p & q & ? & Hpx & Hqy). apply pair_sublist_lookup.
    exists p, q. change (map snd l) with l.*2. by rewrite !list_lookup_fmap, Hpx, Hqy.
Qed.

(** ** One partition *)

Lemma returns_unique_pr : returns_unique pr.
Proof.
  intros a b x y Ha Hb Hkx Hky Hid.
  assert (Hnd : NoDup (tag <$> pr)) by (unfold pr; rewrite reverse_Permutation; apply h_tags).
  eapply (NoDup_lookup _ a b (tag x)); [exact Hnd|by rewrite list_lookup_fmap, Ha|].
  rewrite list_lookup_fmap, Hb. simpl. unfold tag. congruence.
Qed.

Lemma sound_app hp nd : sound M A0 kind idf stepi hp -> sound M A0 kind idf stepi (hp ++ [nd]).
Proof.
  intros Hs a Ha. destruct (Hs a Ha) as (x & Hx & Hid & Hk). exists x.
  split; [by apply lookup_app_l_Some|]. split; [done|]. destruct (kind a); [|done].
  destruct Hk as (m & ndm & v & w & ? & ? & ? & ? & Hm & ?). exists m, ndm, v, w.
  apply (lookup_app_l_Some _ [nd]) in Hm. rewrite Hm. naive_solver.
Qed.

Lemma R_empty : R A0 idf ∅ = A0.
Proof. apply filter_all, Forall_forall. set_solver. Qed.

Lemma check_init_spec :
  exists s head, check_init M h = Some (s, head) /\ head ∉ A0
    /\ frame M A0 kind idf (Z.of_nat (length ops)) head stepi s ∅
    /\ s_entry s = first A0 None /\ s_cache s = ∅ /\ s_calls s = [] /\ s_state s = Init M
    /\ s_seqs s = [] /\ Forall (eq None) (s_longest s).
Proof.
  destruct (makeLinkedEntries_spec h returns_unique_pr) as (hp & mt & Hmake & Hl).
  pose proof Hl as (Hlen & Hd & _). unfold pr in Hlen, Hd. rewrite length_reverse in Hlen, Hd.
  unfold check_init. rewrite Hmake. simpl.
  rewrite (node_length_spec hp None (addrs (length h))); [|done|unfold addrs; rewrite length_reverse, length_seq; lia].
  simpl. assert (Hz : zlen (addrs (length h)) = 2 * Z.of_nat (length ops)).
  { unfold zlen, addrs. rewrite length_reverse, length_seq, h_length. lia. }
  rewrite Hz, Z.mul_comm, Z.quot_mul by lia.
  pose proof (insertBefore_first hp (addrs (length h)) None None (-1) (addrs_NoDup _) Hd)
    as (hp' & Hins & Hd' & _ & Hst).
  rewrite Hins. simpl. do 2 eexists. split; [done|].
  split; [unfold A0; rewrite elem_of_addrs; lia|].
  split; [|split_and!; try done; simpl; by apply Forall_replicate]. constructor; simpl.
  - eapply sound_static; [exact Hst|]. apply sound_app. by eapply A0_sound.
  - by rewrite R_empty.
  - apply denotes_new.
  - constructor.
  - split; [unfold zlen; rewrite length_replicate; lia|].
    intros q Hq. apply elem_of_replicate in Hq as [? _]. done.
Qed.

Lemma A0_ids a : a ∈ A0 -> 0 <= idf a < Z.of_nat (length ops).
Proof. intros (o & Ho & _)%A0_op. apply slice_get_lt in Ho. unfold zlen in Ho. lia. Qed.

(** The verdict about one partition; a positive one comes with a linearization. *)
Lemma checkSingle_spec cp fuel :
  (search_cost (length ops) < fuel)%nat ->
  exists ok longest, checkSingle M h cp (fun _ => false) fuel = Some (ok, longest)
    /\ length longest = length ops
    /\ if (ok : bool)
       then exists order, linearization kind idf stepi A0 (Init M) order
              /\ Forall (eq (Some order)) longest
       else ~ linearizable M ops.
Proof.
  intros Hfuel. destruct check_init_spec as (s & head & Hi & Hhead & Hf & He & Hca & Hcl & Hst & _).
  unfold checkSingle, checkSingle_pointers. rewrite Hi. simpl.
  destruct (loop_verdict M eqv Heq Heqv A0 kind idf (Z.of_nat (length ops)) head stepi cp A0_wf
    A0_ids Hhead (length ops) s fuel) as (s' & ok & Hloop & Hv); try done;
    [rewrite R_empty; unfold A0, addrs; by rewrite length_reverse, length_seq, h_length
    |by rewrite R_empty|]. rewrite Hloop. simpl. rewrite R_empty in Hv. destruct ok.
  - destruct Hv as (order & [_ Hlin Hs [Hlen _] (vs & Hvs & Hok & Hids)]). rewrite R_empty in Hlin.
    rewrite Hcl in Hvs. simpl in Hvs. rewrite (call_ids_spec M A0 kind idf stepi) by done. simpl.
    do 2 eexists. split; [done|]. split; [rewrite !length_fmap; unfold zlen in Hlen; lia|].
    exists order. split; [rewrite <- Hst; by apply Lin_linearization|].
    apply Forall_fmap, Forall_fmap, Forall_true. intros x. simpl. rewrite list_lookup_middle by done.
    by rewrite Hvs, Hids.
  - destruct Hv as [Hno [Hlen _]]. do 2 eexists. split; [done|].
    split; [rewrite length_fmap; unfold zlen in Hlen; lia|].
    rewrite <- linearizable_iff. intros (order & Hl). rewrite <- Hst in Hl. by eapply Hno.
Qed.

(** An order of numbers as an order of operations. *)
Lemma linearization_ops order :
  linearization kind idf stepi A0 (Init M) order ->
  exists ordered, mapM (slice_get ops) order = Some ordered /\ ordered ≡ₚ ops
    /\ (forall a b, [a; b] `sublist_of` ordered -> ~ op_Return b < op_Call a)
    /\ executes M (Init M) ordered.
Proof.
  intros (l & (Hp & Hrt & Hex) & <-)%linearization_right_order. exists l.*2. split_and!.
  - apply mapM_Some. rewrite Forall2_fmap. apply Forall_Forall2_diag. by apply numbered_Forall.
  - by rewrite Hp, numbered_ops.
  - intros a b (x & y & Hs & -> & ->)%pair_sublist_fmap. by apply Hrt.
  - done.
Qed.

Lemma checkSingle_correct cp fuel :
  (search_cost (length ops) < fuel)%nat ->
  exists ok longest, checkSingle M h cp (fun _ => false) fuel = Some (ok, longest)
    /\ (ok = true <-> linearizable M ops).
Proof.
  intros Hfuel. destruct (checkSingle_spec cp fuel Hfuel) as (ok & longest & Hr & _ & Hv).
  exists ok, longest. split; [done|]. destruct ok; [|by split].
  split; [intros _|done]. destruct Hv as (order & Hl & _). apply linearizable_iff. exists order.
  apply linearization_Lin; [apply A0_wf|done].
Qed.
End PorcCheck.

(** ** All partitions *)

Lemma all_seen (seen : list nat) (k : nat) :
  NoDup seen -> (forall i, i ∈ seen -> (i < k)%nat) -> (k <= length seen)%nat ->
  forall i, (i < k)%nat -> i ∈ seen.
Proof.
  intros Hnd Hlt Hlen i Hi. assert (Hp : seen ≡ₚ seq 0 k).
  { apply NoDup_Permutation_bis; [by apply NoDup_ListNoDup|by rewrite length_seq|].
    intros x Hx%list_elem_of_In%Hlt. apply in_seq. lia. }
  rewrite Hp, elem_of_seq. lia.
Qed.

Lemma seen_all (seen : list nat) (k : nat) :
  (forall i, (i < k)%nat -> i ∈ seen) -> (k <= length seen)%nat.
Proof.
  intros Hin. rewrite <- (length_seq k 0). apply NoDup_incl_length.
  - apply NoDup_ListNoDup, NoDup_seq.
  - intros x Hx%in_seq. apply list_elem_of_In, Hin. lia.
Qed.

(** [seen] are the partitions whose results have arrived. *)
Record loop_inv (results : list bool) (arrivals : list Arrival) (seen : list nat) (ok : bool) : Prop := {
  li_nodup : NoDup seen;
  li_range : forall i, i ∈ seen -> (i < length results)%nat;
  li_fresh : forall i, i ∈ seen -> Result i ∉ arrivals;
  li_ok : if ok then forall i, i ∈ seen -> results !! i = Some true else false ∈ results;
}.

Lemma loop_inv_step results arrivals seen ok i b :
  NoDup (Result i :: arrivals) -> results !! i = Some b ->
  loop_inv results (Result i :: arrivals) seen ok ->
  loop_inv results arrivals (i :: seen) (ok && b).
Proof.
  intros [Hi Hnd]%NoDup_cons Hb [Hs Hr Hf Hok]. constructor.
  - constructor; [|done]. intros Hin. apply (Hf i Hin). left.
  - intros j [->|Hj]%elem_of_cons; [by eapply lookup_lt_Some|auto].
  - intros j [->|Hj]%elem_of_cons; [done|]. specialize (Hf j Hj). set_solver.
  - destruct ok; [|done]. destruct b; simpl; [|by eapply list_elem_of_lookup_2].
    intros j [->|Hj]%elem_of_cons; auto.
Qed.

Lemma parallel_loop_sound results info arrivals seen ok ok' timedOut :
  NoDup arrivals -> loop_inv results arrivals seen ok ->
  parallel_loop results info arrivals ok (length seen) = Some (ok', timedOut) ->
  (ok' = false -> false ∈ results)
  /\ (ok' = true -> timedOut = false -> Forall (eq true) results)
  /\ (timedOut = true -> Timeout ∈ arrivals).
Proof.
  revert seen ok. induction arrivals as [|ar arrivals IH]; intros seen ok Hnd Hinv Hr; [done|].
  destruct ar as [i|]; simpl in Hr.
  - apply bind_Some in Hr as (b & Hb & Hr).
    pose proof (loop_inv_step _ _ _ _ _ _ Hnd Hb Hinv) as Hinv'.
    pose proof Hinv' as [Hs Hrange _ Hok]. apply NoDup_cons in Hnd as [_ Hnd].
    destruct (negb (ok && b) && negb info) eqn:E1; [|destruct (Nat.leb_spec (length results) (S (length seen)))].
    + simplify_eq. apply andb_prop in E1 as [E1%negb_true_iff _]. rewrite E1 in *. by split_and!.
    + simplify_eq. split_and!; try done.
      * intros Hf. by rewrite Hf in Hok.
      * intros Ht _. rewrite Ht in Hok. apply Forall_lookup. intros j x Hx.
        rewrite (Hok j) in Hx; [congruence|]. eapply (all_seen (i :: seen)); [done|done|done|].
        by eapply lookup_lt_Some.
    + destruct (IH (i :: seen) (ok && b) Hnd Hinv' Hr) as (? & ? & ?). split_and!; auto.
      intros ?. right. auto.
  - simplify_eq. destruct Hinv as [_ _ _ Hok]. split_and!; try done; [|by left].
    intros ->. done.
Qed.

Lemma parallel_loop_total results info arrivals seen ok :
  NoDup arrivals -> loop_inv results arrivals seen ok ->
  (forall i, Result i ∈ arrivals -> (i < length results)%nat) ->
  (forall i, (i < length results)%nat -> i ∈ seen \/ Result i ∈ arrivals) ->
  (length seen < length results)%nat ->
  exists r, parallel_loop results info arrivals ok (length seen) = Some r.
Proof.
  revert seen ok. induction arrivals as [|ar arrivals IH]; intros seen ok Hnd Hinv Hr Hall Hlt.
  - exfalso. enough (length results <= length seen)%nat by lia. apply seen_all.
    intros i Hi. destruct (Hall i Hi); [done|set_solver].
  - destruct ar as [i|]; simpl; [|eauto].
    destruct (lookup_lt_is_Some_2 results i) as [b Hb]; [apply Hr; left|]. rewrite Hb. simpl.
    pose proof (loop_inv_step _ _ _ _ _ _ Hnd Hb Hinv) as Hinv'. apply NoDup_cons in Hnd as [_ Hnd].
    destruct (negb (ok && b) && negb info); [eauto|].
    destruct (Nat.leb_spec (length results) (S (length seen))); [eauto|].
    apply (IH (i :: seen)); try done; [set_solver|]. intros j Hj. specialize (Hall j Hj). set_solver.
Qed.

Section CheckOperations.
Context {In Out State : Type} `{!EqDecision State}.
Context (M : Model In Out State).
Context (sort_Sort : (entry In Out -> entry In Out -> bool) -> list (entry In Out) -> list (entry In Out)).

Lemma linearizable_fill ops : linearizable (fillDefault M) ops <-> linearizable M ops.
Proof.
  assert (Hex : forall order st, executes (fillDefault M) st order <-> executes M st order).
  { induction order as [|o order IH]; intros st; simpl; [done|].
    split; intros (st' & ? & ?%IH); eauto. }
  unfold linearizable. by setoid_rewrite Hex.
Qed.

Lemma checkSingle_all (parts : list (list (Operation In Out))) cp fuel :
  (forall eqv, Equal M = Some eqv -> forall s s', eqv s s' = true -> s = s') ->
  sorts sort_Sort -> Forall (Forall (fun o => op_Call o <= op_Return o)) parts ->
  Forall (fun p => search_cost (length p) < fuel)%nat parts ->
  exists results,
    mapM (fun h => fst <$> checkSingle (fillDefault M) h cp (fun _ => false) fuel)
      (makeEntries sort_Sort <$> parts) = Some results
    /\ Forall2 (fun p ok => ok = true <-> linearizable M p) parts results.
Proof.
  intros Heq Hsort Ht Hf. induction Ht as [|p parts Hp _ IH]; [by exists []|].
  apply Forall_cons in Hf as [Hfp Hf]. destruct (IH Hf) as (results & Hr & Hv).
  destruct (checkSingle_correct (fillDefault M) (default ShallowEqual (Equal M)) eq_refl) with
    (sort_Sort := sort_Sort) (ops := p) (cp := cp) (fuel := fuel) as (ok & l & Hok & Hlin); try done.
  { destruct (Equal M) as [eqv|] eqn:E; simpl; [by apply Heq|]. intros s s'. apply bool_decide_eq_true. }
  exists (ok :: results). split; [|constructor; [by rewrite Hlin, linearizable_fill|done]].
  rewrite fmap_cons. apply mapM_Some. apply mapM_Some in Hr. constructor; [|done].
  unfold h in Hok. by rewrite Hok.
Qed.

(** The verdict about a history: [Ok] means that every partition is linearizable, [Illegal]
    that one is not, and only a timeout leaves the question open; when there is at least one
    partition, enough fuel and the results of all partitions lead to a verdict. *)
Lemma checkOperations_verdict (history : list (Operation In Out)) (verbose : bool)
    (arrivals : list Arrival) (fuel : nat) :
  let parts := default NoPartition (Partition M) history in
  let verdict := checkOperations sort_Sort M history verbose arrivals fuel in
  (forall eqv, Equal M = Some eqv -> forall s s', eqv s s' = true -> s = s') ->
  sorts sort_Sort ->
  Forall (Forall (fun o => op_Call o <= op_Return o)) parts ->
  Forall (fun p => search_cost (length p) < fuel)%nat parts ->
  NoDup arrivals -> (forall i, Result i ∈ arrivals -> (i < length parts)%nat) ->
  (forall r, verdict = Some r ->
     match r with
     | Ok => Forall (linearizable M) parts
     | Illegal => ~ Forall (linearizable M) parts
     | Unknown => Timeout ∈ arrivals
     end)
  /\ (parts <> [] -> (forall i, (i < length parts)%nat -> Result i ∈ arrivals) ->
      exists r, verdict = Some r).
Proof.
  intros parts verdict Heq Hsort Ht Hf Hnd Hrange. subst verdict.
  destruct (checkSingle_all parts verbose fuel Heq Hsort Ht Hf) as (results & Hres & Hv).
  assert (Hunf : checkOperations sort_Sort M history verbose arrivals fuel
    = '(ok, timedOut) ← parallel_loop results verbose arrivals true 0;
      Some (if negb (ok : bool) then Illegal else if (timedOut : bool) then Unknown else Ok)).
  { unfold checkOperations, checkParallel. simpl. fold parts. rewrite Hres. done. }
  rewrite Hunf. clear Hunf Hres. pose proof (Forall2_length _ _ _ Hv) as Hlen.
  assert (Hinv : loop_inv results arrivals [] true).
  { constructor; [constructor|set_solver..]. }
  split.
  - intros r Hr. apply bind_Some in Hr as ([ok timedOut] & Hloop & Hr). simplify_eq.
    destruct (parallel_loop_sound _ _ _ [] _ _ _ Hnd Hinv Hloop) as (Hbad & Hgood & Htime).
    destruct ok; simpl; [destruct timedOut; [by apply Htime|]|].
    + specialize (Hgood eq_refl eq_refl). clear -Hv Hgood.
      induction Hv as [|p ok ps oks Hp _ IH]; [constructor|].
      apply Forall_cons in Hgood as [<- Hgood]. constructor; [by apply Hp|auto].
    + specialize (Hbad eq_refl). clear -Hv Hbad.
      induction Hv as [|p ok ps oks Hp _ IH]; [set_solver|]. rewrite Forall_cons.
      intros [Hlin Hrest]. apply elem_of_cons in Hbad as [<-|Hbad]; [|by apply IH].
      by apply Hp in Hlin.
  - intros Hne Hall.
    destruct (parallel_loop_total results verbose arrivals [] true) as ([ok timedOut] & Hloop);
      [done|done|by rewrite <- Hlen|rewrite <- Hlen; auto|destruct parts, results; simpl in *; (done || lia)|].
    simpl in Hloop. rewrite Hloop. simpl. eauto.
Qed.

(** Without a timeout the answer is a decision: whatever order the partitions are done in,
    [CheckOperations] answers, and it answers [true] exactly if all are linearizable. *)
Theorem CheckOperations_decides (history : list (Operation In Out)) (order : list nat) (fuel : nat) :
  let parts := default NoPartition (Partition M) history in
  (forall eqv, Equal M = Some eqv -> forall s s', eqv s s' = true -> s = s') ->
  sorts sort_Sort ->
  Forall (Forall (fun o => op_Call o <= op_Return o)) parts ->
  Forall (fun p => search_cost (length p) < fuel)%nat parts ->
  parts <> [] -> order ≡ₚ seq 0 (length parts) ->
  exists b, CheckOperations sort_Sort M history order fuel = Some b
    /\ (b = true <-> Forall (linearizable M) parts).
Proof.
  intros parts Heq Hsort Ht Hf Hne Hord.
  assert (Hin : forall i, Result i ∈ Result <$> order <-> (i < length parts)%nat).
  { intros i. rewrite list_elem_of_fmap. setoid_rewrite Hord. setoid_rewrite elem_of_seq. split.
    - intros (j & [= ->] & ?). lia.
    - intros ?. exists i. split; [done|lia]. }
  destruct (checkOperations_verdict history false (Result <$> order) fuel) as [Hv Hr]; try done.
  - apply (NoDup_fmap_2_strong Result); [intros i j _ _ [=]; done|]. rewrite Hord. apply NoDup_seq.
  - intros i. apply Hin.
  - destruct (Hr Hne) as [r Hres]; [intros i; apply Hin|]. specialize (Hv r Hres).
    unfold CheckOperations. rewrite Hres. simpl. eexists. split; [done|].
    destruct r; simpl; [|done..]. apply list_elem_of_fmap in Hv as (? & ? & _). done.
Qed.

(** C34.  The search of the linearizability checker is right and ends: about the entries of
    operations that return no earlier than they are called, within [search_cost] iterations,
    [checkSingle] answers [true] exactly when the operations are linearizable; every element of
    [longest] is then the same order of all operations, which is a linearization of them. *)
Theorem checkSingle_linearizable (ops : list (Operation In Out))
    (eqv : State -> State -> bool) (computePartial : bool) (fuel : nat) :
  Equal M = Some eqv -> (forall s s', eqv s s' = true -> s = s') -> sorts sort_Sort ->
  Forall (fun o => op_Call o <= op_Return o) ops -> (search_cost (length ops) < fuel)%nat ->
  exists ok longest,
    checkSingle M (makeEntries sort_Sort ops) computePartial (fun _ => false) fuel
      = Some (ok, longest)
    /\ (ok = true <-> linearizable M ops) /\ length longest = length ops
    /\ (ok = true -> exists order ordered,
          Forall (eq (Some order)) longest /\ mapM (slice_get ops) order = Some ordered
          /\ ordered ≡ₚ ops /\ executes M (Init M) ordered
          /\ forall a b, [a; b] `sublist_of` ordered -> ~ op_Return b < op_Call a).
Proof.
  intros Heq Heqv Hsort Ht Hf.
  destruct (checkSingle_spec M eqv Heq Heqv sort_Sort Hsort ops Ht computePartial fuel Hf)
    as (ok & longest & Hr & Hlen & Hv). exists ok, longest. split; [exact Hr|].
  destruct ok; [|by split_and!]. destruct Hv as (order & Hl & Hall).
  destruct (linearization_ops M eqv Heq Heqv sort_Sort Hsort ops Ht order Hl) as (ordered & Hm & Hp & Hrt & Hex).
  split; [split; [intros _; by exists ordered|done]|]. split; [done|]. intros _. eauto 10.
Qed.
End CheckOperations.
