(* ===== verification/PorcPartial.v ===== *)
(** * Partial linearizations

    What the search collects in [longest] for the visualization, at whatever point it is killed:
    sequences of operations that respect real time and that the model can execute, each under the
    numbers of its own operations. *)

From S2P Require Import Prelude Porcupine PorcBitset PorcList PorcLin PorcSearch PorcCheck.
Import Porcupine.

(** ** Sequences of a history *)

Section Partial.
Context {A State : Type} `{!EqDecision A} (kind : A -> entryKind) (idf : A -> Z).
Context (stepi : State -> Z -> option State).
Implicit Types (l : list A) (order : list Z).

Definition run_ids (s : State) order : option State := run_steps stepi s order.

Lemma run_legal s order st : run_ids s order = Some st -> legal stepi s order.
Proof.
  revert s. induction order as [|i order IH]; intros s Hr; simpl; [done|].
  unfold run_ids in Hr. rewrite run_steps_cons in Hr. apply bind_Some in Hr as (s' & Hs & Hr).
  exists s'. split; [done|]. by apply IH.
Qed.

(** A linearization of some of the operations: with an operation come all that precede it, in
    front of it. *)
Record partial_linearization l (s : State) order : Prop := {
  pl_nodup : NoDup order;
  pl_called : forall i, i ∈ order -> called kind idf l i;
  pl_realtime : forall i j, i ∈ order -> prec kind idf l j i -> [j; i] `sublist_of` order;
  pl_legal : legal stepi s order;
}.
End Partial.

(** ** The search *)

Section PorcPartial.
Context {In Out State : Type} `{!EqDecision State}.
Context (model : Model In Out State) (eqv : State -> State -> bool).
Context (Heq : Equal model = Some eqv) (Heqv : forall s s', eqv s s' = true -> s = s').
Context (A0 : list nat) (kind : nat -> entryKind) (idf : nat -> Z) (n : Z) (head : nat).
Context (stepi : State -> Z -> option State) (cp : bool).
Context (Hwf : history_wf kind idf A0) (Hids : forall a, a ∈ A0 -> 0 <= idf a < n).
Context (Hhead : head ∉ A0) (init : State).
Implicit Types (hp : list (node In Out)) (L : gset Z) (s : search In Out State).

Notation R := (R A0 idf).
Notation frame := (frame model A0 kind idf n head stepi).
Notation pushed := (pushed model A0 kind idf n head stepi).
Notation sound := (sound model A0 kind idf stepi).
Notation calls_ok := (calls_ok A0).
Notation partial := (partial_linearization kind idf stepi A0 init).

Definition ids (calls : list (callsEntry State)) : list Z := (fun v => idf (ca_entry v)) <$> calls.

(** How a state with linearized calls came about. *)
Inductive stack : search In Out State -> gset Z -> Prop :=
  | stack_nil s : s_calls s = [] -> s_state s = init -> stack s ∅
  | stack_push s0 s1 s2 L a X Y :
      stack s0 L -> frame s0 L -> R L = X ++ a :: Y -> Forall (fun x => kind x = callEntry) X ->
      kind a = callEntry -> pushed s0 s1 L a -> s_heap s2 = s_heap s1 ->
      s_linearized s2 = s_linearized s1 -> s_calls s2 = s_calls s1 -> s_state s2 = s_state s1 ->
      stack s2 ({[idf a]} ∪ L).

Lemma stack_same s s' L :
  s_heap s' = s_heap s -> s_linearized s' = s_linearized s -> s_calls s' = s_calls s ->
  s_state s' = s_state s -> stack s L -> stack s' L.
Proof.
  intros Hh Hb Hc Hst Hs. destruct Hs as [s Hs1 Hs2|s0 s1 s2 L a X Y ??????????].
  - constructor; congruence.
  - eapply (stack_push s0 s1); try done; congruence.
Qed.

Lemma prec_R L j i : prec kind idf A0 j i -> j ∉ L -> i ∉ L -> prec kind idf (R L) j i.
Proof.
  intros (x & y & Hs & Hkx & <- & Hky & <-) Hj Hi. exists x, y. split; [|done].
  by apply pair_sublist_filter.
Qed.

(** The linearized calls are a partial linearization of exactly the operations of [L]. *)
Lemma stack_partial s L :
  stack s L -> partial (ids (s_calls s)) /\ run_ids stepi init (ids (s_calls s)) = Some (s_state s)
    /\ forall i, i ∈ ids (s_calls s) <-> i ∈ L.
Proof.
  induction 1 as [s Hc Hst|s0 s1 s2 L a X Y _ (Hpl & Hrun & HL) Hf HR HX Hk Hpu _ _ Hc Hst].
  - rewrite Hc, Hst. split; [|split; [done|set_solver]].
    constructor; [constructor|set_solver|set_solver|done].
  - assert (HaR : a ∈ R L) by (rewrite HR; set_solver). destruct (R_sub _ _ _ _ HaR) as [Ha0 HaL].
    assert (Hids2 : ids (s_calls s2) = ids (s_calls s0) ++ [idf a]).
    { rewrite Hc, (pu_calls _ _ _ _ _ _ _ _ _ _ _ Hpu). unfold ids. by rewrite fmap_app. }
    assert (Hrun2 : run_ids stepi init (ids (s_calls s2)) = Some (s_state s2)).
    { rewrite Hids2. unfold run_ids in *. rewrite run_steps_app, Hrun. simpl.
      rewrite run_steps_cons, (pu_step _ _ _ _ _ _ _ _ _ _ _ Hpu), Hst. done. }
    split; [|split; [done|rewrite Hids2; intros i; rewrite elem_of_app, HL; set_solver]].
    destruct Hpl as [Hnd Hcalled Hrt _]. rewrite Hids2 in *. constructor.
    + apply NoDup_app. split; [done|]. split; [|apply NoDup_singleton].
      intros i Hi%HL ->%list_elem_of_singleton. done.
    + intros i [Hi| ->%list_elem_of_singleton]%elem_of_app; [by apply Hcalled|]. by exists a.
    + intros i j [Hi| ->%list_elem_of_singleton]%elem_of_app Hp.
      * by apply sublist_inserts_r, Hrt.
      * apply pair_sublist_app; [|set_solver]. apply HL. destruct (decide (j ∈ L)); [done|exfalso].
        apply (prec_R L) in Hp; [|done..]. revert Hp. rewrite HR. apply no_prec; [|done..].
        rewrite <- HR. by apply R_wf.
    + by eapply run_legal.
Qed.

(** ** [longest] *)

Definition longest_good (seqs : list (list Z)) (longest : list (option nat)) : Prop :=
  Forall partial seqs
  /\ forall i q, longest !! i = Some (Some q) -> exists sq, seqs !! q = Some sq /\ Z.of_nat i ∈ sq.

Lemma update_longest_good hp calls todo seq seqs longest seqs' longest' :
  sound hp -> calls_ok calls -> (forall v, v ∈ todo -> v ∈ calls) -> partial (ids calls) ->
  longest_good seqs longest -> (forall q, seq = Some q -> seqs !! q = Some (ids calls)) ->
  update_longest hp calls todo seq seqs longest = Some (seqs', longest') -> longest_good seqs' longest'.
Proof.
  intros Hs Hc Ht Hp. revert seq seqs longest.
  induction todo as [|v todo IH]; intros seq seqs longest Hg Hq Hr; simpl in Hr; [by simplify_eq|].
  assert (Hv : v ∈ calls) by (apply Ht; left). pose proof (proj1 (Forall_forall _ _) Hc v Hv) as Hv0.
  assert (Ht' : forall v, v ∈ todo -> v ∈ calls) by (intros w Hw; apply Ht; by right).
  destruct (Hs _ Hv0) as (nd & Hnd & Hid & _). rewrite Hnd in Hr. simpl in Hr. rewrite Hid in Hr.
  apply bind_Some in Hr as (old & Hold & Hr). apply bind_Some in Hr as (b & _ & Hr).
  destruct b; [|by apply IH in Hr].
  apply bind_Some in Hr as ([q seqs1] & Hq1 & Hr). apply bind_Some in Hr as (longest1 & Hl1 & Hr).
  assert (Hseq1 : seqs1 !! q = Some (ids calls) /\ Forall partial seqs1
                  /\ forall k x, seqs !! k = Some x -> seqs1 !! k = Some x).
  { destruct seq as [q0|]; [simplify_eq; split_and!; [by apply Hq|apply Hg|done]|].
    rewrite (call_ids_spec _ _ _ _ _ _ _ Hs Hc) in Hq1. simplify_eq/=. split_and!.
    - by apply list_lookup_middle.
    - apply Forall_app. split; [apply Hg|]. by apply Forall_singleton.
    - intros k x Hk. by apply lookup_app_l_Some. }
  destruct Hseq1 as (Hq2 & Hall & Hext). apply (IH Ht' (Some q) seqs1 longest1) in Hr; [done| |by intros ? [= <-]].
  split; [done|]. apply slice_set_inv in Hl1 as [Hrange ->].
  intros i q' Hi. apply list_lookup_insert_Some in Hi as [(<- & [= <-] & _)|[_ Hi]].
  - exists (ids calls). split; [done|]. rewrite Z2Nat.id by lia. unfold ids. by apply (list_elem_of_fmap_2 (fun v => idf (ca_entry v))).
  - destruct (proj2 Hg i q' Hi) as (sq & Hsq & Hin). exists sq. split; [by apply Hext|done].
Qed.

(** ** The invariant of the loop *)

(** The search is at [Y], having passed over the calls of [X]. *)
Record searching s L X Y : Prop := {
  se_frame : frame s L;
  se_stack : stack s L;
  se_split : R L = X ++ Y;
  se_calls : Forall (fun x => kind x = callEntry) X;
  se_entry : s_entry s = first Y None;
  se_good : longest_good (s_seqs s) (s_longest s);
}.

Lemma check_step_searching s L X Y :
  searching s L X Y -> R L <> [] ->
  exists s' b L' X' Y', check_step model cp head s = Some (s', b) /\ searching s' L' X' Y'.
Proof.
  intros [Hf Hst HR HX He Hg] Hne. destruct Y as [|a Y].
  { exfalso. rewrite app_nil_r in HR. apply (R_has_return A0 kind idf Hwf L Hne). by rewrite HR. }
  assert (HaR : a ∈ R L) by (rewrite HR; set_solver). destruct (R_sub _ _ _ _ HaR) as [Ha0 HaL].
  destruct (kind a) eqn:Hk.
  - destruct (step_call_cases model eqv Heq Heqv A0 kind idf n head stepi cp Hwf Hids Hhead s L a X Y Hf HR He Hk)
      as [[_ Hs]|(s' & Hpu & Hsq & Hlo & Hs)].
    + do 2 eexists. exists L, (X ++ [a]), Y. split; [exact Hs|]. constructor; try done.
      * eapply frame_same; [..|exact Hf]; try done. apply Hf.
      * by apply (stack_same s).
      * by rewrite HR, <- app_assoc.
      * apply Forall_app. split; [done|]. by constructor.
    + do 2 eexists. exists ({[idf a]} ∪ L), [], (R ({[idf a]} ∪ L)). split; [exact Hs|].
      constructor; try done; [apply Hpu|by eapply stack_push|apply Hpu|by rewrite Hsq, Hlo].
  - pose proof (fr_sound _ _ _ _ _ _ _ _ _ Hf) as Hsound.
    destruct Hst as [s Hc0 Hs0|s0 s1 s2 L a0 X0 Y0 Hst0 Hf0 HR0 HX0 Hk0 Hpu Hh Hb Hc Hs].
    + destruct (Hsound a Ha0) as (nd & Hnd & _ & Hm). rewrite Hk in Hm.
      exists s, false, ∅, X, (a :: Y). split; [|by constructor; [|constructor|..]].
      unfold check_step. rewrite He. simpl. rewrite Hnd. simpl. rewrite Hm. unfold check_return. by rewrite Hc0.
    + destruct (step_return model eqv Heq Heqv A0 kind idf n head stepi cp Hwf Hids Hhead s0 s1 s2 L a0 X0 Y0 a) as
        (seqs & longest & Hok & Hup & Hstep); try done; [apply Hf|].
      do 2 eexists. exists L, (X0 ++ [a0]), Y0. split; [exact Hstep|]. constructor; try done.
      * eapply frame_same; [..|exact Hf0]; done.
      * by apply (stack_same s0).
      * by rewrite HR0, <- app_assoc.
      * apply Forall_app. split; [done|]. by constructor.
      * simpl. destruct cp; [|by injection Hup as <- <-].
        assert (Hst2 : stack s2 ({[idf a0]} ∪ L)) by (by eapply stack_push).
        apply (update_longest_good (s_heap s2) (s_calls s2) (s_calls s2) None (s_seqs s2) (s_longest s2)); try done.
        -- apply Hf.
        -- by apply (stack_partial s2 _ Hst2).
Qed.

(** Wherever the loop is stopped, and when it ends by itself. *)
Lemma check_loop_searching kill fuel it s L X Y s' ok :
  searching s L X Y -> check_loop model cp kill head fuel it s = Some (s', ok) ->
  exists L' X' Y', searching s' L' X' Y' /\ (ok = true -> R L' = []).
Proof.
  revert it s L X Y. induction fuel as [|fuel IH]; intros it s L X Y Hs Hr; simpl in Hr;
    rewrite (frame_next _ _ _ _ _ _ _ _ _ (se_frame _ _ _ _ Hs)) in Hr; simpl in Hr;
    destruct (R L) as [|a l] eqn:HR; simpl in Hr; try done.
  - injection Hr as <- <-. eauto.
  - injection Hr as <- <-. eauto.
  - destruct (kill it); [injection Hr as <- <-; by exists L, X, Y|].
    destruct (check_step_searching s L X Y Hs) as (s1 & b & L1 & X1 & Y1 & Hs1 & Hse1); [by rewrite HR|].
    rewrite Hs1 in Hr. simpl in Hr. destruct b; [by eapply IH|]. injection Hr as <- <-. by exists L1, X1, Y1.
Qed.

(** Killing the search only shortens it. *)
Lemma check_loop_killed kill fuel it s r :
  check_loop model cp (fun _ => false) head fuel it s = Some r ->
  is_Some (check_loop model cp kill head fuel it s).
Proof.
  revert it s. induction fuel as [|fuel IH]; intros it s Hr; simpl in *.
  - destruct (get_next (s_heap s) head) as [[]|]; simpl in *; done.
  - destruct (get_next (s_heap s) head) as [[]|]; simpl in *; try done.
    destruct (kill it); [by eexists|].
    destruct (check_step model cp head s) as [[s1 b]|]; simpl in *; [|done].
    destruct b; [by apply (IH (S it) s1)|by eexists].
Qed.
End PorcPartial.

(** ** In terms of operations *)

(** A linearization of some of the operations, as the list of their numbers. *)
Definition valid_partial {In Out State} (M : Model In Out State) (ops : list (Operation In Out))
    (order : list Z) : Prop :=
  NoDup order
  /\ (exists l, mapM (slice_get ops) order = Some l /\ executes M (Init M) l)
  /\ forall i j o o', i ∈ order -> slice_get ops i = Some o -> slice_get ops j = Some o' ->
       op_Return o' < op_Call o -> [j; i] `sublist_of` order.

Section Operations.
Context {In Out State : Type} `{!EqDecision State}.
Context (M : Model In Out State) (eqv : State -> State -> bool).
Context (Heq : Equal M = Some eqv) (Heqv : forall s s', eqv s s' = true -> s = s').
Context (sort_Sort : (entry In Out -> entry In Out -> bool) -> list (entry In Out) -> list (entry In Out)).
Context (Hsort : sorts sort_Sort).
Context (ops : list (Operation In Out)) (Htimes : Forall (fun o => op_Call o <= op_Return o) ops).

Notation h := (makeEntries sort_Sort ops).
Notation kind := (PorcCheck.kind sort_Sort ops).
Notation idf := (PorcCheck.idf sort_Sort ops).
Notation A0 := (PorcCheck.A0 sort_Sort ops).
Notation stepi := (PorcCheck.stepi M ops).

Lemma partial_valid order : partial_linearization kind idf stepi A0 (Init M) order -> valid_partial M ops order.
Proof.
  intros [Hnd Hcalled Hrt Hleg]. split; [done|]. split.
  - assert (Hex : exists l, l.*1 = order /\ Forall (fun x => slice_get ops x.1 = Some x.2) l).
    { clear Hnd Hrt Hleg. induction order as [|i order IH]; [by exists []|].
      destruct (proj1 (called_iff M eqv Heq Heqv sort_Sort Hsort ops Htimes i) (Hcalled i (list_elem_of_here _ _))) as [o Ho].
      destruct IH as (l & <- & Hl); [intros j Hj; apply Hcalled; by right|].
      exists ((i, o) :: l). split; [done|]. by constructor. }
    destruct Hex as (l & <- & Hl). exists l.*2. split; [|by apply legal_executes in Hleg].
    apply mapM_Some. rewrite Forall2_fmap. by apply Forall_Forall2_diag.
  - intros i j o o' Hi Ho Ho' Hlt. apply Hrt; [done|]. by apply (prec_iff M eqv Heq Heqv sort_Sort Hsort ops Htimes i o j o').
Qed.

(** However long the search runs: it returns; what it has collected are partial linearizations,
    and under number [i] one with operation [i]. *)
Lemma checkSingle_partials kill fuel :
  (search_cost (length ops) < fuel)%nat ->
  exists ok seqs longest, checkSingle_pointers M h true kill fuel = Some (ok, seqs, longest)
    /\ length longest = length ops /\ Forall (valid_partial M ops) seqs
    /\ forall i q, longest !! i = Some (Some q) -> exists sq, seqs !! q = Some sq /\ Z.of_nat i ∈ sq.
Proof.
  intros Hfuel.
  destruct (check_init_spec M eqv Heq Heqv sort_Sort Hsort ops Htimes) as
    (s & head & Hi & Hhead & Hf & He & Hca & Hcl & Hst & Hsq & Hno).
  pose proof (A0_wf M eqv Heq Heqv sort_Sort Hsort ops Htimes) as Hwf.
  pose proof (A0_ids M eqv Heq Heqv sort_Sort Hsort ops Htimes) as Hids.
  pose proof (R_empty M eqv Heq Heqv sort_Sort Hsort ops Htimes) as HR.
  assert (Hse : searching M A0 kind idf (Z.of_nat (length ops)) head stepi (Init M) s ∅ [] A0).
  { constructor; try done; [by constructor|]. rewrite Hsq. split; [done|].
    intros i q Hq. by apply (Forall_lookup_1 _ _ _ _ Hno) in Hq. }
  destruct (loop_verdict M eqv Heq Heqv A0 kind idf (Z.of_nat (length ops)) head stepi true Hwf
    Hids Hhead (length ops) s fuel) as (s' & ok & Hloop & _); try done.
  { rewrite HR. unfold PorcCheck.A0, addrs. rewrite length_reverse, length_seq. by eapply h_length. }
  { by rewrite HR. }
  apply (check_loop_killed M head true kill) in Hloop as [[s1 ok1] Hloop].
  destruct (check_loop_searching M eqv Heq Heqv A0 kind idf (Z.of_nat (length ops)) head stepi true Hwf Hids
    Hhead (Init M) kill fuel 0 s ∅ [] A0 s1 ok1 Hse Hloop) as (L & X & Y & [Hf1 Hst1 _ _ _ [Hall Hin]] & Hend).
  destruct (fr_longest _ _ _ _ _ _ _ _ _ Hf1) as [Hlen _].
  unfold checkSingle_pointers. unfold PorcCheck.h in Hi. rewrite Hi. simpl. rewrite Hloop. simpl.
  assert (Hvalid : Forall (valid_partial M ops) (s_seqs s1)).
  { eapply Forall_impl; [exact Hall|]. apply partial_valid. }
  destruct ok1.
  - rewrite (call_ids_spec M A0 kind idf stepi) by apply Hf1. simpl.
    destruct (stack_partial M eqv Heq Heqv A0 kind idf _ head stepi Hwf Hids Hhead (Init M) s1 L Hst1) as (Hp & _ & HL).
    do 3 eexists. split; [done|]. split; [rewrite length_fmap; unfold zlen in Hlen; lia|]. split.
    { apply Forall_app. split; [done|]. apply Forall_singleton. by apply partial_valid. }
    intros i q Hq. rewrite list_lookup_fmap in Hq. apply fmap_Some in Hq as (o & Ho & [= ->]).
    exists (ids idf (s_calls s1)). split; [by apply list_lookup_middle|]. apply HL.
    apply lookup_lt_Some in Ho. destruct (decide (Z.of_nat i ∈ L)); [done|exfalso].
    destruct (proj2 (called_iff M eqv Heq Heqv sort_Sort Hsort ops Htimes (Z.of_nat i))) as (a & Ha & _ & Hid).
    { apply slice_get_total. unfold zlen in *. lia. }
    specialize (Hend eq_refl). apply (not_elem_of_nil a). rewrite <- Hend.
    apply list_elem_of_filter. by rewrite Hid.
  - do 3 eexists. split; [done|]. split; [unfold zlen in Hlen; lia|]. done.
Qed.
End Operations.
