(* ===== verification/PorcVis.v ===== *)
(** * What the visualization of a history shows

    [computeVisualizationData] of [src/porcupine/visualization.go] turns what
    [CheckOperationsVerbose] returns into the data of the page: the operations, the partial
    linearizations with the states along them, and for each operation the longest one with it.
    It panics if a partial linearization is none; [visualization_shows] says that it does not,
    and that the data are right.  The page itself is a constant. *)

From S2P Require Import Prelude Porcupine PorcBitset PorcList PorcLin PorcSearch PorcCheck PorcPartial.
Import Porcupine.

Module PorcVis.

Record historyElement := mkHistoryElement {
  he_ClientId : Z; he_Start : Z; he_End : Z; he_Description : string }.

Record linearizationStep := mkLinearizationStep { ls_Index : Z; ls_StateDescription : string }.

Record partitionVisualizationData := mkData {
  History : list historyElement; PartialLinearizations : list (list linearizationStep);
  Largest : gmap Z Z }.

Section PorcVis.
Context {In Out State : Type} `{!EqDecision State}.
(** The model's functions, or the defaults of [fillDefault]. *)
Context (DescribeOperation : In -> Out -> string) (DescribeState : State -> string).
(** [sort.Slice] may order equal elements as it likes. *)
Context (sort_Slice : (list Z -> list Z -> bool) -> list (list Z) -> list (list Z)).
Implicit Types (model : Model In Out State).

(** [history], [callValue] and [returnValue]. *)
Abbreviation HistoryState := (list historyElement * gmap Z (In + Out) * gmap Z (In + Out))%type.

Definition history_entry (st : HistoryState) (elem : entry In Out) : option HistoryState :=
  let '(history, callValue, returnValue) := st in
  el ← slice_get history (en_id elem);
  match en_kind elem with
  | callEntry =>
      history ← slice_set history (en_id elem)
        (mkHistoryElement (en_clientId elem) (en_time elem) (he_End el) (he_Description el));
      Some (history, <[en_id elem := en_value elem]> callValue, returnValue)
  | returnEntry =>
      input ← as_input (callValue !! en_id elem);
      output ← as_output (Some (en_value elem));
      history ← slice_set history (en_id elem)
        (mkHistoryElement (he_ClientId el) (he_Start el) (en_time elem) (DescribeOperation input output));
      Some (history, callValue, <[en_id elem := en_value elem]> returnValue)
  end.

(** [largestSize] and [largestIndex]. *)
Abbreviation LargestState := (gmap Z Z * gmap Z Z)%type.

Definition largest_entry (i len : Z) (lg : LargestState) (histId : Z) : LargestState :=
  let '(largestSize, largestIndex) := lg in
  if default 0 (largestSize !! histId) <? len
  then (<[histId := len]> largestSize, <[histId := i]> largestIndex)
  else lg.

(** The loop over the partial linearization of index [i] and length [len], from [state] on. *)
Fixpoint vis_partial model (callValue returnValue : gmap Z (In + Out)) (i len : Z) (partial : list Z)
    (state : State) (lg : LargestState) : option (list linearizationStep * LargestState) :=
  match partial with
  | [] => Some ([], lg)
  | histId :: partial =>
      input ← as_input (callValue !! histId);
      output ← as_output (returnValue !! histId);
      let '(ok, state) := Step model state input output in
      if negb ok then None
      else
        let stateDesc := DescribeState state in
        '(steps, lg) ← vis_partial model callValue returnValue i len partial state (largest_entry i len lg histId);
        Some (mkLinearizationStep histId stateDesc :: steps, lg)
  end.

(** The loop over the partial linearizations, from index [i] on. *)
Fixpoint vis_partials model (callValue returnValue : gmap Z (In + Out)) (i : Z) (partials : list (list Z))
    (lg : LargestState) : option (list (list linearizationStep) * LargestState) :=
  match partials with
  | [] => Some ([], lg)
  | partial :: partials =>
      '(steps, lg) ← vis_partial model callValue returnValue i (zlen partial) partial (Init model) lg;
      '(rest, lg) ← vis_partials model callValue returnValue (i + 1) partials lg;
      Some (steps :: rest, lg)
  end.

Definition longer (x y : list Z) : bool := zlen y <? zlen x.

Definition vis_partition model (entries : list (entry In Out)) (partials : list (list Z))
    : option partitionVisualizationData :=
  let n := Z.quot (zlen entries) 2 in
  '(history, callValue, returnValue) ←
    run_steps history_entry (replicate (Z.to_nat n) (mkHistoryElement 0 0 0 ""), ∅, ∅) entries;
  let partials := sort_Slice longer partials in
  '(linearizations, (_, largestIndex)) ← vis_partials model callValue returnValue 0 partials (∅, ∅);
  Some (mkData history linearizations largestIndex).

Definition computeVisualizationData model (info : linearizationInfo In Out)
    : option (list partitionVisualizationData) :=
  let model := fillDefault model in
  mapM (fun '(i, entries) =>
    partials ← li_partialLinearizations info !! i;
    vis_partition model entries partials)
  (zip (seq 0 (length (li_history info))) (li_history info)).
End PorcVis.
End PorcVis.
Import PorcVis.

(** ** The longest linearization with an operation *)

(** What has been seen: for each index the length of the linearization and its elements so far. *)
Record largest_ok (seen : list (Z * list Z)) (lg : gmap Z Z * gmap Z Z) : Prop := {
  lo_index : forall x i, lg.2 !! x = Some i -> exists len ids,
    0 <= i /\ seen !! Z.to_nat i = Some (len, ids) /\ x ∈ ids /\ lg.1 !! x = Some len;
  lo_size : forall x k len ids, seen !! k = Some (len, ids) -> x ∈ ids ->
    exists z, lg.1 !! x = Some z /\ len <= z /\ is_Some (lg.2 !! x);
  lo_both : forall x z, lg.1 !! x = Some z -> is_Some (lg.2 !! x);
}.

Lemma largest_entry_ok seen len ids lg x :
  largest_ok (seen ++ [(len, ids)]) lg -> 0 < len ->
  largest_ok (seen ++ [(len, ids ++ [x])]) (largest_entry (zlen seen) len lg x).
Proof.
  destruct lg as [sz ix]. intros [Hi Hs Hb] Hlen. simpl in *.
  assert (Hlast : forall l : list Z, (seen ++ [(len, l)]) !! Z.to_nat (zlen seen) = Some (len, l)).
  { intros l. unfold zlen. rewrite Nat2Z.id. by apply list_lookup_middle. }
  assert (Hold : forall k l j, (seen ++ [(len, ids)]) !! k = Some (l, j) ->
            exists j', (seen ++ [(len, ids ++ [x])]) !! k = Some (l, j') /\ j ⊆ j').
  { intros k l j Hk. apply lookup_app_Some in Hk as [Hk|[Hk1 Hk]].
    - exists j. split; [by apply lookup_app_l_Some|done].
    - rewrite lookup_app_r by done. destruct (k - length seen)%nat; [|done]. simplify_eq/=.
      eexists. split; [done|]. set_solver. }
  assert (Hnew : forall k l j y, (seen ++ [(len, ids ++ [x])]) !! k = Some (l, j) -> y ∈ j ->
            (y = x /\ l = len) \/ exists j', (seen ++ [(len, ids)]) !! k = Some (l, j') /\ y ∈ j').
  { intros k l j y Hk Hy. apply lookup_app_Some in Hk as [Hk|[Hk1 Hk]].
    - right. exists j. split; [by apply lookup_app_l_Some|done].
    - destruct (k - length seen)%nat eqn:E; [|done]. simplify_eq/=.
      apply elem_of_app in Hy as [Hy|Hy%list_elem_of_singleton]; [right|by left].
      exists ids. rewrite lookup_app_r, E by done. done. }
  destruct (Z.ltb_spec (default 0 (sz !! x)) len) as [Hlt|Hge]; constructor; simpl.
  - intros y i Hy. destruct (decide (y = x)) as [->|Hne].
    + rewrite lookup_insert_eq in Hy. injection Hy as <-. exists len, (ids ++ [x]).
      rewrite lookup_insert_eq. split_and!; [apply zlen_nonneg|apply Hlast|set_solver|done].
    + rewrite lookup_insert_ne in Hy by done. destruct (Hi y i Hy) as (l & j & H0 & Hk & Hin & Hl).
      destruct (Hold _ _ _ Hk) as (j' & Hk' & Hsub). exists l, j'. rewrite lookup_insert_ne by done.
      split_and!; try done. by apply Hsub.
  - intros y k l j Hk Hy. destruct (decide (y = x)) as [->|Hne].
    + rewrite !lookup_insert_eq. exists len. split; [done|]. split; [|by eexists].
      destruct (Hnew k l j x Hk Hy) as [[_ ->]|(j' & Hk' & Hin)]; [done|].
      destruct (Hs x k l j' Hk' Hin) as (z & Hz & Hle & _). rewrite Hz in Hlt. simpl in Hlt. lia.
    + rewrite !lookup_insert_ne by done. destruct (Hnew k l j y Hk Hy) as [[? _]|(j' & Hk' & Hin)]; [done|].
      by eapply Hs.
  - intros y z Hy. destruct (decide (y = x)) as [->|Hne];
      [rewrite lookup_insert_eq; by eexists|rewrite lookup_insert_ne in * by done; by eapply Hb].
  - intros y i Hy. destruct (Hi y i Hy) as (l & j & H0 & Hk & Hin & Hl).
    destruct (Hold _ _ _ Hk) as (j' & Hk' & Hsub). exists l, j'. split_and!; try done. by apply Hsub.
  - intros y k l j Hk Hy. destruct (Hnew k l j y Hk Hy) as [[-> ->]|(j' & Hk' & Hin)]; [|by eapply Hs].
    destruct (sz !! x) as [z|] eqn:Hz; simpl in Hge; [|lia]. exists z. split; [done|].
    split; [lia|]. by eapply Hb.
  - done.
Qed.

Lemma largest_start seen len lg : largest_ok seen lg -> largest_ok (seen ++ [(len, [])]) lg.
Proof.
  intros [Hi Hs Hb]. constructor; [| |done].
  - intros x i Hx. destruct (Hi x i Hx) as (l & j & H0 & Hk & ?). exists l, j. split; [done|].
    split; [by apply lookup_app_l_Some|done].
  - intros x k l j Hk Hx. apply lookup_app_Some in Hk as [Hk|[_ Hk]]; [by eapply Hs|].
    destruct (k - length seen)%nat; simplify_eq/=. by apply not_elem_of_nil in Hx.
Qed.

Section VisPartial.
Context {In Out State : Type} (DescribeOperation : In -> Out -> string) (DescribeState : State -> string).
Context (M : Model In Out State) (ops : list (Operation In Out)).
Context (callValue returnValue : gmap Z (In + Out)).
Context (Hcv : forall i o, slice_get ops i = Some o -> callValue !! i = Some (inl (op_Input o))).
Context (Hrv : forall i o, slice_get ops i = Some o -> returnValue !! i = Some (inr (op_Output o))).

(** The states along a sequence. *)
Fixpoint described (st : State) (order : list Z) (l : list (Operation In Out)) : list linearizationStep :=
  match order, l with
  | i :: order, o :: l =>
      let st' := (Step M st (op_Input o) (op_Output o)).2 in
      mkLinearizationStep i (DescribeState st') :: described st' order l
  | _, _ => []
  end.

Lemma vis_partial_ok seen len done_ids partial l st lg :
  mapM (slice_get ops) partial = Some l -> executes M st l -> 0 < len ->
  largest_ok (seen ++ [(len, done_ids)]) lg ->
  exists lg', vis_partial DescribeState M callValue returnValue (zlen seen) len partial st lg
      = Some (described st partial l, lg')
    /\ largest_ok (seen ++ [(len, done_ids ++ partial)]) lg'.
Proof.
  revert done_ids l st lg. induction partial as [|i partial IH]; intros done_ids l st lg Hl Hex Hlen Hlg.
  { injection Hl as <-. exists lg. by rewrite app_nil_r. }
  apply mapM_Some in Hl. apply Forall2_cons_inv_l in Hl as (o & l' & Ho & Hl & ->).
  apply mapM_Some in Hl. destruct Hex as (st' & Hst & Hex). simpl.
  rewrite (Hcv i o Ho), (Hrv i o Ho). simpl. rewrite Hst. simpl.
  destruct (IH (done_ids ++ [i]) l' st' (largest_entry (zlen seen) len lg i) Hl Hex Hlen) as (lg' & -> & Hlg');
    [by apply largest_entry_ok|]. simpl. exists lg'. by rewrite <- app_assoc in Hlg'.
Qed.

(** A list of partial linearizations and what is shown of them. *)
Definition shown_as (partial : list Z) (steps : list linearizationStep) : Prop :=
  exists l, mapM (slice_get ops) partial = Some l /\ executes M (Init M) l
    /\ steps = described (Init M) partial l.

Definition with_len (partial : list Z) : Z * list Z := (zlen partial, partial).

Lemma vis_partials_ok seen partials lg :
  Forall (valid_partial M ops) partials -> largest_ok (with_len <$> seen) lg ->
  exists steps lg', vis_partials DescribeState M callValue returnValue (zlen seen) partials lg = Some (steps, lg')
    /\ Forall2 shown_as partials steps /\ largest_ok (with_len <$> seen ++ partials) lg'.
Proof.
  intros Hp. revert seen lg. induction Hp as [|partial partials Hv Hp IH]; intros seen lg Hlg; simpl.
  { exists [], lg. rewrite app_nil_r. split; [done|]. by split. }
  destruct Hv as (_ & (l & Hl & Hex) & _).
  assert (Hstep : exists lg1, vis_partial DescribeState M callValue returnValue (zlen seen) (zlen partial) partial
            (Init M) lg = Some (described (Init M) partial l, lg1)
            /\ largest_ok (with_len <$> seen ++ [partial]) lg1).
  { rewrite fmap_app. destruct partial as [|i partial].
    - injection Hl as <-. exists lg. split; [done|]. by apply largest_start.
    - replace (zlen seen) with (zlen (with_len <$> seen)) by (unfold zlen; by rewrite length_fmap).
      apply (vis_partial_ok (with_len <$> seen) _ []); try done. by apply largest_start. }
  destruct Hstep as (lg1 & -> & Hlg1). simpl.
  replace (zlen seen + 1) with (zlen (seen ++ [partial])) by (by rewrite zlen_app, zlen_cons, zlen_nil).
  destruct (IH (seen ++ [partial]) lg1 Hlg1) as (steps & lg' & -> & Hsh & Hlg'). simpl.
  exists (described (Init M) partial l :: steps), lg'. split; [done|]. split.
  - constructor; [by exists l|done].
  - by rewrite <- app_assoc in Hlg'.
Qed.
End VisPartial.

(** ** The operations *)

Section VisHistory.
Context {In Out State : Type} `{!EqDecision State}.
Context (DescribeOperation : In -> Out -> string).
Context (M : Model In Out State) (eqv : State -> State -> bool).
Context (Heq : Equal M = Some eqv) (Heqv : forall s s', eqv s s' = true -> s = s').
Context (sort_Sort : (entry In Out -> entry In Out -> bool) -> list (entry In Out) -> list (entry In Out)).
Context (Hsort : sorts sort_Sort).
Context (ops : list (Operation In Out)) (Htimes : Forall (fun o => op_Call o <= op_Return o) ops).
Notation h := (makeEntries sort_Sort ops).

(** Whether the call, or the return, of operation [i] is among the entries [p]. *)
Definition has (kd : entryKind) (p : list (entry In Out)) (i : Z) : bool :=
  bool_decide ((kd, i) ∈ tag <$> p).

Lemma has_snoc kd p e i : has kd (p ++ [e]) i = has kd p i || bool_decide (tag e = (kd, i)).
Proof.
  unfold has. rewrite fmap_app.
  destruct (decide (tag e = (kd, i))) as [He|He].
  - rewrite (bool_decide_eq_true_2 _ He), orb_true_r. apply bool_decide_eq_true_2. set_solver.
  - rewrite (bool_decide_eq_false_2 _ He), orb_false_r. apply bool_decide_ext.
    rewrite elem_of_app. simpl. rewrite list_elem_of_singleton. split; [intros [?|?]; [done|congruence]|auto].
Qed.

(** Operation [i] as far as [p] tells. *)
Definition element (p : list (entry In Out)) (i : Z) (o : Operation In Out) : historyElement :=
  mkHistoryElement (if has callEntry p i then op_ClientId o else 0) (if has callEntry p i then op_Call o else 0)
    (if has returnEntry p i then op_Return o else 0)
    (if has returnEntry p i then DescribeOperation (op_Input o) (op_Output o) else "").

Definition hist_ok (p : list (entry In Out)) (st : list historyElement * gmap Z (In + Out) * gmap Z (In + Out)) : Prop :=
  zlen st.1.1 = zlen ops /\ forall i o, slice_get ops i = Some o ->
    slice_get st.1.1 i = Some (element p i o)
    /\ st.1.2 !! i = (if has callEntry p i then Some (inl (op_Input o)) else None)
    /\ st.2 !! i = (if has returnEntry p i then Some (inr (op_Output o)) else None).

Lemma has_other kd p e i : tag e <> (kd, i) -> has kd (p ++ [e]) i = has kd p i.
Proof. intros He. by rewrite has_snoc, (bool_decide_eq_false_2 _ He), orb_false_r. Qed.

Lemma has_same p e : has (en_kind e) (p ++ [e]) (en_id e) = true.
Proof. by rewrite has_snoc, (bool_decide_eq_true_2 (tag e = (en_kind e, en_id e)) eq_refl), orb_true_r. Qed.

Lemma element_other p e i o : en_id e <> i -> element (p ++ [e]) i o = element p i o.
Proof. intros He. unfold element. by rewrite !has_other by (unfold tag; congruence). Qed.

Lemma history_entry_ok p e rest st :
  h = p ++ e :: rest -> hist_ok p st ->
  exists st', history_entry DescribeOperation st e = Some st' /\ hist_ok (p ++ [e]) st'.
Proof.
  intros Hh. destruct st as [[hist cv] rv]. intros [Hlen Hok]. simpl in Hlen, Hok.
  assert (He : e ∈ h) by (rewrite Hh; set_solver).
  apply (h_elem M eqv Heq Heqv sort_Sort Hsort ops Htimes) in He as (i & o & Ho & He).
  destruct (Hok i o Ho) as (Hel & Hc & Hr). pose proof (slice_get_lt _ _ _ Ho) as Hi.
  assert (Hset : forall x, slice_set hist i x = Some (<[Z.to_nat i := x]> hist))
    by (intros x; apply slice_set_Some; lia).
  assert (Hget : forall x j y, slice_get hist j = Some y ->
            slice_get (<[Z.to_nat i := x]> hist) j = Some (if decide (i = j) then x else y)).
  { intros x j y [Hj Hy]%slice_get_Some. apply slice_get_Some. split; [done|]. case_decide as Hij.
    - subst. apply list_lookup_insert_eq. by eapply lookup_lt_Some.
    - rewrite list_lookup_insert_ne by lia. done. }
  unfold history_entry. destruct He as [->| ->]; simpl; rewrite Hel; simpl.
  - pose proof (has_same p (call_of i o) : has callEntry (p ++ [call_of i o]) i = true) as Hsame.
    rewrite Hset. simpl. eexists. split; [done|]. split; [simpl; by rewrite zlen_insert|].
    intros j oj Hj. simpl. destruct (Hok j oj Hj) as (Hej & Hcj & Hrj).
    split_and!.
    + rewrite (Hget _ j _ Hej). f_equal. case_decide as Hij; [|by rewrite element_other].
      subst j. replace oj with o by congruence. unfold element.
      rewrite (has_other returnEntry) by done. by rewrite Hsame.
    + destruct (decide (i = j)) as [<-|Hne].
      * rewrite lookup_insert_eq, Hsame. congruence.
      * rewrite lookup_insert_ne, Hcj by done. by rewrite has_other by (unfold tag; simpl; congruence).
    + rewrite Hrj. by rewrite has_other by done.
  - assert (Hcall : has callEntry p i = true).
    { apply bool_decide_eq_true_2.
      pose proof (h_call_first M eqv Heq Heqv sort_Sort Hsort ops Htimes i o Ho) as Hsub.
      unfold PorcCheck.h in Hsub. rewrite Hh in Hsub.
      pose proof (h_tags M eqv Heq Heqv sort_Sort Hsort ops Htimes) as Hnd. unfold PorcCheck.h in Hnd.
      rewrite Hh in Hnd. apply NoDup_fmap_1 in Hnd.
      pose proof (pair_sublist_before p rest _ _ Hnd Hsub) as Hin.
      by apply (list_elem_of_fmap_2 tag) in Hin. }
    pose proof (has_same p (return_of i o) : has returnEntry (p ++ [return_of i o]) i = true) as Hsame.
    rewrite Hc, Hcall. simpl. rewrite Hset. simpl. eexists. split; [done|]. split; [simpl; by rewrite zlen_insert|].
    intros j oj Hj. simpl. destruct (Hok j oj Hj) as (Hej & Hcj & Hrj).
    split_and!.
    + rewrite (Hget _ j _ Hej). f_equal. case_decide as Hij; [|by rewrite element_other].
      subst j. replace oj with o by congruence. unfold element.
      simpl. rewrite (has_other callEntry) by done. by rewrite Hsame, Hcall.
    + rewrite Hcj. by rewrite has_other by done.
    + destruct (decide (i = j)) as [<-|Hne].
      * rewrite lookup_insert_eq, Hsame. congruence.
      * rewrite lookup_insert_ne, Hrj by done. by rewrite has_other by (unfold tag; simpl; congruence).
Qed.

Lemma history_loop_ok rest p st :
  h = p ++ rest -> hist_ok p st ->
  exists st', run_steps (history_entry DescribeOperation) st rest = Some st' /\ hist_ok h st'.
Proof.
  revert p st. induction rest as [|e rest IH]; intros p st Hh Hok.
  { rewrite app_nil_r in Hh. subst p. by exists st. }
  destruct (history_entry_ok p e rest st Hh Hok) as (st1 & Hs & Hok1).
  destruct (IH (p ++ [e]) st1) as (st' & Hr & Hok'); [by rewrite <- app_assoc|done|].
  exists st'. split; [|done]. by rewrite run_steps_cons, Hs.
Qed.

(** The record of an operation. *)
Definition recorded (o : Operation In Out) : historyElement :=
  mkHistoryElement (op_ClientId o) (op_Call o) (op_Return o) (DescribeOperation (op_Input o) (op_Output o)).

Lemma history_ok :
  exists cv rv,
    run_steps (history_entry DescribeOperation)
      (replicate (Z.to_nat (Z.quot (zlen h) 2)) (mkHistoryElement 0 0 0 ""), ∅, ∅) h
    = Some (recorded <$> ops, cv, rv)
    /\ (forall i o, slice_get ops i = Some o -> cv !! i = Some (inl (op_Input o)))
    /\ (forall i o, slice_get ops i = Some o -> rv !! i = Some (inr (op_Output o))).
Proof.
  assert (Hlen : zlen h = zlen ops * 2).
  { unfold zlen. pose proof (h_length sort_Sort Hsort ops) as Hl.
    unfold PorcCheck.h in Hl. rewrite Hl. lia. }
  rewrite Hlen, Z.quot_mul by lia. unfold zlen. rewrite Nat2Z.id.
  destruct (history_loop_ok h [] (replicate (length ops) (mkHistoryElement 0 0 0 ""), ∅, ∅) eq_refl)
    as ([[hist cv] rv] & Hr & Hlen' & Hok).
  { split; simpl; [unfold zlen; by rewrite length_replicate|]. intros i o Ho. split; [|done].
    apply slice_get_lt in Ho. apply slice_get_Some. split; [lia|]. apply lookup_replicate_2.
    unfold zlen in Ho. lia. }
  rewrite Hr. simpl in *.
  assert (Hhas : forall i o, slice_get ops i = Some o -> has callEntry h i = true /\ has returnEntry h i = true).
  { intros i o Ho. split; apply bool_decide_eq_true_2.
    - apply (list_elem_of_fmap_2 tag h (call_of i o)).
      apply (h_elem M eqv Heq Heqv sort_Sort Hsort ops Htimes). eauto.
    - apply (list_elem_of_fmap_2 tag h (return_of i o)).
      apply (h_elem M eqv Heq Heqv sort_Sort Hsort ops Htimes). eauto. }
  exists cv, rv. split_and!.
  - do 3 f_equal. apply list_eq. intros k. rewrite list_lookup_fmap.
    destruct (ops !! k) as [o|] eqn:Ho; simpl.
    + assert (Ho' : slice_get ops (Z.of_nat k) = Some o) by (apply slice_get_Some; split; [lia|by rewrite Nat2Z.id]).
      destruct (Hok _ o Ho') as [[_ Hel]%slice_get_Some _]. rewrite Nat2Z.id in Hel. rewrite Hel.
      destruct (Hhas _ o Ho') as [H1 H2]. unfold element. by rewrite H1, H2.
    + apply lookup_ge_None_2. apply lookup_ge_None in Ho. unfold zlen in Hlen'. lia.
  - intros i o Ho. destruct (Hok i o Ho) as (_ & Hc & _), (Hhas i o Ho) as [H1 _]. by rewrite Hc, H1.
  - intros i o Ho. destruct (Hok i o Ho) as (_ & _ & Hr'), (Hhas i o Ho) as [_ H2]. by rewrite Hr', H2.
Qed.
End VisHistory.

(** ** A partition *)

(** A loop over a slice with its indices. *)
Lemma mapM_indexed {A B} (f : nat * A -> option B) (Q : nat -> A -> B -> Prop) (l : list A) k :
  (forall i x, l !! i = Some x -> exists y, f ((k + i)%nat, x) = Some y /\ Q (k + i)%nat x y) ->
  exists ys, mapM f (zip (seq k (length l)) l) = Some ys /\ length ys = length l
    /\ forall i x, l !! i = Some x -> exists y, ys !! i = Some y /\ Q (k + i)%nat x y.
Proof.
  revert k. induction l as [|x l IH]; intros k Hl; simpl; [by exists []|].
  destruct (Hl 0%nat x eq_refl) as (y & Hy & HQ). rewrite Nat.add_0_r in Hy, HQ. rewrite Hy. simpl.
  destruct (IH (S k)) as (ys & -> & Hlen & Hys).
  { intros i z Hz. replace (S k + i)%nat with (k + S i)%nat by lia. by apply Hl. }
  simpl. exists (y :: ys). split; [done|]. split; [simpl; by rewrite Hlen|].
  intros [|i] z Hz; simpl in *; [simplify_eq; exists y; by rewrite Nat.add_0_r|].
  replace (k + S i)%nat with (S k + i)%nat by lia. by apply Hys.
Qed.

(** What [sort.Slice] guarantees here. *)
Definition sorts_lengths (sort_Slice : (list Z -> list Z -> bool) -> list (list Z) -> list (list Z)) : Prop :=
  forall l, sort_Slice longer l ≡ₚ l
    /\ forall x y, [x; y] `sublist_of` sort_Slice longer l -> zlen y <= zlen x.

Section Data.
Context {In Out State : Type} `{!EqDecision State}.
Context (DescribeOperation : In -> Out -> string) (DescribeState : State -> string).
Context (M : Model In Out State).

(** The data of a partition tell the truth: the operations as they were; linearizations of some of
    them, the longest first, with the states along them; and for every operation in one of them
    the longest one with it. *)
Definition truthful (ops : list (Operation In Out)) (d : partitionVisualizationData) : Prop :=
  History d = recorded DescribeOperation <$> ops
  /\ exists partials, Forall (valid_partial M ops) partials
    /\ Forall2 (shown_as DescribeState M ops) partials (PartialLinearizations d)
    /\ (forall x y, [x; y] `sublist_of` partials -> zlen y <= zlen x)
    /\ (forall x i, Largest d !! x = Some i -> exists p, slice_get partials i = Some p /\ x ∈ p
          /\ forall p', p' ∈ partials -> x ∈ p' -> zlen p' <= zlen p)
    /\ (forall x p, p ∈ partials -> x ∈ p -> is_Some (Largest d !! x)).

Context (eqv : State -> State -> bool).
Context (Heq : Equal M = Some eqv) (Heqv : forall s s', eqv s s' = true -> s = s').
Context (sort_Sort : (entry In Out -> entry In Out -> bool) -> list (entry In Out) -> list (entry In Out)).
Context (Hsort : sorts sort_Sort).
Context (sort_Slice : (list Z -> list Z -> bool) -> list (list Z) -> list (list Z)).
Context (Hslice : sorts_lengths sort_Slice).

Lemma vis_partition_truthful ops partials :
  Forall (fun o => op_Call o <= op_Return o) ops -> Forall (valid_partial M ops) partials ->
  exists d, vis_partition DescribeOperation DescribeState sort_Slice M (makeEntries sort_Sort ops) partials = Some d
    /\ truthful ops d.
Proof.
  intros Ht Hp. unfold vis_partition.
  destruct (history_ok DescribeOperation M eqv Heq Heqv sort_Sort Hsort ops Ht) as (cv & rv & -> & Hcv & Hrv). simpl.
  destruct (Hslice partials) as [Hperm Hdesc]. set (ps := sort_Slice longer partials) in *.
  assert (Hps : Forall (valid_partial M ops) ps) by (by rewrite Hperm).
  destruct (vis_partials_ok DescribeState M ops cv rv Hcv Hrv [] ps (∅, ∅) Hps) as (steps & [sz ix] & Hv & Hsh & Hlg).
  { constructor; simpl; [by intros x i ?|by intros x k len ids ?|by intros x z ?]. }
  change (zlen []) with 0 in Hv. rewrite Hv. simpl. eexists. split; [done|]. split; [done|].
  exists ps. split; [done|]. split; [done|]. split; [done|]. destruct Hlg as [Hi Hs _]. simpl in *. split.
  - intros x i Hx. destruct (Hi x i Hx) as (len & ids & H0 & Hk & Hin & Hsz).
    rewrite list_lookup_fmap in Hk. apply fmap_Some in Hk as (p & Hk & [= -> ->]). exists p.
    split; [by apply slice_get_Some|]. split; [done|]. intros p' [k Hk']%list_elem_of_lookup Hin'.
    destruct (Hs x k (zlen p') p') as (z & Hz & Hle & _); [by rewrite list_lookup_fmap, Hk'|done|].
    rewrite Hsz in Hz. by simplify_eq.
  - intros x p [k Hk]%list_elem_of_lookup Hin.
    destruct (Hs x k (zlen p) p) as (z & _ & _ & ?); [by rewrite list_lookup_fmap, Hk|done|done].
Qed.

Lemma unique_partials_ok (order : list nat -> list nat) ops seqs longest :
  (forall l, order l ≡ₚ l) -> Forall (valid_partial M ops) seqs ->
  (forall i q, longest !! i = Some (Some q) -> exists sq, seqs !! q = Some sq /\ Z.of_nat i ∈ sq) ->
  exists partials, unique_partials order seqs longest = Some partials /\ Forall (valid_partial M ops) partials.
Proof.
  intros Hord Hv Hq. unfold unique_partials. set (qs := order _).
  assert (Hin : forall q, q ∈ qs -> is_Some (seqs !! q)).
  { intros q Hq'. unfold qs in Hq'. rewrite Hord, elem_of_remove_dups in Hq'.
    apply list_elem_of_omap in Hq' as (o & Ho & He). simpl in He. subst o.
    apply list_elem_of_lookup in Ho as [i Hi]. destruct (Hq i q Hi) as (sq & ? & _). eauto. }
  destruct (mapM (fun q => seqs !! q) qs) as [partials|] eqn:Hm.
  - exists partials. split; [done|]. apply mapM_Some in Hm. apply Forall_forall. intros p Hp.
    apply list_elem_of_lookup in Hp as [k Hk]. destruct (Forall2_lookup_r _ _ _ _ _ Hm Hk) as (q & _ & Hsq).
    by apply (Forall_lookup_1 _ _ _ _ Hv) in Hsq.
  - exfalso. apply mapM_None in Hm. apply Exists_exists in Hm as (q & Hq' & Hn).
    destruct (Hin q Hq') as [? ?]. congruence.
Qed.
End Data.

(** C36.  The visualization of a check shows the truth, also of a check that ran out of time: with
    enough fuel for each partition, whatever the flag [kill] interrupts and whatever order maps and
    sorts choose, [CheckOperationsVerbose] comes with an [info] from which
    [computeVisualizationData] makes its data without a panic, and these are [truthful] about
    every partition. *)
Theorem visualization_shows {In Out State : Type} `{!EqDecision State} (M : Model In Out State)
    (DescribeOperation : In -> Out -> string) (DescribeState : State -> string)
    (sort_Sort : (entry In Out -> entry In Out -> bool) -> list (entry In Out) -> list (entry In Out))
    (sort_Slice : (list Z -> list Z -> bool) -> list (list Z) -> list (list Z))
    (history : list (Operation In Out)) (parts : list (list (Operation In Out)))
    (kill : nat -> nat -> bool) (order : nat -> list nat -> list nat) (fuel : nat) :
  (forall s s', default ShallowEqual (Equal M) s s' = true -> s = s') ->
  sorts sort_Sort -> sorts_lengths sort_Slice -> (forall i l, order i l ≡ₚ l) ->
  default NoPartition (Partition M) history = parts ->
  Forall (Forall (fun o => op_Call o <= op_Return o)) parts ->
  Forall (fun ops => (search_cost (length ops) < fuel)%nat) parts ->
  exists info data,
    (forall arrivals res, checkOperations sort_Sort M history true arrivals fuel = Some res ->
       CheckOperationsVerbose sort_Sort M history arrivals kill order fuel = Some (res, info))
    /\ computeVisualizationData DescribeOperation DescribeState sort_Slice M info = Some data
    /\ Forall2 (truthful DescribeOperation DescribeState (fillDefault M)) parts data.
Proof.
  intros Heqv Hsort Hslice Hord Hparts Ht Hf. set (M' := fillDefault M).
  assert (Heq : Equal M' = Some (default ShallowEqual (Equal M))) by done.
  destruct (mapM_indexed (fun '(i, h) =>
      '(_, seqs, longest) ← checkSingle_pointers M' h true (kill i) fuel;
      unique_partials (order i) seqs longest)
    (fun i h partials => forall ops, h = makeEntries sort_Sort ops -> parts !! i = Some ops ->
       Forall (valid_partial M' ops) partials)
    (makeEntries sort_Sort <$> parts) 0) as (partials & Hmap & Hlen & Hpar).
  { intros i h Hh. rewrite list_lookup_fmap in Hh. apply fmap_Some in Hh as (ops & Hops & ->). simpl.
    pose proof (Forall_lookup_1 _ _ _ _ Ht Hops) as Hto. pose proof (Forall_lookup_1 _ _ _ _ Hf Hops) as Hfo.
    destruct (checkSingle_partials M' _ Heq Heqv sort_Sort Hsort ops Hto (kill i) fuel Hfo)
      as (ok & seqs & longest & -> & _ & Hv & Hq). simpl.
    destruct (unique_partials_ok M' (order i) ops seqs longest (Hord i) Hv Hq) as (ps & -> & Hps).
    exists ps. split; [done|]. intros ops' _ Hops'. by simplify_eq. }
  destruct (mapM_indexed (fun '(i, entries) =>
      ps ← partials !! i;
      vis_partition DescribeOperation DescribeState sort_Slice M' entries ps)
    (fun i h d => forall ops, h = makeEntries sort_Sort ops -> parts !! i = Some ops ->
       truthful DescribeOperation DescribeState M' ops d)
    (makeEntries sort_Sort <$> parts) 0) as (data & Hdata & Hdlen & Htrue).
  { intros i h Hh. destruct (Hpar i h Hh) as (ps & Hps & Hvalid). simpl in *. rewrite Hps. simpl.
    rewrite list_lookup_fmap in Hh. apply fmap_Some in Hh as (ops & Hops & ->).
    destruct (vis_partition_truthful DescribeOperation DescribeState M' _ Heq Heqv sort_Sort Hsort sort_Slice Hslice ops ps)
      as (d & Hd & Hd'); [by apply (Forall_lookup_1 _ _ _ _ Ht Hops)|by apply Hvalid|].
    exists d. split; [done|]. intros ops' _ Hops'. by simplify_eq. }
  exists (mkInfo (makeEntries sort_Sort <$> parts) partials), data. split; [|split; [done|]].
  - intros arrivals res Hres. unfold CheckOperationsVerbose. rewrite Hres. simpl. rewrite Hparts.
    fold M'. unfold parallel_info. by rewrite Hmap.
  - rewrite length_fmap in Hdlen. apply Forall2_same_length_lookup. split; [done|].
    intros i ops d Hops Hd. destruct (Htrue i (makeEntries sort_Sort ops)) as (d' & Hd' & Hok);
      [by rewrite list_lookup_fmap, Hops|]. simplify_eq. by apply Hok.
Qed.

(** ** A concrete page *)

Definition not_shorter (x y : list Z) : Prop := zlen y <= zlen x.

#[export] Instance not_shorter_dec : RelDecision not_shorter.
Proof. intros x y. unfold not_shorter. apply _. Defined.
#[export] Instance not_shorter_trans : Transitive not_shorter.
Proof. unfold not_shorter. intros a b c ??. lia. Qed.
#[export] Instance not_shorter_total : Total not_shorter.
Proof. unfold not_shorter. intros a b. lia. Qed.

Definition by_length (less : list Z -> list Z -> bool) (l : list (list Z)) : list (list Z) :=
  merge_sort not_shorter l.

Lemma by_length_sorts : sorts_lengths by_length.
Proof.
  intros l. split; [apply merge_sort_Permutation|]. intros x y Hs.
  refine (StronglySorted_pair not_shorter _ x y _ Hs). apply (StronglySorted_merge_sort not_shorter).
Qed.
