(* ===== verification/PorcLocal.v ===== *)
(** * Linearizability key by key

    A model of one key describes a store of many keys that do not influence each other.  A
    history is linearizable for the store exactly when, for each key, the operations on that
    key are linearizable for the model: this is what a checker that partitions a history by
    key relies on. *)

From S2P Require Import Prelude Porcupine PorcLin PorcCheck.
Import Porcupine.

Lemma filter_fmap {A B} (f : A -> B) (P : B -> Prop) `{!forall y, Decision (P y)} (l : list A) :
  filter P (f <$> l) = f <$> filter (fun x => P (f x)) l.
Proof.
  induction l as [|x l IH]; [done|]. rewrite fmap_cons, !filter_cons.
  destruct (decide (P (f x))); rewrite ?fmap_cons; by rewrite IH.
Qed.

Lemma filter_none {A} (P : A -> Prop) `{!forall x, Decision (P x)} (l : list A) :
  Forall (fun x => ~ P x) l -> filter P l = [].
Proof. induction 1; [done|]. by rewrite filter_cons_False. Qed.

(** Merging does not change the order of what comes from one of the lists. *)
Lemma filter_merge {A} (Rel : relation A) `{!RelDecision Rel} (P : A -> Prop)
    `{!forall x, Decision (P x)} l1 l2 :
  Forall (fun x => ~ P x) l1 \/ Forall (fun x => ~ P x) l2 ->
  filter P (list_merge Rel l1 l2) = filter P l1 ++ filter P l2.
Proof.
  revert l2. induction l1 as [|x l1 IH1]; intros l2.
  { intros _. rewrite list_merge_nil_l. done. }
  induction l2 as [|y l2 IH2].
  { intros _. rewrite list_merge_nil_r. by rewrite app_nil_r. }
  intros Hno. rewrite list_merge_cons. destruct (decide (Rel x y)).
  - rewrite filter_cons, IH1 by (destruct Hno as [Hno|?]; [apply Forall_cons in Hno as [_ ?]; by left|by right]).
    rewrite (filter_cons _ x l1). by destruct (decide (P x)).
  - rewrite filter_cons, IH2 by (destruct Hno as [?|Hno]; [by left|apply Forall_cons in Hno as [_ ?]; by right]).
    rewrite (filter_cons _ y l2). destruct (decide (P y)) as [Hy|]; [|done].
    destruct Hno as [Hno|Hno]; [|by apply Forall_cons in Hno as [? _]].
    by rewrite (filter_none _ (x :: l1)).
Qed.

Section Local.
Context {In Out State K : Type} `{Countable K} (M : Model In Out State) (keyf : In -> K).
Abbreviation Op := (Operation In Out).
Implicit Types (order ops : list Op) (k : K).

Definition key_of (o : Op) : K := keyf (op_Input o).

(** The model of the store. *)
Definition Store : Model In Out (gmap K State) :=
  mkModel None None ∅
    (fun st i o =>
       let '(ok, s) := Step M (default (Init M) (st !! keyf i)) i o in (ok, <[keyf i := s]> st))
    None.

Definition on_key k (l : list Op) : list Op := filter (fun o => key_of o = k) l.

Lemma executes_keys order st :
  executes Store st order
  <-> forall k, executes M (default (Init M) (st !! k)) (on_key k order).
Proof.
  revert st. induction order as [|o order IH]; intros st; [by split|]. simpl. unfold on_key.
  setoid_rewrite filter_cons. split.
  - intros (st' & Hst & Hex) k. rewrite IH in Hex. specialize (Hex k).
    destruct (Step M _ _ _) as [ok s] eqn:E. injection Hst as -> <-.
    destruct (decide (key_of o = k)) as [<-|Hne].
    + exists s. split; [exact E|]. by rewrite lookup_insert_eq in Hex.
    + by rewrite lookup_insert_ne in Hex.
  - intros Hk. pose proof (Hk (key_of o)) as Ho. rewrite decide_True in Ho by done.
    destruct Ho as (s & Hs & Ho). unfold key_of in Hs. rewrite Hs.
    eexists. split; [done|]. apply IH. intros k. specialize (Hk k).
    destruct (decide (key_of o = k)) as [<-|Hne].
    + by rewrite lookup_insert_eq.
    + by rewrite lookup_insert_ne.
Qed.

Lemma linearizable_key ops k : linearizable Store ops -> linearizable M (on_key k ops).
Proof.
  intros (order & Hp & Hrt & Hex). exists (on_key k order). split_and!.
  - unfold on_key. by rewrite Hp.
  - intros a b (Hs & _)%pair_sublist_filter. by apply Hrt.
  - apply executes_keys with (k := k) in Hex. simpl in Hex. by rewrite lookup_empty in Hex.
Qed.

(** ** Points in time

    Each operation of a linearization takes effect at a time between its call and its return,
    and the times do not decrease. *)

Fixpoint points (t : Z) order : list (Z * Op) :=
  match order with
  | [] => []
  | o :: order => let p := Z.max t (op_Call o) in (p, o) :: points p order
  end.

Definition earlier (x y : Z * Op) : Prop := x.1 <= y.1.

#[local] Instance earlier_dec : RelDecision earlier.
Proof. intros x y. unfold earlier. apply _. Defined.

Definition in_time (x : Z * Op) : Prop := op_Call x.2 <= x.1 <= op_Return x.2.

Lemma points_spec t order :
  Forall (fun o => t <= op_Return o) order -> Forall (fun o => op_Call o <= op_Return o) order ->
  (forall a b, [a; b] `sublist_of` order -> ~ op_Return b < op_Call a) ->
  (points t order).*2 = order /\ Forall in_time (points t order)
  /\ StronglySorted earlier (points t order) /\ Forall (fun x => t <= x.1) (points t order).
Proof.
  revert t. induction order as [|o order IH]; intros t Ht Hc Hrt; simpl; [by repeat constructor|].
  apply Forall_cons in Ht as [Ho Ht], Hc as [Hco Hc].
  destruct (IH (Z.max t (op_Call o))) as (H2 & Hin & Hs & Hge); [|done| |].
  - apply Forall_forall. intros b Hb. rewrite Forall_forall in Ht. specialize (Ht b Hb).
    assert (~ op_Return b < op_Call o) by (apply Hrt, pair_sublist_cons; by right). lia.
  - intros a b Hs. apply Hrt, pair_sublist_cons. by left.
  - split_and!; [f_equal; exact H2| | |].
    + constructor; [|done]. split; simpl; lia.
    + by constructor.
    + constructor; [simpl; lia|]. eapply Forall_impl; [exact Hge|]. simpl. lia.
Qed.

(** Operations in the order of such times, with a linearization of each key. *)
Definition timed (l : list (Z * Op)) ops : Prop :=
  l.*2 ≡ₚ ops /\ Forall in_time l /\ StronglySorted earlier l
  /\ forall k, executes M (Init M) (on_key k l.*2).

Lemma timed_key ops k :
  Forall (fun o => op_Call o <= op_Return o) ops -> Forall (fun o => key_of o = k) ops ->
  linearizable M ops -> exists l, timed l ops.
Proof.
  intros Hc Hk (order & Hp & Hrt & Hex). rewrite <- Hp in Hc, Hk.
  exists (points (from_option op_Call 0 (head order)) order).
  destruct (points_spec (from_option op_Call 0 (head order)) order) as (H2 & Hin & Hs & _); [|done..|].
  - destruct order as [|o order]; [done|]. simpl. apply Forall_cons in Hc as [Hco _].
    constructor; [done|]. apply Forall_forall. intros b Hb.
    assert (~ op_Return b < op_Call o) by (apply Hrt, pair_sublist_cons; by right). lia.
  - split_and!; rewrite ?H2; try done. intros k'. destruct (decide (k' = k)) as [->|Hne].
    + unfold on_key. by rewrite filter_all.
    + unfold on_key. rewrite filter_none; [done|]. eapply Forall_impl; [exact Hk|].
      intros o <-. congruence.
Qed.

Lemma timed_merge l1 l2 ops1 ops2 k :
  timed l1 ops1 -> timed l2 ops2 -> Forall (fun o => key_of o <> k) ops1 ->
  Forall (fun o => key_of o = k) ops2 -> timed (list_merge earlier l1 l2) (ops1 ++ ops2).
Proof.
  intros (Hp1 & Hin1 & Hs1 & Hex1) (Hp2 & Hin2 & Hs2 & Hex2) Hk1 Hk2.
  rewrite <- Hp1 in Hk1. rewrite <- Hp2 in Hk2. rewrite Forall_fmap in Hk1, Hk2. split_and!.
  - by rewrite merge_Permutation, fmap_app, Hp1, Hp2.
  - rewrite merge_Permutation. by apply Forall_app.
  - apply Sorted_StronglySorted; [intros x y z; unfold earlier; lia|].
    apply Sorted_list_merge; [intros x y; unfold earlier; lia|by apply StronglySorted_Sorted..].
  - intros k'. specialize (Hex1 k'). specialize (Hex2 k'). unfold on_key in *.
    rewrite filter_fmap in Hex1, Hex2 |- *. rewrite filter_merge, fmap_app.
    + destruct (decide (k' = k)) as [->|Hne]; [by rewrite (filter_none _ l1)|].
      rewrite (filter_none _ l2), app_nil_r; [done|].
      eapply Forall_impl; [exact Hk2|]. simpl. intros x <-. congruence.
    + destruct (decide (k' = k)) as [->|Hne]; [by left|right].
      eapply Forall_impl; [exact Hk2|]. simpl. intros x <-. congruence.
Qed.

(** ** The keys of a history *)

Lemma filter_split {A} (P Q : A -> Prop) `{!forall x, Decision (P x), !forall x, Decision (Q x)}
    (l : list A) :
  (forall x, P x -> ~ Q x) -> filter (fun x => P x \/ Q x) l ≡ₚ filter P l ++ filter Q l.
Proof.
  intros Hd. induction l as [|x l IH]; [done|]. rewrite !filter_cons.
  destruct (decide (P x)) as [HP|HP], (decide (Q x)) as [HQ|HQ];
    repeat (destruct (decide (_ \/ _)) as [?|?]; [|try tauto]); try tauto; try by destruct (Hd x).
  - by rewrite IH.
  - rewrite IH. by rewrite <- Permutation_middle.
Qed.

Lemma timed_keys ops (ks : list K) :
  NoDup ks -> Forall (fun o => op_Call o <= op_Return o) ops ->
  (forall k, linearizable M (on_key k ops)) ->
  exists l, timed l (filter (fun o => key_of o ∈ ks) ops).
Proof.
  intros Hnd Hc Hlin. induction Hnd as [|k ks Hk _ (l & Hl)].
  - exists []. rewrite filter_none by (apply Forall_forall; set_solver). by repeat constructor.
  - destruct (timed_key (on_key k ops) k) as (l2 & Hl2); [| |done|].
    { apply Forall_forall. intros o [_ Ho]%list_elem_of_filter. by eapply Forall_forall in Hc. }
    { apply Forall_forall. intros o [? _]%list_elem_of_filter. done. }
    exists (list_merge earlier l l2).
    assert (Hp : filter (fun o => key_of o ∈ k :: ks) ops
                 ≡ₚ filter (fun o => key_of o ∈ ks) ops ++ on_key k ops).
    { unfold on_key. rewrite <- filter_split by (intros o ? <-; done).
      apply reflexive_eq, list_filter_iff. intros o. set_solver. }
    destruct (timed_merge l l2 _ _ k Hl Hl2) as (H2 & Hrest).
    + apply Forall_forall. intros o [Ho _]%list_elem_of_filter <-. done.
    + apply Forall_forall. intros o [? _]%list_elem_of_filter. done.
    + split; [by rewrite H2, Hp|done].
Qed.

(** Linearizability is local. *)
Lemma linearizable_local ops :
  Forall (fun o => op_Call o <= op_Return o) ops ->
  linearizable Store ops <-> forall k, linearizable M (on_key k ops).
Proof.
  intros Hc. split; [intros Hl k; by apply linearizable_key|]. intros Hlin.
  destruct (timed_keys ops (remove_dups (key_of <$> ops))) as (l & Hp & Hin & Hs & Hex);
    [apply NoDup_remove_dups|done|done|].
  rewrite filter_all in Hp.
  2: { apply Forall_forall. intros o Ho. apply elem_of_remove_dups. by apply list_elem_of_fmap_2. }
  exists l.*2. split_and!; [done| |].
  - intros a b (x & y & Hxy & -> & ->)%pair_sublist_fmap Hlt.
    destruct (pair_sublist_elem _ _ _ Hxy) as [Hx Hy]. rewrite Forall_forall in Hin.
    pose proof (Hin x Hx) as [? _]. pose proof (Hin y Hy) as [_ ?].
    pose proof (StronglySorted_pair _ _ _ _ Hs Hxy) as Hle. unfold earlier in Hle. lia.
  - apply executes_keys. intros k. simpl. rewrite lookup_empty. apply Hex.
Qed.
End Local.
