(* ===== verification/KvHistory.v ===== *)
(** * Checking the histories of the key/value service

    [src/models/kv.go] as a model for the checker: [Partition] by key, and [Init] and [Step] of
    [KvSrv.KvModel0].  The checker's verdict about a history is the truth about the whole
    key/value store, although it looks at one key at a time. *)

From S2P Require Import Prelude KvServer KvSrv Porcupine PorcLin PorcSearch PorcCheck PorcLocal.
From S2P Require Import PorcPartial PorcVis.
Import Porcupine.

#[local] Existing Instance KvModel.string_le_dec.

(** ** models/kv.go *)

Module KvModel1.
Import KvModel0.
Abbreviation Op := (Operation KvInput KvOutput).

(** The loop of [Partition]: the operations of each key, in order. *)
Definition group (history : list Op) : gmap string (list Op) :=
  foldl (fun m v => let key := in_Key (op_Input v) in
                    <[key := default [] (m !! key) ++ [v]]> m) ∅ history.

(** [sort.Strings] of the keys; they are distinct. *)
Definition Partition (history : list Op) : list (list Op) :=
  let m := group history in
  let keys := merge_sort KvModel.string_le (map_to_list m).*1 in
  (fun k => default [] (m !! k)) <$> keys.

Definition KvModel : Model KvInput KvOutput string :=
  mkModel (Some Partition) None Init Step None.
End KvModel1.

Section KvHistory.
Import KvModel0 KvModel1.
Implicit Types (history : list Op) (k : string).

Abbreviation at_key := (on_key (Out:=KvOutput) in_Key).

(** The key/value store that [KvModel] describes key by key. *)
Definition KvStore : Model KvInput KvOutput (gmap string string) := Store KvModel in_Key.

Lemma group_lookup history k :
  group history !! k = if decide (at_key k history = []) then None else Some (at_key k history).
Proof.
  induction history as [|o history IH] using rev_ind; [done|].
  unfold group, on_key, key_of in *. rewrite foldl_snoc, filter_app, filter_cons, filter_nil. simpl.
  destruct (decide (in_Key (op_Input o) = k)) as [Hk|Hk].
  - rewrite Hk, lookup_insert_eq, IH.
    destruct (decide (filter _ history = [])) as [->|]; simpl; [done|].
    destruct (decide _) as [Hnil|]; [by apply app_eq_nil in Hnil as [_ ?]|done].
  - rewrite lookup_insert_ne by done. rewrite app_nil_r. apply IH.
Qed.

Lemma Partition_elem history p :
  p ∈ Partition history <-> exists k, p = at_key k history /\ p <> [].
Proof.
  unfold Partition. rewrite list_elem_of_fmap. setoid_rewrite merge_sort_Permutation.
  setoid_rewrite list_elem_of_fmap. split.
  - intros (k & -> & [k' l] & -> & Hin%elem_of_map_to_list). simpl. rewrite Hin. simpl.
    rewrite group_lookup in Hin. destruct (decide _); simplify_eq. eauto.
  - intros (k & -> & Hne). exists k. rewrite group_lookup, decide_False by done. split; [done|].
    exists (k, at_key k history). split; [done|]. apply elem_of_map_to_list.
    by rewrite group_lookup, decide_False.
Qed.

(** [Partition] does what a model's [Partition] must do. *)
Lemma Partition_local history :
  Forall (fun o => op_Call o <= op_Return o) history ->
  Forall (linearizable KvModel) (Partition history) <-> linearizable KvStore history.
Proof.
  intros Hc. unfold KvStore. rewrite linearizable_local by done. rewrite Forall_forall.
  setoid_rewrite Partition_elem. split.
  - intros Hall k. destruct (decide (at_key k history = [])) as [->|Hne]; [|eauto].
    exists []. split_and!; [done| |done]. by intros a b ?%sublist_nil_r.
  - intros Hall p (k & -> & _). apply Hall.
Qed.

(** The checker's verdict is the truth about the whole store. *)
Lemma kv_check_verdict sort_Sort history (verbose : bool) (arrivals : list Arrival) (fuel : nat) r :
  sorts sort_Sort -> Forall (fun o => op_Call o <= op_Return o) history ->
  Forall (fun p => search_cost (length p) < fuel)%nat (Partition history) ->
  NoDup arrivals -> (forall i, Result i ∈ arrivals -> (i < length (Partition history))%nat) ->
  checkOperations sort_Sort KvModel history verbose arrivals fuel = Some r ->
  match r with
  | Ok => linearizable KvStore history
  | Illegal => ~ linearizable KvStore history
  | Unknown => Timeout ∈ arrivals
  end.
Proof.
  intros Hsort Hc Hf Hnd Hr Hres.
  destruct (checkOperations_verdict KvModel sort_Sort history verbose arrivals fuel) as [Hv _]; try done.
  - apply Forall_forall. intros p (k & -> & _)%Partition_elem. apply Forall_forall.
    intros o [_ Ho]%list_elem_of_filter. by eapply Forall_forall in Hc.
  - specialize (Hv r Hres). simpl in Hv.
    destruct r; [done|by apply Partition_local|by rewrite <- Partition_local].
Qed.

(** C35.  A test that checks a history of the key/value service is right: [Ok] means that the
    history is linearizable for the whole store, [Illegal] that it is not, only a timeout leaves
    it open; and for a history that is not empty, the results of the searches of all keys lead
    to a verdict. *)
Theorem kv_history_check
    (sort_Sort : (entry KvInput KvOutput -> entry KvInput KvOutput -> bool) ->
                 list (entry KvInput KvOutput) -> list (entry KvInput KvOutput))
    (history : list (Operation KvInput KvOutput)) (verbose : bool)
    (arrivals : list Arrival) (fuel : nat) :
  sorts sort_Sort -> Forall (fun o => op_Call o <= op_Return o) history ->
  Forall (fun p => search_cost (length p) < fuel)%nat (Partition history) ->
  NoDup arrivals -> (forall i, Result i ∈ arrivals -> (i < length (Partition history))%nat) ->
  (forall r, checkOperations sort_Sort KvModel history verbose arrivals fuel = Some r ->
     match r with
     | Ok => linearizable KvStore history
     | Illegal => ~ linearizable KvStore history
     | Unknown => Timeout ∈ arrivals
     end)
  /\ (history <> [] ->
      (forall i, (i < length (Partition history))%nat -> Result i ∈ arrivals) ->
      exists r, checkOperations sort_Sort KvModel history verbose arrivals fuel = Some r).
Proof.
  intros Hsort Hc Hf Hnd Hr. split; [intros r; by apply kv_check_verdict|]. intros Hne Hall.
  destruct (checkOperations_verdict KvModel sort_Sort history verbose arrivals fuel) as [_ Ht]; try done.
  - apply Forall_forall. intros p (k & -> & _)%Partition_elem. apply Forall_forall.
    intros o [_ Ho]%list_elem_of_filter. by eapply Forall_forall in Hc.
  - apply Ht; [|done]. simpl. destruct history as [|o history]; [done|].
    assert (Hin : at_key (in_Key (op_Input o)) (o :: history) ∈ Partition (o :: history)).
    { apply Partition_elem. eexists. split; [done|]. unfold on_key.
      by rewrite filter_cons_True. }
    intros Hnil. rewrite Hnil in Hin. set_solver.
Qed.
End KvHistory.

(** A put of [1] that is under way while one client reads the key twice: the old value, then
    the new one. *)
Definition two_reads : list (Operation KvModel0.KvInput KvModel0.KvOutput) :=
  [ mkOperation 0 (KvModel0.mkKvInput 1 "x" "1") 0 (KvModel0.mkKvOutput "") 10;
    mkOperation 1 (KvModel0.mkKvInput 0 "x" "") 2 (KvModel0.mkKvOutput "") 3;
    mkOperation 1 (KvModel0.mkKvInput 0 "x" "") 4 (KvModel0.mkKvOutput "1") 5 ].

Lemma checkSingle_linearizable_witness :
  linearizable (fillDefault KvModel1.KvModel) two_reads.
Proof.
  assert (Ht : Forall (fun o => op_Call o <= op_Return o) two_reads)
    by (repeat constructor; simpl; lia).
  assert (Hf : (search_cost (length two_reads) < 157)%nat) by (vm_compute; lia).
  destruct (checkSingle_linearizable (fillDefault KvModel1.KvModel) time_sort two_reads ShallowEqual
    false 157 eq_refl (fun s s' => proj1 (bool_decide_eq_true (s = s'))) time_sort_sorts Ht Hf)
    as (ok & longest & Hr & Hlin & _).
  apply Hlin. vm_compute in Hr. injection Hr as <- _. reflexivity.
Defined.

(** The reads the other way round. *)
Definition two_reads_swapped : list (Operation KvModel0.KvInput KvModel0.KvOutput) :=
  [ mkOperation 0 (KvModel0.mkKvInput 1 "x" "1") 0 (KvModel0.mkKvOutput "") 10;
    mkOperation 1 (KvModel0.mkKvInput 0 "x" "") 2 (KvModel0.mkKvOutput "1") 3;
    mkOperation 1 (KvModel0.mkKvInput 0 "x" "") 4 (KvModel0.mkKvOutput "") 5 ].

Lemma kv_history_check_witness :
  checkOperations time_sort KvModel1.KvModel two_reads_swapped true [Result 0] 157 = Some Illegal
  /\ ~ linearizable KvStore two_reads_swapped.
Proof.
  assert (Hr : checkOperations time_sort KvModel1.KvModel two_reads_swapped true [Result 0] 157
               = Some Illegal) by (vm_compute; reflexivity).
  split; [exact Hr|].
  refine (proj1 (kv_history_check time_sort two_reads_swapped true [Result 0] 157 time_sort_sorts
    _ _ _ _) Illegal Hr).
  - repeat constructor; simpl; lia.
  - assert (Hp : KvModel1.Partition two_reads_swapped = [two_reads_swapped]) by (vm_compute; reflexivity).
    rewrite Hp. constructor; [vm_compute; lia|constructor].
  - apply NoDup_singleton.
  - assert (Hp : KvModel1.Partition two_reads_swapped = [two_reads_swapped]) by (vm_compute; reflexivity).
    rewrite Hp. intros i Hi. apply list_elem_of_singleton in Hi. injection Hi as ->. simpl. lia.
Defined.

(** The page about the swapped reads, had the check been stopped after the fifth iteration. *)
Lemma visualization_shows_witness :
  exists info data,
    CheckOperationsVerbose time_sort KvModel1.KvModel two_reads_swapped [Timeout]
      (fun _ it => (5 <=? it)%nat) (fun _ l => l) 157 = Some (Unknown, info)
    /\ PorcVis.computeVisualizationData KvModel0.DescribeOperation id by_length KvModel1.KvModel info = Some data
    /\ Forall2 (truthful KvModel0.DescribeOperation id (fillDefault KvModel1.KvModel)) [two_reads_swapped] data.
Proof.
  destruct (visualization_shows KvModel1.KvModel KvModel0.DescribeOperation id time_sort by_length two_reads_swapped
    [two_reads_swapped] (fun _ it => (5 <=? it)%nat) (fun _ l => l) 157) as (info & data & Hv & Hd & Ht).
  - exact (fun s s' => proj1 (bool_decide_eq_true (s = s'))).
  - exact time_sort_sorts.
  - exact by_length_sorts.
  - intros i l. reflexivity.
  - vm_compute. reflexivity.
  - repeat constructor; simpl; lia.
  - constructor; [vm_compute; lia|constructor].
  - exists info, data. split; [apply Hv; vm_compute; reflexivity|]. split; [exact Hd|exact Ht].
Defined.
