(* ===== verification/KvSystem.v ===== *)
(** * The single-server key/value service as a whole

    Clerks, the network and the server of src/src/kvsrv together: any number of clients call
    [Get], [Put] and [Append] of their clerks at the same time, every RPC may be executed never,
    once or many times and at any later moment, and its answer may be lost.  [KvLin] proves
    that the histories of this system are linearizable.

    A client records its operations as the tests of the service do: what it called, what the
    clerk returned, and the times before and after. *)

From S2P Require Import Prelude KvSrv Porcupine KvHistory.
Import Porcupine KvSrv.

Module KvSystem.
Import KvModel0.
Abbreviation Op := (Operation KvInput KvOutput).

Inductive Cmd := CGet (key : string) | CPut (key value : string) | CAppend (key value : string).

(** Where a client is in its clerk's code: the arguments and the reply that [Clerk.Get] and
    [Clerk.PutAppend] hold, the time of the call, and the number of the RPC under way. *)
Inductive Pc :=
  | Idle
  | Getting (call : Z) (no : nat) (args : GetArgs)
  | Putting (call : Z) (no : nat) (op : string) (args : PutAppendArgs) (reply : PutAppendReply).

Record Client := mkClient { c_ck : Clerk; c_pc : Pc }.

Inductive Msg := MGet (args : GetArgs) | MReq (r : Req).
Inductive Answer := AGet (reply : GetReply) | APut (reply : PutAppendReply).

(** [y_sent] holds the RPCs by number, each with its sender; [y_answers] the answers, each with
    the number of its RPC.  Nothing is ever removed: delivering a message again is a step the
    network may take. *)
Record Sys := mkSys {
  y_srv : KVServer; y_clients : list Client; y_sent : list (nat * Msg);
  y_answers : list (nat * Answer); y_now : Z; y_log : list Op }.

(** [Clerk.PutAppend] after one answer: another round, or the end of the call. *)
Definition PutAppend_answer (ck : Clerk) (args : PutAppendArgs) (reply answer : PutAppendReply)
    : Clerk * PutAppendArgs * PutAppendReply + Clerk * string :=
  let reply := gob_into reply answer in
  if ck_ClientId ck =? -1 then
    let ck := mkClerk (r_ClientId reply) (ck_TransactionId ck) in
    inl (ck, set_ClientId args (ck_ClientId ck), reply)
  else if ck_TransactionId ck =? r_AckId reply - 1 then
    inr (mkClerk (ck_ClientId ck) (r_AckId reply), r_Value reply)
  else inl (ck, args, reply).

(** Client [i] sends an RPC and waits for it. *)
Definition send (y : Sys) (i : nat) (ck : Clerk) (pc : nat -> Pc) (m : Msg) : Sys :=
  let no := length (y_sent y) in
  mkSys (y_srv y) (<[i := mkClient ck (pc no)]> (y_clients y)) (y_sent y ++ [(i, m)])
    (y_answers y) (y_now y + 1) (y_log y).

(** The clerk's method returns: the client records the operation. *)
Definition finish (y : Sys) (i : nat) (ck : Clerk) (inp : KvInput) (call : Z) (v : string) : Sys :=
  mkSys (y_srv y) (<[i := mkClient ck Idle]> (y_clients y)) (y_sent y) (y_answers y) (y_now y + 1)
    (y_log y ++ [mkOperation (Z.of_nat i) inp call (mkKvOutput v) (y_now y)]).

Inductive Ev :=
  | Invoke (i : nat) (c : Cmd)     (** an idle client calls its clerk *)
  | Serve (no : nat)               (** the server executes RPC [no], perhaps again *)
  | Deliver (i k : nat)            (** client [i] gets the [k]-th answer, to the RPC it waits for *)
  | GiveUp (i : nat).              (** [Call] returns false *)

Definition start_get (y : Sys) (i : nat) (ck : Clerk) (key : string) : Sys :=
  let args := mkGetArgs key (ck_ClientId ck) (ck_TransactionId ck) in
  send y i ck (fun no => Getting (y_now y) no args) (MGet args).

Definition send_put (y : Sys) (i : nat) (ck : Clerk) (call : Z) (op : string) (args : PutAppendArgs)
    (reply : PutAppendReply) : option Sys :=
  r ← method op args;
  Some (send y i ck (fun no => Putting call no op args reply) (MReq r)).

Definition start_put (y : Sys) (i : nat) (ck : Clerk) (key value op : string) : option Sys :=
  let put_or_append := if decide (op = "Append") then Appendtype else Puttype in
  let args := mkPutAppendArgs key value put_or_append (ck_ClientId ck) (ck_TransactionId ck) in
  send_put y i ck (y_now y) op args (mkPutAppendReply "" 0 0).

(** What the tests log for a [PutAppend] that returned [v]: [Put] has no result. *)
Definition logged_value (op v : string) : string := if decide (op = "Append") then v else "".

Definition serve (y : Sys) (no : nat) (m : Msg) : option Sys :=
  '(kv, a) ← match m with
             | MGet args => Some (y_srv y, AGet (Get (y_srv y) args))
             | MReq r => '(kv, rep) ← exec (y_srv y) r; Some (kv, APut rep)
             end;
  Some (mkSys kv (y_clients y) (y_sent y) (y_answers y ++ [(no, a)]) (y_now y + 1) (y_log y)).

Definition deliver (y : Sys) (i : nat) (cl : Client) (no : nat) (a : Answer) : option Sys :=
  match c_pc cl, a with
  | Getting call no' args, AGet rep =>
      if decide (no = no')
      then Some (finish y i (c_ck cl) (mkKvInput 0 (ga_Key args) "") call (gr_Value rep)) else None
  | Putting call no' op args reply, APut rep =>
      if decide (no = no') then
        match PutAppend_answer (c_ck cl) args reply rep with
        | inl (ck, args, reply) => send_put y i ck call op args reply
        | inr (ck, v) =>
            Some (finish y i ck (kv_input op (Key args) (Value args)) call (logged_value op v))
        end
      else None
  | _, _ => None
  end.

Definition step (y : Sys) (e : Ev) : option Sys :=
  match e with
  | Invoke i c =>
      cl ← y_clients y !! i;
      match c_pc cl with
      | Idle =>
          match c with
          | CGet key => Some (start_get y i (c_ck cl) key)
          | CPut key value => start_put y i (c_ck cl) key value "Put"
          | CAppend key value => start_put y i (c_ck cl) key value "Append"
          end
      | _ => None
      end
  | Serve no => '(_, m) ← y_sent y !! no; serve y no m
  | Deliver i k => cl ← y_clients y !! i; '(no, a) ← y_answers y !! k; deliver y i cl no a
  | GiveUp i =>
      cl ← y_clients y !! i;
      match c_pc cl with
      | Idle => None
      | Getting call _ args => Some (send y i (c_ck cl) (fun no => Getting call no args) (MGet args))
      | Putting call _ op args reply => send_put y i (c_ck cl) call op args reply
      end
  end.

(** [n] clients with new clerks and a new server. *)
Definition start (n : nat) : Sys :=
  mkSys StartKVServer (replicate n (mkClient MakeClerk Idle)) [] [] 0 [].

Definition run (y : Sys) (es : list Ev) : option Sys := run_steps step y es.

(** No client waits for its clerk. *)
Definition quiet (y : Sys) : bool :=
  forallb (fun cl => match c_pc cl with Idle => true | _ => false end) (y_clients y).
End KvSystem.
Import KvSystem.

(** The client's step is one round of the clerk's loop. *)
Lemma PutAppend_loop_answer {W} (call : W -> string -> PutAppendArgs -> option (W * option PutAppendReply))
    fuel w w' ck args reply op answer :
  call w op args = Some (w', Some answer) ->
  PutAppend_loop call (S fuel) w ck args reply op
  = match PutAppend_answer ck args reply answer with
    | inl (ck, args, reply) => PutAppend_loop call fuel w' ck args reply op
    | inr (ck, v) => Some (w', ck, v)
    end.
Proof.
  intros Hc. unfold PutAppend_answer. simpl. rewrite Hc. simpl.
  destruct (ck_ClientId ck =? -1); [done|]. by case_match.
Qed.
