(* ===== verification/KvLin.v ===== *)
(** * The key/value service is linearizable

    The invariant of the system of [KvSystem] and its consequence.  The proof follows the
    operations that took effect at the server: a trace [T] of operations, each with the moment
    of its effect as its time of return.  Every write takes effect once, every answer to a [Get]
    was a read of the trace, and what the clients logged is a part of the trace that contains
    all writes of finished operations. *)

From S2P Require Import Prelude KvServer KvSrv Porcupine PorcLin PorcSearch PorcCheck PorcLocal KvHistory KvSystem.
Import Porcupine KvSrv KvSystem.
Import KvModel0.

Implicit Types (T : list Op) (C : list (Op * Op)) (W : list nat) (y : Sys) (e o : Op).

(** ** Executions of the store's model with their final state *)

Fixpoint run_ops (st : gmap string string) (ops : list Op) : option (gmap string string) :=
  match ops with
  | [] => Some st
  | o :: ops =>
      match Porcupine.Step KvStore st (op_Input o) (op_Output o) with
      | (true, st) => run_ops st ops
      | _ => None
      end
  end.

Definition value (st : gmap string string) (k : string) : string := default "" (st !! k).

(** States that read alike. *)
Definition same (st st' : gmap string string) : Prop := forall k, value st k = value st' k.

#[export] Instance same_equiv : Equivalence same.
Proof. split; repeat intro; congruence. Qed.

Lemma KvStore_step st i out :
  Porcupine.Step KvStore st i out
  = let '(ok, s) := Step (value st (in_Key i)) i out in (ok, <[in_Key i := s]> st).
Proof. done. Qed.

Lemma value_insert st k s k' : value (<[k := s]> st) k' = if decide (k = k') then s else value st k'.
Proof. unfold value. destruct (decide (k = k')) as [->|]; [by rewrite lookup_insert_eq|by rewrite lookup_insert_ne]. Qed.

Lemma same_step st st' i out st1 :
  same st st' -> Porcupine.Step KvStore st i out = (true, st1) ->
  exists st1', Porcupine.Step KvStore st' i out = (true, st1') /\ same st1 st1'.
Proof.
  intros Hs. rewrite !KvStore_step, (Hs (in_Key i)). destruct (Step _ i out) as [ok s].
  intros [= -> <-]. eexists. split; [done|]. intros k. rewrite !value_insert, Hs. done.
Qed.

Lemma run_ops_app st ops ops' :
  run_ops st (ops ++ ops') = st' ← run_ops st ops; run_ops st' ops'.
Proof.
  revert st. induction ops as [|o ops IH]; intros st; [done|]. cbn [run_ops app].
  by destruct (Porcupine.Step KvStore st (op_Input o) (op_Output o)) as [[|] st'].
Qed.

Definition is_read (o : Op) : Prop := in_Op (op_Input o) = 0.
Definition same_call (o o' : Op) : Prop := op_Input o = op_Input o' /\ op_Output o = op_Output o'.

#[export] Instance is_read_dec o : Decision (is_read o).
Proof. unfold is_read. apply _. Defined.

Lemma read_keeps st i out st' :
  in_Op i = 0 -> Porcupine.Step KvStore st i out = (true, st') -> same st st'.
Proof.
  intros Hi. rewrite KvStore_step. unfold Step. rewrite Hi. simpl. intros [= _ <-] k.
  rewrite value_insert. by destruct (decide _) as [->|].
Qed.

(** Reads can be left out of an execution. *)
Lemma run_ops_drop (P : Op -> Prop) `{!forall o, Decision (P o)} ops : forall st st0 st',
  run_ops st ops = Some st' -> same st st0 -> Forall (fun o => ~ is_read o -> P o) ops ->
  executes KvStore st0 (filter P ops).
Proof.
  induction ops as [|o ops IH]; intros st st0 st' Hr Hs Hp; [done|]. apply Forall_cons in Hp as [Ho Hp].
  cbn [run_ops] in Hr.
  destruct (Porcupine.Step KvStore st (op_Input o) (op_Output o)) as [[|] st1] eqn:E; [|done].
  rewrite filter_cons. destruct (decide (P o)) as [|HnP].
  - destruct (same_step _ _ _ _ _ Hs E) as (st1' & E' & Hs'). exists st1'. split; [exact E'|]. by eapply IH.
  - eapply IH; [exact Hr| |done]. destruct (decide (is_read o)) as [Hrd|]; [|tauto].
    etrans; [symmetry; by eapply read_keeps|done].
Qed.

(** Only inputs and outputs matter to an execution. *)
Lemma executes_same_call ops ops' st :
  Forall2 same_call ops ops' -> executes KvStore st ops -> executes KvStore st ops'.
Proof.
  intros Hs. revert st. induction Hs as [|o o' ops ops' [Hi Ho] _ IH]; intros st; [done|].
  intros (st' & Hst & He). exists st'. rewrite <- Hi, <- Ho. auto.
Qed.

(** ** From a trace of effects to a linearization *)

#[local] Instance KvInput_eq_dec : EqDecision KvInput.
Proof. solve_decision. Defined.
#[local] Instance KvOutput_eq_dec : EqDecision KvOutput.
Proof. solve_decision. Defined.
#[local] Instance Op_eq_dec : EqDecision Op.
Proof. solve_decision. Defined.

Definition effect_before e e' : Prop := op_Return e < op_Return e'.

(** [o] is the operation that took effect as [e], and returned later. *)
Record finishes e o : Prop := {
  fi_client : op_ClientId o = op_ClientId e;
  fi_call : op_Call o = op_Call e;
  fi_same : same_call e o;
  fi_return : op_Return e <= op_Return o;
}.

(** The effects in [T] and the finished operations in [C], with their effects. *)
Record trace T C (st : gmap string string) : Prop := {
  tr_sorted : StronglySorted effect_before T;
  tr_run : run_ops ∅ T = Some st;
  tr_calls : Forall (fun e => op_Call e <= op_Return e) T;
  tr_once : NoDup C.*1;
  tr_finished : Forall (fun p => p.1 ∈ T /\ finishes p.1 p.2) C;
}.

Lemma sorted_nodup T : StronglySorted effect_before T -> NoDup T.
Proof.
  induction 1 as [|e T _ IH He]; constructor; [|done]. intros Hin.
  rewrite Forall_forall in He. specialize (He e Hin). unfold effect_before in He. lia.
Qed.

Lemma trace_linearizable T C st :
  trace T C st -> Forall (fun e => ~ is_read e -> e ∈ C.*1) T -> linearizable KvStore C.*2.
Proof.
  intros [Hs Hr Hc Hnd Hf] Hw. set (l := filter (fun e => e ∈ C.*1) T).
  assert (Hl : l ≡ₚ C.*1).
  { apply NoDup_Permutation; [by apply NoDup_filter, sorted_nodup|done|]. intros e. unfold l.
    rewrite list_elem_of_filter. split; [tauto|]. intros He. split; [done|].
    apply list_elem_of_fmap in He as (p & -> & Hp). rewrite Forall_forall in Hf. by apply Hf. }
  destruct (Permutation_map_inv fst C Hl) as (C' & Hl' & HC).
  assert (Hf' : Forall (fun p => p.1 ∈ T /\ finishes p.1 p.2) C') by (by rewrite <- HC).
  rewrite Forall_forall in Hf'. rewrite Forall_forall in Hc. exists C'.*2. split_and!; [by rewrite HC| |].
  - intros a b (p & q & Hpq & -> & ->)%pair_sublist_fmap Hlt.
    destruct (pair_sublist_elem _ _ _ Hpq) as [Hp Hq].
    destruct (Hf' p Hp) as [HpT [_ Hcall _ _]], (Hf' q Hq) as [_ [_ _ _ Hret]].
    assert (Hsub : [p.1; q.1] `sublist_of` T).
    { etrans; [|apply sublist_filter with (P := fun e => e ∈ C.*1)]. fold l. rewrite Hl'.
      by apply (fmap_sublist fst [p; q] C'). }
    pose proof (StronglySorted_pair _ _ _ _ Hs Hsub) as Hlt'. unfold effect_before in Hlt'.
    specialize (Hc _ HpT). simpl in Hc. lia.
  - apply (executes_same_call C'.*1).
    + clear -Hf'. apply Forall2_fmap, Forall_Forall2_diag, Forall_forall. intros p Hp.
      apply (Hf' p Hp).
    + change (executes KvStore (Porcupine.Init KvStore) (map fst C')). rewrite <- Hl'. eapply run_ops_drop; [exact Hr|done|done].
Qed.

(** The trace grows by one effect at time [t]. *)
Lemma trace_effect T C st st' e :
  trace T C st -> Forall (fun e' => effect_before e' e) T -> op_Call e <= op_Return e ->
  Porcupine.Step KvStore st (op_Input e) (op_Output e) = (true, st') -> trace (T ++ [e]) C st'.
Proof.
  intros [Hs Hr Hc Hnd Hf] Hb Ht Hst. split; [| | |done|].
  - apply StronglySorted_app. split_and!; [|done|by repeat constructor].
    intros a b Ha ->%list_elem_of_singleton. rewrite Forall_forall in Hb. auto.
  - rewrite run_ops_app, Hr. cbn [mbind option_bind run_ops]. by rewrite Hst.
  - apply Forall_app. by repeat constructor.
  - eapply Forall_impl; [exact Hf|]. intros p [? ?]. split; [set_solver|done].
Qed.

(** An operation finishes. *)
Lemma trace_finish T C st e o :
  trace T C st -> e ∈ T -> e ∉ C.*1 -> finishes e o -> trace T (C ++ [(e, o)]) st.
Proof.
  intros [Hs Hr Hc Hnd Hf] He Hn Hfin. split; try done.
  - rewrite fmap_app. apply NoDup_app. split_and!; [done|set_solver|apply NoDup_singleton].
  - apply Forall_app. split; [done|]. by apply Forall_singleton.
Qed.

(** ** The invariant

    Ghost state: the trace [T], the finished operations [C] and, for every slot of the server's
    table, the client whose registration made it ([W]). *)

Record Ghost := mkGhost { g_T : list Op; g_C : list (Op * Op); g_W : list nat }.
Implicit Types (g : Ghost) (cl : Client) (i : nat).

Abbreviation id_of cl := (ck_ClientId (c_ck cl)).
Abbreviation next_of cl := (ck_TransactionId (c_ck cl)).

Definition slot_of g i (c : Z) : Prop := slice_get (g_W g) c = Some i.

Definition since (pc : Pc) : option Z :=
  match pc with Idle => None | Getting call _ _ => Some call | Putting call _ _ _ _ => Some call end.

Definition waits_for (pc : Pc) (no : nat) : Prop :=
  match pc with Idle => False | Getting _ n _ => no = n | Putting _ n _ _ _ => no = n end.

(** Effect [e] is that of the call of client [i] with this input. *)
Definition effect_of i (call : Z) (inp : KvInput) (v : string) e : Prop :=
  op_ClientId e = Z.of_nat i /\ op_Call e = call /\ op_Input e = inp /\ op_Output e = mkKvOutput v.

Definition put_input (op : string) (args : PutAppendArgs) : KvInput := kv_input op (Key args) (Value args).

(** What may arrive at a client as the answer to its RPC; [eff] is the effect of its operation. *)
Definition answer_ok y g i cl (eff : option Op) (a : Answer) : Prop :=
  match c_pc cl with
  | Idle => False
  | Getting call _ args =>
      exists rep e, a = AGet rep /\ e ∈ g_T g
        /\ effect_of i call (mkKvInput 0 (ga_Key args) "") (gr_Value rep) e
  | Putting _ _ op _ _ =>
      if id_of cl =? -1 then
        exists c, slot_of g i c /\ a = APut (mkPutAppendReply "" c (next_of cl))
      else exists s v, is_Some eff /\ slot (y_srv y) (id_of cl) = Some s
             /\ a = APut (mkPutAppendReply v (id_of cl) (next_of cl + 1))
             /\ logged_value op v = logged_value op (ValueBuffer s)
  end.

(** What a waiting client holds. *)
Definition pc_ok y g i cl (eff : option Op) : Prop :=
  match c_pc cl with
  | Idle => eff = None
  | Getting call no args => eff = None /\ call < y_now y /\ y_sent y !! no = Some (i, MGet args)
  | Putting call no op args reply =>
      call < y_now y /\ r_Value reply = "" /\ (id_of cl = -1 -> r_ClientId reply = 0) /\ is_op op
      /\ args = own op (Key args) (Value args) (id_of cl) (next_of cl)
      /\ (exists r, method op args = Some r /\ y_sent y !! no = Some (i, MReq r))
      /\ forall e, eff = Some e -> e ∈ g_T g /\ exists s, slot (y_srv y) (id_of cl) = Some s
           /\ effect_of i call (put_input op args) (logged_value op (ValueBuffer s)) e
  end.

(** How far the server is ahead of the clerk. *)
Definition bump (eff : option Op) : Z := match eff with Some _ => 1 | None => 0 end.

(** What the clerk knows; [eff] is the effect of its current operation, if it has taken effect. *)
Record clerk_inv y g i (ck : Clerk) (eff : option Op) : Prop := {
  co_next : 0 <= ck_TransactionId ck;
  (** the server expects the client's next request, or has executed its current one *)
  co_id : ck_ClientId ck <> -1 -> slot_of g i (ck_ClientId ck)
            /\ registered (y_srv y) (ck_ClientId ck) (ck_TransactionId ck + bump eff);
  co_noid : ck_ClientId ck = -1 -> eff = None
            /\ forall c s, slot_of g i c -> slot (y_srv y) c = Some s -> AckID s = ck_TransactionId ck;
  co_writes : forall e, e ∈ g_T g -> ~ is_read e -> op_ClientId e = Z.of_nat i ->
                e ∈ (g_C g).*1 \/ eff = Some e;
}.

Record client_ok y g i cl (eff : option Op) : Prop := {
  co_clerk : clerk_inv y g i (c_ck cl) eff;
  co_fresh : forall e call, e ∈ (g_C g).*1 -> op_ClientId e = Z.of_nat i ->
               since (c_pc cl) = Some call -> op_Call e < call;
  co_pc : pc_ok y g i cl eff;
  co_answers : forall no a, waits_for (c_pc cl) no -> (no, a) ∈ y_answers y -> answer_ok y g i cl eff a;
}.

(** A request that was sent is a registration, an old request, or the current one. *)
Definition sent_ok cl (r : Req) : Prop :=
  (ClientId (req_args r) = -1 /\ (id_of cl = -1 -> TransactionId (req_args r) = next_of cl))
  \/ (ClientId (req_args r) = id_of cl /\ id_of cl <> -1
      /\ (TransactionId (req_args r) < next_of cl
          \/ exists call no op args reply, c_pc cl = Putting call no op args reply
               /\ method op args = Some r)).

Record inv g y : Prop := {
  iv_srv : srv_wf (y_srv y);
  iv_slots : zlen (g_W g) = zlen (AckTime (y_srv y));
  iv_trace : exists st, trace (g_T g) (g_C g) st /\ forall k, read (y_srv y) k = value st k;
  iv_past : Forall (fun e => op_Return e < y_now y) (g_T g);
  iv_log : (g_C g).*2 = y_log y;
  iv_clients : forall i cl, y_clients y !! i = Some cl -> exists eff, client_ok y g i cl eff;
  iv_effects : forall e, e ∈ g_T g -> exists i, op_ClientId e = Z.of_nat i /\ is_Some (y_clients y !! i);
  iv_sent : forall no i r, y_sent y !! no = Some (i, MReq r) ->
              exists cl, y_clients y !! i = Some cl /\ sent_ok cl r;
  iv_senders : forall no i m, y_sent y !! no = Some (i, m) -> is_Some (y_clients y !! i);
  iv_answers : forall no a, (no, a) ∈ y_answers y -> is_Some (y_sent y !! no);
}.

Lemma inv_start n : inv (mkGhost [] [] []) (start n).
Proof.
  split; simpl; try done.
  - exists ∅. split; [|by intros k]. split; try constructor; done.
  - intros i cl [-> _]%lookup_replicate. exists None. split; simpl; try done. split; simpl; try done; [|set_solver].
    intros _. split; [done|]. intros c s Hc. apply slice_get_lt in Hc. unfold zlen in Hc. simpl in Hc. lia.
  - set_solver.
  - set_solver.
Qed.

(** When no client waits, what they logged is linearizable. *)
Lemma inv_linearizable g y : inv g y -> quiet y = true -> linearizable KvStore (y_log y).
Proof.
  intros Hi Hq. destruct (iv_trace _ _ Hi) as (st & Ht & _). rewrite <- (iv_log _ _ Hi).
  apply (trace_linearizable _ _ _ Ht). apply Forall_forall. intros e He Hw.
  destruct (iv_effects _ _ Hi e He) as (i & Hc & cl & Hcl).
  destruct (iv_clients _ _ Hi i cl Hcl) as (eff & Hok).
  destruct (co_writes _ _ _ _ _ (co_clerk _ _ _ _ _ Hok) e He Hw Hc) as [|Heff]; [done|].
  unfold quiet in Hq. rewrite forallb_forall in Hq.
  specialize (Hq cl (proj1 (list_elem_of_In _ _) (list_elem_of_lookup_2 _ _ _ Hcl))).
  pose proof (co_pc _ _ _ _ _ Hok) as Hpc. unfold pc_ok in Hpc. destruct (c_pc cl); congruence.
Qed.

(** ** What the steps of others leave alone *)

Record evolves i cl y g y' g' : Prop := {
  ev_now : y_now y <= y_now y';
  ev_sent : y_sent y `prefix_of` y_sent y';
  ev_owner : forall c, slot_of g i c -> slot_of g' i c;
  ev_slot : forall c s, slot_of g i c -> slot (y_srv y) c = Some s -> slot (y_srv y') c = Some s;
  ev_new_slot : forall c s, slot_of g' i c -> slot (y_srv y') c = Some s ->
                  slot_of g i c \/ id_of cl <> -1 \/ AckID s = next_of cl;
  ev_effects : g_T g ⊆ g_T g';
  ev_new_effects : forall e, e ∈ g_T g' -> op_ClientId e = Z.of_nat i -> e ∈ g_T g \/ is_read e;
  ev_finished : (g_C g).*1 ⊆ (g_C g').*1;
  ev_new_finished : forall e, e ∈ (g_C g').*1 -> op_ClientId e = Z.of_nat i -> e ∈ (g_C g).*1;
}.

Lemma slot_of_slot g y i c : zlen (g_W g) = zlen (AckTime (y_srv y)) -> slot_of g i c ->
  is_Some (slot (y_srv y) c).
Proof. intros Hz Hs%slice_get_lt. apply slice_get_total. lia. Qed.

Lemma answer_ok_evolves i cl y g y' g' eff a :
  evolves i cl y g y' g' -> (id_of cl <> -1 -> slot_of g i (id_of cl)) ->
  answer_ok y g i cl eff a -> answer_ok y' g' i cl eff a.
Proof.
  intros [] Hid. unfold answer_ok. destruct (c_pc cl) as [| |? ? op ? ?]; [done| |].
  - intros (rep & e & Ha & He & Hf). exists rep, e. auto.
  - destruct (Z.eqb_spec (id_of cl) (-1)) as [|Hne].
    + intros (c & Hc & Ha). exists c. auto.
    + intros (s & v & Hs & Hsl & Hrest). exists s, v. auto.
Qed.

Lemma client_evolves i cl y g y' g' eff :
  evolves i cl y g y' g' -> zlen (g_W g) = zlen (AckTime (y_srv y)) ->
  (forall no a, waits_for (c_pc cl) no -> (no, a) ∈ y_answers y' ->
     (no, a) ∈ y_answers y \/ answer_ok y' g' i cl eff a) ->
  client_ok y g i cl eff -> client_ok y' g' i cl eff.
Proof.
  intros He Hz Hans [[Hnext Hid Hnoid Hw] Hf Hpc Ha]. pose proof He as [].
  assert (Hown : id_of cl <> -1 -> slot_of g i (id_of cl)) by (intros; by apply Hid).
  split; [split; [done| | |]| | |].
  - intros Hne. destruct (Hid Hne) as (Hs & s & Hsl & Hk). split; [auto|]. exists s. auto.
  - intros Hne. destruct (Hnoid Hne) as [-> Hall]. split; [done|]. intros c s Hc Hs.
    destruct (ev_new_slot0 c s Hc Hs) as [Hc0|[|]]; [|done|done].
    destruct (slot_of_slot g y i c Hz Hc0) as (s0 & Hs0).
    specialize (ev_slot0 c s0 Hc0 Hs0). assert (s = s0) as -> by congruence. by apply (Hall c).
  - intros e He' Hr Hc. destruct (ev_new_effects0 e He' Hc) as [|]; [|done].
    destruct (Hw e) as [|]; auto.
  - intros e call He' Hc. apply Hf; auto.
  - unfold pc_ok in *. destruct (c_pc cl) as [|call no args|call no op args reply]; [done| |].
    + destruct Hpc as (? & ? & ?). split_and!; [done|lia|]. by eapply prefix_lookup_Some.
    + destruct Hpc as (? & ? & ? & ? & ? & (r & Hr & Hs) & Heff). split_and!; [lia|done..| |].
      * exists r. split; [done|]. by eapply prefix_lookup_Some.
      * intros e ->. destruct (Heff e eq_refl) as (? & s & Hs' & ?). split; [auto|]. exists s.
        split; [|done]. apply ev_slot0; [|done]. apply Hown. intros Hne. by destruct (Hnoid Hne).
  - intros no a Hwait Hin. destruct (Hans no a Hwait Hin) as [Hold|]; [|done].
    by apply (answer_ok_evolves i cl y g); [| |apply (Ha no)].
Qed.

(** ** Steps of a client *)

#[local] Arguments pc_ok y g i !cl eff /.
#[local] Arguments answer_ok y g i !cl eff a /.

Lemma evolves_client i cl y g srv cls sent ans log C' :
  (g_C g).*1 ⊆ C'.*1 ->
  (forall e, e ∈ C'.*1 -> op_ClientId e = Z.of_nat i -> e ∈ (g_C g).*1) ->
  srv = y_srv y -> y_sent y `prefix_of` sent ->
  evolves i cl y g (mkSys srv cls sent ans (y_now y + 1) log) (mkGhost (g_T g) C' (g_W g)).
Proof. intros ? ? -> ?. split; simpl; auto; lia. Qed.

(** Client [i] changes and may send a message; only its own part of the invariant is in question. *)
Lemma inv_client g y i cl cl' sent C' log :
  inv g y -> y_clients y !! i = Some cl -> y_sent y `prefix_of` sent ->
  let y' := mkSys (y_srv y) (<[i := cl']> (y_clients y)) sent (y_answers y) (y_now y + 1) log in
  let g' := mkGhost (g_T g) C' (g_W g) in
  (forall no j m, sent !! no = Some (j, m) -> y_sent y !! no = Some (j, m)
     \/ j = i /\ forall r, m = MReq r -> sent_ok cl' r) ->
  (forall r, sent_ok cl r -> sent_ok cl' r) ->
  (g_C g).*1 ⊆ C'.*1 -> C'.*2 = log ->
  (forall e, e ∈ C'.*1 -> e ∈ (g_C g).*1 \/ op_ClientId e = Z.of_nat i) ->
  (forall st, trace (g_T g) (g_C g) st -> trace (g_T g) C' st) ->
  (exists eff, client_ok y' g' i cl' eff) ->
  inv g' y'.
Proof.
  intros [Hsrv Hsl (st & Htr & Hrd) Hpast Hlog Hcl Hef Hse Hsd Hans] Hi Hpre y' g' Hm Hold HC HC2 HCn HCt Hok.
  assert (Hlive : forall j, is_Some (y_clients y !! j) -> is_Some (<[i := cl']> (y_clients y) !! j)).
  { intros j. rewrite !lookup_lt_is_Some, length_insert. done. }
  split; simpl; try done.
  - exists st. auto.
  - eapply Forall_impl; [exact Hpast|]. simpl. lia.
  - intros j cj Hj. apply list_lookup_insert_Some in Hj as [(-> & <- & _)|(Hne & Hj)]; [done|].
    destruct (Hcl j cj Hj) as (eff & Hc). exists eff. refine (client_evolves j cj y g _ _ eff _ Hsl _ Hc).
    + apply evolves_client; auto. intros e He Hce. destruct (HCn e He) as [|Hi']; [done|].
      exfalso. rewrite Hce in Hi'. lia.
    + intros no a _ Hin. by left.
  - intros e He. destruct (Hef e He) as (j & Hj & Hl). exists j. auto.
  - intros no j r Hn. destruct (decide (j = i)) as [->|Hne].
    + exists cl'. split; [apply list_lookup_insert_eq; by eapply lookup_lt_Some|].
      destruct (Hm _ _ _ Hn) as [Hn'|[_ Hr]]; [|by apply Hr].
      destruct (Hse _ _ _ Hn') as (c0 & Hc0 & Hok0). simplify_eq. auto.
    + destruct (Hm _ _ _ Hn) as [Hn'|[? _]]; [|done]. rewrite list_lookup_insert_ne by done. by apply (Hse no).
  - intros no j m Hn. apply Hlive. destruct (Hm _ _ _ Hn) as [Hn'|[-> _]]; [by eapply Hsd|by exists cl].
  - intros no a Hin. destruct (Hans no a Hin) as [x Hx]. exists x. by eapply prefix_lookup_Some.
Qed.

Lemma sent_new (sent : list (nat * Msg)) i m no j m' :
  (sent ++ [(i, m)]) !! no = Some (j, m') -> sent !! no = Some (j, m') \/ j = i /\ m' = m.
Proof.
  rewrite lookup_app_Some. intros [|[_ Hn]]; [by left|right].
  by apply list_lookup_singleton_Some in Hn as [_ [= -> ->]].
Qed.

Lemma inv_send g y i cl ck pc m :
  inv g y -> y_clients y !! i = Some cl ->
  let cl' := mkClient ck (pc (length (y_sent y))) in
  (forall r, m = MReq r -> sent_ok cl' r) -> (forall r, sent_ok cl r -> sent_ok cl' r) ->
  (exists eff, client_ok (send y i ck pc m) g i cl' eff) ->
  inv g (send y i ck pc m).
Proof.
  intros Hi Hcl cl' Hm Hold Hok. destruct g as [T C W].
  apply (inv_client (mkGhost T C W) y i cl cl' _ C); try done.
  - by apply prefix_app_r.
  - intros no j m' [?|[-> ->]]%sent_new; [by left|right]. auto.
  - apply (iv_log _ _ Hi).
  - by left.
Qed.

(** An answer to an RPC that has just been sent does not exist yet. *)
Lemma no_answer g y a : inv g y -> (length (y_sent y), a) ∈ y_answers y -> False.
Proof. intros Hi Hin. by destruct (iv_answers _ _ Hi _ _ Hin) as [x Hx%lookup_lt_Some%Nat.lt_irrefl]. Qed.

Lemma method_args op args r : method op args = Some r -> req_args r = args.
Proof. unfold method. repeat case_decide; intros; by simplify_eq. Qed.

(** The client goes on. *)
Lemma client_moves y y' g i ck pc eff :
  clerk_inv y g i ck eff -> y_srv y' = y_srv y ->
  (forall e call, e ∈ (g_C g).*1 -> op_ClientId e = Z.of_nat i -> since pc = Some call -> op_Call e < call) ->
  pc_ok y' g i (mkClient ck pc) eff ->
  (forall no a, waits_for pc no -> (no, a) ∈ y_answers y' -> answer_ok y' g i (mkClient ck pc) eff a) ->
  client_ok y' g i (mkClient ck pc) eff.
Proof. intros [Hnext Hid Hnoid Hw] Hs Hf Hpc Ha. split; [split; rewrite ?Hs|..]; assumption. Qed.

Lemma sent_idle ck pc r : sent_ok (mkClient ck Idle) r -> sent_ok (mkClient ck pc) r.
Proof.
  intros [|(? & ? & [?|(? & ? & ? & ? & ? & ? & _)])]; [by left| |done]. right. auto.
Qed.

(** Everything that took effect was called before now. *)
Lemma finished_past g y e : inv g y -> e ∈ (g_C g).*1 -> op_Call e < y_now y.
Proof.
  intros Hi (p & -> & Hp)%list_elem_of_fmap. destruct (iv_trace _ _ Hi) as (st & Ht & _).
  pose proof (tr_finished _ _ _ Ht) as Hf. rewrite Forall_forall in Hf. destruct (Hf p Hp) as [Hin _].
  pose proof (tr_calls _ _ _ Ht) as Hc. rewrite Forall_forall in Hc. specialize (Hc _ Hin).
  pose proof (iv_past _ _ Hi) as Hpa. rewrite Forall_forall in Hpa. specialize (Hpa _ Hin).
  simpl in *. lia.
Qed.

Lemma sent_last (sent : list (nat * Msg)) x : (sent ++ [x]) !! length sent = Some x.
Proof. by apply list_lookup_middle. Qed.

Lemma inv_start_get g y i ck key :
  inv g y -> y_clients y !! i = Some (mkClient ck Idle) -> inv g (start_get y i ck key).
Proof.
  intros Hi Hcl. destruct (iv_clients _ _ Hi i _ Hcl) as (eff & Hok).
  apply (inv_send g y i (mkClient ck Idle)); try done.
  - intros r. apply sent_idle.
  - exists eff. pose proof (co_pc _ _ _ _ _ Hok) as Heff. simpl in Heff. subst eff.
    apply (client_moves y); [apply Hok|done| | |].
    + intros e call He _ [= <-]. by apply (finished_past g).
    + simpl. split_and!; [done|lia|apply sent_last].
    + simpl. intros no a -> []%(no_answer g y a Hi).
Qed.

(** A write is sent, the first time or again. *)
Lemma inv_send_put g y i cl ck call op args reply eff y' :
  inv g y -> y_clients y !! i = Some cl -> clerk_inv y g i ck eff ->
  call <= y_now y -> r_Value reply = "" -> (ck_ClientId ck = -1 -> r_ClientId reply = 0) -> is_op op ->
  args = own op (Key args) (Value args) (ck_ClientId ck) (ck_TransactionId ck) ->
  (forall e, e ∈ (g_C g).*1 -> op_ClientId e = Z.of_nat i -> op_Call e < call) ->
  (forall e, eff = Some e -> e ∈ g_T g /\ exists s, slot (y_srv y) (ck_ClientId ck) = Some s
     /\ effect_of i call (put_input op args) (logged_value op (ValueBuffer s)) e) ->
  (forall r, sent_ok cl r -> sent_ok (mkClient ck Idle) r \/ method op args = Some r) ->
  send_put y i ck call op args reply = Some y' -> inv g y'.
Proof.
  intros Hi Hcl Hck Hc Hv Hv0 Hop Hargs Hf Heff Hold Hs. unfold send_put in Hs.
  destruct (method op args) as [r|] eqn:Hm; [|done]. injection Hs as <-.
  assert (Hsent : forall r', method op args = Some r' ->
            sent_ok (mkClient ck (Putting call (length (y_sent y)) op args reply)) r').
  { intros r' Hr'. unfold sent_ok. simpl. rewrite (method_args _ _ _ Hr'), Hargs. simpl.
    destruct (decide (ck_ClientId ck = -1)); [by left|]. right. split_and!; [done..|right].
    rewrite <- Hargs. eauto 10. }
  apply (inv_send g y i cl); try done.
  - intros r' [= <-]. auto.
  - intros r' Hr'. destruct (Hold r' Hr') as [|Heq]; [by apply sent_idle|]. apply Hsent. congruence.
  - exists eff. apply (client_moves y); [done|done| | |].
    + intros e call' He Hce [= <-]. auto.
    + simpl. split_and!; [lia|done..| |done]. exists r. split; [done|apply sent_last].
    + simpl. intros no a -> []%(no_answer g y a Hi).
Qed.

Lemma inv_start_put g y i ck key val op y' :
  is_op op -> inv g y -> y_clients y !! i = Some (mkClient ck Idle) ->
  start_put y i ck key val op = Some y' -> inv g y'.
Proof.
  intros Hop Hi Hcl Hs. destruct (iv_clients _ _ Hi i _ Hcl) as (eff & Hok).
  pose proof (co_pc _ _ _ _ _ Hok) as Heff. simpl in Heff. subst eff.
  eapply inv_send_put; [exact Hi|exact Hcl|apply Hok| | | | | | |done|auto|exact Hs]; [lia|done..|].
  intros e He _. by apply (finished_past g).
Qed.

Lemma inv_give_up g y i y' : inv g y -> step y (GiveUp i) = Some y' -> inv g y'.
Proof.
  intros Hi Hs. simpl in Hs. destruct (y_clients y !! i) as [[ck pc]|] eqn:Hcl; [|done]. simpl in Hs.
  destruct (iv_clients _ _ Hi i _ Hcl) as (eff & Hok).
  destruct pc as [|call no args|call no op args reply]; [done| |].
  - injection Hs as <-. pose proof (co_pc _ _ _ _ _ Hok) as (-> & Hc & _).
    apply (inv_send g y i _ _ _ _ Hi Hcl); [done| |].
    + intros r [|(? & ? & [?|(? & ? & ? & ? & ? & ? & _)])]; [by left|right; auto|done].
    + exists None. eapply client_moves; [apply Hok|done| | |].
      * intros e call' He Hce [= <-]. by eapply (co_fresh _ _ _ _ _ Hok).
      * simpl in *. split_and!; [done|lia|apply sent_last].
      * simpl. intros no' a -> []%(no_answer g y a Hi).
  - pose proof (co_pc _ _ _ _ _ Hok) as (? & ? & ? & ? & ? & _ & ?). simpl in *.
    eapply inv_send_put; [exact Hi|exact Hcl|apply (co_clerk _ _ _ _ _ Hok)| |done..| |done| |exact Hs].
    + lia.
    + intros e He Hce. by eapply (co_fresh _ _ _ _ _ Hok).
    + intros r [|(? & ? & [?|(? & ? & ? & ? & ? & Hpc & Hm)])]; [left; by left|left; right; auto|].
      simpl in Hpc. simplify_eq. by right.
Qed.

(** A call returns what its effect recorded. *)
Lemma inv_finish g y i ck pc ck' eff call inp v e :
  inv g y -> y_clients y !! i = Some (mkClient ck pc) -> client_ok y g i (mkClient ck pc) eff ->
  since pc = Some call -> e ∈ g_T g -> effect_of i call inp v e -> (eff = None \/ eff = Some e) ->
  ck' = mkClerk (ck_ClientId ck) (ck_TransactionId ck + bump eff) ->
  (forall r, sent_ok (mkClient ck pc) r -> sent_ok (mkClient ck' Idle) r) ->
  exists g', inv g' (finish y i ck' inp call v).
Proof.
  intros Hi Hcl Hok Hsince He (Hci & Hca & Hin & Hout) Heff -> Hsent.
  set (o := mkOperation (Z.of_nat i) inp call (mkKvOutput v) (y_now y)).
  destruct Hok as [[Hnext Hid Hnoid Hw] Hf _ _]. simpl in *.
  assert (Hnew : e ∉ (g_C g).*1) by (intros Hc; specialize (Hf e call Hc Hci Hsince); lia).
  exists (mkGhost (g_T g) (g_C g ++ [(e, o)]) (g_W g)).
  eapply inv_client; [done|done|done| | | | | | |].
  - intros no j m Hn. by left.
  - done.
  - rewrite fmap_app. set_solver.
  - rewrite fmap_app, (iv_log _ _ Hi). done.
  - intros e'. rewrite fmap_app, elem_of_app. intros [| ->%list_elem_of_singleton]; auto.
  - intros st Ht. apply trace_finish; [done..|]. split; [done|done|by split|].
    pose proof (iv_past _ _ Hi) as Hp. rewrite Forall_forall in Hp. specialize (Hp e He). simpl in *. lia.
  - exists None. split; simpl; [|done..]. split; simpl; [destruct eff; simpl; lia| | |].
    + rewrite Z.add_0_r. done.
    + intros Hne. destruct (Hnoid Hne) as [-> Hall]. rewrite Z.add_0_r. done.
    + intros e' He' Hr Hc. left. rewrite fmap_app, elem_of_app. destruct (Hw e' He' Hr Hc) as [|E]; [by left|].
      right. destruct Heff as [->| ->]; [done|]. injection E as <-. apply list_elem_of_singleton. done.
Qed.

(** The answer to a registration: the clerk takes its id and sends its request. *)
Lemma inv_registered g y i t call no op args reply reply' c y' :
  let pc := Putting call no op args reply in
  inv g y -> y_clients y !! i = Some (mkClient (mkClerk (-1) t) pc) ->
  slot_of g i c -> r_Value reply' = "" ->
  send_put y i (mkClerk c t) call op (set_ClientId args c) reply' = Some y' -> inv g y'.
Proof.
  intros pc Hi Hcl Hc Hv Hs. destruct (iv_clients _ _ Hi i _ Hcl) as (eff & [[Hnext Hid Hnoid Hw] Hf Hpc _]).
  destruct (Hnoid eq_refl) as [-> Hall]. destruct Hpc as (Hlt & _ & _ & Hop & Hargs & _). simpl in *.
  destruct (slot_of_slot g y i c (iv_slots _ _ Hi) Hc) as (s & Hslot).
  pose proof (slice_get_lt _ _ _ Hc) as Hc0.
  eapply (inv_send_put _ _ _ _ _ _ _ _ _ None); [exact Hi|exact Hcl| | | | | | | |done| |exact Hs]; simpl; try done.
  - split; simpl; [done| |lia|done]. intros _. split; [done|]. exists s. split; [done|].
    rewrite Z.add_0_r. by apply (Hall c).
  - lia.
  - lia.
  - by rewrite Hargs.
  - intros e He Hce. by apply Hf.
  - intros r [[Hr _]|(? & ? & _)]; [|done]. left. left. split; [done|]. simpl. lia.
Qed.

(** A clerk that has its id and is answered returns. *)
Lemma PutAppend_answered c t args reply v :
  c <> -1 -> 0 <= t -> r_Value reply = "" ->
  PutAppend_answer (mkClerk c t) args reply (mkPutAppendReply v c (t + 1)) = inr (mkClerk c (t + 1), v).
Proof.
  intros Hc Ht Hv. destruct (gob_into_fields reply v c t Hv Ht) as [G1 G2].
  unfold PutAppend_answer. cbn [ck_ClientId ck_TransactionId].
  destruct (Z.eqb_spec c (-1)); [done|]. rewrite G1, G2. destruct (Z.eqb_spec t (t + 1 - 1)); [done|lia].
Qed.

(** A clerk without an id takes the one in the answer. *)
Lemma PutAppend_registered t args reply c t' :
  r_Value reply = "" -> 0 <= c -> (r_ClientId reply = 0 \/ c <> 0) ->
  exists reply', r_Value reply' = ""
    /\ PutAppend_answer (mkClerk (-1) t) args reply (mkPutAppendReply "" c t')
       = inl (mkClerk c t, set_ClientId args c, reply').
Proof.
  intros Hv Hc Hr. exists (gob_into reply (mkPutAppendReply "" c t')). split; [exact Hv|].
  unfold PutAppend_answer. cbn [ck_ClientId ck_TransactionId]. rewrite Z.eqb_refl.
  assert (r_ClientId (gob_into reply (mkPutAppendReply "" c t')) = c) as ->; [|done].
  unfold gob_into. simpl. destruct (Z.eqb_spec c 0); [destruct Hr; congruence|done].
Qed.

Lemma inv_deliver g y i k y' : inv g y -> step y (Deliver i k) = Some y' -> exists g', inv g' y'.
Proof.
  intros Hi Hs. simpl in Hs. destruct (y_clients y !! i) as [[[c t] pc]|] eqn:Hcl; [|done]. simpl in Hs.
  destruct (y_answers y !! k) as [[no a]|] eqn:Ha; [|done]. simpl in Hs.
  apply list_elem_of_lookup_2 in Ha. destruct (iv_clients _ _ Hi i _ Hcl) as (eff & Hok).
  unfold deliver in Hs. cbn [c_pc c_ck] in Hs.
  destruct pc as [|call no' args|call no' op args reply]; [done| |]; destruct a as [rep|rep]; try done;
    destruct (decide (no = no')) as [->|]; try done;
    pose proof (co_answers _ _ _ _ _ Hok no' _ eq_refl Ha) as Hans; simpl in Hans.
  - injection Hs as <-. pose proof (co_pc _ _ _ _ _ Hok) as (-> & _).
    destruct Hans as (rep' & e & [= <-] & He & Heff).
    eapply inv_finish; [done|done|exact Hok|done|exact He|exact Heff|by left|simpl; f_equal; lia|].
    intros r [|(? & ? & [?|(? & ? & ? & ? & ? & ? & _)])]; [by left|right; auto|done].
  - pose proof (co_pc _ _ _ _ _ Hok) as (_ & Hv & Hv0 & Hop & Hargs & _ & Hef). simpl in *.
    pose proof (co_next _ _ _ _ _ (co_clerk _ _ _ _ _ Hok)) as Ht. simpl in Ht.
    destruct (Z.eqb_spec c (-1)) as [->|Hne].
    + destruct Hans as (c & Hc & [= ->]). pose proof (slice_get_lt _ _ _ Hc) as Hc0.
      destruct (PutAppend_registered t args reply c t) as (reply' & Hv' & E); [done|lia|by left; apply Hv0|].
      rewrite E in Hs. exists g. by eapply inv_registered.
    + destruct Hans as (s & v & (e & ->) & Hsl & [= ->] & Hval). rewrite PutAppend_answered in Hs by done.
      injection Hs as <-. destruct (Hef e eq_refl) as (He & s' & Hsl' & Heff). simplify_eq.
      eapply inv_finish; [done|done|exact Hok|done|exact He|by rewrite Hval|by right|done|].
      intros r [[? ?]|(? & ? & Hr)]; [by left|right]. split_and!; [done..|left]. simpl in *.
      destruct Hr as [|(? & ? & ? & ? & ? & Hpc & Hm)]; [lia|]. simplify_eq.
      rewrite (method_args _ _ _ Hm), Hargs. simpl. lia.
Qed.

(** ** Steps of the server *)

Definition current (pc : Pc) (m : Msg) : Prop :=
  match pc with
  | Idle => False
  | Getting _ _ args => m = MGet args
  | Putting _ _ op args _ => exists r, method op args = Some r /\ m = MReq r
  end.

(** The RPC a client waits for is its own, and carries its current request. *)
Lemma waits_current y g i cl eff no :
  client_ok y g i cl eff -> waits_for (c_pc cl) no ->
  exists m, y_sent y !! no = Some (i, m) /\ current (c_pc cl) m.
Proof.
  intros [_ _ Hpc _] Hw. destruct cl as [ck [|call no' args|call no' op args reply]]; [done| |];
    simpl in *; subst no'.
  - destruct Hpc as (_ & _ & Hs). eauto.
  - destruct Hpc as (_ & _ & _ & _ & _ & (r & Hr & Hs) & _). eauto.
Qed.

(** The server executes an RPC of client [i]: the ghost state follows. *)
Lemma inv_served g y no i m kv a T' W' st' :
  inv g y -> y_sent y !! no = Some (i, m) ->
  let y' := mkSys kv (y_clients y) (y_sent y) (y_answers y ++ [(no, a)]) (y_now y + 1) (y_log y) in
  let g' := mkGhost T' (g_C g) W' in
  srv_wf kv -> zlen W' = zlen (AckTime kv) -> trace T' (g_C g) st' ->
  (forall k, read kv k = value st' k) ->
  (forall e, e ∈ T' -> e ∈ g_T g \/ op_ClientId e = Z.of_nat i /\ op_Return e = y_now y) ->
  (forall j cl, y_clients y !! j = Some cl -> j <> i -> evolves j cl y g y' g') ->
  (forall cl eff, y_clients y !! i = Some cl -> client_ok y g i cl eff ->
     exists eff', client_ok y' g' i cl eff') ->
  inv g' y'.
Proof.
  intros [Hsrv Hsl (st & Htr & Hrd) Hpast Hlog Hcl Hef Hse Hsd Hans] Hno y' g' Hwf Hz Htr' Hrd' HT Hev Hown.
  split; simpl; try done.
  - by exists st'.
  - apply Forall_forall. intros e He. rewrite Forall_forall in Hpast.
    destruct (HT e He) as [Hin|[_ ->]]; [specialize (Hpast e Hin); simpl in *|]; lia.
  - intros j cl Hj. destruct (Hcl j cl Hj) as (eff & Hok). destruct (decide (j = i)) as [->|Hne].
    + by eapply Hown.
    + exists eff. apply (client_evolves j cl y g); [by apply Hev|done| |done].
      intros no' a' Hw Hin. left. apply elem_of_app in Hin as [|Hin]; [done|].
      apply list_elem_of_singleton in Hin. injection Hin as -> ->.
      destruct (waits_current _ _ _ _ _ _ Hok Hw) as (m' & Hm & _). congruence.
  - intros e He. destruct (HT e He) as [Hin|[Hc _]]; [auto|]. exists i. split; [done|]. by eapply Hsd.
  - intros no' a' [Hin|Hin%list_elem_of_singleton]%elem_of_app; [by eapply Hans|]. simplify_eq. by rewrite Hno.
Qed.

(** The trace and the store may stay the same. *)
Lemma evolves_refl_srv j cl y g cls sent ans log T' C W :
  sent = y_sent y -> C = g_C g -> W = g_W g -> g_T g ⊆ T' ->
  (forall e, e ∈ T' -> op_ClientId e = Z.of_nat j -> e ∈ g_T g \/ is_read e) ->
  evolves j cl y g (mkSys (y_srv y) cls sent ans (y_now y + 1) log) (mkGhost T' C W).
Proof. intros -> -> -> ? ?. split; simpl; auto; lia. Qed.

Lemma answered_new (ans : list (nat * Answer)) no a no' a' :
  (no', a') ∈ ans ++ [(no, a)] -> (no', a') ∈ ans \/ no' = no /\ a' = a.
Proof. rewrite elem_of_app, list_elem_of_singleton. naive_solver. Qed.

Lemma inv_serve_get g y no i args y' :
  inv g y -> y_sent y !! no = Some (i, MGet args) -> serve y no (MGet args) = Some y' ->
  exists g', inv g' y'.
Proof.
  intros Hi Hno [= <-]. destruct (iv_trace _ _ Hi) as (st & Htr & Hrd).
  destruct (iv_senders _ _ Hi _ _ _ Hno) as [[ck pc] Hcl]. destruct (iv_clients _ _ Hi _ _ Hcl) as (eff & Hok).
  assert (Hdec : waits_for pc no /\ (exists call, pc = Getting call no args) \/ ~ waits_for pc no).
  { destruct pc as [|call no' args'|call no' op args' reply]; [right; intros []|..];
      (destruct (decide (no = no')) as [<-|Hne]; [|right; exact Hne]); left;
      destruct (waits_current _ _ _ _ _ no Hok eq_refl) as (m & Hm & Hcur); simpl in *.
    - split; [done|]. exists call. congruence.
    - destruct Hcur as (r & _ & ->). congruence. }
  destruct Hdec as [[_ (call & ->)]|Hnw].
  - pose proof (co_pc _ _ _ _ _ Hok) as (-> & Hcall & _). simpl in Hcall.
    set (v := read (y_srv y) (ga_Key args)).
    set (e := mkOperation (Z.of_nat i) (mkKvInput 0 (ga_Key args) "") call (mkKvOutput v) (y_now y)).
    assert (Hst : Porcupine.Step KvStore st (op_Input e) (op_Output e) = (true, <[ga_Key args := v]> st)).
    { rewrite KvStore_step. unfold Step. simpl. unfold v. rewrite Hrd, bool_decide_true by done. done. }
    assert (Hnew : forall j e', e' ∈ g_T g ++ [e] -> op_ClientId e' = Z.of_nat j -> e' ∈ g_T g \/ is_read e').
    { intros j e' [| ->%list_elem_of_singleton]%elem_of_app _; [by left|by right]. }
    exists (mkGhost (g_T g ++ [e]) (g_C g) (g_W g)).
    eapply (inv_served g y no i _ _ _ _ _ (<[ga_Key args := v]> st)); try done.
    + apply Hi.
    + apply Hi.
    + eapply trace_effect; [exact Htr|apply (iv_past _ _ Hi)|simpl; lia|exact Hst].
    + intros k. rewrite value_insert, Hrd. unfold v. by case_decide; subst.
    + intros e' [| ->%list_elem_of_singleton]%elem_of_app; [by left|by right].
    + intros j cl Hj Hne. apply evolves_refl_srv; try done; [set_solver|apply Hnew].
    + intros cl eff Hcl' Hok'. simplify_eq. pose proof (co_pc _ _ _ _ _ Hok') as (-> & _). exists None.
      eapply (client_evolves i _ y g); [|apply Hi| |exact Hok'].
      { apply evolves_refl_srv; try done; [set_solver|apply Hnew]. }
      intros no' a _ [?|[-> ->]]%answered_new; [by left|right]. simpl. exists (Get (y_srv y) args), e.
      split; [done|]. split; [set_solver|]. done.
  - exists (mkGhost (g_T g) (g_C g) (g_W g)). eapply inv_served; try done.
    + apply Hi.
    + apply Hi.
    + by left.
    + intros j cl Hj Hne. apply evolves_refl_srv; auto.
    + intros cl eff' Hcl' Hok'. simplify_eq. exists eff'.
      eapply (client_evolves i _ y g); [|apply Hi| |exact Hok'].
      { apply evolves_refl_srv; auto. }
      intros no' a Hw [?|[-> ->]]%answered_new; [by left|done].
Qed.

(** A request without a client id, whatever its kind. *)
Lemma exec_new kv r :
  srv_wf kv -> ClientId (req_args r) = -1 ->
  exec kv r = Some ((NewClient kv (TransactionId (req_args r))).1,
                    mkPutAppendReply "" (zlen (AckTime kv)) (TransactionId (req_args r))).
Proof. intros Hwf Hc. destruct r; simpl in *; unfold Put, Append; rewrite Hc; simpl; by rewrite Hwf. Qed.

(** A request the server has executed before. *)
Lemma exec_old kv r s :
  ClientId (req_args r) <> -1 -> slot kv (ClientId (req_args r)) = Some s ->
  TransactionId (req_args r) < AckID s ->
  exec kv r = Some (kv, mkPutAppendReply (ValueBuffer s) (ClientId (req_args r)) (AckID s)).
Proof.
  unfold slot. intros Hc Hs Hlt. destruct r as [args|args]; simpl in *; unfold Put, Append;
    (destruct (Z.eqb_spec (ClientId args) (-1)); [done|]); rewrite Hs; simpl;
    (destruct (Z.eqb_spec (TransactionId args) (AckID s)); [lia|]); done.
Qed.

(** An RPC that changes nothing, with an answer the sender may get. *)
Lemma inv_serve_same g y no i m a :
  inv g y -> y_sent y !! no = Some (i, m) ->
  let y' := mkSys (y_srv y) (y_clients y) (y_sent y) (y_answers y ++ [(no, a)]) (y_now y + 1) (y_log y) in
  (forall cl eff, y_clients y !! i = Some cl -> client_ok y g i cl eff -> waits_for (c_pc cl) no ->
     answer_ok y g i cl eff a) ->
  inv g y'.
Proof.
  intros Hi Hno y' Hans. destruct (iv_trace _ _ Hi) as (st & Htr & Hrd). destruct g as [T C W].
  assert (Hev : forall j cl, evolves j cl y (mkGhost T C W) y' (mkGhost T C W))
    by (intros; apply evolves_refl_srv; auto).
  refine (inv_served (mkGhost T C W) y no i m _ a T W st Hi Hno _ _ Htr Hrd _ _ _);
    [apply Hi|apply Hi|by left|auto|].
  intros cl eff Hcl Hok. exists eff. eapply client_evolves; [apply Hev|apply Hi| |exact Hok].
  intros no' a' Hw [?|[-> ->]]%answered_new; [by left|right].
  apply (answer_ok_evolves i cl y (mkGhost T C W)); [done| |auto].
  intros Hne. by apply (co_id _ _ _ _ _ (co_clerk _ _ _ _ _ Hok)).
Qed.

Lemma inv_serve_new g y no i r y' :
  inv g y -> y_sent y !! no = Some (i, MReq r) -> serve y no (MReq r) = Some y' ->
  ClientId (req_args r) = -1 -> exists g', inv g' y'.
Proof.
  intros Hi Hno Hs Hc. unfold serve in Hs. pose proof (iv_srv _ _ Hi) as Hwf. pose proof (iv_slots _ _ Hi) as Hz.
  rewrite (exec_new _ _ Hwf Hc) in Hs. injection Hs as <-.
  destruct (iv_trace _ _ Hi) as (st & Htr & Hrd). set (t := TransactionId (req_args r)).
  destruct (iv_sent _ _ Hi _ _ _ Hno) as (cl0 & Hcl0 & Hsent).
  assert (Hold : forall j c, slot_of g j c -> slice_get (g_W g ++ [i]) c = Some j).
  { intros j c. unfold slot_of. rewrite !slice_get_Some. intros [? ?]. split; [done|]. by apply lookup_app_l_Some. }
  assert (Hnew : forall j c s, slice_get (g_W g ++ [i]) c = Some j ->
            slot (NewClient (y_srv y) t).1 c = Some s -> slot_of g j c \/ j = i /\ AckID s = t).
  { intros j c s. unfold slot_of, slot. simpl. rewrite !slice_get_Some. intros [Hc0 Hj] [_ Hsl].
    apply lookup_app_Some in Hj as [|[Hge Hj]]; [by left|right].
    apply list_lookup_singleton_Some in Hj as [? ->]. unfold zlen in Hz.
    rewrite lookup_app_r in Hsl by lia.
    by apply list_lookup_singleton_Some in Hsl as [_ <-]. }
  assert (Hev : forall j cl, y_clients y !! j = Some cl -> evolves j cl y g
            (mkSys (NewClient (y_srv y) t).1 (y_clients y) (y_sent y)
               (y_answers y ++ [(no, APut (mkPutAppendReply "" (zlen (AckTime (y_srv y))) t))])
               (y_now y + 1) (y_log y)) (mkGhost (g_T g) (g_C g) (g_W g ++ [i]))).
  { intros j cl Hj. split; cbn [y_now y_sent y_srv g_T g_C]; auto; [lia|exact (Hold j)|by intros; apply slot_app|].
    intros c s Hown Hsl. destruct (Hnew j c s Hown Hsl) as [|[-> ->]]; [by left|right].
    assert (cl = cl0) as -> by congruence. destruct Hsent as [[_ Hk]|(Hid & Hne & _)]; [|congruence].
    destruct (decide (id_of cl0 = -1)); [right; by apply Hk|by left]. }
  exists (mkGhost (g_T g) (g_C g) (g_W g ++ [i])).
  refine (inv_served g y no i (MReq r) (NewClient (y_srv y) t).1 _ _ _ st Hi Hno _ _ Htr Hrd _ _ _); simpl.
  - unfold srv_wf in *. simpl. autorewrite with zlen. lia.
  - autorewrite with zlen. lia.
  - by left.
  - auto.
  - intros cl eff Hcl Hok. exists eff. eapply client_evolves; [by apply Hev|done| |exact Hok].
    intros no' a Hw [?|[-> ->]]%answered_new; [by left|right]. simplify_eq.
    destruct (waits_current _ _ _ _ _ _ Hok Hw) as (m & Hm & Hcur). assert (m = MReq r) as -> by congruence.
    destruct cl0 as [ck [|call n args|call n op args reply]]; [done|done|].
    destruct Hcur as (r' & Hr & [= <-]). pose proof (method_args _ _ _ Hr) as Hargs.
    pose proof (co_pc _ _ _ _ _ Hok) as (_ & _ & _ & _ & Hown & _). simpl in *.
    rewrite Hargs, Hown in Hc. simpl in Hc. rewrite Hc. simpl. exists (zlen (AckTime (y_srv y))). split.
    + unfold slot_of. simpl. rewrite slice_get_Some. unfold zlen in *. split; [lia|].
      replace (Z.to_nat _) with (length (g_W g)) by lia. by apply list_lookup_middle.
    + unfold t. by rewrite Hargs, Hown.
Qed.

(** A request that takes effect leaves the slots of all other clients alone. *)
Lemma exec_others_slot kv r kv' rep c s :
  srv_wf kv -> 0 <= ClientId (req_args r) < zlen (AckTime kv) -> ClientId (req_args r) <> c ->
  exec kv r = Some (kv', rep) -> slot kv c = Some s -> slot kv' c = Some s.
Proof.
  intros Hwf Hr Hc He Hs. destruct (exec_other (zlen (AckTime kv)) c kv r Hwf) as (kv1 & rep1 & He1 & Hg);
    [done|by right|]. assert (kv1 = kv') as -> by congruence. by apply Hg.
Qed.

(** The first copy of a client's current request takes effect. *)
Lemma inv_serve_fresh g y no i r ck call n op args reply y' :
  inv g y -> y_sent y !! no = Some (i, MReq r) -> serve y no (MReq r) = Some y' ->
  let cl := mkClient ck (Putting call n op args reply) in
  y_clients y !! i = Some cl -> client_ok y g i cl None -> ck_ClientId ck <> -1 ->
  method op args = Some r -> exists g', inv g' y'.
Proof.
  intros Hi Hno Hs cl Hcl Hok Hne Hm. unfold serve in Hs. pose proof (iv_srv _ _ Hi) as Hwf.
  destruct Hok as [[Hnext Hid Hnoid Hw] Hf Hpc Hans]. simpl in *.
  destruct (Hid Hne) as (Hown & s & Hsl & Hack). rewrite Z.add_0_r in Hack.
  destruct Hpc as (Hcall & Hv & Hv0 & Hop & Hargs & Hcur & _).
  destruct (exec_fresh op (Key args) (Value args) _ _ (y_srv y) s Hop Hne Hwf Hsl Hack)
    as (r' & kv' & rep & s' & Hm' & He & -> & Hsl' & Hack' & Hrem & Hwf' & Hlen & Hstep & Hkeys).
  rewrite <- Hargs in Hm'. assert (r' = r) as -> by congruence. rewrite He in Hs. injection Hs as <-.
  destruct (iv_trace _ _ Hi) as (st & Htr & Hrd). pose proof (iv_slots _ _ Hi) as Hz.
  assert (Hlog : op = "Append" -> logged_value op (ValueBuffer s') = read (y_srv y) (Key args)).
  { intros Ha. unfold logged_value. rewrite decide_True by done. by apply Hrem. }
  set (e := mkOperation (Z.of_nat i) (put_input op args) call
              (mkKvOutput (logged_value op (ValueBuffer s'))) (y_now y)).
  assert (Hst : Porcupine.Step KvStore st (op_Input e) (op_Output e)
                = (true, <[Key args := read kv' (Key args)]> st)).
  { rewrite KvStore_step. simpl. rewrite <- Hrd. unfold put_input.
    by rewrite (Step_answer _ _ _ _ _ _ Hop Hlog Hstep). }
  pose proof (slice_get_lt _ _ _ Hsl) as Hlt. assert (Hcid : ClientId (req_args r) = ck_ClientId ck).
  { rewrite (method_args _ _ _ Hm), Hargs. done. }
  exists (mkGhost (g_T g ++ [e]) (g_C g) (g_W g)).
  eapply (inv_served g y no i (MReq r) kv' _ _ _ (<[Key args := read kv' (Key args)]> st) Hi Hno).
  - done.
  - lia.
  - eapply trace_effect; [exact Htr|apply (iv_past _ _ Hi)|simpl; lia|exact Hst].
  - intros k. rewrite value_insert. case_decide as Hk; [by subst k|]. by rewrite Hkeys.
  - intros e' [| ->%list_elem_of_singleton]%elem_of_app; [by left|by right].
  - intros j cj Hj Hji. split; simpl; auto; [lia| |set_solver|].
    + intros c s0 Hc Hs0. eapply (exec_others_slot (y_srv y) r); [done|rewrite Hcid; lia| |exact He|done].
      rewrite Hcid. intros <-. unfold slot_of in *. congruence.
    + intros e' [| ->%list_elem_of_singleton]%elem_of_app Hce; [by left|]. simpl in Hce. lia.
  - intros cl' eff' Hcl' _. simplify_eq. exists (Some e). split; [split|..]; simpl; [done| |done| |done| |].
    + intros _. split; [done|]. by exists s'.
    + intros e' [| ->%list_elem_of_singleton]%elem_of_app Hr Hce; [|by right].
      destruct (Hw e') as [|]; [done..|by left|done].
    + split_and!; [lia|done..|]. intros e' [= <-]. split; [set_solver|]. exists s'. done.
    + intros no' a Hwait [Hin|[-> ->]]%answered_new.
      * specialize (Hans no' a Hwait Hin). destruct (Z.eqb_spec (ck_ClientId ck) (-1)); [done|].
        destruct Hans as (? & ? & Hbad & _). by apply is_Some_None in Hbad.
      * destruct (Z.eqb_spec (ck_ClientId ck) (-1)); [done|]. exists s', (read (y_srv y) (Key args)).
        split_and!; [done..|]. unfold logged_value in *. case_decide; [by rewrite Hrem|done].
Qed.

Lemma inv_serve g y no y' : inv g y -> step y (Serve no) = Some y' -> exists g', inv g' y'.
Proof.
  intros Hi Hs. simpl in Hs. destruct (y_sent y !! no) as [[i [args|r]]|] eqn:Hno; [| |done]; cbn [mbind option_bind] in Hs.
  { by eapply inv_serve_get. }
  destruct (decide (ClientId (req_args r) = -1)) as [|Hne]; [by eapply inv_serve_new|].
  destruct (iv_sent _ _ Hi _ _ _ Hno) as (cl & Hcl & [[? _]|(Hid & Hcid & Hkind)]); [done|].
  destruct (iv_clients _ _ Hi _ _ Hcl) as (eff & Hok).
  pose proof (co_clerk _ _ _ _ _ Hok) as [Hnext Hreg _ _].
  destruct (Hreg Hcid) as (Hown & s & Hsl & Hack). rewrite <- Hid in Hsl.
  assert (Hcur : forall call n op args reply, c_pc cl = Putting call n op args reply ->
            method op args = Some r -> TransactionId (req_args r) = next_of cl).
  { intros call n op args reply Hpc Hm. destruct cl as [ck pc]. simpl in *. subst pc.
    pose proof (co_pc _ _ _ _ _ Hok) as (_ & _ & _ & _ & Hargs & _). simpl in Hargs.
    by rewrite (method_args _ _ _ Hm), Hargs. }
  assert (Hcase : TransactionId (req_args r) < AckID s
            \/ eff = None /\ exists call n op args reply, c_pc cl = Putting call n op args reply
                 /\ method op args = Some r).
  { rewrite Hack. destruct Hkind as [Hlt|(call & n & op & args & reply & Hpc & Hm)].
    - left. destruct eff; simpl; lia.
    - rewrite (Hcur _ _ _ _ _ Hpc Hm). destruct eff; simpl; [left; lia|right]. eauto 10. }
  destruct Hcase as [Hlt|(-> & call & n & op & args & reply & Hpc & Hm)].
  - unfold serve in Hs. rewrite (exec_old _ _ s Hne Hsl Hlt) in Hs. injection Hs as <-.
    exists g. eapply inv_serve_same; [done|exact Hno|]. intros cl' eff' Hcl' Hok' Hw. simplify_eq.
    destruct (waits_current _ _ _ _ _ _ Hok' Hw) as (m & Hm & Hcu). assert (m = MReq r) as -> by congruence.
    destruct cl as [ck [|call n args|call n op args reply]]; [done|done|].
    destruct Hcu as (r' & Hr & [= <-]). specialize (Hcur _ _ _ _ _ eq_refl Hr). simpl in *.
    destruct (Z.eqb_spec (ck_ClientId ck) (-1)); [done|]. exists s, (ValueBuffer s).
    destruct (co_id _ _ _ _ _ (co_clerk _ _ _ _ _ Hok') Hcid) as (_ & s' & Hsl' & Hack'). simpl in *.
    rewrite Hid in Hsl. simplify_eq. destruct eff' as [e|]; simpl in *; [|lia].
    split_and!; [done..| |done]. by rewrite Hid, Hack'.
  - destruct cl as [ck pc]. simpl in *. subst pc. by eapply inv_serve_fresh.
Qed.

Lemma inv_step g y ev y' : inv g y -> step y ev = Some y' -> exists g', inv g' y'.
Proof.
  intros Hi Hs. destruct ev as [i c|no|i k|i].
  - simpl in Hs. destruct (y_clients y !! i) as [[ck pc]|] eqn:Hcl; [|done]. simpl in Hs.
    destruct pc; [|done..]. exists g. destruct c as [key|key v|key v].
    + injection Hs as <-. by apply inv_start_get.
    + eapply inv_start_put; [by left|done..].
    + eapply inv_start_put; [by right|done..].
  - by eapply inv_serve.
  - by eapply inv_deliver.
  - exists g. by eapply inv_give_up.
Qed.

Lemma inv_run n es y : run (start n) es = Some y -> exists g, inv g y.
Proof.
  intros Hr. refine (run_steps_ind step (fun y => exists g, inv g y) (fun _ => True) _ _ _ _ _ _ Hr).
  - intros y1 ev y2 (g & Hi) _ Hs. by eapply inv_step.
  - eexists. apply inv_start.
  - by apply Forall_true.
Qed.

(** ** The theorem *)

(** A write that its client still waits for; it is taken to return now. *)
Definition pending y (o : Op) : Prop :=
  exists i ck call no op args reply,
    y_clients y !! i = Some (mkClient ck (Putting call no op args reply))
    /\ op_ClientId o = Z.of_nat i /\ op_Input o = put_input op args /\ op_Call o = call
    /\ op_Return o = y_now y.

Definition return_at (t : Z) e : Op := mkOperation (op_ClientId e) (op_Input e) (op_Call e) (op_Output e) t.

(** The effects of operations that have not returned. *)
Lemma inv_unfinished g y e :
  inv g y -> e ∈ g_T g -> ~ is_read e -> e ∉ (g_C g).*1 ->
  pending y (return_at (y_now y) e)
  /\ forall e', e' ∈ g_T g -> ~ is_read e' -> e' ∉ (g_C g).*1 -> op_ClientId e' = op_ClientId e -> e' = e.
Proof.
  intros Hi He Hr Hn. destruct (iv_effects _ _ Hi e He) as (i & Hc & [ck pc] & Hcl).
  destruct (iv_clients _ _ Hi i _ Hcl) as (eff & Hok). pose proof (co_clerk _ _ _ _ _ Hok) as [_ _ _ Hw].
  destruct (Hw e He Hr Hc) as [| ->]; [done|]. split.
  - pose proof (co_pc _ _ _ _ _ Hok) as Hpc.
    destruct pc as [|call no args|call no op args reply]; simpl in Hpc; [done|by destruct Hpc|].
    destruct Hpc as (_ & _ & _ & _ & _ & _ & Heff).
    destruct (Heff e eq_refl) as (_ & s & _ & _ & Hca & Hin & _). unfold pending. simpl. eauto 15.
  - intros e' He' Hr' Hn' Hc'. destruct (Hw e') as [|[= ->]]; congruence.
Qed.

Lemma NoDup_fmap_inj_on {A B} (f : A -> B) (l : list A) :
  NoDup l -> (forall x x', x ∈ l -> x' ∈ l -> f x' = f x -> x' = x) -> NoDup (f <$> l).
Proof.
  induction 1 as [|x l Hx _ IH]; intros Hf; simpl; [constructor|]. constructor.
  - intros (x' & Hfx & Hx')%list_elem_of_fmap. assert (x = x') as <-; [|done].
    apply (Hf x' x); [by right|by left|done].
  - apply IH. intros y z Hy Hz. apply Hf; by right.
Qed.

(** At any time, the operations that have returned and the writes under way that have taken
    effect are linearizable together. *)
Lemma inv_complete g y : inv g y ->
  exists pend, NoDup (op_ClientId <$> pend) /\ Forall (pending y) pend
    /\ linearizable KvStore (y_log y ++ pend).
Proof.
  intros Hi. destruct (iv_trace _ _ Hi) as (st & Ht & _).
  set (U := filter (fun e => ~ is_read e /\ e ∉ (g_C g).*1) (g_T g)).
  assert (HU : forall e, e ∈ U <-> (~ is_read e /\ e ∉ (g_C g).*1) /\ e ∈ g_T g)
    by (intros e; unfold U; by rewrite list_elem_of_filter).
  assert (HUnd : NoDup U) by apply NoDup_filter, sorted_nodup, Ht.
  exists (return_at (y_now y) <$> U). split_and!.
  - rewrite <- list_fmap_compose. apply NoDup_fmap_inj_on; [done|].
    intros e e' [[? ?] ?]%HU [[? ?] ?]%HU Heq. by eapply (inv_unfinished g y e).
  - apply Forall_fmap, Forall_forall. intros e [[? ?] ?]%HU. by apply (inv_unfinished g).
  - set (C := g_C g ++ ((fun e => (e, return_at (y_now y) e)) <$> U)).
    assert (HC1 : C.*1 = (g_C g).*1 ++ U).
    { unfold C. rewrite fmap_app, <- list_fmap_compose. f_equal. by apply list_fmap_id. }
    assert (HC2 : C.*2 = y_log y ++ (return_at (y_now y) <$> U)).
    { unfold C. rewrite fmap_app, <- list_fmap_compose, (iv_log _ _ Hi). done. }
    rewrite <- HC2. apply (trace_linearizable (g_T g) C st).
    + split; try apply Ht.
      * rewrite HC1. apply NoDup_app. split_and!; [apply Ht| |done]. intros e He [[_ ?] _]%HU. done.
      * apply Forall_app. split; [apply Ht|]. apply Forall_fmap, Forall_forall. intros e [_ He]%HU.
        split; [done|]. split; [done|done|done|]. simpl. pose proof (iv_past _ _ Hi) as Hp.
        rewrite Forall_forall in Hp. specialize (Hp e He). simpl in Hp. lia.
    + apply Forall_forall. intros e He Hr. rewrite HC1, elem_of_app, HU.
      destruct (decide (e ∈ (g_C g).*1)); auto.
Qed.

Lemma inv_log_times g y : inv g y -> Forall (fun o => op_Call o <= op_Return o) (y_log y).
Proof.
  intros Hi. destruct (iv_trace _ _ Hi) as (st & Ht & _). rewrite <- (iv_log _ _ Hi).
  apply Forall_fmap, Forall_forall. intros p Hp. simpl.
  pose proof (tr_finished _ _ _ Ht) as Hf. rewrite Forall_forall in Hf. destruct (Hf p Hp) as [Hin [_ Hc _ Hr]].
  pose proof (tr_calls _ _ _ Ht) as Hc'. rewrite Forall_forall in Hc'. specialize (Hc' _ Hin). simpl in *. lia.
Qed.

(** C25.  The key/value service is linearizable.  Any number of clients use their clerks at the
    same time, over a network that loses, delays, repeats and reorders requests and replies.  At
    any time what the clients have logged, together with some of the writes under way (at most
    one of a client, taken to return now), is linearizable; when no call is under way, the log
    itself is, and the checker never answers [Illegal] for it. *)
Theorem kv_service_linearizable (n : nat) (es : list Ev) (y : Sys) :
  run (start n) es = Some y ->
  (exists pend, NoDup (op_ClientId <$> pend) /\ Forall (pending y) pend
     /\ linearizable KvStore (y_log y ++ pend))
  /\ (quiet y = true ->
      linearizable KvStore (y_log y)
      /\ forall sort_Sort verbose arrivals fuel,
           sorts sort_Sort ->
           Forall (fun p => search_cost (length p) < fuel)%nat (KvModel1.Partition (y_log y)) ->
           NoDup arrivals ->
           (forall i, Result i ∈ arrivals -> (i < length (KvModel1.Partition (y_log y)))%nat) ->
           checkOperations sort_Sort KvModel1.KvModel (y_log y) verbose arrivals fuel <> Some Illegal).
Proof.
  intros Hr. destruct (inv_run n es y Hr) as (g & Hi). split; [by apply (inv_complete g)|].
  intros Hq. pose proof (inv_linearizable g y Hi Hq) as Hlin. split; [done|].
  intros srt v arr fuel Hs Hf Hnd Hres Hill.
  by apply (kv_check_verdict _ _ _ _ _ _ Hs (inv_log_times g y Hi) Hf Hnd Hres Hill).
Qed.

(** Two clients; the first one's append is executed while its answer is lost, and again. *)
Lemma kv_service_linearizable_witness :
  exists y, run (start 2)
    [Invoke 0 (CAppend "x" "a"); Serve 0; Deliver 0 0; Serve 1; GiveUp 0; Invoke 1 (CGet "x");
     Serve 3; Deliver 1 2; Serve 2; Serve 1; Deliver 0 3] = Some y
    /\ y_log y = [mkOperation 1 (mkKvInput 0 "x" "") 5 (mkKvOutput "a") 7;
                  mkOperation 0 (mkKvInput 3 "x" "a") 0 (mkKvOutput "") 10]
    /\ linearizable KvStore (y_log y).
Proof.
  eexists. split; [vm_compute; reflexivity|]. split; [vm_compute; reflexivity|].
  refine (proj1 (proj2 (kv_service_linearizable 2
    [Invoke 0 (CAppend "x" "a"); Serve 0; Deliver 0 0; Serve 1; GiveUp 0; Invoke 1 (CGet "x");
     Serve 3; Deliver 1 2; Serve 2; Serve 1; Deliver 0 3] _ _) _)); vm_compute; reflexivity.
Defined.
