(* ===== verification/LabRpc.v ===== *)
(** * The simulated network: lec-2025/src/labrpc/labrpc.go

    [Network] delivers the requests of client ends to servers.  Every request has a goroutine
    ([processReq]) that reads how its end is connected, may drop the request, starts another
    goroutine that runs the handler, waits for it while it looks every 100 ms whether the
    server was deleted, and may drop or delay the reply.  One event here is one action of one
    of these goroutines, or one call of the tester; the random choices are part of the events.

    Encoding ([labgob]) and the handlers are inside [m_func]: the bytes of the arguments to
    the bytes of the reply. *)

From Stdlib Require Import Ascii.
From S2P Require Import Prelude.

Module LabRpc.
Section LabRpc.

(** The state of the service a server offers. *)
Context {S : Type}.

(** ** Services and servers *)

(** What reflection shows of a method, and the method: [None] when the handler panics. *)
Record Method := mkMethod {
  m_name : string; m_exported : bool; m_numIn : Z; m_replyIsPtr : bool; m_numOut : Z;
  m_func : S -> bytes -> option (S * bytes) }.

Record Service := mkService {
  svc_name : string; svc_methods : gmap string (S -> bytes -> option (S * bytes)) }.

(** Only methods that look like handlers are registered. *)
Definition is_handler (m : Method) : bool :=
  negb (negb (m_exported m) || negb (m_numIn m =? 3) || negb (m_replyIsPtr m)
        || negb (m_numOut m =? 0)).

Definition MakeService (name : string) (typ : list Method) : Service :=
  mkService name
    (foldl (fun ms m => if is_handler m then <[m_name m := m_func m]> ms else ms) ∅ typ).

(** A missing method ends the process. *)
Definition Service_dispatch (svc : Service) (methname : string) (s : S) (args : bytes)
    : option (S * bytes) :=
  method ← svc_methods svc !! methname; method s args.

Record Server := mkServer { services : gmap string Service; count : Z; srv_state : S }.

Definition MakeServer (s : S) : Server := mkServer ∅ 0 s.

Definition AddService (rs : Server) (svc : Service) : Server :=
  mkServer (<[svc_name svc := svc]> (services rs)) (count rs) (srv_state rs).

Definition GetCount (rs : Server) : Z := count rs.

(** [svcMeth[:dot]] and [svcMeth[dot+1:]] at the last dot; a name without one panics. *)
Fixpoint split_last_dot (s : string) : option (string * string) :=
  match s with
  | EmptyString => None
  | String a s' =>
      match split_last_dot s' with
      | Some (l, r) => Some (String a l, r)
      | None => if decide (a = "."%char) then Some (""%string, s') else None
      end
  end.

Definition dispatch (rs : Server) (svcMeth : string) (args : bytes) : option (Server * bytes) :=
  '(serviceName, methodName) ← split_last_dot svcMeth;
  service ← services rs !! serviceName;
  '(s, reply) ← Service_dispatch service methodName (srv_state rs) args;
  Some (mkServer (services rs) (count rs + 1) s, reply).

(** ** The network *)

(** [servers] maps a name to a pointer to a server, nil after [DeleteServer]. *)
Record Network := mkNetwork {
  reliable : bool; longDelays : bool; longReordering : bool;
  ends : gset string; enabled : gmap string bool; servers : gmap string (option nat);
  connections : gmap string (option string); n_count : Z; n_bytes : Z; n_done : bool }.

Definition MakeNetwork : Network := mkNetwork true false false ∅ ∅ ∅ ∅ 0 0 false.

Definition set_reliable (rn : Network) b := mkNetwork b (longDelays rn) (longReordering rn)
  (ends rn) (enabled rn) (servers rn) (connections rn) (n_count rn) (n_bytes rn) (n_done rn).
Definition set_longDelays (rn : Network) b := mkNetwork (reliable rn) b (longReordering rn)
  (ends rn) (enabled rn) (servers rn) (connections rn) (n_count rn) (n_bytes rn) (n_done rn).
Definition set_longReordering (rn : Network) b := mkNetwork (reliable rn) (longDelays rn) b
  (ends rn) (enabled rn) (servers rn) (connections rn) (n_count rn) (n_bytes rn) (n_done rn).
Definition set_ends (rn : Network) es en co := mkNetwork (reliable rn) (longDelays rn)
  (longReordering rn) es en (servers rn) co (n_count rn) (n_bytes rn) (n_done rn).
Definition set_servers (rn : Network) ss := mkNetwork (reliable rn) (longDelays rn)
  (longReordering rn) (ends rn) (enabled rn) ss (connections rn) (n_count rn) (n_bytes rn) (n_done rn).
Definition set_stats (rn : Network) c b := mkNetwork (reliable rn) (longDelays rn)
  (longReordering rn) (ends rn) (enabled rn) (servers rn) (connections rn) c b (n_done rn).
Definition set_done (rn : Network) := mkNetwork (reliable rn) (longDelays rn) (longReordering rn)
  (ends rn) (enabled rn) (servers rn) (connections rn) (n_count rn) (n_bytes rn) true.

(** The calls of the tester. *)
Inductive Admin :=
  | Reliable (yes : bool) | LongDelays (yes : bool) | LongReordering (yes : bool)
  | MakeEnd (endname : string) | DeleteEnd (endname : string)
  | AddServer (servername : string) (rs : nat) | DeleteServer (servername : string)
  | Connect (endname servername : string) | Enable (endname : string) (yes : bool) | Cleanup.

(** A duplicate or unknown end ends the process. *)
Definition admin (rn : Network) (a : Admin) : option Network :=
  match a with
  | Reliable yes => Some (set_reliable rn yes)
  | LongDelays yes => Some (set_longDelays rn yes)
  | LongReordering yes => Some (set_longReordering rn yes)
  | MakeEnd e =>
      if decide (e ∈ ends rn) then None
      else Some (set_ends rn ({[e]} ∪ ends rn) (<[e := false]> (enabled rn))
                   (<[e := None]> (connections rn)))
  | DeleteEnd e =>
      if decide (e ∈ ends rn) then
        Some (set_ends rn (ends rn ∖ {[e]}) (delete e (enabled rn)) (delete e (connections rn)))
      else None
  | AddServer n rs => Some (set_servers rn (<[n := Some rs]> (servers rn)))
  | DeleteServer n => Some (set_servers rn (<[n := None]> (servers rn)))
  | Connect e n => Some (set_ends rn (ends rn) (enabled rn) (<[e := Some n]> (connections rn)))
  | Enable e yes => Some (set_ends rn (ends rn) (<[e := yes]> (enabled rn)) (connections rn))
  | Cleanup => Some (set_done rn)
  end.

(** [rn.enabled[e]] and the rest of [readEndnameInfo]: the server name and the server. *)
Definition is_enabled (rn : Network) (e : string) : bool := default false (enabled rn !! e).

Definition readEndnameInfo (rn : Network) (e : string) : option (string * nat) :=
  if is_enabled rn e then
    n ← mjoin (connections rn !! e);
    rs ← mjoin (servers rn !! n);
    Some (n, rs)
  else None.

Definition isServerDead (rn : Network) (e n : string) (rs : nat) : bool :=
  negb (is_enabled rn e) || negb (bool_decide (mjoin (servers rn !! n) = Some rs)).

(** ** Requests *)

(** [Answered] is the value the caller reads from [replyCh]; [Delayed] a pending timer. *)
Inductive Phase :=
  | Queued
  | Waiting (servername : string) (server : nat) (rel longre : bool)
  | Delayed (reply : option bytes)
  | Answered (reply : option bytes).

(** [q_spawned] is the server whose handler the inner goroutine has yet to call; [q_ech] is
    the reply that goroutine offers on [ech]. *)
Record Req := mkReq {
  q_end : string; q_svcMeth : string; q_args : bytes; q_phase : Phase;
  q_spawned : option nat; q_ech : option bytes }.

Definition set_phase (q : Req) (p : Phase) : Req :=
  mkReq (q_end q) (q_svcMeth q) (q_args q) p (q_spawned q) (q_ech q).

(** [w_ran] records the handlers that ran: the request, the server and the reply. *)
Record World := mkWorld {
  w_net : Network; w_objs : list Server; w_reqs : list Req; w_ran : list (nat * nat * bytes) }.

(** The random draws: [drop] says that [rand.Int()%1000 < 100], [delay] that
    [rand.Intn(900) < 600]. *)
Inductive Event :=
  | ECall (endname svcMeth : string) (args : bytes)
  | EProcess (i : nat) (drop : bool)
  | EDispatch (i : nat)
  | ETimeout (i : nat)
  | EReply (i : nat) (drop delay : bool)
  | ETimer (i : nat)
  | ENewServer (rs : Server)
  | EAdmin (a : Admin).

Definition set_req (w : World) (i : nat) (q : Req) : World :=
  mkWorld (w_net w) (w_objs w) (<[i := q]> (w_reqs w)) (w_ran w).

Definition add_bytes (w : World) (reply : option bytes) : World :=
  mkWorld (set_stats (w_net w) (n_count (w_net w)) (n_bytes (w_net w) + zlen (default [] reply)))
    (w_objs w) (w_reqs w) (w_ran w).

(** Once the reply is there, or the server is known to be dead. *)
Definition finish (rn : Network) (q : Req) (n : string) (rs : nat) (rel longre : bool)
    (reply : option bytes) (drop delay : bool) : Phase :=
  if bool_decide (reply = None) || isServerDead rn (q_end q) n rs then Answered None
  else if negb rel && drop then Answered None
  else if longre && delay then Delayed reply
  else Answered reply.

(** An event whose goroutine is not at that point changes nothing. *)
Definition step (w : World) (e : Event) : option World :=
  match e with
  | ECall endname svcMeth args =>
      if n_done (w_net w)
      then Some (mkWorld (w_net w) (w_objs w)
                   (w_reqs w ++ [mkReq endname svcMeth args (Answered None) None None]) (w_ran w))
      else Some (mkWorld (set_stats (w_net w) (n_count (w_net w) + 1)
                            (n_bytes (w_net w) + zlen args)) (w_objs w)
                   (w_reqs w ++ [mkReq endname svcMeth args Queued None None]) (w_ran w))
  | EProcess i drop =>
      match w_reqs w !! i with
      | Some q =>
          match q_phase q, readEndnameInfo (w_net w) (q_end q) with
          | Queued, Some (n, rs) =>
              if negb (reliable (w_net w)) && drop
              then Some (set_req w i (set_phase q (Answered None)))
              else Some (set_req w i (mkReq (q_end q) (q_svcMeth q) (q_args q)
                           (Waiting n rs (reliable (w_net w)) (longReordering (w_net w)))
                           (Some rs) None))
          | Queued, None => Some (set_req w i (set_phase q (Delayed None)))
          | _, _ => Some w
          end
      | None => Some w
      end
  | EDispatch i =>
      match w_reqs w !! i with
      | Some q =>
          match q_spawned q with
          | Some p =>
              rs ← w_objs w !! p;
              '(rs, reply) ← dispatch rs (q_svcMeth q) (q_args q);
              Some (mkWorld (w_net w) (<[p := rs]> (w_objs w))
                     (<[i := mkReq (q_end q) (q_svcMeth q) (q_args q) (q_phase q) None
                               (Some reply)]> (w_reqs w))
                     (w_ran w ++ [(i, p, reply)]))
          | None => Some w
          end
      | None => Some w
      end
  | ETimeout i =>
      match w_reqs w !! i with
      | Some q =>
          match q_phase q with
          | Waiting n rs rel longre =>
              if isServerDead (w_net w) (q_end q) n rs
              then Some (set_req w i (set_phase q
                     (finish (w_net w) q n rs rel longre None false false)))
              else Some w
          | _ => Some w
          end
      | None => Some w
      end
  | EReply i drop delay =>
      match w_reqs w !! i with
      | Some q =>
          match q_phase q, q_ech q with
          | Waiting n rs rel longre, Some reply =>
              let p := finish (w_net w) q n rs rel longre (Some reply) drop delay in
              let w := set_req w i (set_phase q p) in
              Some (match p with Answered r => add_bytes w r | _ => w end)
          | _, _ => Some w
          end
      | None => Some w
      end
  | ETimer i =>
      match w_reqs w !! i with
      | Some q =>
          match q_phase q with
          | Delayed r => Some (add_bytes (set_req w i (set_phase q (Answered r))) r)
          | _ => Some w
          end
      | None => Some w
      end
  | ENewServer rs => Some (mkWorld (w_net w) (w_objs w ++ [rs]) (w_reqs w) (w_ran w))
  | EAdmin a => rn ← admin (w_net w) a; Some (mkWorld rn (w_objs w) (w_reqs w) (w_ran w))
  end.

Definition steps (w : World) (es : list Event) : option World := run_steps step w es.

Definition start : World := mkWorld MakeNetwork [] [] [].

End LabRpc.
Arguments Server : clear implicits.
Arguments World : clear implicits.
Arguments Event : clear implicits.
End LabRpc.
