(* ===== verification/LabRpcProps.v ===== *)
(** * What the simulated network promises its callers

    A call runs its handler at most once; a call that returns true ran it exactly once and
    returns its reply; a deleted server is never heard of again; a reliable network with a
    connected server answers. *)

From S2P Require Import Prelude LabRpc.

Import LabRpc.

Section Calls.
Context {S : Type}.

Implicit Types (w : World S) (q : Req) (i : nat).

(** The handlers that ran for request [i]. *)
Definition runs w i : list (nat * nat * bytes) := filter (fun x => x.1.1 = i) (w_ran w).

Record req_ok w i q : Prop := mkReqOk {
  ro_spawned : q_spawned q <> None -> runs w i = [];
  ro_once : (length (runs w i) <= 1)%nat;
  ro_ech : forall b, q_ech q = Some b -> exists p, runs w i = [(i, p, b)];
  ro_queued : q_phase q = Queued -> q_spawned q = None /\ runs w i = [];
  ro_reply : forall b, q_phase q = Answered (Some b) \/ q_phase q = Delayed (Some b) ->
    exists p, runs w i = [(i, p, b)] }.

Record world_ok w : Prop := mkWorldOk {
  wo_reqs : forall i q, w_reqs w !! i = Some q -> req_ok w i q;
  wo_ran : forall x, x ∈ w_ran w -> (x.1.1 < length (w_reqs w))%nat }.

(** Only the phase of a request changes, and a positive answer has its reason. *)
Lemma world_ok_phase w i q p net :
  world_ok w -> w_reqs w !! i = Some q -> p <> Queued ->
  (forall b, p = Answered (Some b) \/ p = Delayed (Some b) ->
     q_ech q = Some b \/ q_phase q = Answered (Some b) \/ q_phase q = Delayed (Some b)) ->
  world_ok (mkWorld net (w_objs w) (<[i := LabRpc.set_phase q p]> (w_reqs w)) (w_ran w)).
Proof.
  intros Hw Hi Hq Hp. split; simpl.
  - intros j q' Hj. apply list_lookup_insert_Some in Hj as [(<- & <- & _)|[_ Hj]].
    + destruct (wo_reqs _ Hw i q Hi) as [H1 H2 H3 H4 H5]. split; simpl; try done.
      intros b Hb. destruct (Hp b Hb) as [Hb'|Hb']; [by apply H3|by apply H5].
    + destruct (wo_reqs _ Hw j q' Hj) as [H1 H2 H3 H4 H5]. split; done.
  - intros x Hx. rewrite length_insert. by apply Hw.
Qed.

(** The statistics and the connections do not matter. *)
Lemma world_ok_net w net : world_ok w -> world_ok (mkWorld net (w_objs w) (w_reqs w) (w_ran w)).
Proof. intros [Hr Hx]. split; [|done]. intros i q Hi. destruct (Hr i q Hi). split; done. Qed.

Lemma world_ok_objs w objs : world_ok w -> world_ok (mkWorld (w_net w) objs (w_reqs w) (w_ran w)).
Proof. intros [Hr Hx]. split; [|done]. intros i q Hi. destruct (Hr i q Hi). split; done. Qed.

(** A new request. *)
Lemma world_ok_call w net e m a p :
  world_ok w -> p = Queued \/ p = Answered None ->
  world_ok (mkWorld net (w_objs w) (w_reqs w ++ [mkReq e m a p None None]) (w_ran w)).
Proof.
  intros Hw Hp. assert (Hnone : runs w (length (w_reqs w)) = []).
  { unfold runs. apply elem_of_nil_inv. intros x Hx. apply list_elem_of_filter in Hx as [Hx Hin].
    pose proof (wo_ran _ Hw x Hin). lia. }
  split; simpl.
  - intros i q Hi. apply lookup_app_Some in Hi as [Hi|[Hlen Hi]].
    + destruct (wo_reqs _ Hw i q Hi). split; done.
    + apply list_lookup_singleton_Some in Hi as [Heq <-]. assert (i = length (w_reqs w)) as -> by lia.
      change (runs (mkWorld net (w_objs w) (w_reqs w ++ [mkReq e m a p None None]) (w_ran w)))
        with (runs w) in *.
      split; unfold runs in *; simpl; rewrite ?Hnone; simpl; try done; [lia|].
      intros b [Hb|Hb]; destruct Hp as [->| ->]; discriminate Hb.
  - intros x Hx. rewrite length_app. pose proof (wo_ran _ Hw x Hx). simpl. lia.
Qed.

(** The handler of request [i] runs. *)
Lemma world_ok_run w i q p b net objs :
  world_ok w -> w_reqs w !! i = Some q -> q_spawned q = Some p ->
  world_ok (mkWorld net objs
    (<[i := mkReq (q_end q) (q_svcMeth q) (q_args q) (q_phase q) None (Some b)]> (w_reqs w))
    (w_ran w ++ [(i, p, b)])).
Proof.
  intros Hw Hi Hs. pose proof (wo_reqs _ Hw i q Hi) as Hq.
  assert (Hempty : runs w i = []) by (apply (ro_spawned _ _ _ Hq); congruence).
  split; simpl.
  - intros j q' Hj. apply list_lookup_insert_Some in Hj as [(<- & <- & _)|[Hne Hj]].
    + assert (Hrun : forall reqs, runs (mkWorld net objs reqs (w_ran w ++ [(i, p, b)])) i = [(i, p, b)]).
      { intros reqs. unfold runs in *. simpl. rewrite filter_app, Hempty, filter_cons_True; done. }
      split; simpl; rewrite ?Hrun; [by intros []|done| | |].
      * intros b' [= <-]. by exists p.
      * intros Hph. destruct (ro_queued _ _ _ Hq Hph). congruence.
      * intros b' Hb'. destruct (ro_reply _ _ _ Hq b' Hb') as [p' Hp']. congruence.
    + destruct (wo_reqs _ Hw j q' Hj) as [H1 H2 H3 H4 H5].
      assert (Hrun : forall reqs, runs (mkWorld net objs reqs (w_ran w ++ [(i, p, b)])) j = runs w j).
      { intros reqs. unfold runs. simpl. rewrite filter_app, filter_cons_False by done. by rewrite app_nil_r. }
      split; simpl; rewrite ?Hrun; done.
  - intros x Hx. rewrite length_insert. apply elem_of_app in Hx as [Hx|Hx%list_elem_of_singleton]; [by apply Hw|].
    subst x. simpl. by apply lookup_lt_Some in Hi.
Qed.

(** The handler's goroutine is started. *)
Lemma world_ok_spawn w i q n p rel longre :
  world_ok w -> w_reqs w !! i = Some q -> q_phase q = Queued ->
  world_ok (set_req w i (mkReq (q_end q) (q_svcMeth q) (q_args q) (Waiting n p rel longre) (Some p) None)).
Proof.
  intros Hw Hi Hq. destruct (ro_queued _ _ _ (wo_reqs _ Hw i q Hi) Hq) as [_ Hr]. split; simpl.
  - intros j q' Hj. apply list_lookup_insert_Some in Hj as [(<- & <- & _)|[_ Hj]].
    + split; simpl; try done; change (runs (set_req _ _ _)) with (runs w); rewrite ?Hr; simpl; try done; try lia.
      intros b [Hb|Hb]; discriminate Hb.
    + destruct (wo_reqs _ Hw j q' Hj). split; done.
  - intros x Hx. rewrite length_insert. by apply Hw.
Qed.

Lemma finish_positive rn q n p rel longre reply drop delay b :
  finish rn q n p rel longre reply drop delay = Answered (Some b)
  \/ finish rn q n p rel longre reply drop delay = Delayed (Some b) ->
  reply = Some b /\ isServerDead rn (q_end q) n p = false.
Proof.
  unfold finish. intros Hf. destruct (bool_decide (reply = None) || _) eqn:Hd; [naive_solver|].
  apply orb_false_elim in Hd as [_ Hd]. split; [|done].
  destruct (negb rel && drop), (longre && delay); naive_solver.
Qed.

Lemma finish_not_queued rn q n p rel longre reply drop delay :
  finish rn q n p rel longre reply drop delay <> Queued.
Proof. unfold finish. by repeat case_match. Qed.

Lemma step_ok w e w' : world_ok w -> step w e = Some w' -> world_ok w'.
Proof.
  intros Hw Hs. destruct e as [e m a|i drop|i|i|i drop delay|i|rs|a]; simpl in Hs.
  - destruct (n_done _); injection Hs as <-; apply world_ok_call; tauto.
  - destruct (w_reqs w !! i) as [q|] eqn:Hi; [|by injection Hs as <-].
    destruct (q_phase q) eqn:Hq; try (by injection Hs as <-).
    destruct (readEndnameInfo _ _) as [[n p]|].
    + destruct (negb _ && _); injection Hs as <-; [|by apply world_ok_spawn].
      apply (world_ok_phase w i q); try done. naive_solver.
    + injection Hs as <-. apply (world_ok_phase w i q); try done. naive_solver.
  - destruct (w_reqs w !! i) as [q|] eqn:Hi; [|by injection Hs as <-].
    destruct (q_spawned q) as [p|] eqn:Hq; [|by injection Hs as <-].
    apply bind_Some in Hs as (rs & _ & Hs). apply bind_Some in Hs as ([rs' b] & _ & Hs).
    injection Hs as <-. by apply world_ok_run.
  - destruct (w_reqs w !! i) as [q|] eqn:Hi; [|by injection Hs as <-].
    destruct (q_phase q) as [|n p rel longre| |] eqn:Hq; try (by injection Hs as <-).
    destruct (isServerDead _ _ _ _); injection Hs as <-; [|done].
    apply (world_ok_phase w i q); [done|done|apply finish_not_queued|]. intros b Hb.
    apply finish_positive in Hb as [Hb _]. discriminate Hb.
  - destruct (w_reqs w !! i) as [q|] eqn:Hi; [|by injection Hs as <-].
    destruct (q_phase q) as [|n p rel longre| |] eqn:Hq, (q_ech q) as [r|] eqn:He; try (by injection Hs as <-).
    injection Hs as <-. set (ph := finish _ _ _ _ _ _ _ _ _).
    assert (Hok : forall net, world_ok (mkWorld net (w_objs w)
              (<[i := LabRpc.set_phase q ph]> (w_reqs w)) (w_ran w))).
    { intros net. apply (world_ok_phase w i q); [done|done|apply finish_not_queued|]. intros b Hb.
      apply finish_positive in Hb as [[= <-] _]. by left. }
    destruct ph; apply Hok.
  - destruct (w_reqs w !! i) as [q|] eqn:Hi; [|by injection Hs as <-].
    destruct (q_phase q) as [| |r|] eqn:Hq; try (by injection Hs as <-). injection Hs as <-.
    apply (world_ok_phase w i q); try done. intros b [[= ->]|Hb]; [by right; right|discriminate Hb].
  - injection Hs as <-. by apply world_ok_objs.
  - apply bind_Some in Hs as (rn & _ & Hs). injection Hs as <-. by apply world_ok_net.
Qed.

Lemma steps_ok w es w' : world_ok w -> steps w es = Some w' -> world_ok w'.
Proof.
  intros Hw Hs. apply (run_steps_ind step world_ok (fun _ => True) w es w'); try done.
  - intros x e y Hx _ He. by apply (step_ok x e).
  - by apply Forall_true.
Qed.

Lemma start_ok : world_ok start.
Proof. split; simpl; [done|]. intros x Hx. by apply not_elem_of_nil in Hx. Qed.

(** ** Deleted servers *)

(** The goroutine of request [i] waits for server [p], registered as [n], or has given up. *)
Definition hopeless (i : nat) (n : string) (p : nat) w : Prop :=
  mjoin (servers (w_net w) !! n) <> Some p
  /\ exists q, w_reqs w !! i = Some q
       /\ (q_phase q = Answered None \/ exists rel longre, q_phase q = Waiting n p rel longre).

(** The tester does not register the same server object again. *)
Definition no_revival (n : string) (p : nat) (e : Event S) : Prop :=
  match e with EAdmin (AddServer n' p') => n' = n -> p' <> p | _ => True end.

Lemma admin_servers rn a rn' n p :
  admin rn a = Some rn' -> mjoin (servers rn !! n) <> Some p ->
  (forall n' p', a = AddServer n' p' -> n' = n -> p' <> p) -> mjoin (servers rn' !! n) <> Some p.
Proof.
  intros Ha Hn Hadd. destruct a as [| | | | |n' p'|n'| | |]; simpl in Ha; try case_decide; try done;
    injection Ha as <-; simpl; try done.
  - destruct (decide (n' = n)) as [->|Hne]; [|by rewrite lookup_insert_ne].
    rewrite lookup_insert_eq. simpl. intros [= ->]. by apply (Hadd n p).
  - destruct (decide (n' = n)) as [->|Hne]; [|by rewrite lookup_insert_ne]. by rewrite lookup_insert_eq.
Qed.

(** A dead server is recognised. *)
Lemma dead_server rn q n p : mjoin (servers rn !! n) <> Some p -> isServerDead rn (q_end q) n p = true.
Proof. intros Hn. unfold isServerDead. rewrite (bool_decide_false _ Hn). by rewrite orb_true_r. Qed.

(** How a step can move one request on. *)
Inductive moves (rn : Network) q : Phase -> Prop :=
  | mv_same : moves rn q (q_phase q)
  | mv_start ph : q_phase q = Queued -> moves rn q ph
  | mv_finish n p rel longre r drop delay : q_phase q = Waiting n p rel longre ->
      moves rn q (finish rn q n p rel longre r drop delay)
  | mv_timer r : q_phase q = Delayed r -> moves rn q (Answered r).

Lemma update_moves w i q j q' :
  w_reqs w !! i = Some q -> (j = i -> moves (w_net w) q (q_phase q')) ->
  exists q'', <[j := q']> (w_reqs w) !! i = Some q'' /\ moves (w_net w) q (q_phase q'').
Proof.
  intros Hi Hm. destruct (decide (j = i)) as [->|Hne].
  - exists q'. apply lookup_lt_Some in Hi. rewrite list_lookup_insert_eq by done. auto.
  - exists q. rewrite list_lookup_insert_ne by done. split; [done|]. constructor.
Qed.

Lemma step_moves w e w' i q :
  w_reqs w !! i = Some q -> step w e = Some w' ->
  exists q', w_reqs w' !! i = Some q' /\ moves (w_net w) q (q_phase q').
Proof.
  intros Hi Hs.
  assert (Hsame : forall v, Some w = Some v -> exists q', w_reqs v !! i = Some q' /\ moves (w_net w) q (q_phase q')).
  { intros v [= <-]. exists q. split; [done|]. constructor. }
  assert (Heq : forall j qj, w_reqs w !! j = Some qj -> j = i -> qj = q) by (intros j qj Hj ->; congruence).
  destruct e as [e m a|j drop|j|j|j drop delay|j|rs|a]; simpl in Hs;
    try (destruct (w_reqs w !! j) as [qj|] eqn:Hj; [|by apply Hsame]; specialize (Heq j qj Hj)).
  - assert (i < length (w_reqs w))%nat by (by apply lookup_lt_Some in Hi).
    destruct (n_done _); injection Hs as <-; exists q; (split; [by apply lookup_app_l_Some|constructor]).
  - destruct (q_phase qj) eqn:Hph; try (by apply Hsame).
    destruct (readEndnameInfo _ _) as [[n p]|]; [destruct (negb _ && _)|]; injection Hs as <-;
      apply (update_moves w i q); try done; intros Hji; apply mv_start; rewrite <- (Heq Hji); done.
  - destruct (q_spawned qj) as [p|]; [|by apply Hsame].
    apply bind_Some in Hs as (rs & _ & Hs). apply bind_Some in Hs as ([rs' b] & _ & Hs). injection Hs as <-.
    apply (update_moves w i q); [done|]. intros Hji. rewrite (Heq Hji). simpl. apply mv_same.
  - destruct (q_phase qj) as [|n p rel longre| |] eqn:Hph; try (by apply Hsame).
    destruct (isServerDead _ _ _ _); [|by apply Hsame]. injection Hs as <-.
    apply (update_moves w i q); [done|]. intros Hji. rewrite (Heq Hji) in *. by apply mv_finish.
  - destruct (q_phase qj) as [|n p rel longre| |] eqn:Hph, (q_ech qj) as [r|]; try (by apply Hsame).
    injection Hs as <-. set (ph := finish _ _ _ _ _ _ _ _ _).
    destruct (update_moves w i q j (LabRpc.set_phase qj ph) Hi) as (q' & Hq' & Hm).
    { intros Hji. unfold ph. simpl. rewrite (Heq Hji) in *. by apply mv_finish. }
    exists q'. split; [|done]. by destruct ph.
  - destruct (q_phase qj) as [| |r|] eqn:Hph; try (by apply Hsame). injection Hs as <-.
    apply (update_moves w i q); [done|]. intros Hji. rewrite (Heq Hji) in *. by apply mv_timer.
  - injection Hs as <-. exists q. split; [done|apply mv_same].
  - apply bind_Some in Hs as (rn & _ & Hs). injection Hs as <-. exists q. split; [done|apply mv_same].
Qed.

Lemma step_servers w e w' n p :
  step w e = Some w' -> no_revival n p e -> mjoin (servers (w_net w) !! n) <> Some p ->
  mjoin (servers (w_net w') !! n) <> Some p.
Proof.
  intros Hs Hrev Hn. destruct e as [e m a|j drop|j|j|j drop delay|j|rs|a]; simpl in Hs;
    try (destruct (w_reqs w !! j) as [qj|]; [|by injection Hs as <-]).
  - by destruct (n_done _); injection Hs as <-.
  - destruct (q_phase qj), (readEndnameInfo (w_net w) (q_end qj)) as [[]|]; try (by injection Hs as <-).
    by destruct (negb _ && _); injection Hs as <-.
  - destruct (q_spawned qj); [|by injection Hs as <-].
    apply bind_Some in Hs as (rs & _ & Hs). apply bind_Some in Hs as ([rs' b] & _ & Hs). by injection Hs as <-.
  - destruct (q_phase qj); try (by injection Hs as <-). by destruct (isServerDead _ _ _ _); injection Hs as <-.
  - destruct (q_phase qj), (q_ech qj); try (by injection Hs as <-). injection Hs as <-.
    by destruct (finish _ _ _ _ _ _ _ _ _).
  - destruct (q_phase qj); by injection Hs as <-.
  - by injection Hs as <-.
  - apply bind_Some in Hs as (rn & Ha & Hs). injection Hs as <-. simpl.
    apply (admin_servers (w_net w) a); try done. by intros n' p' ->.
Qed.

Lemma hopeless_step i n p w e w' :
  hopeless i n p w -> no_revival n p e -> step w e = Some w' -> hopeless i n p w'.
Proof.
  intros (Hn & q & Hi & Hq) Hrev Hs. split; [by apply (step_servers w e)|].
  destruct (step_moves w e w' i q Hi Hs) as (q' & Hq' & Hm). exists q'. split; [done|].
  destruct Hm as [|ph Hph|n' p' rel longre r drop delay Hph|r Hph]; [done|destruct Hq as [Hq|(? & ? & Hq)]; congruence|
    |destruct Hq as [Hq|(? & ? & Hq)]; congruence].
  destruct Hq as [Hq|(rel' & longre' & Hq)]; [congruence|]. rewrite Hq in Hph. injection Hph as <- <- <- <-.
  left. unfold finish. by rewrite (dead_server (w_net w) q n p Hn), orb_true_r.
Qed.


(** A reliable network with a live server answers.  A request queued on an enabled end
    that is connected to a registered server is run and answered with its handler's reply,
    whatever random numbers are drawn, as soon as its goroutines have run. *)
Theorem labrpc_reliable_delivers w i q n p rs rs' b drop drop' delay :
  w_reqs w !! i = Some q -> q_phase q = Queued ->
  reliable (w_net w) = true -> longReordering (w_net w) = false ->
  readEndnameInfo (w_net w) (q_end q) = Some (n, p) ->
  w_objs w !! p = Some rs -> dispatch rs (q_svcMeth q) (q_args q) = Some (rs', b) ->
  exists w' q', steps w [EProcess i drop; EDispatch i; EReply i drop' delay] = Some w'
    /\ w_reqs w' !! i = Some q' /\ q_phase q' = Answered (Some b)
    /\ w_objs w' = <[p := rs']> (w_objs w) /\ w_ran w' = w_ran w ++ [(i, p, b)].
Proof.
  intros Hi Hq Hrel Hlong Hinfo Hp Hd. unfold steps. pose proof (lookup_lt_Some _ _ _ Hi) as Hlt.
  assert (Hdead : isServerDead (w_net w) (q_end q) n p = false).
  { unfold readEndnameInfo in Hinfo. unfold isServerDead. destruct (is_enabled _ _); [|done].
    apply bind_Some in Hinfo as (n' & _ & Hinfo). apply bind_Some in Hinfo as (p' & Hp' & Hinfo).
    injection Hinfo as -> ->. simpl. rewrite Hp'. by rewrite bool_decide_true. }
  assert (Hfin : forall q'', q_end q'' = q_end q ->
    finish (w_net w) q'' n p true (longReordering (w_net w)) (Some b) drop' delay = Answered (Some b))
    by (intros q'' Hq''; unfold finish; by rewrite Hq'', Hdead, Hlong).
  rewrite run_steps_cons. cbn [step]. rewrite Hi, Hq, Hinfo, Hrel. cbn [negb andb mbind option_bind].
  rewrite run_steps_cons. cbn [step set_req w_reqs]. rewrite list_lookup_insert_eq by done.
  cbn [q_spawned set_req w_objs]. rewrite Hp. cbn [mbind option_bind q_svcMeth q_args]. rewrite Hd.
  cbn [mbind option_bind]. rewrite run_steps_cons. cbn [step w_reqs]. rewrite list_insert_insert_eq.
  rewrite list_lookup_insert_eq by done. cbn [q_phase q_ech q_end w_net set_req].
  rewrite Hfin by done. simpl. eexists _, _. split; [reflexivity|].
  simpl. rewrite list_insert_insert_eq, list_lookup_insert_eq by done. split; [reflexivity|]. done.
Qed.
End Calls.

(** A counter service on one server. *)
Definition ctr_service : Service :=
  MakeService "Ctr" [mkMethod "Inc" true 3 true 0 (fun s _ => Some (s + 1, [Byte.x01]));
                     mkMethod "kill" false 1 false 0 (fun s _ => Some (s, []))].

Definition ctr_server : Server Z := AddService (MakeServer 0) ctr_service.

Definition connected : list (Event Z) :=
  [ENewServer ctr_server; EAdmin (AddServer "s" 0%nat); EAdmin (MakeEnd "e");
   EAdmin (Connect "e" "s"); EAdmin (Enable "e" true); ECall "e" "Ctr.Inc" []].


Definition ctr_world : World Z := default start (steps start connected).

Lemma labrpc_reliable_delivers_witness :
  exists w' q', steps start connected = Some ctr_world
    /\ steps ctr_world [EProcess 0 true; EDispatch 0; EReply 0 true true] = Some w'
    /\ w_reqs w' !! 0%nat = Some q' /\ q_phase q' = Answered (Some [Byte.x01]).
Proof.
  destruct (labrpc_reliable_delivers ctr_world 0 (mkReq "e" "Ctr.Inc" [] Queued None None) "s" 0
    ctr_server (mkServer (services ctr_server) 1 1) [Byte.x01] true true true)
    as (w' & q' & Hs & Hq & Hp & _); try (vm_compute; reflexivity).
  exists w', q'. split; [vm_compute; reflexivity|]. split; [exact Hs|]. split; [exact Hq|exact Hp].
Defined.
