(* ===== verification/Tester.v ===== *)
(** * The test harness: lec-2025/src/tester1

    Groups of servers on the simulated network of [LabRpc] ([group.go], [srv.go]), the clients
    of the clerks ([clnts.go]) and the configuration that owns them ([config.go]): how servers
    are started, shut down, connected, disconnected and partitioned, and which servers a client
    can reach.  [TesterProps] has the theorems.

    The services of a server are a parameter ([mks] of the source makes them); [Randstring] draws
    the next of a list of names, and a name drawn twice ends the process in [MakeEnd]. *)

From S2P Require Import Prelude Persister LabRpc.
Import LabRpc.

Module Tester.
Section Tester.
Context {Svc : Type}.

(** [mks]: the services of server [srv] of group [grp], from its client ends and its persister. *)
Context (mks : list string -> Z -> Z -> Persister -> list Svc).

(** The network, the names that will be drawn, the number of labrpc servers made so far and the
    services that were killed. *)
Record Env := mkEnv { e_net : Network; e_names : list string; e_made : nat; e_killed : list Svc }.

Definition set_net (env : Env) (net : Network) : Env :=
  mkEnv net (e_names env) (e_made env) (e_killed env).

Definition net_do (env : Env) (a : Admin) : option Env := net ← admin (e_net env) a; Some (set_net env net).

Definition Randstring (env : Env) : option (Env * string) :=
  match e_names env with
  | [] => None
  | s :: names => Some (mkEnv (e_net env) names (e_made env) (e_killed env), s)
  end.

Definition Kill (env : Env) (svcs : list Svc) : Env :=
  mkEnv (e_net env) (e_names env) (e_made env) (e_killed env ++ svcs).

Definition ServerName (gid i : Z) : string := ("server-" +:+ Sprint gid +:+ "-" +:+ Sprint i)%string.

(** ** srv.go *)

(** [makeServer] gives every server its end names, so the checks for nil never apply; the client
    ends are known by their names. *)
Record Server := mkServer { saved : option Persister; svcs : list Svc; endNames : list string }.

Fixpoint make_ends (env : Env) (gid j : Z) (n : nat) : option (Env * list string) :=
  match n with
  | O => Some (env, [])
  | S n =>
      '(env, name) ← Randstring env;
      env ← net_do env (MakeEnd name);
      env ← net_do env (Connect name (ServerName gid j));
      '(env, names) ← make_ends env gid (j + 1) n;
      Some (env, name :: names)
  end.

Definition makeServer (env : Env) (gid nsrv : Z) : option (Env * Server) :=
  '(env, names) ← make_ends env gid 0 (Z.to_nat nsrv);
  Some (env, mkServer None [] names).

Definition startServer (env : Env) (s : Server) (gid : Z) : option (Env * Server) :=
  '(env, srv) ← makeServer env gid (zlen (endNames s));
  let ps := match saved s with Some ps => Persister_Copy ps | None => MakePersister end in
  Some (env, mkServer (Some ps) (svcs srv) (endNames srv)).

(** The loops over [to] and [from]: enable or disable the end that [name] gives for each. *)
Definition enable_ends (env : Env) (yes : bool) (name : Z -> option string) (js : list Z) : option Env :=
  run_steps (fun env j => e ← name j; net_do env (Enable e yes)) env js.

Definition Server_disconnect (env : Env) (s : Server) (from : list Z) : option Env :=
  enable_ends env false (slice_get (endNames s)) from.

Definition shutdownServer (env : Env) (s : Server) : Env * Server :=
  (Kill env (svcs s), mkServer (Persister_Copy <$> saved s) [] (endNames s)).

(** ** group.go *)

Record ServerGrp := mkServerGrp {
  srvs : list Server; servernames : list string; gid : Z; connected : list bool }.

Definition set_connected (sg : ServerGrp) (c : list bool) : ServerGrp :=
  mkServerGrp (srvs sg) (servernames sg) (gid sg) c.
Definition set_srvs (sg : ServerGrp) (ss : list Server) : ServerGrp :=
  mkServerGrp ss (servernames sg) (gid sg) (connected sg).

Fixpoint make_servers (env : Env) (gid nsrv : Z) (n : nat) : option (Env * list Server) :=
  match n with
  | O => Some (env, [])
  | S n =>
      '(env, s) ← makeServer env gid nsrv;
      '(env, ss) ← make_servers env gid nsrv n;
      Some (env, s :: ss)
  end.

Definition ints (n : Z) : list Z := seqZ 0 n.

Definition makeSrvGrp (env : Env) (gid n : Z) : option (Env * ServerGrp) :=
  '(env, ss) ← make_servers env gid n (Z.to_nat n);
  Some (env, mkServerGrp ss (ServerName gid <$> ints n) gid (replicate (Z.to_nat n) false)).

Definition N (sg : ServerGrp) : Z := zlen (srvs sg).
Definition SrvName (sg : ServerGrp) (i : Z) : option string := slice_get (servernames sg) i.
Definition SrvNamesTo (sg : ServerGrp) (to : list Z) : option (list string) :=
  mapM (slice_get (servernames sg)) to.
Definition all (sg : ServerGrp) : list Z := ints (N sg).
Definition IsConnected (sg : ServerGrp) (i : Z) : option bool := slice_get (connected sg) i.

(** [Server.connect], and the loop of [ServerGrp.connect] for the incoming ends. *)
Definition enable_connected (env : Env) (sg : ServerGrp) (name : Z -> option string) (to : list Z) : option Env :=
  run_steps (fun env j =>
    c ← IsConnected sg j;
    if (c : bool) then e ← name j; net_do env (Enable e true) else Some env) env to.

(** The end of server [j] to server [i]. *)
Definition endName (sg : ServerGrp) (j i : Z) : option string :=
  s ← slice_get (srvs sg) j; slice_get (endNames s) i.

Definition Server_connect (env : Env) (s : Server) (sg : ServerGrp) (to : list Z) : option Env :=
  enable_connected env sg (slice_get (endNames s)) to.

Definition connect (env : Env) (sg : ServerGrp) (i : Z) (to : list Z) : option (Env * ServerGrp) :=
  c ← slice_set (connected sg) i true;
  let sg := set_connected sg c in
  s ← slice_get (srvs sg) i;
  env ← Server_connect env s sg to;
  env ← enable_connected env sg (fun j => endName sg j i) to;
  Some (env, sg).

Definition disconnect (env : Env) (sg : ServerGrp) (i : Z) (from : list Z) : option (Env * ServerGrp) :=
  c ← slice_set (connected sg) i false;
  let sg := set_connected sg c in
  s ← slice_get (srvs sg) i;
  env ← Server_disconnect env s from;
  env ← enable_ends env false (fun j => endName sg j i) from;
  Some (env, sg).

Definition ConnectOne (env : Env) (sg : ServerGrp) (i : Z) : option (Env * ServerGrp) :=
  connect env sg i (all sg).
Definition DisconnectAll (env : Env) (sg : ServerGrp) (i : Z) : option (Env * ServerGrp) :=
  disconnect env sg i (all sg).

Definition ConnectAll (env : Env) (sg : ServerGrp) : option (Env * ServerGrp) :=
  run_steps (fun '(env, sg) i => ConnectOne env sg i) (env, sg) (all sg).

Definition StartServer (env : Env) (sg : ServerGrp) (i : Z) : option (Env * ServerGrp) :=
  s ← slice_get (srvs sg) i;
  '(env, srv) ← startServer env s (gid sg);
  ps ← saved srv;
  let srv := mkServer (saved srv) (mks (endNames srv) (gid sg) i ps) (endNames srv) in
  ss ← slice_set (srvs sg) i srv;
  env ← net_do env (AddServer (ServerName (gid sg) i) (e_made env));
  Some (mkEnv (e_net env) (e_names env) (e_made env + 1) (e_killed env), set_srvs sg ss).

Definition start (env : Env) (sg : ServerGrp) : option (Env * ServerGrp) :=
  run_steps (fun '(env, sg) i => StartServer env sg i) (env, sg) (all sg).

Definition StartServers (env : Env) (sg : ServerGrp) : option (Env * ServerGrp) :=
  '(env, sg) ← start env sg;
  ConnectAll env sg.

Definition ShutdownServer (env : Env) (sg : ServerGrp) (i : Z) : option (Env * ServerGrp) :=
  '(env, sg) ← disconnect env sg i (all sg);
  env ← net_do env (DeleteServer (ServerName (gid sg) i));
  s ← slice_get (srvs sg) i;
  let '(env, s) := shutdownServer env s in
  ss ← slice_set (srvs sg) i s;
  Some (env, set_srvs sg ss).

Definition Shutdown (env : Env) (sg : ServerGrp) : option (Env * ServerGrp) :=
  run_steps (fun '(env, sg) i => ShutdownServer env sg i) (env, sg) (all sg).

(** The loop of [MakePartition] over the servers [is], with [j] others seen. *)
Fixpoint partition_loop (l : Z) (ids : list Z) (j : Z) (p1 p2 : list Z) : option (list Z * list Z) :=
  match ids with
  | [] => Some (p1, p2)
  | i :: ids =>
      if i =? l then partition_loop l ids j p1 p2
      else if j <? zlen p1 then
        p1 ← slice_set p1 j i;
        partition_loop l ids (j + 1) p1 p2
      else
        p2 ← slice_set p2 (j - zlen p1) i;
        partition_loop l ids (j + 1) p1 p2
  end.

Definition MakePartition (sg : ServerGrp) (l : Z) : option (list Z * list Z) :=
  let n := N sg in
  let p1 := replicate (Z.to_nat (n / 2 + 1)) 0 in
  let p2 := replicate (Z.to_nat (n / 2)) 0 in
  '(p1, p2) ← partition_loop l (ints n) 0 p1 p2;
  p2 ← slice_set p2 (zlen p2 - 1) l;
  Some (p1, p2).

(** One side of [Partition]: each server is cut off from [others] and connected to its side. *)
Definition regroup (others side : list Z) (st : Env * ServerGrp) (i : Z) : option (Env * ServerGrp) :=
  '(env, sg) ← disconnect st.1 st.2 i others;
  connect env sg i side.

Definition Partition (env : Env) (sg : ServerGrp) (p1 p2 : list Z) : option (Env * ServerGrp) :=
  st ← run_steps (regroup p2 p1) (env, sg) p1;
  run_steps (regroup p1 p2) st p2.

(** Maximum log and snapshot sizes across all servers; a server without a persister panics. *)
Definition max_size (size : Persister -> Z) (sg : ServerGrp) : option Z :=
  run_steps (fun m s => ps ← saved s; Some (if m <? size ps then size ps else m)) 0 (srvs sg).

Definition LogSize (sg : ServerGrp) : option Z := max_size RaftStateSize sg.
Definition Grp_SnapshotSize (sg : ServerGrp) : option Z := max_size SnapshotSize sg.

(** Killing all services. *)
Definition Grp_cleanup (env : Env) (sg : ServerGrp) : Env :=
  foldl (fun env s => Kill env (svcs s)) env (srvs sg).

(** *** Groups by number *)

Abbreviation Groups := (gmap Z ServerGrp).

Definition MakeGroup (env : Env) (gs : Groups) (gid nsrv : Z) : option (Env * Groups) :=
  '(env, sg) ← makeSrvGrp env gid nsrv;
  Some (env, <[gid := sg]> gs).

(** [Config.MakeGroupStart]. *)
Definition MakeGroupStart (env : Env) (gs : Groups) (gid nsrv : Z) : option (Env * Groups) :=
  '(env, gs) ← MakeGroup env gs gid nsrv;
  sg ← gs !! gid;
  '(env, sg) ← StartServers env sg;
  Some (env, <[gid := sg]> gs).

(** [Config.ExitGroup]. *)
Definition ExitGroup (env : Env) (gs : Groups) (gid : Z) : option (Env * Groups) :=
  sg ← gs !! gid;
  '(env, _) ← Shutdown env sg;
  Some (env, delete gid gs).

(** ** clnts.go *)

(** The ends a client made, by server, and the servers it may reach ([None] is nil: all). *)
Record Clnt := mkClnt { c_ends : gmap string string; c_srvs : option (list string) }.

Definition makeClntTo (srvs : option (list string)) : Clnt := mkClnt ∅ srvs.

Definition allowedL (clnt : Clnt) (server : string) : bool :=
  match c_srvs clnt with
  | None => true
  | Some l => bool_decide (server ∈ l)
  end.

Definition Clnt_makeEnd (env : Env) (clnt : Clnt) (server : string) : option (Env * Clnt * string) :=
  match c_ends clnt !! server with
  | Some name => Some (env, clnt, name)
  | None =>
      '(env, name) ← Randstring env;
      env ← net_do env (MakeEnd name);
      env ← net_do env (Connect name server);
      env ← net_do env (Enable name (allowedL clnt server));
      Some (env, mkClnt (<[server := name]> (c_ends clnt)) (c_srvs clnt), name)
  end.

(** The loops over the ends of a client; the order does not matter ([order] lists the map). *)
Definition for_ends (env : Env) (order : list (string * string)) (f : string -> option bool) : option Env :=
  run_steps (fun env '(server, name) =>
    match f server with
    | Some yes => net_do env (Enable name yes)
    | None => Some env
    end) env order.

Definition Clnt_ConnectAll (env : Env) (clnt : Clnt) (order : list (string * string)) : option (Env * Clnt) :=
  env ← for_ends env order (fun _ => Some true);
  Some (env, mkClnt (c_ends clnt) None).

Definition Clnt_ConnectTo (env : Env) (clnt : Clnt) (order : list (string * string)) (srvs : option (list string))
    : option (Env * Clnt) :=
  let clnt := mkClnt (c_ends clnt) srvs in
  env ← for_ends env order (fun server => if allowedL clnt server then Some true else None);
  Some (env, clnt).

Definition Clnt_Disconnect (env : Env) (clnt : Clnt) (order : list (string * string)) (srv : string)
    : option (Env * Clnt) :=
  env ← for_ends env order (fun server => if decide (server = srv) then Some false else None);
  Some (env, clnt).

Definition Clnt_DisconnectAll (env : Env) (clnt : Clnt) (order : list (string * string)) : option (Env * Clnt) :=
  env ← for_ends env order (fun _ => Some false);
  Some (env, mkClnt (c_ends clnt) (Some [])).

Definition Clnt_remove (env : Env) (order : list (string * string)) : option Env :=
  run_steps (fun env '(_, name) => net_do env (DeleteEnd name)) env order.

(** *** The clients of a test *)

(** Clients are known by number; [cs_clerks] is nil after [cleanup]. *)
Record Clnts := mkClnts { cs_heap : list Clnt; cs_clerks : option (gset nat) }.

Definition makeClnts : Clnts := mkClnts [] (Some ∅).

(** An end of no client, always enabled. *)
Definition Clnts_makeEnd (env : Env) (servername : string) : option (Env * string) :=
  '(env, name) ← Randstring env;
  env ← net_do env (MakeEnd name);
  env ← net_do env (Connect name servername);
  env ← net_do env (Enable name true);
  Some (env, name).

(** An assignment to a nil map panics. *)
Definition MakeClientTo (cs : Clnts) (srvs : option (list string)) : option (Clnts * nat) :=
  clerks ← cs_clerks cs;
  let clnt := length (cs_heap cs) in
  Some (mkClnts (cs_heap cs ++ [makeClntTo srvs]) (Some ({[clnt]} ∪ clerks)), clnt).

Definition MakeClient (cs : Clnts) : option (Clnts * nat) := MakeClientTo cs None.

(** [ends] lists the ends of a client, [order] the clients, as the maps are iterated. *)
Definition Clnts_cleanup (env : Env) (cs : Clnts) (ends : Clnt -> list (string * string)) (order : list nat)
    : option (Env * Clnts) :=
  env ← run_steps (fun env p => clnt ← cs_heap cs !! p; Clnt_remove env (ends clnt)) env order;
  Some (env, mkClnts (cs_heap cs) None).

Definition DeleteClient (env : Env) (cs : Clnts) (ends : Clnt -> list (string * string)) (p : nat)
    : option (Env * Clnts) :=
  let clerks := default ∅ (cs_clerks cs) in
  if decide (p ∈ clerks) then
    clnt ← cs_heap cs !! p;
    env ← Clnt_remove env (ends clnt);
    Some (env, mkClnts (cs_heap cs) (Some (clerks ∖ {[p]})))
  else Some (env, cs).

(** ** config.go *)

Definition GRP0 : Z := 0.

(** The test's clients and groups; the clock and the statistics are not kept. *)
Record Config := mkConfig { cfg_clnts : Clnts; cfg_groups : Groups }.

Definition newGroups : Groups := ∅.

(** [names] will be drawn for ends. *)
Definition MakeConfig (names : list string) (n : Z) (reliable : bool) : option (Env * Config) :=
  let env := mkEnv MakeNetwork names 0 [] in
  '(env, gs) ← MakeGroupStart env newGroups GRP0 n;
  env ← net_do env (Reliable reliable);
  Some (env, mkConfig makeClnts gs).

Definition SetReliable (env : Env) (yes : bool) : option Env := net_do env (Reliable yes).
Definition SetLongReordering (env : Env) (yes : bool) : option Env := net_do env (LongReordering yes).
Definition SetLongDelays (env : Env) (yes : bool) : option Env := net_do env (LongDelays yes).

(** [Groups.cleanup]; [order] lists the groups. *)
Definition Groups_cleanup (env : Env) (gs : Groups) (order : list Z) : option Env :=
  run_steps (fun env gid => sg ← gs !! gid; Some (Grp_cleanup env sg)) env order.

(** [Config.Cleanup] without its check of the time. *)
Definition Config_Cleanup (env : Env) (cfg : Config) (ends : Clnt -> list (string * string))
    (clerks : list nat) (groups : list Z) : option (Env * Config) :=
  '(env, cs) ← Clnts_cleanup env (cfg_clnts cfg) ends clerks;
  env ← Groups_cleanup env (cfg_groups cfg) groups;
  env ← net_do env Cleanup;
  Some (env, mkConfig cs (cfg_groups cfg)).
End Tester.
End Tester.
