(* ===== verification/TesterProps.v ===== *)
(** * The links between the servers of a test

    A group of servers on the network is seen as which servers are connected and which of
    their links are up ([View]); the operations of [Tester] refine simple updates of that view.
    Consequences: after [StartServers] and any sequence of shutdowns, restarts, connects and
    disconnects of single servers, two servers can talk exactly if both are connected; and
    [MakePartition] with [Partition] puts the leader into a minority that cannot talk to the
    majority. *)

From S2P Require Import Prelude Persister LabRpc Tester.
Import LabRpc Tester.

Section Links.
Context {Svc : Type} (mks : list string -> Z -> Z -> Persister -> list Svc).
Implicit Types (env : Env (Svc:=Svc)) (sg : ServerGrp (Svc:=Svc)) (net : Network) (e : string) (i j a b n : Z).

(** ** The view *)

Record View := mkView { up : Z -> bool; link : Z -> Z -> bool }.
Implicit Types (v : View).

Definition set_up v i (c : bool) (a : Z) : bool := if decide (a = i) then c else up v a.

Definition v_disconnect i (from : list Z) v : View :=
  mkView (set_up v i false)
    (fun a b => if decide (a = i /\ b ∈ from \/ b = i /\ a ∈ from) then false else link v a b).

Definition v_connect i (to : list Z) v : View :=
  let u := set_up v i true in
  mkView u
    (fun a b => if decide (a = i /\ b ∈ to /\ u b = true \/ b = i /\ a ∈ to /\ u a = true) then true else link v a b).

(** A new server has new ends, all of them disabled. *)
Definition v_start i v : View := mkView (up v) (fun a b => if decide (a = i) then false else link v a b).

Definition range n i : Prop := 0 <= i < n.

#[local] Instance range_dec n i : Decision (range n i).
Proof. unfold range. apply _. Defined.

(** The group has [n] servers, each with an end of its own to each server, and looks like [v]. *)
Record represents n env sg v : Prop := {
  rp_srvs : zlen (srvs sg) = n;
  rp_conn : zlen (connected sg) = n;
  rp_lens : Forall (fun s => zlen (endNames s) = n) (srvs sg);
  rp_inj : forall i j i' j' e, endName sg i j = Some e -> endName sg i' j' = Some e -> i = i' /\ j = j';
  rp_ends : forall i j e, endName sg i j = Some e ->
              e ∈ ends (e_net env) /\ connections (e_net env) !! e = Some (Some (ServerName (gid sg) j));
  rp_up : forall i, range n i -> IsConnected sg i = Some (up v i);
  rp_link : forall i j e, endName sg i j = Some e -> is_enabled (e_net env) e = link v i j;
}.

Definition same_view n v v' : Prop :=
  (forall a, range n a -> up v a = up v' a)
  /\ forall a b, range n a -> range n b -> link v a b = link v' a b.

Lemma endName_range n env sg v i j e :
  represents n env sg v -> endName sg i j = Some e -> range n i /\ range n j.
Proof.
  intros Hr He. unfold endName in He. apply bind_Some in He as (s & Hs & He).
  pose proof (slice_get_lt _ _ _ Hs) as Hi. rewrite (rp_srvs _ _ _ _ Hr) in Hi.
  pose proof (slice_get_lt _ _ _ He) as Hj. split; [exact Hi|].
  pose proof (rp_lens _ _ _ _ Hr) as Hl. rewrite Forall_forall in Hl.
  apply slice_get_Some in Hs as [_ Hs%list_elem_of_lookup_2]. rewrite (Hl s Hs) in Hj. exact Hj.
Qed.

Lemma endName_total n env sg v i j :
  represents n env sg v -> range n i -> range n j -> exists e, endName sg i j = Some e.
Proof.
  intros Hr Hi Hj. unfold endName. destruct (slice_get_total (srvs sg) i) as [s Hs].
  { rewrite (rp_srvs _ _ _ _ Hr). exact Hi. }
  rewrite Hs. simpl. destruct (slice_get_total (endNames s) j) as [e He]; [|by exists e].
  pose proof (rp_lens _ _ _ _ Hr) as Hl. rewrite Forall_forall in Hl.
  apply slice_get_Some in Hs as [_ Hs%list_elem_of_lookup_2]. by rewrite (Hl s Hs).
Qed.

Lemma represents_ext n env sg v v' : same_view n v v' -> represents n env sg v -> represents n env sg v'.
Proof.
  intros [Hu Hl] Hr. pose proof Hr as []. split; auto.
  - intros i Hi. by rewrite rp_up0, Hu.
  - intros i j e He. destruct (endName_range _ _ _ _ _ _ _ Hr He). rewrite (rp_link0 _ _ _ He). auto.
Qed.

(** ** Enabling and disabling ends *)

(** Only which ends are enabled may differ. *)
Definition same_net env env' : Prop :=
  ends (e_net env') = ends (e_net env) /\ connections (e_net env') = connections (e_net env)
  /\ servers (e_net env') = servers (e_net env)
  /\ e_names env' = e_names env /\ e_made env' = e_made env /\ e_killed env' = e_killed env.

#[local] Instance same_net_refl : Reflexive same_net.
Proof. by intros env. Qed.
#[local] Instance same_net_trans : Transitive same_net.
Proof. intros x y z (?&?&?&?&?&?) (?&?&?&?&?&?). repeat split; congruence. Qed.

Lemma net_enable env e yes :
  exists env', net_do env (Enable e yes) = Some env' /\ same_net env env'
    /\ forall e', is_enabled (e_net env') e' = if decide (e' = e) then yes else is_enabled (e_net env) e'.
Proof.
  eexists. split; [reflexivity|]. split; [done|]. intros e'. unfold is_enabled. simpl.
  destruct (decide (e' = e)) as [->|Hne]; [by rewrite lookup_insert_eq|by rewrite lookup_insert_ne].
Qed.

(** The ends of those [js] that [cond] holds of. *)
Definition hit (cond : Z -> bool) (name : Z -> option string) (js : list Z) e : Prop :=
  Exists (fun j => cond j = true /\ name j = Some e) js.

#[local] Instance hit_dec cond name js e : Decision (hit cond name js e).
Proof. unfold hit. apply _. Defined.

Lemma hit_iff cond name js e : hit cond name js e <-> exists j, j ∈ js /\ cond j = true /\ name j = Some e.
Proof. unfold hit. rewrite Exists_exists. naive_solver. Qed.

(** The loop enables or disables them. *)
Lemma enable_loop (cond : Z -> bool) (f : Env (Svc:=Svc) -> Z -> option (Env (Svc:=Svc)))
    (name : Z -> option string) (yes : bool) (js : list Z) :
  Forall (fun j => exists e, name j = Some e
     /\ forall env, f env j = if cond j then net_do env (Enable e yes) else Some env) js ->
  forall env, exists env', run_steps f env js = Some env' /\ same_net env env'
    /\ forall e, is_enabled (e_net env') e
         = if decide (hit cond name js e) then yes else is_enabled (e_net env) e.
Proof.
  induction 1 as [|j js (e & Hn & Hf) _ IH]; intros env.
  - exists env. split; [done|]. split; [done|]. intros e. rewrite decide_False; [done|]. by intros ?%Exists_nil.
  - rewrite run_steps_cons, Hf. destruct (cond j) eqn:Hc.
    + destruct (net_enable env e yes) as (env1 & -> & Hs1 & He1). cbn [mbind option_bind].
      destruct (IH env1) as (env' & Hr & Hs & He). exists env'. split; [done|]. split; [by etrans|].
      intros e'. rewrite He, He1. destruct (decide (hit cond name js e')) as [Hh|Hh].
      { rewrite decide_True; [done|]. by apply Exists_cons_tl. }
      destruct (decide (e' = e)) as [->|Hne]; [rewrite decide_True; [done|]; by apply Exists_cons_hd|].
      rewrite decide_False; [done|]. intros [[_ ?]|?]%Exists_cons; [congruence|done].
    + cbn [mbind option_bind]. destruct (IH env) as (env' & Hr & Hs & He). exists env'. split; [done|].
      split; [done|]. intros e'. rewrite He. apply decide_ext. unfold hit. rewrite Exists_cons.
      split; [by right|]. by intros [[? _]|?]; [congruence|].
Qed.

(** ** Connecting and disconnecting *)

Lemma connected_set n env sg v i c :
  represents n env sg v -> range n i ->
  exists cs, slice_set (connected sg) i c = Some cs /\ zlen cs = n
    /\ forall a, range n a -> slice_get cs a = Some (set_up v i c a).
Proof.
  intros Hr Hi. pose proof (rp_conn _ _ _ _ Hr) as Hl. rewrite slice_set_Some by (rewrite Hl; exact Hi).
  eexists. split; [done|]. split; [by autorewrite with zlen|]. intros a Ha. unfold set_up.
  pose proof (rp_up _ _ _ _ Hr a Ha) as Hu. unfold IsConnected in Hu. apply slice_get_Some in Hu as [_ Hu].
  unfold range in *. unfold zlen in Hl. apply slice_get_Some. split; [lia|].
  destruct (decide (a = i)) as [->|Hne]; [apply list_lookup_insert_eq; lia|].
  rewrite list_lookup_insert_ne by lia. done.
Qed.

(** The same group with other ends enabled and other servers marked as connected. *)
Lemma represents_links n env sg v env' cs v' :
  represents n env sg v -> same_net env env' -> zlen cs = n ->
  (forall a, range n a -> slice_get cs a = Some (up v' a)) ->
  (forall a b e, endName sg a b = Some e -> is_enabled (e_net env') e = link v' a b) ->
  represents n env' (set_connected sg cs) v'.
Proof.
  intros [] (He & Hc & _) Hz Hu Hl. split; try done. intros i j e Hn. rewrite He, Hc. by apply (rp_ends0 i).
Qed.

Abbreviation Envs := (Env (Svc:=Svc)).

(** A loop over the ends from [i] to [js] and one over those from [js] to [i]. *)
Lemma both_ways n env sg v i (js : list Z) (cond : Z -> bool) (yes : bool)
    (f g : Envs -> Z -> option Envs) :
  represents n env sg v -> range n i -> Forall (range n) js ->
  (forall env j e, endName sg i j = Some e -> f env j = if cond j then net_do env (Enable e yes) else Some env) ->
  (forall env j e, endName sg j i = Some e -> g env j = if cond j then net_do env (Enable e yes) else Some env) ->
  exists env1 env', run_steps f env js = Some env1 /\ run_steps g env1 js = Some env' /\ same_net env env'
    /\ forall a b e, endName sg a b = Some e ->
       is_enabled (e_net env') e
       = if decide (a = i /\ b ∈ js /\ cond b = true \/ b = i /\ a ∈ js /\ cond a = true) then yes else link v a b.
Proof.
  intros Hr Hi Hjs Hf Hg. rewrite Forall_forall in Hjs.
  destruct (enable_loop cond f (fun j => endName sg i j) yes js) with (env := env) as (env1 & H1 & Hs1 & He1).
  { apply Forall_forall. intros j Hj. destruct (endName_total n env sg v i j Hr Hi (Hjs j Hj)) as [e He]. eauto. }
  destruct (enable_loop cond g (fun j => endName sg j i) yes js) with (env := env1) as (env2 & H2 & Hs2 & He2).
  { apply Forall_forall. intros j Hj. destruct (endName_total n env sg v j i Hr (Hjs j Hj) Hi) as [e He]. eauto. }
  exists env1, env2. split; [done|]. split; [done|]. split; [by etrans|]. intros a b e He. rewrite He2, He1.
  destruct (decide (hit cond (fun j => endName sg j i) js e)) as [Hh|Hh].
  - apply hit_iff in Hh as (j & Hj & Hc & Hn). destruct (rp_inj _ _ _ _ Hr _ _ _ _ _ He Hn) as [-> ->].
    by rewrite decide_True by (by right).
  - destruct (decide (hit cond (fun j => endName sg i j) js e)) as [Hh'|Hh'].
    + apply hit_iff in Hh' as (j & Hj & Hc & Hn). destruct (rp_inj _ _ _ _ Hr _ _ _ _ _ He Hn) as [-> ->].
      by rewrite decide_True by (by left).
    + rewrite decide_False; [by apply (rp_link _ _ _ _ Hr)|]. intros [(-> & Hb & Hc)|(-> & Ha & Hc)].
      * apply Hh', hit_iff. by exists b.
      * apply Hh, hit_iff. by exists a.
Qed.

Lemma server_ends n env sg v i : represents n env sg v -> range n i ->
  exists s, slice_get (srvs sg) i = Some s /\ forall j, slice_get (endNames s) j = endName sg i j.
Proof.
  intros Hr Hi. destruct (slice_get_total (srvs sg) i) as [s Hs]; [rewrite (rp_srvs _ _ _ _ Hr); exact Hi|].
  exists s. split; [done|]. intros j. unfold endName. by rewrite Hs.
Qed.

(** The group after an operation on the links. *)
Definition relinked n env sg v' (r : option (Env (Svc:=Svc) * ServerGrp (Svc:=Svc))) : Prop :=
  exists env' sg', r = Some (env', sg') /\ represents n env' sg' v' /\ same_net env env'
    /\ srvs sg' = srvs sg /\ gid sg' = gid sg.

Lemma disconnect_refines n env sg v i from :
  represents n env sg v -> range n i -> Forall (range n) from ->
  relinked n env sg (v_disconnect i from v) (disconnect env sg i from).
Proof.
  intros Hr Hi Hf. destruct (connected_set n env sg v i false Hr Hi) as (cs & Hcs & Hz & Hcu).
  destruct (server_ends n env sg v i Hr Hi) as (s & Hs & Hout).
  destruct (both_ways n env sg v i from (fun _ => true) false
    (fun env j => e ← slice_get (endNames s) j; net_do env (Enable e false))
    (fun env j => e ← endName (set_connected sg cs) j i; net_do env (Enable e false)) Hr Hi Hf)
    as (env1 & env2 & H1 & H2 & Hsame & Hen).
  { intros env0 j e He. by rewrite Hout, He. }
  { intros env0 j e He. change (endName (set_connected sg cs) j i) with (endName sg j i). by rewrite He. }
  unfold disconnect. rewrite Hcs. cbn [mbind option_bind]. change (srvs (set_connected sg cs)) with (srvs sg).
  rewrite Hs. cbn [mbind option_bind]. unfold Server_disconnect, enable_ends. rewrite H1. cbn [mbind option_bind].
  rewrite H2. cbn [mbind option_bind]. eexists _, _. split; [done|]. split; [|done].
  apply (represents_links n env sg v); try done. intros a b e He. rewrite (Hen a b e He). simpl.
  apply decide_ext. tauto.
Qed.

Lemma connect_refines n env sg v i to :
  represents n env sg v -> range n i -> Forall (range n) to ->
  relinked n env sg (v_connect i to v) (connect env sg i to).
Proof.
  intros Hr Hi Hf. destruct (connected_set n env sg v i true Hr Hi) as (cs & Hcs & Hz & Hcu).
  destruct (server_ends n env sg v i Hr Hi) as (s & Hs & Hout).
  assert (Hup : forall j, range n j -> IsConnected (set_connected sg cs) j = Some (set_up v i true j)) by exact Hcu.
  destruct (both_ways n env sg v i to (set_up v i true) true
    (fun env j => c ← IsConnected (set_connected sg cs) j;
       if (c : bool) then e ← slice_get (endNames s) j; net_do env (Enable e true) else Some env)
    (fun env j => c ← IsConnected (set_connected sg cs) j;
       if (c : bool) then e ← endName (set_connected sg cs) j i; net_do env (Enable e true) else Some env) Hr Hi Hf)
    as (env1 & env2 & H1 & H2 & Hsame & Hen).
  { intros env0 j e He. destruct (endName_range _ _ _ _ _ _ _ Hr He). rewrite Hup by done. by rewrite Hout, He. }
  { intros env0 j e He. destruct (endName_range _ _ _ _ _ _ _ Hr He). rewrite Hup by done.
    change (endName (set_connected sg cs) j i) with (endName sg j i). by rewrite He. }
  unfold connect. rewrite Hcs. cbn [mbind option_bind]. change (srvs (set_connected sg cs)) with (srvs sg).
  rewrite Hs. cbn [mbind option_bind]. unfold Server_connect, enable_connected. rewrite H1. cbn [mbind option_bind].
  rewrite H2. cbn [mbind option_bind]. eexists _, _. split; [done|]. split; [|done].
  by apply (represents_links n env sg v).
Qed.
(** ** Partitions *)

(** Server [i] joins [side] and is cut off from [others]. *)
Definition v_regroup (others side : list Z) v i : View := v_connect i side (v_disconnect i others v).

Definition v_side (others side : list Z) (done : list Z) v0 v : Prop :=
  (forall a, up v a = if decide (a ∈ done) then true else up v0 a)
  /\ (forall a b, a ∈ done -> b ∈ done -> link v a b = true)
  /\ (forall a b, a ∈ done -> b ∈ others -> link v a b = false /\ link v b a = false)
  /\ forall a b, a ∉ side -> b ∉ side -> link v a b = link v0 a b.

Lemma v_regroup_side others side done v0 v i :
  (forall a, a ∈ side -> a ∉ others) -> done ⊆ side -> i ∈ side ->
  v_side others side done v0 v -> v_side others side (done ++ [i]) v0 (v_regroup others side v i).
Proof.
  intros Hdis Hsub Hi (Hu & Hon & Hoff & Hrest). unfold v_regroup.
  assert (Hup : forall a, up (v_connect i side (v_disconnect i others v)) a
                = if decide (a ∈ done ++ [i]) then true else up v0 a).
  { intros a. simpl. unfold set_up. simpl. unfold set_up.
    destruct (decide (a = i)) as [->|Hne]; [by rewrite decide_True by set_solver|].
    rewrite Hu. apply decide_ext. set_solver. }
  split; [exact Hup|]. split_and!.
  - intros a b Ha Hb. pose proof (Hup a) as Hua. pose proof (Hup b) as Hub.
    rewrite decide_True in Hua by done. rewrite decide_True in Hub by done. simpl in *.
    destruct (decide _) as [|Hno]; [done|]. destruct (decide (a = i)) as [->|]; [|destruct (decide (b = i)) as [->|]].
    + exfalso. apply Hno. left. split_and!; [done| |done]. set_solver.
    + exfalso. apply Hno. right. split_and!; [done| |done]. set_solver.
    + destruct (decide _) as [[[? _]|[? _]]|_]; [done..|]. apply Hon; set_solver.
  - intros a b Ha Hb. assert (Has : a ∈ side) by set_solver. pose proof (Hdis a Has) as Hao.
    assert (Hbs : b ∉ side) by (intros Hbs; by apply (Hdis b)).
    assert (Hbi : b <> i) by (intros ->; done). simpl.
    assert (Hoff' : a <> i -> link v a b = false /\ link v b a = false) by (intros; apply Hoff; set_solver).
    split; repeat (case_decide; try tauto; try done); apply Hoff'; intros ->; tauto.
  - intros a b Ha Hb. assert (a <> i) by (intros ->; done). assert (b <> i) by (intros ->; done). simpl.
    repeat (case_decide; try tauto). auto.
Qed.
(** One side of [Partition]. *)
Lemma regroup_run n others side (ids done : list Z) v0 : forall env sg v,
  Forall (range n) others -> Forall (range n) side ->
  (forall a, a ∈ side -> a ∉ others) -> done ++ ids = side ->
  represents n env sg v -> v_side others side done v0 v ->
  exists env' sg' v', run_steps (regroup others side) (env, sg) ids = Some (env', sg')
    /\ represents n env' sg' v' /\ v_side others side side v0 v' /\ same_net env env'
    /\ srvs sg' = srvs sg /\ gid sg' = gid sg.
Proof.
  revert done. induction ids as [|i ids IH]; intros done env sg v Ho Hs Hdis Hside Hr Hv.
  - rewrite app_nil_r in Hside. subst done. exists env, sg, v. done.
  - assert (Hi : i ∈ side) by (rewrite <- Hside; set_solver).
    pose proof Hs as Hs'. rewrite Forall_forall in Hs'. specialize (Hs' i Hi).
    destruct (disconnect_refines n env sg v i others Hr Hs' Ho) as (env1 & sg1 & H1 & Hr1 & Hn1 & Hss1 & Hg1).
    destruct (connect_refines n env1 sg1 _ i side Hr1 Hs' Hs) as (env2 & sg2 & H2 & Hr2 & Hn2 & Hss2 & Hg2).
    destruct (IH (done ++ [i]) env2 sg2 (v_regroup others side v i)) as (env' & sg' & v' & Hrun & Hr' & Hv' & Hn' & Hss' & Hg');
      [done|done|done|by rewrite <- app_assoc|done|apply v_regroup_side; [done| |done|done]|].
    { rewrite <- Hside. set_solver. }
    assert (Hstep : regroup others side (env, sg) i = Some (env2, sg2)).
    { unfold regroup. cbn [fst snd]. rewrite H1. exact H2. }
    exists env', sg', v'. rewrite run_steps_cons, Hstep. cbn [mbind option_bind]. split; [done|]. split; [done|]. split; [done|].
    split; [by etrans; [|etrans]|]. split; congruence.
Qed.

Definition same_side (p1 p2 : list Z) a b : Prop := a ∈ p1 /\ b ∈ p1 \/ a ∈ p2 /\ b ∈ p2.

#[local] Instance same_side_dec p1 p2 a b : Decision (same_side p1 p2 a b).
Proof. unfold same_side. apply _. Defined.

Lemma v_side_start others side v : v_side others side [] v v.
Proof. split_and!; intros; set_solver. Qed.

(** After [Partition], everybody is connected, and the links that are up are those within a side. *)
Lemma Partition_refines n env sg v p1 p2 :
  represents n env sg v -> Forall (range n) p1 -> Forall (range n) p2 -> (forall a, a ∈ p1 -> a ∉ p2) ->
  (forall a, range n a -> a ∈ p1 \/ a ∈ p2) ->
  relinked n env sg (mkView (fun _ => true) (fun a b => bool_decide (same_side p1 p2 a b))) (Partition env sg p1 p2).
Proof.
  intros Hr H1 H2 Hdis Hall.
  destruct (regroup_run n p2 p1 p1 [] v env sg v H2 H1 Hdis eq_refl Hr (v_side_start _ _ _))
    as (env1 & sg1 & v1 & Hrun1 & Hr1 & (Hu1 & Hon1 & Hoff1 & _) & Hn1 & Hs1 & Hg1).
  destruct (regroup_run n p1 p2 p2 [] v1 env1 sg1 v1 H1 H2) as (env2 & sg2 & v2 & Hrun2 & Hr2 & (Hu2 & Hon2 & Hoff2 & Hrest2) & Hn2 & Hs2 & Hg2);
    [by intros a Ha ?; eapply Hdis|done|done|apply v_side_start|].
  exists env2, sg2. unfold Partition. rewrite Hrun1. cbn [mbind option_bind]. split; [done|].
  split; [|split; [by etrans|split; congruence]]. eapply represents_ext; [|exact Hr2]. split; simpl.
  - intros a Ha. rewrite Hu2. case_decide; [done|]. rewrite Hu1. rewrite decide_True; [done|].
    destruct (Hall a Ha); tauto.
  - intros a b Ha Hb. destruct (Hall a Ha) as [Ha1|Ha2], (Hall b Hb) as [Hb1|Hb2].
    + rewrite Hrest2 by auto. rewrite Hon1 by done. by rewrite bool_decide_true by (by left).
    + rewrite bool_decide_false; [by apply (Hoff2 b a)|]. intros [[_ ?]|[? _]]; [by apply (Hdis b)|by apply (Hdis a)].
    + rewrite bool_decide_false; [by apply (Hoff2 a b)|]. intros [[? _]|[_ ?]]; [by apply (Hdis a)|by apply (Hdis b)].
    + rewrite Hon2 by done. by rewrite bool_decide_true by (by right).
Qed.

(** ** [MakePartition] *)

Lemma partition_loop_spec l ids : forall j p1 p2 (done : list Z) (free : nat),
  p1 ++ p2 = done ++ replicate free 0 -> j = zlen done ->
  (length (filter (fun i => i <> l) ids) <= free)%nat ->
  exists p1' p2', partition_loop l ids j p1 p2 = Some (p1', p2') /\ zlen p1' = zlen p1 /\ zlen p2' = zlen p2
    /\ p1' ++ p2' = done ++ filter (fun i => i <> l) ids
                    ++ replicate (free - length (filter (fun i => i <> l) ids)) 0.
Proof.
  induction ids as [|i ids IH]; intros j p1 p2 done free Hp Hj Hf; simpl.
  - exists p1, p2. rewrite Nat.sub_0_r. done.
  - rewrite filter_cons in *. destruct (Z.eqb_spec i l) as [Heq|Hne].
    { rewrite decide_False in * by tauto. by apply IH. }
    rewrite decide_True in * by done. simpl in Hf. destruct free as [|free]; [lia|].
    assert (Hins : <[Z.to_nat j := i]> (p1 ++ p2) = (done ++ [i]) ++ replicate free 0).
    { rewrite Hp, Hj. unfold zlen. rewrite Nat2Z.id. rewrite insert_app_r_alt by lia.
      rewrite Nat.sub_diag, <- app_assoc. done. }
    assert (Hlen : zlen p1 + zlen p2 = zlen done + Z.of_nat (S free)).
    { rewrite <- !zlen_app, Hp. autorewrite with zlen. unfold zlen. rewrite length_replicate. lia. }
    pose proof (zlen_nonneg done) as Hd.
    assert (Hj' : j + 1 = zlen (done ++ [i])) by (autorewrite with zlen; lia).
    assert (Hout : forall rest, (done ++ [i]) ++ rest = done ++ (i :: rest)) by (intros; by rewrite <- app_assoc).
    destruct (Z.ltb_spec j (zlen p1)) as [Hlt|Hge].
    + rewrite slice_set_Some by lia. cbn [mbind option_bind].
      destruct (IH (j + 1) (<[Z.to_nat j := i]> p1) p2 (done ++ [i]) free) as (p1' & p2' & Hl & Hz1 & Hz2 & Heq);
        [|done|lia|].
      { rewrite <- Hins, insert_app_l; [done|]. unfold zlen in *. lia. }
      exists p1', p2'. split; [done|]. rewrite zlen_insert in Hz1. split; [done|]. split; [done|]. by rewrite Heq, Hout.
    + rewrite slice_set_Some by lia. cbn [mbind option_bind].
      destruct (IH (j + 1) p1 (<[Z.to_nat (j - zlen p1) := i]> p2) (done ++ [i]) free) as (p1' & p2' & Hl & Hz1 & Hz2 & Heq);
        [|done|lia|].
      { rewrite <- Hins, insert_app_r_alt by (unfold zlen in *; lia). do 2 f_equal. unfold zlen in *. lia. }
      exists p1', p2'. split; [done|]. split; [done|]. rewrite zlen_insert in Hz2. split; [done|]. by rewrite Heq, Hout.
Qed.

Lemma ints_elem n i : i ∈ ints n <-> range n i.
Proof. unfold ints, range. rewrite elem_of_seqZ. lia. Qed.
Lemma NoDup_ints n : NoDup (ints n).
Proof. apply NoDup_seqZ. Qed.

(** The servers other than [l], and [l]. *)
Lemma others_perm n l : range n l -> filter (fun i => i <> l) (ints n) ++ [l] ≡ₚ ints n.
Proof.
  intros Hl. apply NoDup_Permutation; [|apply NoDup_ints|].
  - apply NoDup_app. split_and!; [apply NoDup_filter, NoDup_ints| |apply NoDup_singleton].
    intros i [? _]%list_elem_of_filter ?%list_elem_of_singleton. done.
  - intros i. rewrite elem_of_app, list_elem_of_filter, list_elem_of_singleton, ints_elem.
    destruct (decide (i = l)) as [->|]; naive_solver.
Qed.

Lemma others_length n l : range n l -> Z.of_nat (length (filter (fun i => i <> l) (ints n))) = n - 1.
Proof.
  intros Hl. pose proof (Permutation_length (others_perm n l Hl)) as Hp. unfold ints in *.
  rewrite length_app, length_seqZ in Hp. simpl in Hp. unfold range in Hl. lia.
Qed.

Lemma insert_last {A} (l : list A) x y : <[length l := y]> (l ++ [x]) = l ++ [y].
Proof. rewrite insert_app_r_alt by lia. by rewrite Nat.sub_diag. Qed.

(** The two parts together: the others in order, then the leader; for an even number of servers,
    one place between them is never written and names server 0. *)
Lemma MakePartition_spec sg n l :
  N sg = n -> 2 <= n -> range n l ->
  exists p1 p2, MakePartition sg l = Some (p1, p2) /\ zlen p1 = n / 2 + 1 /\ zlen p2 = n / 2
    /\ last p2 = Some l
    /\ p1 ++ p2 = filter (fun i => i <> l) (ints n) ++ replicate (Z.to_nat (1 - n mod 2)) 0 ++ [l].
Proof.
  intros Hn H2 Hl. unfold MakePartition. rewrite Hn. pose proof (Z.div_mod n 2 ltac:(lia)) as Hdm.
  pose proof (Z.mod_pos_bound n 2 ltac:(lia)) as Hm. pose proof (others_length n l Hl) as Hlen.
  set (others := filter (fun i => i <> l) (ints n)) in *.
  set (q := n / 2) in *. set (f := Z.to_nat (1 - n mod 2)).
  destruct (partition_loop_spec l (ints n) 0 (replicate (Z.to_nat (q + 1)) 0) (replicate (Z.to_nat q) 0) []
    (Z.to_nat (q + 1) + Z.to_nat q)) as (p1 & p2 & Hp & Hz1 & Hz2 & Heq);
    [by rewrite <- replicate_add|done|fold others; lia|].
  fold others in Heq. rewrite Hp. cbn [mbind option_bind]. unfold zlen in Hz1, Hz2.
  rewrite length_replicate in Hz1, Hz2.
  assert (Hfree : (Z.to_nat (q + 1) + Z.to_nat q - length others = S f)%nat) by (unfold f; lia).
  rewrite Hfree, app_nil_l, replicate_S_end in Heq. rewrite slice_set_Some by (unfold zlen; lia). cbn [mbind option_bind].
  assert (Hsplit : exists p2', p2 = p2' ++ [0] /\ p1 ++ p2' = others ++ replicate f 0).
  { destruct p2 as [|x p2' _] using rev_ind; [simpl in Hz2; lia|].
    rewrite !app_assoc in Heq. apply app_inj_tail in Heq as [Heq ->]. by exists p2'. }
  destruct Hsplit as (p2' & -> & Hp'). rewrite length_app in Hz2. simpl in Hz2.
  assert (Z.to_nat (zlen (p2' ++ [0]) - 1) = length p2') as ->
    by (rewrite zlen_app; unfold zlen; simpl; lia).
  exists p1, (p2' ++ [l]). rewrite insert_last, zlen_app. unfold zlen. simpl.
  split; [done|]. split; [lia|]. split; [lia|]. split; [by rewrite last_snoc|].
  rewrite app_assoc, Hp'. by rewrite <- app_assoc.
Qed.
(** ** Starting servers *)

(** The next [k] names that are drawn are new. *)
Definition fresh env (k : nat) : Prop :=
  NoDup (e_names env) /\ (forall e, e ∈ e_names env -> e ∉ ends (e_net env)) /\ (k <= length (e_names env))%nat.

(** The ends [names] were made. *)
Record grown env env' (names : list string) : Prop := {
  gr_names : e_names env = names ++ e_names env';
  gr_ends : forall e, e ∈ ends (e_net env') <-> e ∈ ends (e_net env) \/ e ∈ names;
  gr_enabled : forall e, is_enabled (e_net env') e = if decide (e ∈ names) then false else is_enabled (e_net env) e;
  gr_conns : forall e, e ∉ names -> connections (e_net env') !! e = connections (e_net env) !! e;
  gr_servers : servers (e_net env') = servers (e_net env);
  gr_made : e_made env' = e_made env;
}.

Lemma fresh_grown env env' names k :
  grown env env' names -> fresh env (length names + k) -> fresh env' k.
Proof.
  intros [Hn He _ _ _ _] (Hnd & Hf & Hlen). rewrite Hn in *. apply NoDup_app in Hnd as (_ & Hdis & Hnd).
  split; [done|]. split; [|rewrite length_app in Hlen; lia]. intros e Hin. rewrite He.
  intros [?|?]; [by apply (Hf e); [set_solver|]|]. by apply (Hdis e).
Qed.

Lemma grown_trans env env1 env2 names names1 :
  grown env env1 names -> grown env1 env2 names1 -> grown env env2 (names ++ names1).
Proof.
  intros [] []. split; try congruence.
  - rewrite gr_names0, gr_names1, app_assoc. done.
  - intros e. rewrite gr_ends1, gr_ends0, elem_of_app. tauto.
  - intros e. rewrite gr_enabled1, gr_enabled0.
    pose proof (elem_of_app names names1 e) as Happ. repeat case_decide; tauto.
  - intros e He. rewrite gr_conns1 by set_solver. apply gr_conns0. set_solver.
Qed.

Lemma grown_fresh_names env env' names k :
  fresh env k -> grown env env' names -> forall e, e ∈ names -> e ∉ ends (e_net env).
Proof. intros (_ & Hf & _) Hg e He. apply Hf. rewrite (gr_names _ _ _ Hg). set_solver. Qed.

Lemma make_one_end env g j :
  fresh env 1 -> exists e env1 env2 env3, Randstring env = Some (env1, e)
    /\ net_do env1 (MakeEnd e) = Some env2 /\ net_do env2 (Connect e (ServerName g j)) = Some env3
    /\ grown env env3 [e] /\ connections (e_net env3) !! e = Some (Some (ServerName g j)).
Proof.
  intros (Hnd & Hf & Hl). unfold Randstring. destruct (e_names env) as [|e names] eqn:En; [simpl in Hl; lia|].
  assert (He : e ∉ ends (e_net env)) by (apply Hf; left).
  eexists e, _, _, _. split; [done|]. unfold net_do. cbn [e_net admin].
  rewrite decide_False by done. cbn [mbind option_bind]. split; [done|]. split; [done|].
  split; [|apply lookup_insert_eq]. split; simpl; try done.
  - intros e'. set_solver.
  - intros e'. unfold is_enabled. simpl. destruct (decide (e' = e)) as [->|Hne].
    + rewrite lookup_insert_eq. by rewrite decide_True by set_solver.
    + rewrite lookup_insert_ne by done. by rewrite decide_False by set_solver.
  - intros e' He'. rewrite !lookup_insert_ne by set_solver. done.
Qed.

Lemma make_ends_spec g k : forall env j, fresh env k ->
  exists env' names, make_ends env g j k = Some (env', names) /\ length names = k /\ grown env env' names
    /\ forall m e, names !! m = Some e -> connections (e_net env') !! e = Some (Some (ServerName g (j + Z.of_nat m))).
Proof.
  induction k as [|k IH]; intros env j Hfr.
  - exists env, []. split; [done|]. split; [done|]. split; [|done]. split; try done; set_solver.
  - destruct (make_one_end env g j) as (e & env1 & env2 & env3 & H1 & H2 & H3 & Hg & Hc).
    { destruct Hfr as (? & ? & ?). split; [done|]. split; [done|lia]. }
    destruct (IH env3 (j + 1)) as (env' & names & Hm & Hlen & Hg' & Hcs).
    { by apply (fresh_grown env _ [e]). }
    exists env', (e :: names). cbn [make_ends]. rewrite H1. cbn [mbind option_bind]. rewrite H2. cbn [mbind option_bind].
    rewrite H3. cbn [mbind option_bind]. rewrite Hm. split; [done|]. split; [simpl; lia|].
    split; [by apply (grown_trans env env3 env' [e])|]. intros [|m] e' He'; simpl in He'.
    + injection He' as <-. rewrite Z.add_0_r. rewrite (gr_conns _ _ _ Hg'); [done|].
      intros Hin. assert (NoDup (e_names env)) as Hnd by apply Hfr. rewrite (gr_names _ _ _ Hg), (gr_names _ _ _ Hg') in Hnd.
      simpl in Hnd. apply NoDup_cons in Hnd as [Hnot _]. set_solver.
    + rewrite (Hcs m e' He'). do 3 f_equal. lia.
Qed.
(** A server that is started gets new ends; the others keep theirs. *)
Lemma endName_start sg i srv ss a b :
  slice_set (srvs sg) i srv = Some ss ->
  endName (set_srvs sg ss) a b = if decide (a = i) then slice_get (endNames srv) b else endName sg a b.
Proof.
  intros [Hi ->]%slice_set_inv. unfold endName. simpl. destruct (decide (a = i)) as [->|Hne].
  - assert (slice_get (<[Z.to_nat i := srv]> (srvs sg)) i = Some srv) as ->; [|done].
    apply slice_get_Some. split; [lia|]. apply list_lookup_insert_eq. unfold zlen in Hi. lia.
  - assert (slice_get (<[Z.to_nat i := srv]> (srvs sg)) a = slice_get (srvs sg) a) as ->; [|done].
    unfold slice_get. destruct (Z.ltb_spec a 0); [done|]. rewrite list_lookup_insert_ne by lia. done.
Qed.

Lemma represents_start n env sg v i srv ss env1 env' k :
  represents n env sg v -> slice_set (srvs sg) i srv = Some ss -> zlen (endNames srv) = n ->
  fresh env k -> grown env env1 (endNames srv) ->
  (forall m e, endNames srv !! m = Some e -> connections (e_net env1) !! e = Some (Some (ServerName (gid sg) (Z.of_nat m)))) ->
  ends (e_net env') = ends (e_net env1) -> connections (e_net env') = connections (e_net env1) ->
  enabled (e_net env') = enabled (e_net env1) ->
  represents n env' (set_srvs sg ss) (v_start i v).
Proof.
  intros Hr Hss Hlen Hf Hg Hc He Hco Hen. pose proof Hr as [].
  pose proof (fun a b => endName_start sg i srv ss a b Hss) as Hend.
  assert (Hnew : forall b e, slice_get (endNames srv) b = Some e -> e ∈ endNames srv).
  { intros b e [_ Hl]%slice_get_Some. by apply list_elem_of_lookup_2 in Hl. }
  assert (Hold : forall a b e, endName sg a b = Some e -> e ∉ endNames srv).
  { intros a b e Hn Hin. apply (grown_fresh_names _ _ _ _ Hf Hg e Hin). by apply (rp_ends0 a b). }
  assert (Hnd : NoDup (endNames srv)).
  { destruct Hf as (Hnd & _). rewrite (gr_names _ _ _ Hg) in Hnd. by apply NoDup_app in Hnd as [? _]. }
  pose proof Hss as [Hi ->]%slice_set_inv.
  split; simpl; try done.
  - by autorewrite with zlen.
  - apply Forall_insert; done.
  - intros a b a' b' e. rewrite !Hend. destruct (decide (a = i)) as [->|], (decide (a' = i)) as [->|]; intros H1 H2.
    + split; [done|]. apply slice_get_Some in H1 as [? H1], H2 as [? H2].
      pose proof (NoDup_lookup _ _ _ _ Hnd H1 H2). lia.
    + by destruct (Hold a' b' e H2 (Hnew _ _ H1)).
    + by destruct (Hold a b e H1 (Hnew _ _ H2)).
    + by apply (rp_inj0 a b a' b' e).
  - intros a b e. rewrite Hend, He, Hco. destruct (decide (a = i)) as [->|].
    + intros Hn. split; [apply (gr_ends _ _ _ Hg); right; by eapply Hnew|].
      apply slice_get_Some in Hn as [Hb Hn]. rewrite (Hc _ _ Hn). do 3 f_equal. lia.
    + intros Hn. destruct (rp_ends0 a b e Hn). split; [apply (gr_ends _ _ _ Hg); by left|].
      rewrite (gr_conns _ _ _ Hg); [done|]. by eapply Hold.
  - intros a b e. rewrite Hend. unfold is_enabled. rewrite Hen. fold (is_enabled (e_net env1) e).
    rewrite (gr_enabled _ _ _ Hg). destruct (decide (a = i)) as [->|]; intros Hn.
    + rewrite decide_True by (by eapply Hnew). done.
    + rewrite decide_False by (by eapply Hold). by apply rp_link0.
Qed.

Lemma StartServer_refines n env sg v i k :
  represents n env sg v -> range n i -> fresh env (Z.to_nat n + k) ->
  exists env' sg', StartServer mks env sg i = Some (env', sg') /\ represents n env' sg' (v_start i v)
    /\ fresh env' k /\ gid sg' = gid sg
    /\ servers (e_net env') = <[ServerName (gid sg) i := Some (e_made env)]> (servers (e_net env)).
Proof.
  intros Hr Hi Hf. destruct (server_ends n env sg v i Hr Hi) as (s & Hs & _).
  assert (Hlen : zlen (endNames s) = n).
  { pose proof (rp_lens _ _ _ _ Hr) as Hl. rewrite Forall_forall in Hl. apply Hl.
    apply slice_get_Some in Hs as [_ Hs]. by apply list_elem_of_lookup_2 in Hs. }
  destruct (make_ends_spec (gid sg) (Z.to_nat n) env 0) as (env1 & names & Hm & Hln & Hg & Hc).
  { destruct Hf as (? & ? & ?). split; [done|]. split; [done|lia]. }
  set (ps := match saved s with Some ps => Persister_Copy ps | None => MakePersister end).
  set (srv := Tester.mkServer (Some ps) (mks names (gid sg) i ps) names).
  assert (Hss : slice_set (srvs sg) i srv = Some (<[Z.to_nat i := srv]> (srvs sg))).
  { apply slice_set_Some. rewrite (rp_srvs _ _ _ _ Hr). exact Hi. }
  unfold range in Hi. eexists _, _. split; [|split; [|split; [|split]]].
  - unfold StartServer. rewrite Hs. cbn [mbind option_bind]. unfold startServer, makeServer. rewrite Hlen, Hm.
    cbn [mbind option_bind saved endNames]. fold ps srv. rewrite Hss. cbn [mbind option_bind]. reflexivity.
  - apply (represents_start n env sg v i srv _ env1 _ (Z.to_nat n + k)); try done. simpl. unfold zlen. lia.
  - assert (Hf1 : fresh env1 k) by (apply (fresh_grown env env1 names); [done|by rewrite Hln]). exact Hf1.
  - done.
  - simpl. by rewrite (gr_servers _ _ _ Hg), (gr_made _ _ _ Hg).
Qed.
(** ** Making a group *)

Lemma NoDup_mjoin_lookup {A} (ls : list (list A)) : NoDup (mjoin ls) ->
  forall (i i' : nat) (l l' : list A) (j j' : nat) x, ls !! i = Some l -> l !! j = Some x -> ls !! i' = Some l' -> l' !! j' = Some x ->
  i = i' /\ j = j'.
Proof.
  induction ls as [|l0 ls IH]; intros Hnd i i' l l' j j' x Hi Hj Hi' Hj'; [done|].
  change (mjoin (l0 :: ls)) with (l0 ++ mjoin ls) in Hnd. apply NoDup_app in Hnd as (H0 & Hdis & Hnd).
  assert (Hin : forall (i : nat) (l : list A) (j : nat), ls !! i = Some l -> l !! j = Some x -> x ∈ mjoin ls).
  { intros i0 l1 j0 Hi0 Hj0. apply list_elem_of_join. exists l1. split; by eapply list_elem_of_lookup_2. }
  destruct i as [|i], i' as [|i']; simplify_eq/=.
  - split; [done|]. exact (NoDup_lookup _ _ _ _ H0 Hj Hj').
  - exfalso. apply (Hdis x); [by eapply list_elem_of_lookup_2|by eapply Hin].
  - exfalso. apply (Hdis x); [by eapply list_elem_of_lookup_2|by eapply Hin].
  - destruct (IH Hnd i i' l l' j j' x) as [-> ->]; done.
Qed.

Lemma make_servers_spec g n m : 0 <= n -> forall env k, fresh env (m * Z.to_nat n + k) ->
  exists env' ss, make_servers env g n m = Some (env', ss) /\ length ss = m
    /\ Forall (fun s => zlen (endNames s) = n) ss /\ grown env env' (mjoin (endNames <$> ss)) /\ fresh env' k
    /\ Forall (fun s => forall (j : nat) e, endNames s !! j = Some e ->
         connections (e_net env') !! e = Some (Some (ServerName g (Z.of_nat j)))) ss.
Proof.
  intros Hn. induction m as [|m IH]; intros env k Hf.
  - exists env, []. split; [done|]. split; [done|]. split; [done|]. split; [split; try done; set_solver|done].
  - simpl in Hf. destruct (make_ends_spec g (Z.to_nat n) env 0) as (env1 & names & Hm & Hln & Hg & Hc).
    { destruct Hf as (? & ? & ?). split; [done|]. split; [done|lia]. }
    assert (Hf1 : fresh env1 (m * Z.to_nat n + k)).
    { apply (fresh_grown env env1 names); [done|]. rewrite Hln. by rewrite Nat.add_assoc. }
    destruct (IH env1 k Hf1) as (env' & ss & Hms & Hl & Hall & Hg' & Hf' & Hcs).
    exists env', (Tester.mkServer None [] names :: ss). cbn [make_servers]. unfold makeServer. rewrite Hm.
    cbn [mbind option_bind]. rewrite Hms. cbn [mbind option_bind]. split; [done|]. split; [simpl; lia|].
    split; [constructor; [simpl; unfold zlen; lia|done]|]. split; [by apply (grown_trans env env1)|]. split; [done|].
    constructor; [|done]. simpl. intros j e Hj. rewrite (gr_conns _ _ _ Hg').
    + by rewrite (Hc j e Hj).
    + intros Hin. apply (grown_fresh_names _ _ _ _ Hf1 Hg' e Hin). apply (gr_ends _ _ _ Hg). right.
      by eapply list_elem_of_lookup_2.
Qed.

Definition v_down : View := mkView (fun _ => false) (fun _ _ => false).

Lemma makeSrvGrp_refines env g n k :
  0 <= n -> fresh env (Z.to_nat n * Z.to_nat n + k) ->
  exists env' sg, makeSrvGrp env g n = Some (env', sg) /\ represents n env' sg v_down /\ fresh env' k /\ gid sg = g.
Proof.
  intros Hn Hf. destruct (make_servers_spec g n (Z.to_nat n) Hn env k Hf) as (env' & ss & Hms & Hl & Hall & Hg & Hf' & Hcs).
  unfold makeSrvGrp. rewrite Hms. cbn [mbind option_bind]. eexists env', _. split; [done|].
  assert (Hnd : NoDup (mjoin (endNames <$> ss))).
  { destruct Hf as (Hnd & _). rewrite (gr_names _ _ _ Hg) in Hnd. by apply NoDup_app in Hnd as [? _]. }
  assert (Hend : forall i j e, endName (mkServerGrp ss (ServerName g <$> ints n) g (replicate (Z.to_nat n) false)) i j = Some e ->
            exists s, 0 <= i /\ 0 <= j /\ ss !! Z.to_nat i = Some s /\ endNames s !! Z.to_nat j = Some e).
  { intros i j e He. unfold endName in He. simpl in He. apply bind_Some in He as (s & Hs & He).
    apply slice_get_Some in Hs as [? ?], He as [? ?]. by exists s. }
  split; [|done]. split; simpl.
  - unfold zlen. lia.
  - unfold zlen. rewrite length_replicate. lia.
  - done.
  - intros i j i' j' e (s & ? & ? & Hs & He)%Hend (s' & ? & ? & Hs' & He')%Hend.
    destruct (NoDup_mjoin_lookup _ Hnd (Z.to_nat i) (Z.to_nat i') (endNames s) (endNames s') (Z.to_nat j) (Z.to_nat j') e);
      [by rewrite list_lookup_fmap, Hs|done|by rewrite list_lookup_fmap, Hs'|done|]. lia.
  - intros i j e (s & ? & ? & Hs & He)%Hend. split.
    + apply (gr_ends _ _ _ Hg). right. apply list_elem_of_join. exists (endNames s).
      split; [by eapply list_elem_of_lookup_2|]. apply list_elem_of_fmap. exists s. split; [done|]. by eapply list_elem_of_lookup_2.
    + rewrite Forall_forall in Hcs. rewrite (Hcs s ltac:(by eapply list_elem_of_lookup_2) _ _ He). do 3 f_equal. lia.
  - intros i Hi. unfold IsConnected. simpl. apply slice_get_Some. unfold range in Hi. split; [lia|].
    apply lookup_replicate. split; [done|lia].
  - intros i j e (s & ? & ? & Hs & He)%Hend. rewrite (gr_enabled _ _ _ Hg), decide_True; [done|].
    apply list_elem_of_join. exists (endNames s).
    split; [by eapply list_elem_of_lookup_2|]. apply list_elem_of_fmap. exists s. split; [done|]. by eapply list_elem_of_lookup_2.
Qed.
(** ** Links follow the connections *)

Definition balanced n v : Prop := forall a b, range n a -> range n b -> link v a b = up v a && up v b.

Lemma ints_range n : Forall (range n) (ints n).
Proof. apply Forall_forall. intros i. by rewrite ints_elem. Qed.

Lemma balanced_connect n i v : range n i -> balanced n v -> balanced n (v_connect i (ints n) v).
Proof.
  intros Hi Hb a b Ha Hb'. pose proof (proj2 (ints_elem n a) Ha) as Hia. pose proof (proj2 (ints_elem n b) Hb') as Hib.
  simpl. unfold set_up.
  specialize (Hb a b Ha Hb').
  destruct (decide (a = i)) as [->|], (decide (b = i)) as [->|]; (destruct (decide _) as [Hc|Hc]; [|try tauto]); simpl.
  - done.
  - destruct Hc as [(_ & _ & ->)|(? & _)]; done.
  - destruct (up v b) eqn:Hu; [tauto|]. by rewrite Hb, andb_false_r.
  - destruct Hc as [(? & _)|(_ & _ & ->)]; done.
  - destruct (up v a) eqn:Hu; [tauto|]. by rewrite Hb.
  - destruct Hc as [(? & _)|(? & _)]; done.
Qed.

Lemma balanced_disconnect n i v : range n i -> balanced n v -> balanced n (v_disconnect i (ints n) v).
Proof.
  intros Hi Hb a b Ha Hb'. pose proof (proj2 (ints_elem n a) Ha) as Hia. pose proof (proj2 (ints_elem n b) Hb') as Hib.
  simpl. unfold set_up.
  destruct (decide (a = i)) as [->|], (decide (b = i)) as [->|]; case_decide as Hc;
    simpl; rewrite ?andb_false_r; try tauto. by apply Hb.
Qed.

Lemma balanced_start n i v : range n i -> up v i = false -> balanced n v -> balanced n (v_start i v).
Proof.
  intros Hi Hu Hb a b Ha Hb'. simpl. destruct (decide (a = i)) as [->|]; [by rewrite Hu|by apply Hb].
Qed.

(** [start] leaves all servers registered, with no link up. *)
Definition registered env sg i : Prop :=
  exists p, servers (e_net env) !! ServerName (gid sg) i = Some (Some p).

Lemma start_run n (ids : list Z) : forall env sg k,
  represents n env sg v_down -> Forall (range n) ids -> fresh env (length ids * Z.to_nat n + k) ->
  exists env' sg', run_steps (fun '(env, sg) i => StartServer mks env sg i) (env, sg) ids = Some (env', sg')
    /\ represents n env' sg' v_down /\ fresh env' k /\ gid sg' = gid sg
    /\ forall i, i ∈ ids \/ registered env sg i -> registered env' sg' i.
Proof.
  induction ids as [|i ids IH]; intros env sg k Hr Hids Hf.
  - exists env, sg. repeat (split; [done|]). intros i [?|?]; [set_solver|done].
  - apply Forall_cons in Hids as [Hi Hids]. simpl in Hf.
    destruct (StartServer_refines n env sg v_down i (length ids * Z.to_nat n + k) Hr Hi) as (env1 & sg1 & Hs & Hr1 & Hf1 & Hg1 & Hsv).
    { by rewrite Nat.add_assoc. }
    destruct (IH env1 sg1 k) as (env' & sg' & Hrun & Hr' & Hf' & Hg' & Hreg); [|done|done|].
    { eapply represents_ext; [|exact Hr1]. split; [done|]. intros a b _ _. simpl. by case_decide. }
    exists env', sg'. rewrite run_steps_cons, Hs. cbn [mbind option_bind]. repeat (split; [done || congruence|]).
    assert (Hnow : forall a, a = i \/ registered env sg a -> registered env1 sg1 a).
    { intros a Ha. unfold registered. rewrite Hg1, Hsv.
      destruct (decide (ServerName (gid sg) i = ServerName (gid sg) a)) as [<-|Hne]; [rewrite lookup_insert_eq; eauto|].
      rewrite lookup_insert_ne by done. destruct Ha as [->|Ha]; [done|exact Ha]. }
    intros a [Ha|Ha]; [|by apply Hreg; right; apply Hnow; right].
    apply elem_of_cons in Ha as [->|Ha]; [by apply Hreg; right; apply Hnow; left|by apply Hreg; left].
Qed.

Lemma connect_run n (ids : list Z) : forall env sg v,
  represents n env sg v -> balanced n v -> Forall (range n) ids ->
  exists env' sg' v', run_steps (fun '(env, sg) i => ConnectOne env sg i) (env, sg) ids = Some (env', sg')
    /\ represents n env' sg' v' /\ balanced n v' /\ same_net env env' /\ gid sg' = gid sg
    /\ forall a, up v' a = if decide (a ∈ ids) then true else up v a.
Proof.
  induction ids as [|i ids IH]; intros env sg v Hr Hb Hids.
  - exists env, sg, v. repeat (split; [done|]). intros a. by rewrite decide_False by set_solver.
  - apply Forall_cons in Hids as [Hi Hids].
    destruct (connect_refines n env sg v i (ints n) Hr Hi (ints_range n)) as (env1 & sg1 & Hs & Hr1 & Hn1 & _ & Hg1).
    destruct (IH env1 sg1 _ Hr1 (balanced_connect n i v Hi Hb) Hids) as (env' & sg' & v' & Hrun & Hr' & Hb' & Hn' & Hg' & Hu').
    assert (Hone : ConnectOne env sg i = Some (env1, sg1)).
    { unfold ConnectOne, all, N. by rewrite (rp_srvs _ _ _ _ Hr). }
    exists env', sg', v'. rewrite run_steps_cons, Hone. cbn [mbind option_bind]. split; [done|]. split; [done|].
    split; [done|].
    split; [by etrans|]. split; [congruence|]. intros a. rewrite Hu'. simpl. unfold set_up.
    pose proof (elem_of_cons ids a i) as Hcons. repeat case_decide; tauto.
Qed.

(** A group that was made and started. *)
Definition make_started env (g n : Z) : option (Env (Svc:=Svc) * ServerGrp (Svc:=Svc)) :=
  '(env, sg) ← makeSrvGrp env g n;
  StartServers mks env sg.

Definition v_all_up : View := mkView (fun _ => true) (fun _ _ => true).

Lemma started env g n k :
  0 <= n -> fresh env (2 * (Z.to_nat n * Z.to_nat n) + k) ->
  exists env' sg, make_started env g n = Some (env', sg) /\ represents n env' sg v_all_up /\ fresh env' k
    /\ gid sg = g /\ forall i, range n i -> registered env' sg i.
Proof.
  intros Hn Hf. destruct (makeSrvGrp_refines env g n (Z.to_nat n * Z.to_nat n + k) Hn) as (env1 & sg1 & Hm & Hr1 & Hf1 & Hg1).
  { replace (Z.to_nat n * Z.to_nat n + (Z.to_nat n * Z.to_nat n + k))%nat with (2 * (Z.to_nat n * Z.to_nat n) + k)%nat by lia. done. }
  destruct (start_run n (ints n) env1 sg1 k Hr1 (ints_range n)) as (env2 & sg2 & Hs & Hr2 & Hf2 & Hg2 & Hreg).
  { unfold ints. rewrite length_seqZ. done. }
  destruct (connect_run n (ints n) env2 sg2 v_down Hr2) as (env3 & sg3 & v3 & Hc & Hr3 & Hb3 & Hn3 & Hg3 & Hu3);
    [done|apply ints_range|].
  exists env3, sg3. unfold make_started. rewrite Hm. cbn [mbind option_bind]. unfold StartServers, start, all, N.
  rewrite (rp_srvs _ _ _ _ Hr1), Hs. cbn [mbind option_bind]. unfold ConnectAll, all, N.
  rewrite (rp_srvs _ _ _ _ Hr2). split; [done|].
  assert (Hup : forall a, range n a -> up v3 a = true).
  { intros a Ha. rewrite Hu3, decide_True; [done|]. by apply ints_elem. }
  split.
  { eapply represents_ext; [|exact Hr3]. split; [done|]. intros a b Ha Hb. rewrite Hb3 by done. by rewrite !Hup. }
  destruct Hn3 as (He & _ & Hsv & Hnm & _). split.
  { destruct Hf2 as (? & ? & ?). split; [by rewrite Hnm|]. rewrite Hnm, He. done. }
  split; [congruence|]. intros i Hi. unfold registered. rewrite Hsv, Hg3. apply Hreg. left. by apply ints_elem.
Qed.
(** *** Operations on single servers *)

Inductive GrpOp := OShutdown (i : Z) | OStart (i : Z) | OConnect (i : Z) | ODisconnect (i : Z).

Definition op_server (op : GrpOp) : Z :=
  match op with OShutdown i | OStart i | OConnect i | ODisconnect i => i end.

Abbreviation Group := (Env (Svc:=Svc) * ServerGrp (Svc:=Svc))%type.

Definition grp_step (st : Group) (op : GrpOp) : option Group :=
  match op with
  | OShutdown i => ShutdownServer st.1 st.2 i
  | OStart i => StartServer mks st.1 st.2 i
  | OConnect i => ConnectOne st.1 st.2 i
  | ODisconnect i => DisconnectAll st.1 st.2 i
  end.

(** A server is started again only after it was shut down or disconnected. *)
Fixpoint ops_ok (st : Group) (ops : list GrpOp) : bool :=
  match ops with
  | [] => true
  | op :: ops =>
      match op with OStart i => bool_decide (IsConnected st.2 i = Some false) | _ => true end
      && match grp_step st op with Some st' => ops_ok st' ops | None => true end
  end.

Lemma ops_ok_cons st op ops :
  ops_ok st (op :: ops) = true ->
  (forall i, op = OStart i -> IsConnected st.2 i = Some false)
  /\ forall st', grp_step st op = Some st' -> ops_ok st' ops = true.
Proof.
  cbn [ops_ok]. intros [H1 H2]%andb_true_iff. split; [|by intros st' Hs; rewrite Hs in H2].
  intros i ->. by apply bool_decide_eq_true in H1.
Qed.

Definition starts (ops : list GrpOp) : nat :=
  length (filter (fun op => is_Some (match op with OStart i => Some i | _ => None end)) ops).

Lemma same_net_fresh env env' k : same_net env env' -> fresh env k -> fresh env' k.
Proof. intros (He & _ & _ & Hn & _) (? & ? & ?). unfold fresh. rewrite Hn, He. done. Qed.

Lemma ShutdownServer_refines n env sg v i :
  represents n env sg v -> range n i ->
  exists env' sg', ShutdownServer env sg i = Some (env', sg')
    /\ represents n env' sg' (v_disconnect i (ints n) v) /\ (forall k, fresh env k -> fresh env' k).
Proof.
  intros Hr Hi. destruct (disconnect_refines n env sg v i (ints n) Hr Hi (ints_range n)) as (env1 & sg1 & Hd & Hr1 & Hn1 & Hs1 & Hg1).
  destruct (server_ends n env1 sg1 _ i Hr1 Hi) as (s & Hs & Hout).
  set (s' := Tester.mkServer (Svc:=Svc) (Persister_Copy <$> saved s) [] (endNames s)).
  assert (Hss : slice_set (srvs sg1) i s' = Some (<[Z.to_nat i := s']> (srvs sg1))).
  { apply slice_set_Some. rewrite (rp_srvs _ _ _ _ Hr1). exact Hi. }
  eexists _, _. split; [|split].
  - unfold ShutdownServer, all, N. rewrite (rp_srvs _ _ _ _ Hr), Hd. cbn [mbind option_bind]. unfold net_do.
    cbn [admin mbind option_bind]. rewrite Hs. cbn [mbind option_bind]. unfold shutdownServer. fold s'.
    rewrite Hss. reflexivity.
  - pose proof (fun a b => endName_start sg1 i s' _ a b Hss) as Hend.
    assert (Hsame : forall a b, endName (set_srvs sg1 (<[Z.to_nat i := s']> (srvs sg1))) a b = endName sg1 a b).
    { intros a b. rewrite Hend. destruct (decide (a = i)) as [->|]; [apply Hout|done]. }
    pose proof Hr1 as []. split; simpl; try done.
    + by autorewrite with zlen.
    + apply Forall_insert; [done|]. simpl. rewrite Forall_forall in rp_lens0. apply rp_lens0.
      apply slice_get_Some in Hs as [_ Hs]. by eapply list_elem_of_lookup_2.
    + intros a b a' b' e. rewrite !Hsame. apply rp_inj0.
    + intros a b e. rewrite Hsame. apply rp_ends0.
    + intros a b e. rewrite Hsame. apply rp_link0.
  - intros k Hf. pose proof (same_net_fresh _ _ k Hn1 Hf) as Hf1. exact Hf1.
Qed.

Lemma grp_step_balanced n st op v k :
  represents n st.1 st.2 v -> balanced n v -> range n (op_server op) ->
  (forall i, op = OStart i -> IsConnected st.2 i = Some false) ->
  fresh st.1 (starts [op] * Z.to_nat n + k) ->
  exists st' v', grp_step st op = Some st' /\ represents n st'.1 st'.2 v' /\ balanced n v' /\ fresh st'.1 k.
Proof.
  destruct st as [env sg]. cbn [fst snd]. intros Hr Hb Hi Hok Hf. destruct op as [i|i|i|i]; cbn [op_server] in Hi; simpl in Hf.
  - destruct (ShutdownServer_refines n env sg v i Hr Hi) as (env' & sg' & Hs & Hr' & Hf'). exists (env', sg'), (v_disconnect i (ints n) v).
    split; [exact Hs|]. split; [done|]. split; [by apply balanced_disconnect|auto].
  - destruct (StartServer_refines n env sg v i k Hr Hi) as (env' & sg' & Hs & Hr' & Hf' & _); [by rewrite Nat.add_0_r in Hf|].
    exists (env', sg'), (v_start i v). split; [exact Hs|]. split; [done|]. split; [|done]. apply balanced_start; [done| |done].
    pose proof (Hok i eq_refl) as Hu. rewrite (rp_up _ _ _ _ Hr i Hi) in Hu. congruence.
  - destruct (connect_refines n env sg v i (ints n) Hr Hi (ints_range n)) as (env' & sg' & Hs & Hr' & Hn & _).
    exists (env', sg'), (v_connect i (ints n) v). split; [unfold grp_step, ConnectOne, all, N; simpl; by rewrite (rp_srvs _ _ _ _ Hr)|].
    split; [done|]. split; [by apply balanced_connect|by apply (same_net_fresh env)].
  - destruct (disconnect_refines n env sg v i (ints n) Hr Hi (ints_range n)) as (env' & sg' & Hs & Hr' & Hn & _).
    exists (env', sg'), (v_disconnect i (ints n) v).
    split; [unfold grp_step, DisconnectAll, all, N; simpl; by rewrite (rp_srvs _ _ _ _ Hr)|].
    split; [done|]. split; [by apply balanced_disconnect|by apply (same_net_fresh env)].
Qed.

Lemma grp_run_balanced n (ops : list GrpOp) : forall st v,
  represents n st.1 st.2 v -> balanced n v -> Forall (fun op => range n (op_server op)) ops ->
  ops_ok st ops = true -> fresh st.1 (starts ops * Z.to_nat n) ->
  exists st' v', run_steps grp_step st ops = Some st' /\ represents n st'.1 st'.2 v' /\ balanced n v'.
Proof.
  induction ops as [|op ops IH]; intros st v Hr Hb Hrange Hok Hf; [by exists st, v|].
  apply Forall_cons in Hrange as [Hi Hrange]. apply ops_ok_cons in Hok as [Hop Hok].
  assert (Hst : starts (op :: ops) = (starts [op] + starts ops)%nat).
  { unfold starts. rewrite <- length_app, <- filter_app. done. }
  destruct (grp_step_balanced n st op v (starts ops * Z.to_nat n) Hr Hb Hi Hop) as (st1 & v1 & Hs & Hr1 & Hb1 & Hf1).
  { rewrite <- Nat.mul_add_distr_r, <- Hst. done. }
  destruct (IH st1 v1 Hr1 Hb1 Hrange (Hok st1 Hs) Hf1) as (st' & v' & Hrun & Hr' & Hb').
  exists st', v'. rewrite run_steps_cons, Hs. done.
Qed.
End Links.

(** Two servers can talk: the end of [i] to [j] leads to the registered server [j]. *)
Definition reaches {Svc} (env : Env (Svc:=Svc)) (sg : ServerGrp (Svc:=Svc)) (i j : Z) (p : nat) : Prop :=
  exists e, endName sg i j = Some e /\ readEndnameInfo (e_net env) e = Some (ServerName (gid sg) j, p).

Lemma reaches_link {Svc} n (env : Env (Svc:=Svc)) sg v i j :
  represents n env sg v -> range n i -> range n j ->
  forall p, reaches env sg i j p
    <-> link v i j = true /\ servers (e_net env) !! ServerName (gid sg) j = Some (Some p).
Proof.
  intros Hr Hi Hj p. destruct (endName_total n env sg v i j Hr Hi Hj) as [e He].
  destruct (rp_ends _ _ _ _ Hr _ _ _ He) as [_ Hc]. pose proof (rp_link _ _ _ _ Hr _ _ _ He) as Hl.
  unfold reaches, readEndnameInfo. split.
  - intros (e' & He' & Hinfo). simplify_eq. rewrite Hl, Hc in Hinfo. cbn [mjoin option_join mbind option_bind] in Hinfo.
    destruct (link v i j); [|done]. split; [done|]. destruct (servers (e_net env) !! _) as [[q|]|]; simplify_eq/=. done.
  - intros [Hlink Hs]. exists e. split; [done|]. by rewrite Hl, Hlink, Hc; simpl; rewrite Hs.
Qed.

(** C28.  Links follow connections.  A group of [n] servers is made and started, and then servers
    are shut down, started again (while not connected), connected and disconnected, one at a
    time, as often as there are new names for ends.  Nothing fails, and at any time server [i]
    reaches server [j] exactly if both are connected and [j] is registered with the network. *)
Theorem group_links_follow_connected {Svc} (mks : list string -> Z -> Z -> Persister -> list Svc)
    (env : Env (Svc:=Svc)) (g n : Z) (ops : list GrpOp) :
  0 <= n -> Forall (fun op => range n (op_server op)) ops ->
  fresh env (2 * (Z.to_nat n * Z.to_nat n) + starts ops * Z.to_nat n) ->
  exists env1 sg1, make_started mks env g n = Some (env1, sg1)
    /\ (forall i, range n i -> IsConnected sg1 i = Some true /\ registered env1 sg1 i)
    /\ (ops_ok mks (env1, sg1) ops = true ->
        exists env' sg', run_steps (grp_step mks) (env1, sg1) ops = Some (env', sg')
          /\ forall i j p, range n i -> range n j ->
             (reaches env' sg' i j p
              <-> IsConnected sg' i = Some true /\ IsConnected sg' j = Some true
                  /\ servers (e_net env') !! ServerName (gid sg') j = Some (Some p))).
Proof.
  intros Hn Hops Hf. destruct (started mks env g n _ Hn Hf) as (env1 & sg1 & Hm & Hr & Hf1 & _ & Hreg).
  exists env1, sg1. split; [done|]. split; [intros i Hi; split; [by rewrite (rp_up _ _ _ _ Hr i Hi)|auto]|].
  intros Hok. destruct (grp_run_balanced mks n ops (env1, sg1) v_all_up Hr) as ([env' sg'] & v' & Hrun & Hr' & Hb');
    [by intros a b _ _|done|done|done|].
  cbn [fst snd] in Hr'. exists env', sg'. split; [done|]. intros i j p Hi Hj.
  rewrite (reaches_link n env' sg' v' i j Hr' Hi Hj p).
  rewrite (Hb' i j Hi Hj), (rp_up _ _ _ _ Hr' i Hi), (rp_up _ _ _ _ Hr' j Hj), andb_true_iff.
  split; [intros [[-> ->] ?]; done|]. intros ([= ->] & [= ->] & ?). done.
Qed.

(** A test starts with all servers of group 0 connected, on a network as reliable as asked for. *)
Theorem MakeConfig_starts {Svc} (mks : list string -> Z -> Z -> Persister -> list Svc) (names : list string)
    (n : Z) (reliably : bool) :
  0 <= n -> NoDup names -> (2 * (Z.to_nat n * Z.to_nat n) <= length names)%nat ->
  exists env cfg sg, MakeConfig mks names n reliably = Some (env, cfg) /\ cfg_groups cfg = {[GRP0 := sg]}
    /\ reliable (e_net env) = reliably
    /\ forall i j, range n i -> range n j -> exists p, reaches env sg i j p.
Proof.
  intros Hn Hnd Hlen. unfold MakeConfig, MakeGroupStart, MakeGroup.
  destruct (started mks (mkEnv MakeNetwork names 0 []) GRP0 n 0 Hn) as (env & sg & Hm & Hr & _ & _ & Hreg).
  { split; [done|]. simpl. split; [set_solver|lia]. }
  unfold make_started in Hm. destruct (makeSrvGrp _ GRP0 n) as [[env1 sg1]|]; [|done]. cbn [mbind option_bind] in *.
  rewrite lookup_insert_eq. cbn [mbind option_bind]. rewrite Hm. cbn [mbind option_bind]. eexists _, _, sg.
  split; [done|]. split; [simpl; unfold newGroups; by rewrite insert_insert_eq, insert_empty|]. split; [done|].
  intros i j Hi Hj. destruct (Hreg j Hj) as [p Hp]. exists p.
  apply (reaches_link n env sg v_all_up i j Hr Hi Hj). done.
Qed.

(** Three servers; server 1 is shut down, server 0 goes off the net, server 1 comes back. *)
Definition end_names (k : nat) : list string := (fun i => Sprint (Z.of_nat i)) <$> seq 0 k.
Definition new_env (k : nat) : Env (Svc:=unit) := mkEnv MakeNetwork (end_names k) 0 [].
Definition no_services (_ : list string) (_ _ : Z) (_ : Persister) : list unit := [].

Lemma fresh_new_env k : fresh (new_env k) k.
Proof.
  split; [|split]; simpl.
  - unfold end_names. apply NoDup_fmap_2, NoDup_seq. intros i j Heq. apply Sprint_inj in Heq. lia.
  - set_solver.
  - unfold end_names. by rewrite length_fmap, length_seq.
Qed.

Definition some_ops : list GrpOp := [OShutdown 1; ODisconnect 0; OStart 1; OConnect 1].

Lemma group_links_follow_connected_witness :
  exists env' sg', (st ← make_started no_services (new_env 21) 0 3; run_steps (grp_step no_services) st some_ops)
                   = Some (env', sg')
    /\ reaches env' sg' 1 2 2 /\ ~ reaches env' sg' 0 1 3 /\ reaches env' sg' 2 1 3.
Proof.
  destruct (group_links_follow_connected no_services (new_env 21) 0 3 some_ops) as (env1 & sg1 & Hm & _ & Hall).
  - lia.
  - unfold range. repeat (apply Forall_cons_2; [simpl; lia|]). apply Forall_nil_2.
  - apply fresh_new_env.
  - assert (Hok : (st ← make_started no_services (new_env 21) 0 3; Some (ops_ok no_services st some_ops)) = Some true)
      by (vm_compute; reflexivity).
    rewrite Hm in Hok. injection Hok as Hok. destruct (Hall Hok) as (env' & sg' & Hrun & Hreach).
    assert (Htotal : (st ← make_started no_services (new_env 21) 0 3; run_steps (grp_step no_services) st some_ops)
              = Some (env', sg')) by (rewrite Hm; exact Hrun).
    assert (Hsee : forall {A} (f : Env (Svc:=unit) * ServerGrp (Svc:=unit) -> A) x,
      (f <$> (st ← make_started no_services (new_env 21) 0 3; run_steps (grp_step no_services) st some_ops)) = Some x ->
      f (env', sg') = x) by (intros A f x Hx; rewrite Htotal in Hx; by injection Hx).
    assert (H0 : IsConnected sg' 0 = Some false) by (apply (Hsee _ (fun st => IsConnected st.2 0)); vm_compute; reflexivity).
    assert (H1 : IsConnected sg' 1 = Some true) by (apply (Hsee _ (fun st => IsConnected st.2 1)); vm_compute; reflexivity).
    assert (H2 : IsConnected sg' 2 = Some true) by (apply (Hsee _ (fun st => IsConnected st.2 2)); vm_compute; reflexivity).
    assert (S1 : servers (e_net env') !! ServerName (gid sg') 1 = Some (Some 3%nat))
      by (apply (Hsee _ (fun st => servers (e_net st.1) !! ServerName (gid st.2) 1)); vm_compute; reflexivity).
    assert (S2 : servers (e_net env') !! ServerName (gid sg') 2 = Some (Some 2%nat))
      by (apply (Hsee _ (fun st => servers (e_net st.1) !! ServerName (gid st.2) 2)); vm_compute; reflexivity).
    exists env', sg'. split; [exact Htotal|]. rewrite !Hreach by (unfold range; lia). rewrite H0, H1, H2, S1, S2.
    split; [split; [reflexivity|split; reflexivity]|]. split; [intros (Hf & _); discriminate Hf|].
    split; [reflexivity|split; reflexivity].
Defined.

(** C27.  A partition isolates the leader in a minority.  In a group of an odd number [n >= 3] of
    servers that are registered with the network, whatever their links were, [MakePartition] with
    leader [l] gives two parts that hold every server once, the first more than half of them,
    the second the leader; and after [Partition] server [i] reaches server [j] exactly if they are
    in the same part.  With an even number of servers, the second part names server 0 as well. *)
Theorem partition_isolates_leader {Svc} (env : Env (Svc:=Svc)) (sg : ServerGrp (Svc:=Svc)) (v : View) (n l : Z) :
  represents n env sg v -> 2 <= n -> range n l ->
  (forall j, range n j -> registered env sg j) ->
  exists p1 p2, MakePartition sg l = Some (p1, p2) /\ n < 2 * zlen p1 /\ l ∈ p2
    /\ p1 ++ p2 ≡ₚ (if n mod 2 =? 1 then ints n else 0 :: ints n)
    /\ (n mod 2 = 1 ->
        exists env' sg', Partition env sg p1 p2 = Some (env', sg')
          /\ forall i j, range n i -> range n j ->
             ((exists p, reaches env' sg' i j p) <-> same_side p1 p2 i j)).
Proof.
  intros Hr Hn Hl Hreg. destruct (MakePartition_spec sg n l) as (p1 & p2 & Hm & Hz1 & Hz2 & Hlast & Hparts);
    [apply Hr|done|done|]. exists p1, p2. split; [done|].
  pose proof (Z.div_mod n 2 ltac:(lia)) as Hdm. pose proof (Z.mod_pos_bound n 2 ltac:(lia)) as Hmod.
  assert (Hperm : p1 ++ p2 ≡ₚ (if n mod 2 =? 1 then ints n else 0 :: ints n)).
  { rewrite Hparts. pose proof (others_perm n l Hl) as Ho. destruct (Z.eqb_spec (n mod 2) 1) as [He|He].
    - rewrite He. exact Ho.
    - replace (n mod 2) with 0 by lia. simpl. etrans; [symmetry; apply Permutation_middle|]. by constructor. }
  split; [lia|]. split; [by eapply last_Some_elem_of|]. split; [done|]. intros Hodd.
  rewrite Hodd in Hperm. simpl in Hperm.
  assert (Hnd : NoDup (p1 ++ p2)) by (rewrite Hperm; apply NoDup_ints). apply NoDup_app in Hnd as (_ & Hdis & _).
  assert (Hin : forall a, a ∈ p1 \/ a ∈ p2 <-> range n a) by (intros a; by rewrite <- elem_of_app, Hperm, ints_elem).
  destruct (Partition_refines n env sg v p1 p2 Hr) as (env' & sg' & Hp & Hr' & Hn' & _ & Hg').
  - apply Forall_forall. intros a Ha. apply Hin. by left.
  - apply Forall_forall. intros a Ha. apply Hin. by right.
  - done.
  - intros a. by rewrite Hin.
  - exists env', sg'. split; [done|]. intros i j Hi Hj. destruct Hn' as (_ & _ & Hsv & _).
    destruct (Hreg j Hj) as (p & Hp'). unfold registered in Hp'. rewrite <- Hsv, <- Hg' in Hp'.
    split.
    + intros (q & Hq). apply (reaches_link n env' sg' _ i j Hr' Hi Hj) in Hq as [Hq _].
      by apply bool_decide_eq_true in Hq.
    + intros Hside. exists p. apply (reaches_link n env' sg' _ i j Hr' Hi Hj). split; [|done].
      simpl. by apply bool_decide_eq_true.
Qed.

Lemma partition_isolates_leader_witness :
  exists env sg env' sg', make_started no_services (new_env 18) 0 3 = Some (env, sg)
    /\ MakePartition sg 1 = Some ([0; 2], [1]) /\ Partition env sg [0; 2] [1] = Some (env', sg')
    /\ (exists p, reaches env' sg' 0 2 p) /\ ~ (exists p, reaches env' sg' 1 2 p).
Proof.
  destruct (started no_services (new_env 18) 0 3 0) as (env & sg & Hm & Hr & _ & _ & Hreg);
    [lia|apply fresh_new_env|].
  destruct (partition_isolates_leader env sg v_all_up 3 1 Hr) as (p1 & p2 & Hp & _ & _ & _ & Hpart);
    [lia|unfold range; lia|exact Hreg|].
  assert (HpE : (st ← make_started no_services (new_env 18) 0 3; MakePartition st.2 1) = Some ([0; 2], [1]))
    by (vm_compute; reflexivity).
  rewrite Hm in HpE. cbn [mbind option_bind snd] in HpE. assert (p1 = [0; 2] /\ p2 = [1]) as [-> ->] by (split; congruence).
  destruct (Hpart eq_refl) as (env' & sg' & Hpa & Hreach). exists env, sg, env', sg'.
  split; [exact Hm|]. split; [exact HpE|]. split; [exact Hpa|].
  rewrite !Hreach by (unfold range; lia). unfold same_side.
  split; [left; split; repeat constructor|]. intros [[Hin _]|[_ Hin]].
  - apply elem_of_cons in Hin as [Hin|Hin]; [discriminate Hin|].
    apply list_elem_of_singleton in Hin. discriminate Hin.
  - apply list_elem_of_singleton in Hin. discriminate Hin.
Defined.
