(* ===== verification/TesterClients.v ===== *)
(** * The clients of a test: lec-2025/src/tester1/clnts.go

    What the clients of the clerks can reach: a client that may talk to a server has an enabled
    end to it, and deleting clients takes their ends off the network. *)

From S2P Require Import Prelude LabRpc Tester TesterProps.
Import LabRpc Tester.

Section Clients.
Context {Svc : Type}.
Implicit Types (env : Env (Svc:=Svc)) (e s : string) (p : nat) (c : Clnt) (C : gset nat) (h : list Clnt).

(** The order in which the ends of a client are visited. *)
Context (order : Clnt -> list (string * string)) (Horder : forall c, order c ≡ₚ map_to_list (c_ends c)).

(** ** Ends *)

(** The ends there were before. *)
Context (E0 : gset string).

(** [e] is the end of a client that is not deleted. *)
Definition end_of h C p s e : Prop := p ∈ C /\ exists c, h !! p = Some c /\ c_ends c !! s = Some e.

(** The ends of the clients are on the network and connected; those to servers a client may
    talk to are enabled, and in a test that never calls [ConnectTo] ([exact]) no others are. *)
Record clients_ok (exact : bool) env h C : Prop := {
  co_heap : forall p, p ∈ C -> is_Some (h !! p);
  co_end : forall p s e, end_of h C p s e ->
    e ∈ ends (e_net env) /\ connections (e_net env) !! e = Some (Some s);
  co_inj : forall p s p' s' e, end_of h C p s e -> end_of h C p' s' e -> p = p' /\ s = s';
  co_allowed : forall p c s e, p ∈ C -> h !! p = Some c -> c_ends c !! s = Some e ->
    (allowedL c s = true -> is_enabled (e_net env) e = true)
    /\ (exact = true -> is_enabled (e_net env) e = true -> allowedL c s = true);
  co_ends : forall e, e ∈ ends (e_net env) <-> e ∈ E0 \/ exists p s, end_of h C p s e;
  co_new : forall p s e, end_of h C p s e -> e ∉ E0;
}.

(** Only which ends are enabled may differ. *)
Definition same_ends env env' : Prop :=
  ends (e_net env') = ends (e_net env) /\ connections (e_net env') = connections (e_net env)
  /\ servers (e_net env') = servers (e_net env) /\ e_names env' = e_names env.

Lemma for_ends_spec (f : string -> option bool) : forall (l : list (string * string)) env, NoDup l.*2 ->
  exists env', for_ends env l f = Some env' /\ same_ends env env'
    /\ (forall s e, (s, e) ∈ l -> is_enabled (e_net env') e = default (is_enabled (e_net env) e) (f s))
    /\ (forall e, e ∉ l.*2 -> is_enabled (e_net env') e = is_enabled (e_net env) e).
Proof.
  unfold for_ends. induction l as [|[s e] l IH]; intros env Hnd.
  { exists env. split; [done|]. split; [done|]. split; [set_solver|done]. }
  cbn [fmap list_fmap snd] in *. apply NoDup_cons in Hnd as [Hnot Hnd]. rewrite run_steps_cons.
  assert (exists env1, match f s with Some yes => net_do env (Enable e yes) | None => Some env end = Some env1
    /\ same_ends env env1 /\ forall e', is_enabled (e_net env1) e'
         = if decide (e' = e) then default (is_enabled (e_net env) e) (f s) else is_enabled (e_net env) e')
    as (env1 & -> & (S1 & S2 & S3 & S4) & He1).
  { destruct (f s) as [yes|].
    - destruct (net_enable env e yes) as (env1 & Hd & (?&?&?&?&?&?) & He). by exists env1.
    - exists env. split; [done|]. split; [done|]. intros e'. simpl. by destruct (decide (e' = e)) as [->|]. }
  cbn [mbind option_bind]. destruct (IH env1 Hnd) as (env' & -> & (T1 & T2 & T3 & T4) & Hin & Hout).
  exists env'. split; [done|]. split; [repeat split; congruence|]. split.
  - intros s' e' [[= -> ->]|Hin']%elem_of_cons.
    + rewrite (Hout e Hnot), He1. by rewrite decide_True.
    + rewrite (Hin s' e' Hin'), He1. rewrite decide_False; [done|]. intros ->. apply Hnot.
      apply list_elem_of_fmap. by exists (s', e).
  - intros e' [Hne Hnot']%not_elem_of_cons. rewrite (Hout e' Hnot'), He1. by rewrite decide_False.
Qed.

Lemma order_ends c s e : (s, e) ∈ order c <-> c_ends c !! s = Some e.
Proof. rewrite Horder. apply elem_of_map_to_list. Qed.

Lemma order_names exact env h C p c :
  clients_ok exact env h C -> p ∈ C -> h !! p = Some c -> NoDup (order c).*2.
Proof.
  intros Hok Hp Hc. apply NoDup_fmap_2_strong; [|rewrite Horder; apply NoDup_map_to_list].
  intros [s e] [s' e'] H1%order_ends H2%order_ends Heq. simpl in Heq. subst e'.
  destruct (co_inj _ _ _ _ Hok p s p s' e) as [_ ->]; [by split; eauto|by split; eauto|done].
Qed.

(** The loops over the ends of a client, followed by an assignment to its [srvs]. *)
Lemma loop_ok exact exact' env h C p c (f : string -> option bool) (srvs : option (list string)) :
  clients_ok exact env h C -> p ∈ C -> h !! p = Some c -> (exact' = true -> exact = true) ->
  let c' := mkClnt (c_ends c) srvs in
  (forall s, match f s with
             | Some true => exact' = true -> allowedL c' s = true
             | Some false => allowedL c' s = false
             | None => (allowedL c' s = true -> allowedL c s = true)
                       /\ (exact' = true -> allowedL c s = true -> allowedL c' s = true)
             end) ->
  exists env', for_ends env (order c) f = Some env' /\ same_ends env env' /\ clients_ok exact' env' (<[p := c']> h) C.
Proof.
  intros Hok Hp Hc Hex c' Hf. destruct (for_ends_spec f (order c) env (order_names _ _ _ _ _ _ Hok Hp Hc))
    as (env' & Hrun & Hsame & Hin & Hout).
  exists env'. split; [done|]. split; [done|]. destruct Hsame as (Se & Sc & _ & _).
  assert (Hlen : (p < length h)%nat) by (by eapply lookup_lt_Some).
  assert (Hsub : forall q s e, end_of (<[p := c']> h) C q s e <-> end_of h C q s e).
  { intros q s e. unfold end_of. destruct (decide (q = p)) as [->|Hne].
    - rewrite list_lookup_insert_eq, Hc by done. split; intros (? & d & [= <-] & ?); eauto.
    - by rewrite list_lookup_insert_ne by done. }
  split.
  - intros q Hq. destruct (co_heap _ _ _ _ Hok q Hq) as [d Hd]. destruct (decide (q = p)) as [->|Hne].
    + rewrite list_lookup_insert_eq by done. by eexists.
    + rewrite list_lookup_insert_ne by done. by eexists.
  - intros q s e He%Hsub. rewrite Se, Sc. by apply (co_end _ _ _ _ Hok q).
  - intros q s q' s' e H1%Hsub H2%Hsub. by apply (co_inj _ _ _ _ Hok q s q' s' e).
  - intros q d s e Hq Hd He. destruct (decide (q = p)) as [->|Hne].
    + rewrite list_lookup_insert_eq in Hd by done. injection Hd as <-. simpl in He.
      rewrite (Hin s e) by (by apply order_ends). specialize (Hf s).
      destruct (co_allowed _ _ _ _ Hok p c s e Hp Hc He) as [Ha Hb].
      destruct (f s) as [[|]|]; simpl; [|rewrite Hf|]; naive_solver.
    + rewrite list_lookup_insert_ne in Hd by done. rewrite Hout.
      * destruct (co_allowed _ _ _ _ Hok q d s e Hq Hd He) as [Ha Hb]. split; [done|auto].
      * intros ([s' e'] & -> & Hin')%list_elem_of_fmap. apply order_ends in Hin'. simpl in *.
        destruct (co_inj _ _ _ _ Hok q s p s' e') as [? _]; [by split; eauto|by split; eauto|done].
  - intros e. rewrite Se, (co_ends _ _ _ _ Hok). by setoid_rewrite Hsub.
  - intros q s e He%Hsub. by apply (co_new _ _ _ _ Hok q s).
Qed.

(** ** Making ends and deleting clients *)

(** A client gets an end to [s]. *)
Lemma end_of_new h C p c s e :
  p ∈ C -> h !! p = Some c -> c_ends c !! s = None -> forall q t e',
  end_of (<[p := mkClnt (<[s := e]> (c_ends c)) (c_srvs c)]> h) C q t e'
  <-> (q = p /\ t = s /\ e' = e) \/ end_of h C q t e'.
Proof.
  intros Hp Hc Hs q t e'. assert (Hlt : (p < length h)%nat) by (by eapply lookup_lt_Some).
  unfold end_of. destruct (decide (q = p)) as [->|Hqp]; [|rewrite list_lookup_insert_ne by done; naive_solver].
  rewrite list_lookup_insert_eq, Hc by done. split.
  - intros (_ & d & [= <-] & He'). simpl in He'. apply lookup_insert_Some in He' as [[-> ->]|[_ He']]; eauto.
  - intros [(_ & -> & ->)|(_ & d & [= <-] & He')]; (split; [done|eexists; split; [done|]]; simpl);
      [apply lookup_insert_eq|]. rewrite lookup_insert_ne; [done|]. intros ->. congruence.
Qed.

Lemma makeEnd_ok exact env h C p c s k :
  clients_ok exact env h C -> p ∈ C -> h !! p = Some c -> fresh env (S k) ->
  exists env' c' e, Clnt_makeEnd env c s = Some (env', c', e) /\ clients_ok exact env' (<[p := c']> h) C
    /\ servers (e_net env') = servers (e_net env) /\ fresh env' k.
Proof.
  intros Hok Hp Hc Hfr. unfold Clnt_makeEnd. destruct (c_ends c !! s) as [e|] eqn:Es.
  { exists env, c, e. rewrite list_insert_id by done. split_and!; [done|done|done|].
    destruct Hfr as (? & ? & ?). split; [done|]. split; [done|lia]. }
  destruct Hfr as (Hnd & Hnew & Hlen). unfold Randstring. destruct (e_names env) as [|e names] eqn:En; [simpl in Hlen; lia|].
  assert (He : e ∉ ends (e_net env)) by (apply Hnew; left). apply NoDup_cons in Hnd as [Hne Hnd].
  cbn [mbind option_bind]. unfold net_do. cbn [e_net admin]. rewrite decide_False by done. cbn [mbind option_bind].
  eexists _, _, e. split; [done|]. split; [|split; [done|]].
  2:{ split; [done|]. simpl. split; [|simpl in Hlen; lia]. intros e' Hin. pose proof (Hnew e' ltac:(by right)). set_solver. }
  set (c' := mkClnt (<[s := e]> (c_ends c)) (c_srvs c)).
  assert (Hlt : (p < length h)%nat) by (by eapply lookup_lt_Some).
  pose proof (end_of_new h C p c s e Hp Hc Es) as Hsub. fold c' in Hsub.
  assert (Hold : forall q t e', end_of h C q t e' -> e' <> e).
  { intros q t e' He' ->. by apply He, (co_end _ _ _ _ Hok q t). }
  split; simpl.
  - intros q Hq. destruct (decide (q = p)) as [->|Hqp]; [rewrite list_lookup_insert_eq by done; by eexists|].
    rewrite list_lookup_insert_ne by done. by apply (co_heap _ _ _ _ Hok).
  - intros q t e' [(-> & -> & ->)|He']%Hsub; [split; [set_solver|apply lookup_insert_eq]|].
    pose proof (Hold q t e' He') as Hn. destruct (co_end _ _ _ _ Hok q t e' He') as [? ?].
    split; [set_solver|by rewrite !lookup_insert_ne by done].
  - intros q t q' t' e' [(-> & -> & ->)|H1]%Hsub [(-> & -> & He2)|H2]%Hsub; [done|..].
    + by apply Hold in H2.
    + subst. by apply Hold in H1.
    + by apply (co_inj _ _ _ _ Hok q t q' t' e').
  - intros q d t e' Hq Hd He'. unfold is_enabled. simpl. destruct (decide (e' = e)) as [->|Hn].
    + assert (Heo : end_of (<[p := c']> h) C q t e) by (split; eauto). apply Hsub in Heo as [(-> & -> & _)|Heo];
        [|by apply Hold in Heo]. rewrite list_lookup_insert_eq in Hd by done. injection Hd as <-.
      rewrite lookup_insert_eq. done.
    + rewrite !lookup_insert_ne by done.
      destruct (decide (q = p)) as [->|Hqp].
      * rewrite list_lookup_insert_eq in Hd by done. injection Hd as <-. simpl in He'.
        apply lookup_insert_Some in He' as [[-> ->]|[_ He']]; [done|]. by apply (co_allowed _ _ _ _ Hok p c t e').
      * rewrite list_lookup_insert_ne in Hd by done. by apply (co_allowed _ _ _ _ Hok q d t e').
  - intros e'. rewrite elem_of_union, elem_of_singleton, (co_ends _ _ _ _ Hok). split.
    + intros [->|[?|(q & t & ?)]]; [right; exists p, s|by left|right; exists q, t]; apply Hsub; auto.
    + intros [?|(q & t & [(-> & -> & ->)|?]%Hsub)]; eauto.
  - intros q t e' [(-> & -> & ->)|He']%Hsub; [|by apply (co_new _ _ _ _ Hok q t)].
    intros Hin. apply He, (co_ends _ _ _ _ Hok). by left.
Qed.

(** [remove] takes exactly the client's ends off the network. *)
Lemma remove_ends (l : list (string * string)) : forall env,
  NoDup l.*2 -> (forall e, e ∈ l.*2 -> e ∈ ends (e_net env)) ->
  exists env', Clnt_remove env l = Some env' /\ e_names env' = e_names env /\ servers (e_net env') = servers (e_net env)
    /\ (forall e, e ∈ ends (e_net env') <-> e ∈ ends (e_net env) /\ e ∉ l.*2)
    /\ forall e, e ∉ l.*2 -> is_enabled (e_net env') e = is_enabled (e_net env) e
         /\ connections (e_net env') !! e = connections (e_net env) !! e.
Proof.
  unfold Clnt_remove. induction l as [|[s e] l IH]; intros env Hnd Hin.
  { exists env. split_and!; [done|done|done| |done]. intros e. set_solver. }
  cbn [fmap list_fmap snd] in *. apply NoDup_cons in Hnd as [Hnot Hnd]. rewrite run_steps_cons.
  set (env1 := set_net env (set_ends (e_net env) (ends (e_net env) ∖ {[e]}) (delete e (enabled (e_net env)))
                 (delete e (connections (e_net env))))).
  assert (H1 : net_do env (DeleteEnd e) = Some env1).
  { unfold net_do. cbn [admin]. by rewrite decide_True by (apply Hin; left). }
  rewrite H1. cbn [mbind option_bind].
  destruct (IH env1) as (env' & Hr & Hn & Hs & He & Ho); [done| |].
  { intros e' He'. simpl. assert (e' ∈ ends (e_net env)) by (apply Hin; by right). set_solver. }
  exists env'. split; [done|]. split; [done|]. split; [done|]. split.
  - intros e'. rewrite He. simpl. set_solver.
  - intros e' [Hne Hn']%not_elem_of_cons. destruct (Ho e' Hn') as [-> ->]. unfold is_enabled. simpl.
    by rewrite !lookup_delete_ne by done.
Qed.

Lemma delete_ok exact env h C p c k :
  clients_ok exact env h C -> p ∈ C -> h !! p = Some c -> fresh env k ->
  exists env', Clnt_remove env (order c) = Some env' /\ clients_ok exact env' h (C ∖ {[p]})
    /\ servers (e_net env') = servers (e_net env) /\ fresh env' k
    /\ forall e, e ∈ ends (e_net env') <-> e ∈ ends (e_net env) /\ ~ exists s, end_of h C p s e.
Proof.
  intros Hok Hp Hc (Hnd & Hnew & Hlen).
  assert (Hnames : forall e, e ∈ (order c).*2 <-> exists s, end_of h C p s e).
  { intros e. rewrite list_elem_of_fmap. split.
    - intros ([s e'] & -> & Hin%order_ends). exists s. split; [done|]. by exists c.
    - intros (s & _ & d & Hd & He). simplify_eq. exists (s, e). split; [done|]. by apply order_ends. }
  destruct (remove_ends (order c) env (order_names _ _ _ _ _ _ Hok Hp Hc)) as (env' & Hr & Hn & Hs & He & Ho).
  { intros e (s & Hs)%Hnames. by apply (co_end _ _ _ _ Hok p s). }
  assert (Hother : forall q s e, end_of h (C ∖ {[p]}) q s e -> end_of h C q s e /\ e ∉ (order c).*2).
  { intros q s e [[Hq Hqp]%elem_of_difference Hex]. assert (Hq' : end_of h C q s e) by done.
    split; [done|]. intros (s' & Hs')%Hnames. destruct (co_inj _ _ _ _ Hok q s p s' e Hq' Hs') as [-> _]. set_solver. }
  exists env'. split; [done|]. split; [|split; [done|split]].
  - split.
    + intros q [Hq _]%elem_of_difference. by apply (co_heap _ _ _ _ Hok).
    + intros q s e [He' Hno]%Hother. destruct (Ho e Hno) as [_ ->]. rewrite He.
      destruct (co_end _ _ _ _ Hok q s e He') as [? ?]. done.
    + intros q s q' s' e [H1 _]%Hother [H2 _]%Hother. by apply (co_inj _ _ _ _ Hok q s q' s' e).
    + intros q d s e Hq Hd He'. destruct (Hother q s e) as [_ Hno]; [by split; eauto|].
      destruct (Ho e Hno) as [-> _]. apply elem_of_difference in Hq as [Hq _]. by apply (co_allowed _ _ _ _ Hok q d s e).
    + intros e. rewrite He, (co_ends _ _ _ _ Hok). split.
      * intros [[?|(q & s & Hq)] Hno]; [by left|]. right. exists q, s. destruct (decide (q = p)) as [->|Hqp].
        { exfalso. apply Hno, Hnames. eauto. }
        destruct Hq as [Hq ?]. split; [set_solver|done].
      * intros [Hin|(q & s & [Hq Hno]%Hother)]; [split; [by left|]|split; [right; eauto|done]].
        intros (s & Hs')%Hnames. by apply (co_new _ _ _ _ Hok p s e).
    + intros q s e [Hq _]%Hother. by apply (co_new _ _ _ _ Hok q s).
  - split; [by rewrite Hn|]. rewrite Hn. split; [|done]. intros e Hin. rewrite He. intros [? _]. by apply (Hnew e).
  - intros e. by rewrite He, Hnames.
Qed.

(** ** What a test does with its clients *)

Inductive ClntOp :=
  | CMake (srvs : option (list string))
  | CCall (p : nat) (server : string)           (** [Call] makes the end it needs *)
  | CConnectAll (p : nat)
  | CConnectTo (p : nat) (srvs : option (list string))
  | CDisconnectAll (p : nat)
  | CDelete (p : nat).

Definition on_client (cs : Clnts) p (f : Clnt -> option (Env (Svc:=Svc) * Clnt)) : option (Env (Svc:=Svc) * Clnts) :=
  c ← cs_heap cs !! p;
  '(env, c) ← f c;
  Some (env, mkClnts (<[p := c]> (cs_heap cs)) (cs_clerks cs)).

Definition clnt_step (st : Env (Svc:=Svc) * Clnts) (op : ClntOp) : option (Env (Svc:=Svc) * Clnts) :=
  let '(env, cs) := st in
  match op with
  | CMake srvs => '(cs, _) ← MakeClientTo cs srvs; Some (env, cs)
  | CCall p s => on_client cs p (fun c => fst <$> Clnt_makeEnd env c s)
  | CConnectAll p => on_client cs p (fun c => Clnt_ConnectAll env c (order c))
  | CConnectTo p srvs => on_client cs p (fun c => Clnt_ConnectTo env c (order c) srvs)
  | CDisconnectAll p => on_client cs p (fun c => Clnt_DisconnectAll env c (order c))
  | CDelete p => DeleteClient env cs order p
  end.

(** Clients are used after they are made and before they are deleted; [made] is the number of
    clients made so far. *)
Fixpoint live C (made : nat) (ops : list ClntOp) : bool :=
  match ops with
  | [] => true
  | CMake _ :: ops => live ({[made]} ∪ C) (S made) ops
  | CDelete p :: ops => bool_decide (p ∈ C) && live (C ∖ {[p]}) made ops
  | (CCall p _ | CConnectAll p | CConnectTo p _ | CDisconnectAll p) :: ops => bool_decide (p ∈ C) && live C made ops
  end.

Definition calls (ops : list ClntOp) : nat :=
  sum_list_with (fun op => match op with CCall _ _ => 1 | _ => 0 end)%nat ops.

(** No [ConnectTo]. *)
Definition never_narrowed (ops : list ClntOp) : bool :=
  forallb (fun op => match op with CConnectTo _ _ => false | _ => true end) ops.

Lemma make_ok exact env h C srvs :
  clients_ok exact env h C -> (forall p, p ∈ C -> (p < length h)%nat) ->
  clients_ok exact env (h ++ [makeClntTo srvs]) ({[length h]} ∪ C).
Proof.
  intros Hok Hlt.
  assert (Hold : forall p c, p ∈ ({[length h]} ∪ C : gset nat) -> (h ++ [makeClntTo srvs]) !! p = Some c ->
    p ∈ C /\ h !! p = Some c \/ c_ends c = ∅).
  { intros p c [->%elem_of_singleton|Hp]%elem_of_union Hc.
    - rewrite list_lookup_middle in Hc by done. injection Hc as <-. by right.
    - left. split; [done|]. by rewrite lookup_app_l in Hc by auto. }
  assert (Hend : forall p s e, end_of (h ++ [makeClntTo srvs]) ({[length h]} ∪ C) p s e <-> end_of h C p s e).
  { intros p s e. split.
    - intros (Hp & c & Hc & He). destruct (Hold p c Hp Hc) as [[? ?]|Hn]; [by split; eauto|]. by rewrite Hn in He.
    - intros (Hp & c & Hc & He). split; [set_solver|]. exists c. split; [by apply lookup_app_l_Some|done]. }
  split.
  - intros p [->%elem_of_singleton|Hp]%elem_of_union; [rewrite list_lookup_middle by done; by eexists|].
    rewrite lookup_app_l by auto. by apply (co_heap _ _ _ _ Hok).
  - intros p s e He%Hend. by apply (co_end _ _ _ _ Hok p).
  - intros p s p' s' e H1%Hend H2%Hend. by apply (co_inj _ _ _ _ Hok p s p' s' e).
  - intros p c s e Hp Hc He. destruct (Hold p c Hp Hc) as [[Hp' Hc']|Hn]; [|by rewrite Hn in He].
    by apply (co_allowed _ _ _ _ Hok p c s e).
  - intros e. rewrite (co_ends _ _ _ _ Hok). by setoid_rewrite Hend.
  - intros p s e He%Hend. by apply (co_new _ _ _ _ Hok p s).
Qed.

Lemma fresh_same env env' k : same_ends env env' -> fresh env k -> fresh env' k.
Proof. intros (Se & _ & _ & Sn) (? & ? & ?). unfold fresh. by rewrite Se, Sn. Qed.

(** The state of the clients during a test. *)
Definition state_ok (exact : bool) (k made : nat) C (st : Env (Svc:=Svc) * Clnts) : Prop :=
  cs_clerks st.2 = Some C /\ length (cs_heap st.2) = made /\ clients_ok exact st.1 (cs_heap st.2) C /\ fresh st.1 k.

Lemma loop_step exact exact' env cs C k made p (f : Clnt -> string -> option bool) (srvs : option (list string)) :
  state_ok exact k made C (env, cs) -> p ∈ C -> (exact' = true -> exact = true) ->
  (forall c s, let c' := mkClnt (c_ends c) srvs in
     match f c s with
     | Some true => exact' = true -> allowedL c' s = true
     | Some false => allowedL c' s = false
     | None => (allowedL c' s = true -> allowedL c s = true) /\ (exact' = true -> allowedL c s = true -> allowedL c' s = true)
     end) ->
  exists st, on_client cs p (fun c => env ← for_ends env (order c) (f c); Some (env, mkClnt (c_ends c) srvs)) = Some st
    /\ state_ok exact' k made C st.
Proof.
  intros (HC & Hm & Hok & Hfr) Hp Hex Hf. simpl in *. destruct (co_heap _ _ _ _ Hok p Hp) as [c Hc].
  destruct (loop_ok exact exact' env _ C p c (f c) srvs Hok Hp Hc Hex (Hf c)) as (env' & Hrun & Hsame & Hok').
  unfold on_client. rewrite Hc. cbn [mbind option_bind]. rewrite Hrun. cbn [mbind option_bind]. eexists. split; [done|].
  split; [done|]. simpl. split; [by rewrite length_insert|]. split; [done|]. by eapply fresh_same.
Qed.

Lemma clnt_step_ok exact env cs C k made op :
  state_ok exact (calls [op] + k) made C (env, cs) -> live C made [op] = true ->
  let exact' := exact && never_narrowed [op] in
  exists st, clnt_step (env, cs) op = Some st
    /\ state_ok exact' k (match op with CMake _ => S made | _ => made end)
         (match op with CMake _ => {[made]} ∪ C | CDelete p => C ∖ {[p]} | _ => C end) st.
Proof.
  intros Hst Hlive exact'. unfold exact'. destruct op as [srvs|p s|p|p srvs|p|p]; cbn [never_narrowed forallb]; rewrite ?andb_true_r, ?andb_false_r;
    cbn [live] in Hlive; try (apply andb_prop in Hlive as [Hp%bool_decide_eq_true _]).
  - destruct Hst as (HC & Hm & Hok & Hfr). simpl in *. unfold MakeClientTo. rewrite HC. cbn [mbind option_bind].
    eexists. split; [done|]. subst made. split; [done|]. simpl. split; [rewrite length_app; simpl; lia|]. split; [|done].
    apply make_ok; [done|]. intros p Hp. by apply lookup_lt_is_Some, (co_heap _ _ _ _ Hok).
  - destruct Hst as (HC & Hm & Hok & Hfr). simpl in *. destruct (co_heap _ _ _ _ Hok p Hp) as [c Hc].
    destruct (makeEnd_ok exact env _ C p c s k Hok Hp Hc Hfr) as (env' & c' & e & Hmk & Hok' & _ & Hfr').
    unfold on_client. rewrite Hc. cbn [mbind option_bind]. rewrite Hmk. cbn. eexists. split; [done|].
    split; [done|]. simpl. by rewrite length_insert.
  - apply (loop_step exact exact env cs C k made p (fun _ _ => Some true) None Hst Hp); [done|]. by intros c s.
  - apply (loop_step exact false env cs C k made p
      (fun c s => if allowedL (mkClnt (c_ends c) srvs) s then Some true else None) srvs Hst Hp); [done|].
    intros c s. simpl. destruct (allowedL (mkClnt (c_ends c) srvs) s) eqn:E; [done|]. split; done.
  - apply (loop_step exact exact env cs C k made p (fun _ _ => Some false) (Some []) Hst Hp); [done|]. by intros c s.
  - destruct Hst as (HC & Hm & Hok & Hfr). simpl in *. destruct (co_heap _ _ _ _ Hok p Hp) as [c Hc].
    destruct (delete_ok exact env _ C p c k Hok Hp Hc Hfr) as (env' & Hr & Hok' & _ & Hfr' & _).
    unfold DeleteClient. rewrite HC. cbn [default]. rewrite decide_True by done. rewrite Hc. cbn [mbind option_bind].
    rewrite Hr. cbn [mbind option_bind]. eexists. split; [done|]. by split.
Qed.

Lemma clnt_run_ok (ops : list ClntOp) : forall exact C made st,
  state_ok exact (calls ops) made C st -> live C made ops = true ->
  exists st' C' made', run_steps clnt_step st ops = Some st'
    /\ state_ok (exact && never_narrowed ops) 0 made' C' st'.
Proof.
  induction ops as [|op ops IH]; intros exact C made [env cs] Hst Hlive.
  { exists (env, cs), C, made. by rewrite andb_true_r. }
  assert (H1 : live C made [op] = true) by (destruct op; simpl in *; rewrite ?andb_true_r; try done; by apply andb_prop in Hlive as [-> _]).
  destruct (clnt_step_ok exact env cs C (calls ops) made op) as (st1 & Hs & Hst1); [|done|].
  { unfold calls in *. cbn [sum_list_with] in *. by rewrite Nat.add_0_r. }
  destruct (IH _ _ _ _ Hst1) as (st' & C' & made' & Hrun & Hst').
  { destruct op; simpl in *; try done; by apply andb_prop in Hlive as [_ ?]. }
  exists st', C', made'. rewrite run_steps_cons, Hs. split; [done|].
  cbn [never_narrowed forallb] in *. by rewrite andb_true_r, <- andb_assoc in Hst'.
Qed.

(** Cleaning up removes the ends of all clients that are left. *)
Lemma cleanup_run exact h : forall (ps : list nat) env C k,
  clients_ok exact env h C -> fresh env k -> NoDup ps -> (forall p, p ∈ ps <-> p ∈ C) ->
  exists env', run_steps (fun env p => clnt ← h !! p; Clnt_remove env (order clnt)) env ps = Some env'
    /\ forall e, e ∈ ends (e_net env') <-> e ∈ E0.
Proof.
  induction ps as [|p ps IH]; intros env C k Hok Hfr Hnd Hps.
  { exists env. split; [done|]. intros e. rewrite (co_ends _ _ _ _ Hok). split; [|by left].
    intros [?|(p & s & Hp & _)]; [done|]. apply Hps in Hp. set_solver. }
  apply NoDup_cons in Hnd as [Hnot Hnd]. assert (Hp : p ∈ C) by (apply Hps; left).
  destruct (co_heap _ _ _ _ Hok p Hp) as [c Hc]. rewrite run_steps_cons, Hc. cbn [mbind option_bind].
  destruct (delete_ok exact env h C p c k Hok Hp Hc Hfr) as (env1 & -> & Hok1 & _ & Hfr1 & _). cbn [mbind option_bind].
  apply (IH env1 (C ∖ {[p]}) k Hok1 Hfr1 Hnd). intros q. rewrite elem_of_difference, elem_of_singleton, <- Hps, elem_of_cons.
  split; [|tauto]. intros Hq. split; [by right|]. intros ->. done.
Qed.
End Clients.

(** Clients reach what they may.  A test makes clients, with the servers they may talk to; they
    call servers, and the test connects, disconnects and deletes them.  As long as there are new
    names for ends nothing fails; every end of a client leads to its server, and is enabled if the
    client may talk to the server; if [ConnectTo] was never called, only then.  In the end
    [cleanup] removes all ends that clients made, and no others. *)
Theorem clients_reach_allowed {Svc} (order : Clnt -> list (string * string)) (env : Env (Svc:=Svc))
    (ops : list ClntOp) :
  (forall c, order c ≡ₚ map_to_list (c_ends c)) -> fresh env (calls ops) -> live ∅ 0 ops = true ->
  exists env' cs C, run_steps (clnt_step order) (env, makeClnts) ops = Some (env', cs) /\ cs_clerks cs = Some C
    /\ (forall p c s e, p ∈ C -> cs_heap cs !! p = Some c -> c_ends c !! s = Some e ->
         connections (e_net env') !! e = Some (Some s)
         /\ (allowedL c s = true -> is_enabled (e_net env') e = true)
         /\ (never_narrowed ops = true -> is_enabled (e_net env') e = true -> allowedL c s = true))
    /\ forall ps, ps ≡ₚ elements C ->
       exists env'' cs', Clnts_cleanup env' cs order ps = Some (env'', cs')
         /\ forall e, e ∈ ends (e_net env'') <-> e ∈ ends (e_net env).
Proof.
  intros Ho Hfr Hlive.
  destruct (clnt_run_ok order Ho (ends (e_net env)) ops true ∅ 0 (env, makeClnts)) as ([env' cs] & C & made & Hrun & Hst); [|done|].
  { split; [done|]. split; [done|]. split; [|done].
    split; try (intros p s e [[]%not_elem_of_empty _]); try set_solver.
    - intros p s p' s' e [[]%not_elem_of_empty _].
    - intros e. split; [by left|]. intros [?|(p & s & [[]%not_elem_of_empty _])]. done. }
  destruct Hst as (HC & _ & Hok & Hfr'). cbn [fst snd] in *. exists env', cs, C. split; [done|]. split; [done|]. split.
  - intros p c s e Hp Hc He. destruct (co_end _ _ _ _ _ Hok p s e) as [_ Hcon]; [by split; eauto|]. split; [done|].
    by apply (co_allowed _ _ _ _ _ Hok p c s e).
  - intros ps Hps. destruct (cleanup_run order Ho (ends (e_net env)) _ (cs_heap cs) ps env' C _ Hok Hfr') as (env'' & Hr & He).
    { rewrite Hps. apply NoDup_elements. }
    { intros p. by rewrite Hps, elem_of_elements. }
    unfold Clnts_cleanup. rewrite Hr. by eexists _, _.
Qed.

Lemma clients_reach_allowed_witness :
  let ops := [CMake (Some ["a"]); CMake None; CCall 0 "a"; CCall 0 "b"; CCall 1 "b"; CDelete 1] in
  exists env' cs e, run_steps (clnt_step (fun c => map_to_list (c_ends c))) (new_env 3, makeClnts) ops = Some (env', cs)
    /\ (c ← cs_heap cs !! 0%nat; c_ends c !! "a") = Some e /\ is_enabled (e_net env') e = true
    /\ size (ends (e_net env')) = 2%nat.
Proof.
  intros ops. destruct (clients_reach_allowed (fun c => map_to_list (c_ends c)) (new_env 3) ops)
    as (env' & cs & C & Hrun & HC & Hall & _).
  - reflexivity.
  - apply fresh_new_env.
  - vm_compute. reflexivity.
  - vm_compute in Hrun. injection Hrun as <- <-. eexists _, _, "0". split; [vm_compute; reflexivity|]. split; [reflexivity|].
    split; [|vm_compute; reflexivity].
    assert (Hin : 0%nat ∈ C).
    { apply (bool_decide_eq_true_1 _). change (bool_decide (0%nat ∈ default ∅ (Some C)) = true). rewrite <- HC.
      vm_compute. reflexivity. }
    eapply (Hall 0%nat _ "a" "0" Hin); [reflexivity|reflexivity|reflexivity].
Defined.

(** A client that [ConnectTo] sends elsewhere still reaches the server it was connected to. *)
Lemma ConnectTo_keeps_old_links :
  exists env' cs e, run_steps (clnt_step (fun c => map_to_list (c_ends c))) (new_env 1, makeClnts)
      [CMake None; CCall 0 "a"; CConnectTo 0 (Some ["b"])] = Some (env', cs)
    /\ (c ← cs_heap cs !! 0%nat; Some (allowedL c "a", c_ends c !! "a")) = Some (false, Some e)
    /\ is_enabled (e_net env') e = true.
Proof. eexists _, _, _. split; [vm_compute; reflexivity|]. split; [vm_compute; reflexivity|vm_compute; reflexivity]. Qed.
