(* ===== verification/RfTest.v ===== *)
(** * The Raft tests' oracle: lec-2025/src/raft1/server.go and test.go

    The service the Raft tests put on top of each peer, which reads the apply channel and
    compares what the servers commit, and the checks of the tests.  [RfTestProps] shows which
    peers the oracle accepts.

    A test failure ([Fatalf], [log.Fatalf]) and a panic are [None]. *)

From S2P Require Import Prelude Persister RaftState.

Module RfTest.
Section RfTest.
(** Commands are integers and strings in the tests; [None] is nil. *)
Context {Cmd : Type} `{EqDecision Cmd} `{Gob (Z * list (option Cmd))}.
Abbreviation any := (option Cmd).

Definition SnapShotInterval : Z := 10.

(** [applyErr] is only set after the process has ended, so it is always empty; [raft] is known by
    whether it is nil. *)
Record rfsrv := mkRfsrv { rs_me : Z; rs_lastApplied : Z; rs_raft : bool; rs_logs : gmap Z any }.

(** Servers are known by number, also those that were replaced ([t_heap]); [t_srvs] is [ts.srvs].
    [t_snaps] collects what was given to [Raft.Snapshot], with the server, last first. *)
Record Test := mkTest {
  t_heap : list rfsrv; t_srvs : list (option nat); t_maxIndex : Z; t_snapshot : bool;
  t_snaps : list (Z * Z * bytes) }.

(** The error messages of the readers of the apply channel. *)
Inductive ErrMsg :=
  | Differ (index i : Z) (v : any) (j : nat) (old : any)
  | OutOfOrder (i index : Z)
  | NoMatch (i : Z).

Definition set_heap (ts : Test) (h : list rfsrv) : Test :=
  mkTest h (t_srvs ts) (t_maxIndex ts) (t_snapshot ts) (t_snaps ts).

(** An assignment to fields of server [p]. *)
Definition update (ts : Test) (p : nat) (f : rfsrv -> rfsrv) : Test := set_heap ts (alter f p (t_heap ts)).

Definition set_logs (l : gmap Z any) (rs : rfsrv) : rfsrv := mkRfsrv (rs_me rs) (rs_lastApplied rs) (rs_raft rs) l.
Definition set_lastApplied (i : Z) (rs : rfsrv) : rfsrv := mkRfsrv (rs_me rs) i (rs_raft rs) (rs_logs rs).
Definition set_raft (r : bool) (rs : rfsrv) : rfsrv := mkRfsrv (rs_me rs) (rs_lastApplied rs) r (rs_logs rs).

(** [*ts.srvs[i]]: a nil server panics. *)
Definition deref (ts : Test) (o : option nat) : option rfsrv := p ← o; t_heap ts !! p.

Definition Logs (rs : rfsrv) (i : Z) : option any := rs_logs rs !! i.

(** ** test.go: the log of all servers *)

(** The loop of [checkLogs] from server [j] on. *)
Fixpoint compare_logs (ts : Test) (i : Z) (v : any) (index : Z) (j : nat) (srvs : list (option nat))
    (err_msg : option ErrMsg) : option (option ErrMsg) :=
  match srvs with
  | [] => Some err_msg
  | o :: srvs =>
      rs ← deref ts o;
      compare_logs ts i v index (S j) srvs
        (match Logs rs index with
         | Some old => if decide (old = v) then err_msg else Some (Differ index i v j old)
         | None => err_msg
         end)
  end.

Definition checkLogs (ts : Test) (i : Z) (v : any) (index : Z) : option (Test * option ErrMsg * bool) :=
  o ← slice_get (t_srvs ts) i;
  err_msg ← compare_logs ts i v index 0 (t_srvs ts) None;
  me ← o;
  rs ← t_heap ts !! me;
  let prevok := bool_decide (is_Some (rs_logs rs !! (index - 1))) in
  let ts := update ts me (set_logs (<[index := v]> (rs_logs rs))) in
  let maxIndex := if t_maxIndex ts <? index then index else t_maxIndex ts in
  Some (mkTest (t_heap ts) (t_srvs ts) maxIndex (t_snapshot ts) (t_snaps ts), err_msg, prevok).

(** One server in the loop of [nCommitted]. *)
Definition count_server (ts : Test) (index : Z) (st : Z * any) (o : option nat) : option (Z * any) :=
  let '(count, cmd) := st in
  rs ← deref ts o;
  match Logs rs index with
  | Some cmd1 => if (0 <? count) && bool_decide (cmd <> cmd1) then None else Some (count + 1, cmd1)
  | None => Some (count, cmd)
  end.

(** How many servers think an entry is committed, and which. *)
Definition nCommitted (ts : Test) (index : Z) : option (Z * any) :=
  run_steps (count_server ts index) (0, None) (t_srvs ts).

Definition checkNoAgreement (ts : Test) (index : Z) : option unit :=
  '(n, _) ← nCommitted ts index;
  if 0 <? n then None else Some tt.

(** ** server.go *)

(** After [checkLogs], in both readers. *)
Definition ordered (i index : Z) (prevok : bool) (err_msg : option ErrMsg) : option ErrMsg :=
  if (1 <? index) && negb prevok then Some (OutOfOrder i index) else err_msg.

(** [log.Fatalf] if there is an error. *)
Definition fatal (ts : Test) (err_msg : option ErrMsg) : option Test :=
  match err_msg with None => Some ts | Some _ => None end.

(** [applier], one message; [p] is [rs], whose goroutine it is. *)
Definition applier (ts : Test) (p : nat) (m : ApplyMsg Cmd) : option Test :=
  match m with
  | SnapshotMsg _ _ _ => Some ts
  | CommandMsg v index _ =>
      rs ← t_heap ts !! p;
      '(ts, err_msg, prevok) ← checkLogs ts (rs_me rs) v index;
      fatal ts (ordered (rs_me rs) index prevok err_msg)
  end.

(** The entries of [xlog]; a missing one reads as nil. *)
Definition collect (logs : gmap Z any) (index : Z) : list any :=
  (fun j => default None (logs !! j)) <$> seqZ 0 (index + 1).

(** The map that [xlog] fills, from index [j] on. *)
Fixpoint ingest (j : Z) (xlog : list any) : gmap Z any :=
  match xlog with
  | [] => ∅
  | v :: xlog => <[j := v]> (ingest (j + 1) xlog)
  end.

(** Both a nil and an empty snapshot are fatal. *)
Definition ingestSnap (ts : Test) (p : nat) (snapshot : bytes) (index : Z) : option (Test * option ErrMsg) :=
  rs ← t_heap ts !! p;
  if decide (snapshot = []) then None
  else
    '(lastIncludedIndex, xlog) ← gob_decode snapshot;
    if negb (index =? -1) && negb (index =? lastIncludedIndex) then Some (ts, Some (NoMatch (rs_me rs)))
    else Some (update ts p (fun rs => set_lastApplied lastIncludedIndex (set_logs (ingest 0 xlog) rs)), None).

(** [rs.raft.Snapshot(index, data)], which panics if [raft] is nil. *)
Definition raft_Snapshot (ts : Test) (p : nat) (index : Z) (data : bytes) : option Test :=
  rs ← t_heap ts !! p;
  if rs_raft rs
  then Some (mkTest (t_heap ts) (t_srvs ts) (t_maxIndex ts) (t_snapshot ts) ((rs_me rs, index, data) :: t_snaps ts))
  else None.

(** [applierSnap], one message. *)
Definition applierSnap (ts : Test) (p : nat) (m : ApplyMsg Cmd) : option Test :=
  '(ts, err_msg) ←
    match m with
    | SnapshotMsg snapshot _ index => ingestSnap ts p snapshot index
    | CommandMsg v index _ =>
        rs ← t_heap ts !! p;
        '(ts, err_msg) ←
          (if negb (index =? rs_lastApplied rs + 1) then Some (ts, Some (OutOfOrder (rs_me rs) index))
           else
             '(ts, err_msg, prevok) ← checkLogs ts (rs_me rs) v index;
             Some (ts, ordered (rs_me rs) index prevok err_msg));
        let ts := update ts p (set_lastApplied index) in
        if Z.rem (index + 1) SnapShotInterval =? 0 then
          rs ← t_heap ts !! p;
          ts ← raft_Snapshot ts p index (gob_encode (index, collect (rs_logs rs) index));
          Some (ts, err_msg)
        else Some (ts, err_msg)
    end;
  fatal ts err_msg.

(** [newRfsrv] up to the start of the reader: the new server's number. *)
Definition newRfsrv (ts : Test) (srv : Z) (persister : Persister) : option (Test * nat) :=
  let p := length (t_heap ts) in
  let ts := set_heap ts (t_heap ts ++ [mkRfsrv srv 0 true ∅]) in
  let snapshot := ReadSnapshot persister in
  if t_snapshot ts && (0 <? zlen snapshot) then
    '(ts, err) ← ingestSnap ts p snapshot (-1);
    ts ← fatal ts err;
    Some (ts, p)
  else Some (ts, p).

Definition mksrv (ts : Test) (srv : Z) (persister : Persister) : option Test :=
  '(ts, p) ← newRfsrv ts srv persister;
  srvs ← slice_set (t_srvs ts) srv (Some p);
  Some (mkTest (t_heap ts) srvs (t_maxIndex ts) (t_snapshot ts) (t_snaps ts)).

(** [Kill]; the persister is saved as it is. *)
Definition Kill (ts : Test) (p : nat) : Test := update ts p (set_raft false).

(** One message of the reader that [newRfsrv] started. *)
Definition reader (ts : Test) (p : nat) (m : ApplyMsg Cmd) : option Test :=
  if t_snapshot ts then applierSnap ts p m else applier ts p m.

(** [makeTest]: [MakeConfig] starts the [n] servers, with new persisters; the settings of the
    network do not concern the oracle. *)
Definition makeTest (n : nat) (snapshot : bool) : option Test :=
  run_steps (fun ts i => mksrv ts i MakePersister) (mkTest [] (replicate n None) 0 snapshot [])
    (seqZ 0 (Z.of_nat n)).

(** ** What happens in a test

    A message of the apply channel of a server's peer, or a crash and restart of a server
    from its persister. *)

Inductive TestEvent :=
  | Applied (i : Z) (m : ApplyMsg Cmd)
  | Restarted (i : Z) (ps : Persister).

Definition test_step (ts : Test) (e : TestEvent) : option Test :=
  match e with
  | Applied i m => o ← slice_get (t_srvs ts) i; p ← o; reader ts p m
  | Restarted i ps =>
      o ← slice_get (t_srvs ts) i; p ← o;
      mksrv (Kill ts p) i ps
  end.

Definition test_run (n : nat) (snapshot : bool) (es : list TestEvent) : option Test :=
  ts ← makeTest n snapshot; run_steps test_step ts es.
End RfTest.

(** ** test.go: leaders and terms

    What the tests see of each server, in order: whether it is connected, and the result of
    [GetState], its term and whether it leads. *)

Record Seen := mkSeen { s_connected : bool; s_term : Z; s_leader : bool }.

(** The connected leaders of each term. *)
Fixpoint leaders_from (i : Z) (seen : list Seen) (leaders : gmap Z (list Z)) : gmap Z (list Z) :=
  match seen with
  | [] => leaders
  | s :: seen =>
      leaders_from (i + 1) seen
        (if s_connected s && s_leader s
         then <[s_term s := default [] (leaders !! s_term s) ++ [i]]> leaders else leaders)
  end.

(** One iteration of [checkOneLeader]: a failure ([None]), another iteration ([Some None]) or
    the leader of the last term; [order] lists the map of leaders in the order of iteration. *)
Definition one_leader (order : gmap Z (list Z) -> list (Z * list Z)) (seen : list Seen) : option (option Z) :=
  let leaders := leaders_from 0 seen ∅ in
  lastTermWithLeader ←
    run_steps (fun last '(term, ls) =>
      if 1 <? zlen ls then None else Some (if last <? term then term else last)) (-1) (order leaders);
  if decide (leaders = ∅) then Some None
  else Some <$> slice_get (default [] (leaders !! lastTermWithLeader)) 0.

(** [iters] is the number of iterations left; [seen] what each of them sees. *)
Fixpoint checkOneLeader (order : gmap Z (list Z) -> list (Z * list Z)) (iters : nat) (seen : nat -> list Seen)
    : option Z :=
  match iters with
  | O => None
  | S iters =>
      r ← one_leader order (seen iters);
      match r with
      | Some leader => Some leader
      | None => checkOneLeader order iters seen
      end
  end.

Definition checkTerms (seen : list Seen) : option Z :=
  run_steps (fun term s =>
    if s_connected s then
      if term =? -1 then Some (s_term s) else if negb (term =? s_term s) then None else Some term
    else Some term) (-1) seen.

Definition checkNoLeader (seen : list Seen) : option unit :=
  run_steps (fun _ s => if s_connected s && s_leader s then None else Some tt) tt seen.
End RfTest.
