(* ===== verification/RfTestProps.v ===== *)
(** * What the Raft tests' oracle accepts

    [raft_oracle_exact]: without snapshots the oracle of [RfTest] lets a test go on exactly as
    long as the servers deliver entries in order and agree; [raft_oracle_accepts_snapshots]:
    with snapshots it accepts all servers that deliver one sequence. *)

From stdpp Require Import functions.
From S2P Require Import Prelude Persister RaftState RaftProps RaftNet RaftFlaws RfTest.
Import RfTest.

Section Oracle.
Context {Cmd : Type} `{!EqDecision Cmd} `{Gob (Z * list (option Cmd))}.
Abbreviation any := (option Cmd).
Implicit Types (ts : Test (Cmd:=Cmd)) (rs : rfsrv (Cmd:=Cmd)) (l : list any) (v w : any) (lg : Z -> list any).

(** ** Logs as lists

    Entry [j] of a log that starts at index 1. *)

Definition entry l (j : Z) : option any := if j <? 1 then None else l !! Z.to_nat (j - 1).

(** The log after [v] was delivered at [index]. *)
Definition logged l v (index : Z) : list any := if decide (index = zlen l + 1) then l ++ [v] else l.

(** A server's log: below index 1 it has at most nil at 0, from a snapshot. *)
Record holds rs l : Prop := {
  hd_zero : default None (rs_logs rs !! 0) = None;
  hd_entry : forall j, 1 <= j -> rs_logs rs !! j = entry l j;
}.

Lemma entry_is_Some l j : 1 <= j -> is_Some (entry l j) <-> j <= zlen l.
Proof.
  intros Hj. unfold entry, zlen. destruct (Z.ltb_spec j 1); [lia|]. rewrite lookup_lt_is_Some. lia.
Qed.

Lemma entry_app l v j : 1 <= j -> entry (l ++ [v]) j = if decide (j = zlen l + 1) then Some v else entry l j.
Proof.
  intros Hj. unfold entry, zlen. destruct (Z.ltb_spec j 1); [lia|].
  destruct (decide (j = Z.of_nat (length l) + 1)) as [->|Hne].
  - rewrite lookup_app_r by lia. by replace (Z.to_nat _ - _)%nat with 0%nat by lia.
  - destruct (decide (Z.to_nat (j - 1) < length l)%nat); [by rewrite lookup_app_l by lia|].
    rewrite (lookup_ge_None_2 l) by lia. apply lookup_ge_None_2. rewrite length_app. simpl. lia.
Qed.

(** Delivering an entry that is next, or that the log has already. *)
Lemma entry_logged l v index j :
  1 <= index <= zlen l + 1 -> (forall w, entry l index = Some w -> w = v) -> 1 <= j ->
  entry (logged l v index) j = if decide (j = index) then Some v else entry l j.
Proof.
  intros Hi Hw Hj. unfold logged. destruct (decide (index = zlen l + 1)) as [->|Hne]; [by apply entry_app|].
  destruct (decide (j = index)) as [->|]; [|done].
  destruct (proj2 (entry_is_Some l index ltac:(lia))) as [w E]; [lia|]. rewrite E. by rewrite (Hw w E).
Qed.

Lemma holds_logged rs l v index :
  holds rs l -> 1 <= index <= zlen l + 1 -> (forall w, entry l index = Some w -> w = v) ->
  holds (set_logs (<[index := v]> (rs_logs rs)) rs) (logged l v index).
Proof.
  intros [H0 Hh] Hi Hw. split; [simpl; by rewrite lookup_insert_ne by lia|]. intros j Hj. simpl. rewrite entry_logged by done. destruct (decide (j = index)) as [->|Hne].
  - apply lookup_insert_eq.
  - rewrite lookup_insert_ne by done. by apply Hh.
Qed.

(** ** The state of a test *)

Record server ts (i : Z) (p : nat) rs : Prop := {
  sv_srvs : slice_get (t_srvs ts) i = Some (Some p);
  sv_heap : t_heap ts !! p = Some rs;
  sv_me : rs_me rs = i;
  sv_raft : rs_raft rs = true;
}.

(** The servers that satisfy [P] are there, with the logs [lg] and the last indices [la]. *)
Record rep_on (P : Z -> Prop) (n : Z) ts lg (la : Z -> Z) : Prop := {
  rp_n : zlen (t_srvs ts) = n;
  rp_server : forall i, 0 <= i < n -> P i ->
    exists p rs, server ts i p rs /\ holds rs (lg i) /\ rs_lastApplied rs = la i;
}.

Abbreviation rep := (rep_on (fun _ => True)).

Lemma server_inj ts i p rs p' rs' : server ts i p rs -> server ts i p' rs' -> p = p' /\ rs = rs'.
Proof. intros [] []. by simplify_eq. Qed.

(** Only the servers matter. *)
Lemma server_same ts ts' i p rs :
  t_heap ts' = t_heap ts -> t_srvs ts' = t_srvs ts -> server ts i p rs -> server ts' i p rs.
Proof. intros Hh Hs []. split; congruence. Qed.

Lemma rep_same P n ts ts' lg la lg' la' :
  t_heap ts' = t_heap ts -> t_srvs ts' = t_srvs ts -> (forall i, lg' i = lg i) -> (forall i, la' i = la i) ->
  rep_on P n ts lg la -> rep_on P n ts' lg' la'.
Proof.
  intros Hh Hs Hlg Hla [Hn Hr]. split; [congruence|]. intros i Hi HP. destruct (Hr i Hi HP) as (p & rs & Hv & ?).
  exists p, rs. rewrite Hlg, Hla. split; [by eapply server_same|done].
Qed.

(** An assignment to fields of a server that keeps its number and its peer. *)
Lemma rep_update n ts lg la i p rs f l :
  rep n ts lg la -> server ts i p rs -> rs_me (f rs) = rs_me rs -> rs_raft (f rs) = true -> holds (f rs) l ->
  rep n (update ts p f) (<[i := l]> lg) (<[i := rs_lastApplied (f rs)]> la).
Proof.
  intros [Hn Hs] Hi Hme Hraft Hl. split; [done|]. intros j Hj _. destruct (decide (i = j)) as [<-|Hne].
  - exists p, (f rs). rewrite !fn_lookup_insert. split; [|done]. destruct Hi. split; simpl; [done| |congruence|done].
    by rewrite list_lookup_alter_eq, sv_heap0.
  - destruct (Hs j Hj I) as (q & rq & [] & Hh). exists q, rq. rewrite !fn_lookup_insert_ne by done.
    split; [|done]. split; [done| |done|done]. simpl. destruct Hi.
    rewrite list_lookup_alter_ne; [done|]. intros ->. congruence.
Qed.

(** A new server takes the place of server [i], of which nothing is known. *)
Lemma rep_register P n ts ts' lg la i rs l :
  rep_on P n ts lg la -> 0 <= i < n -> rs_me rs = i -> rs_raft rs = true -> holds rs l ->
  t_heap ts' = t_heap ts ++ [rs] -> slice_set (t_srvs ts) i (Some (length (t_heap ts))) = Some (t_srvs ts') ->
  rep_on (fun j => P j \/ j = i) n ts' (<[i := l]> lg) (<[i := rs_lastApplied rs]> la).
Proof.
  intros [Hn Hs] Hi Hme Hraft Hl Hh Hset. apply slice_set_inv in Hset as [_ Hset].
  split; [by rewrite Hset, zlen_insert|]. intros j Hj HP. destruct (decide (i = j)) as [<-|Hne].
  - exists (length (t_heap ts)), rs. rewrite !fn_lookup_insert. split; [|done]. split; [|by rewrite Hh, list_lookup_middle|done|done].
    apply slice_get_Some. split; [lia|]. rewrite Hset. apply list_lookup_insert_eq. unfold zlen in Hn. lia.
  - destruct HP as [HP| ->]; [|done]. destruct (Hs j Hj HP) as (q & rq & [] & Hq). exists q, rq.
    rewrite !fn_lookup_insert_ne by done. split; [|done]. split; [|by rewrite Hh; apply lookup_app_l_Some|done|done].
    apply slice_get_Some in sv_srvs0 as [_ Hq']. apply slice_get_Some. split; [lia|].
    rewrite Hset, list_lookup_insert_ne by lia. done.
Qed.

(** Everybody that has entry [index] has [v] there. *)
Definition agree (n : Z) lg (index : Z) v : Prop :=
  forall i w, 0 <= i < n -> entry (lg i) index = Some w -> w = v.

Lemma srvs_lookup n ts lg la k o :
  rep n ts lg la -> t_srvs ts !! k = Some o ->
  0 <= Z.of_nat k < n /\ exists p rs, o = Some p /\ t_heap ts !! p = Some rs /\ holds rs (lg (Z.of_nat k)).
Proof.
  intros [Hn Hs] Hk. assert (Hr : 0 <= Z.of_nat k < n) by (apply lookup_lt_Some in Hk; unfold zlen in Hn; lia).
  split; [done|]. destruct (Hs (Z.of_nat k) Hr I) as (p & rs & [] & Hh & _). exists p, rs.
  apply slice_get_Some in sv_srvs0 as [_ Hk']. rewrite Nat2Z.id in Hk'. by simplify_eq.
Qed.

Lemma compare_logs_spec n ts lg la i v index :
  rep n ts lg la -> 1 <= index -> forall srvs j err, (forall k, srvs !! k = t_srvs ts !! (j + k)%nat) ->
  exists err', compare_logs ts i v index j srvs err = Some err'
    /\ (err' = None <-> err = None /\ forall k w, (k < length srvs)%nat -> entry (lg (Z.of_nat (j + k))) index = Some w -> w = v).
Proof.
  intros Hr Hi. induction srvs as [|o srvs IH]; intros j err Hsub; simpl.
  { exists err. split; [done|]. split; [|tauto]. intros ->. split; [done|]. intros k w Hk. lia. }
  pose proof (Hsub 0%nat) as Ho. simpl in Ho. rewrite Nat.add_0_r in Ho.
  destruct (srvs_lookup n ts lg la j o Hr) as (_ & p & rs & -> & Hp & Hh); [done|]. unfold deref. simpl. rewrite Hp. simpl.
  unfold Logs. rewrite (hd_entry _ _ Hh) by done.
  match goal with |- context [compare_logs _ _ _ _ _ _ ?e] => set (err1 := e) end.
  assert (He : err1 = None <-> err = None /\ forall w, entry (lg (Z.of_nat j)) index = Some w -> w = v).
  { unfold err1. destruct (entry (lg (Z.of_nat j)) index) as [old|]; [|naive_solver].
    destruct (decide (old = v)) as [->|Hne]; naive_solver. }
  destruct (IH (S j) err1) as (err' & Hc & Hiff).
  { intros k. specialize (Hsub (S k)). simpl in Hsub. rewrite Hsub. f_equal. lia. }
  exists err'. split; [done|]. rewrite Hiff, He. split.
  - intros [[? H0] Hrest]. split; [done|]. intros [|k] w Hk Hw; [rewrite Nat.add_0_r in Hw; by apply H0|].
    apply (Hrest k w); [lia|]. by replace (S j + k)%nat with (j + S k)%nat by lia.
  - intros [? Hall]. split; [split; [done|]|].
    + intros w Hw. apply (Hall 0%nat); [lia|]. by rewrite Nat.add_0_r.
    + intros k w Hk Hw. apply (Hall (S k)); [lia|]. by replace (j + S k)%nat with (S j + k)%nat by lia.
Qed.

(** [checkLogs] reports a difference, and whether the log had the entry before. *)
Lemma checkLogs_spec n ts lg la i v index :
  rep n ts lg la -> 0 <= i < n -> 1 <= index ->
  exists ts' err prevok, checkLogs ts i v index = Some (ts', err, prevok)
    /\ t_snapshot ts' = t_snapshot ts /\ t_snaps ts' = t_snaps ts /\ t_srvs ts' = t_srvs ts
    /\ (ordered i index prevok err = None <-> agree n lg index v /\ index <= zlen (lg i) + 1)
    /\ (agree n lg index v -> index <= zlen (lg i) + 1 -> rep n ts' (<[i := logged (lg i) v index]> lg) la).
Proof.
  intros Hr Hi Hx. destruct (rp_server _ _ _ _ _ Hr i Hi I) as (p & rs & Hs & Hh & Hla). unfold checkLogs.
  rewrite (sv_srvs _ _ _ _ Hs). simpl.
  destruct (compare_logs_spec n ts lg la i v index Hr Hx (t_srvs ts) 0 None) as (err & -> & Herr); [done|]. simpl.
  rewrite (sv_heap _ _ _ _ Hs). simpl. eexists _, _, _. split; [done|]. do 3 (split; [done|]).
  pose proof (rp_n _ _ _ _ _ Hr) as Hn. unfold zlen in Hn.
  assert (Hag : err = None <-> agree n lg index v).
  { rewrite Herr. simpl. split.
    - intros [_ Hall] j w Hj Hw. apply (Hall (Z.to_nat j)); [lia|]. by rewrite Z2Nat.id by lia.
    - intros Hall. split; [done|]. intros k w Hk. apply Hall. lia. }
  split.
  - unfold ordered. rewrite <- Hag. destruct (Z.ltb_spec 1 index) as [Hgt|Hle]; simpl.
    + rewrite (hd_entry _ _ Hh) by lia. pose proof (entry_is_Some (lg i) (index - 1) ltac:(lia)) as Hsome.
      case_bool_decide as Hc; simpl; rewrite Hsome in Hc.
      * split; [intros ->; split; [done|lia]|tauto].
      * split; [done|]. intros [_ ?]. lia.
    + pose proof (zlen_nonneg (lg i)). split; [intros ->; split; [done|lia]|tauto].
  - intros Hagree Hnext.
    eapply rep_same; [..|eapply (rep_update n ts lg la i p rs (set_logs (<[index := v]> (rs_logs rs))) _ Hr Hs)];
      [done|done|done| |done|apply Hs|].
    + intros j. simpl. destruct (decide (i = j)) as [<-|]; [by rewrite fn_lookup_insert|by rewrite fn_lookup_insert_ne].
    + apply holds_logged; [done|done|]. intros w Hw. by apply (Hagree i).
Qed.

(** ** Starting and restarting servers *)

Lemma rep_weaken (P Q : Z -> Prop) n ts lg la :
  rep_on P n ts lg la -> (forall i, 0 <= i < n -> Q i -> P i) -> rep_on Q n ts lg la.
Proof. intros [Hn Hs] HPQ. split; [done|]. auto. Qed.

Lemma rep_Kill n ts lg la i p rs :
  rep n ts lg la -> server ts i p rs -> rep_on (fun j => j <> i) n (Kill ts p) lg la.
Proof.
  intros [Hn Hs] Hi. split; [done|]. intros j Hj Hne. destruct (Hs j Hj I) as (q & rq & [] & Hh).
  exists q, rq. split; [|done]. split; [done| |done|done]. simpl. destruct Hi.
  rewrite list_lookup_alter_ne; [done|]. intros ->. congruence.
Qed.

Lemma holds_new i : holds (mkRfsrv i 0 true ∅) [].
Proof. split; [done|]. intros j Hj. unfold entry. destruct (j <? 1); done. Qed.

(** A server that starts without a snapshot. *)
Lemma mksrv_plain P n ts lg la i ps :
  rep_on P n ts lg la -> 0 <= i < n -> t_snapshot ts && (0 <? zlen (ReadSnapshot ps)) = false ->
  exists ts', mksrv ts i ps = Some ts' /\ t_snapshot ts' = t_snapshot ts /\ t_snaps ts' = t_snaps ts
    /\ rep_on (fun j => P j \/ j = i) n ts' (<[i := []]> lg) (<[i := 0]> la).
Proof.
  intros Hr Hi Hno. unfold mksrv, newRfsrv. simpl. rewrite Hno. simpl.
  pose proof (rp_n _ _ _ _ _ Hr) as Hn. rewrite slice_set_Some by lia. simpl.
  eexists. split; [done|]. split; [done|]. split; [done|].
  eapply (rep_register P n ts _ lg la i (mkRfsrv i 0 true ∅)); [done|done|done|done|apply holds_new|done|].
  rewrite slice_set_Some by lia. done.
Qed.

Lemma makeTest_spec (n : nat) snapshot :
  exists ts, makeTest n snapshot = Some ts /\ t_snapshot ts = snapshot /\ t_snaps ts = []
    /\ rep (Z.of_nat n) ts (fun _ => []) (fun _ => 0).
Proof.
  unfold makeTest. set (lg := fun _ : Z => [] : list any). set (la := fun _ : Z => 0).
  assert (Hall : forall ids ts P, rep_on P (Z.of_nat n) ts lg la -> Forall (fun i => 0 <= i < Z.of_nat n) ids ->
    exists ts', run_steps (fun ts i => mksrv ts i MakePersister) ts ids = Some ts'
      /\ t_snapshot ts' = t_snapshot ts /\ t_snaps ts' = t_snaps ts
      /\ rep_on (fun j => P j \/ j ∈ ids) (Z.of_nat n) ts' lg la).
  { induction ids as [|i ids IH]; intros ts P Hr Hids.
    { exists ts. do 3 (split; [done|]). eapply rep_weaken; [done|]. intros j _ [?|?]; [done|set_solver]. }
    apply Forall_cons in Hids as [Hi Hids]. rewrite run_steps_cons.
    destruct (mksrv_plain P _ ts lg la i MakePersister Hr Hi) as (ts1 & -> & Hf & Hsn & Hr1); [by rewrite andb_false_r|].
    simpl. destruct (IH ts1 (fun j => P j \/ j = i)) as (ts' & Hrun & Hf' & Hsn' & Hr'); [|done|].
    - eapply rep_same; [done|done| | |exact Hr1]; intros j; destruct (decide (i = j)) as [<-|];
        by rewrite ?fn_lookup_insert, ?fn_lookup_insert_ne.
    - exists ts'. split; [done|]. split; [congruence|]. split; [congruence|]. eapply rep_weaken; [exact Hr'|].
      intros j _ [?|Hj]; [auto|]. apply elem_of_cons in Hj as [->|Hj]; auto. }
  destruct (Hall (seqZ 0 (Z.of_nat n)) (mkTest [] (replicate n None) 0 snapshot []) (fun _ => False))
    as (ts & Hrun & Hf & Hsn & Hr).
  - split; [simpl; unfold zlen; by rewrite length_replicate|done].
  - apply Forall_seqZ. lia.
  - exists ts. do 3 (split; [done|]). eapply rep_weaken; [exact Hr|]. intros i Hi _. right. apply elem_of_seqZ. lia.
Qed.

(** ** Tests without snapshots *)

(** The log of server [i] after some events: what its peer delivered since its last start. *)
Definition log_step (i : Z) l (e : TestEvent (Cmd:=Cmd)) : list any :=
  match e with
  | Applied j (CommandMsg v index _) => if decide (j = i) then logged l v index else l
  | Applied _ (SnapshotMsg _ _ _) => l
  | Restarted j _ => if decide (j = i) then [] else l
  end.

Definition log_of (es : list TestEvent) (i : Z) : list any := foldl (log_step i) [] es.

(** A delivered entry is the next one or one that was delivered before, and no server has
    another command at its index. *)
Definition legal_event (n : Z) lg (e : TestEvent (Cmd:=Cmd)) : Prop :=
  match e with
  | Applied i (CommandMsg v index _) => agree n lg index v /\ index <= zlen (lg i) + 1
  | _ => True
  end.

Definition legal (n : Z) (es : list TestEvent) : Prop :=
  forall es1 e es2, es = es1 ++ e :: es2 -> legal_event n (log_of es1) e.

(** Events of servers of the test, at indices that Raft uses. *)
Definition event_ok (n : Z) (e : TestEvent (Cmd:=Cmd)) : Prop :=
  match e with
  | Applied i (CommandMsg _ index _) => 0 <= i < n /\ 1 <= index
  | Applied i (SnapshotMsg _ _ _) => 0 <= i < n
  | Restarted i _ => 0 <= i < n
  end.

Lemma legal_snoc n es e : legal n (es ++ [e]) <-> legal n es /\ legal_event n (log_of es) e.
Proof.
  split.
  - intros Hl. split; [|by apply (Hl es e [])]. intros es1 e1 es2 ->. apply (Hl es1 e1 (es2 ++ [e])).
    by rewrite <- app_assoc.
  - intros [Hl He] es1 e1 es2 Heq. destruct es2 as [|x es2' _] using rev_ind.
    + apply app_inj_tail in Heq as [-> ->]. done.
    + rewrite app_comm_cons, app_assoc in Heq. apply app_inj_tail in Heq as [-> ->]. by apply (Hl es1 e1 es2').
Qed.

Lemma test_step_spec n ts lg la e :
  rep n ts lg la -> t_snapshot ts = false -> event_ok n e ->
  (is_Some (test_step ts e) <-> legal_event n lg e)
  /\ forall ts', test_step ts e = Some ts' ->
     t_snapshot ts' = false /\ exists la', rep n ts' (fun i => log_step i (lg i) e) la'.
Proof.
  intros Hr Hf He. destruct e as [i [v index t|b t k]|i ps]; simpl in *.
  - destruct He as [Hi Hx]. destruct (rp_server _ _ _ _ _ Hr i Hi I) as (p & rs & Hs & _).
    rewrite (sv_srvs _ _ _ _ Hs). simpl. unfold reader. rewrite Hf. unfold applier.
    rewrite (sv_heap _ _ _ _ Hs). simpl. rewrite (sv_me _ _ _ _ Hs).
    destruct (checkLogs_spec n ts lg la i v index Hr Hi Hx) as (ts1 & err & prevok & -> & Hf1 & _ & _ & Hiff & Hnext).
    simpl. rewrite <- Hiff. unfold fatal. destruct (ordered i index prevok err) eqn:Eo; [split; [|done]; split; [by intros []|done]|].
    split; [split; [done|by eexists]|]. intros ts' [= <-]. split; [congruence|]. exists la.
    destruct (proj1 Hiff eq_refl) as [Hag Hle]. eapply rep_same; [done|done| |done|exact (Hnext Hag Hle)].
    intros j. destruct (decide (i = j)) as [<-|]; [by rewrite fn_lookup_insert|by rewrite fn_lookup_insert_ne].
  - destruct (rp_server _ _ _ _ _ Hr i He I) as (p & rs & Hs & _). rewrite (sv_srvs _ _ _ _ Hs). simpl.
    unfold reader. rewrite Hf. simpl. split; [split; [done|by eexists]|]. intros ts' [= <-]. split; [done|]. by exists la.
  - destruct (rp_server _ _ _ _ _ Hr i He I) as (p & rs & Hs & _). rewrite (sv_srvs _ _ _ _ Hs). simpl.
    destruct (mksrv_plain _ n (Kill ts p) lg la i ps (rep_Kill _ _ _ _ _ _ _ Hr Hs) He) as (ts1 & -> & Hf1 & _ & Hr1).
    { simpl. by rewrite Hf. }
    split; [split; [done|by eexists]|]. intros ts' [= <-]. split; [simpl in Hf1; congruence|]. eexists.
    eapply rep_weaken; [eapply rep_same; [done|done| |done|exact Hr1]|].
    + intros j. destruct (decide (i = j)) as [<-|]; [by rewrite fn_lookup_insert|by rewrite fn_lookup_insert_ne].
    + intros j _ _. destruct (decide (j = i)); auto.
Qed.

Lemma log_of_snoc es e i : log_of (es ++ [e]) i = log_step i (log_of es i) e.
Proof. unfold log_of. by rewrite foldl_app. Qed.

Lemma test_run_snoc n snapshot es e :
  test_run (Cmd:=Cmd) n snapshot (es ++ [e]) = ts ← test_run n snapshot es; test_step ts e.
Proof.
  unfold test_run. destruct (makeTest n snapshot) as [ts|]; [|done]. simpl. rewrite run_steps_app.
  destruct (run_steps test_step ts es); [|done]. simpl. by rewrite run_steps_cons; destruct (test_step _ e).
Qed.

Lemma test_run_spec (n : nat) es :
  Forall (event_ok (Z.of_nat n)) es ->
  (is_Some (test_run n false es) <-> legal (Z.of_nat n) es)
  /\ forall ts, test_run n false es = Some ts ->
     t_snapshot ts = false /\ exists la, rep (Z.of_nat n) ts (log_of es) la.
Proof.
  induction es as [|e es IH] using rev_ind; intros Hok.
  - destruct (makeTest_spec n false) as (ts & Hm & Hf & _ & Hr). unfold test_run. rewrite Hm. simpl.
    split; [split; [intros _ es1 e es2 Heq; by destruct es1|by eexists]|]. intros ts' [= <-]. split; [done|]. by eexists.
  - apply Forall_app in Hok as [Hok He]. rewrite Forall_singleton in He. destruct (IH Hok) as [Hiff Hrep].
    rewrite test_run_snoc, legal_snoc, <- Hiff. destruct (test_run n false es) as [ts|]; simpl.
    + destruct (Hrep ts eq_refl) as (Hf & la & Hr). destruct (test_step_spec _ ts _ la e Hr Hf He) as [Hs Hr'].
      split; [rewrite Hs; split; [intros ?; split; [by eexists|done]|tauto]|]. intros ts' Hts.
      destruct (Hr' ts' Hts) as (Hf' & la' & Hrep'). split; [done|]. exists la'.
      eapply rep_same; [done|done| |done|exact Hrep']. intros i. apply log_of_snoc.
    + split; [split; [by intros []|intros [[] _]]|]; done.
Qed.

(** ** Agreement *)

Definition agreement (n : Z) lg : Prop :=
  forall i j index w w', 0 <= i < n -> 0 <= j < n ->
    entry (lg i) index = Some w -> entry (lg j) index = Some w' -> w = w'.

Lemma agreement_logged n lg i index v :
  agreement n lg -> 0 <= i < n -> 1 <= index <= zlen (lg i) + 1 -> agree n lg index v ->
  forall lg', lg' i = logged (lg i) v index -> (forall j, j <> i -> lg' j = lg j) -> agreement n lg'.
Proof.
  intros Ha Hi Hx Hv lg' Hl Hne.
  assert (He : forall j k w, 0 <= j < n -> entry (lg' j) k = Some w ->
             entry (lg j) k = Some w \/ (k = index /\ w = v)).
  { intros j k w Hj Hw. destruct (decide (j = i)) as [->|Hji]; [|rewrite (Hne j Hji) in Hw; auto].
    assert (1 <= k) by (unfold entry in Hw; destruct (Z.ltb_spec k 1); [done|lia]).
    rewrite Hl, entry_logged in Hw; [|done|intros ?; by apply Hv|done].
    destruct (decide (k = index)); naive_solver. }
  intros a b k w w' Ha' Hb' Hw Hw'. destruct (He a k w Ha' Hw) as [H1|[Hk ->]], (He b k w' Hb' Hw') as [H2|[Hk' ->]]; subst.
  - exact (Ha a b k w w' Ha' Hb' H1 H2).
  - by apply (Hv a).
  - symmetry. by apply (Hv b).
  - done.
Qed.

Lemma legal_agreement n es : Forall (event_ok n) es -> legal n es -> agreement n (log_of es).
Proof.
  induction es as [|e es IH] using rev_ind; intros Hok Hl.
  { intros i j index w w' _ _ Hw. unfold entry in Hw. by destruct (index <? 1). }
  apply Forall_app in Hok as [Hok He]. rewrite Forall_singleton in He. apply legal_snoc in Hl as [Hl Hle].
  specialize (IH Hok Hl). destruct e as [i [v index t|b t k]|i ps]; simpl in *.
  - destruct He as [Hi Hx], Hle as [Hv Hle]. apply (agreement_logged n (log_of es) i index v IH Hi ltac:(lia) Hv).
    + rewrite log_of_snoc. simpl. by rewrite decide_True.
    + intros j Hj. rewrite log_of_snoc. simpl. by rewrite decide_False.
  - intros a b' x w w' Ha Hb. rewrite !log_of_snoc. by apply IH.
  - intros a b x w w' Ha Hb. rewrite !log_of_snoc. simpl.
    destruct (decide (i = a)); [intros Hw; unfold entry in Hw; by destruct (x <? 1)|].
    destruct (decide (i = b)); [intros _ Hw; unfold entry in Hw; by destruct (x <? 1)|]. by apply IH.
Qed.

Lemma prefix_or (l l' : list any) :
  (forall k w w', l !! k = Some w -> l' !! k = Some w' -> w = w') -> l `prefix_of` l' \/ l' `prefix_of` l.
Proof.
  revert l'. induction l as [|x l IH]; intros l' Hs; [left; apply prefix_nil|].
  destruct l' as [|y l']; [right; apply prefix_nil|]. rewrite (Hs 0%nat x y eq_refl eq_refl).
  destruct (IH l') as [?|?]; [intros k; apply (Hs (S k))|left|right]; by apply prefix_cons.
Qed.

Lemma agreement_prefix n lg i j :
  agreement n lg -> 0 <= i < n -> 0 <= j < n -> lg i `prefix_of` lg j \/ lg j `prefix_of` lg i.
Proof.
  intros Ha Hi Hj. apply prefix_or. intros k w w' Hw Hw'. apply (Ha i j (Z.of_nat k + 1)); [done|done|..];
    unfold entry; (destruct (Z.ltb_spec (Z.of_nat k + 1) 1); [lia|]); by replace (Z.to_nat _) with k by lia.
Qed.

(** The servers that have delivered entry [index]. *)
Definition committers (n : Z) lg (index : Z) : Z := zlen (filter (fun i => index <= zlen (lg i)) (seqZ 0 n)).

Lemma committers_pos n lg index : 0 < committers n lg index -> exists i, 0 <= i < n /\ index <= zlen (lg i).
Proof.
  unfold committers. intros Hpos. destruct (filter _ (seqZ 0 n)) as [|i ids] eqn:Ef.
  - unfold zlen in Hpos. simpl in Hpos. lia.
  - assert (Hi : i ∈ filter (fun i => index <= zlen (lg i)) (seqZ 0 n)) by (rewrite Ef; left).
    apply list_elem_of_filter in Hi as [Hlen Hi%elem_of_seqZ]. exists i. split; [lia|done].
Qed.

Lemma committers_S (j : nat) lg index :
  1 <= index -> committers (Z.of_nat (S j)) lg index
  = committers (Z.of_nat j) lg index + match entry (lg (Z.of_nat j)) index with Some _ => 1 | None => 0 end.
Proof.
  intros Hx. unfold committers. rewrite seqZ_S, filter_app, zlen_app. f_equal.
  rewrite Z.add_0_l, filter_cons, filter_nil. pose proof (entry_is_Some (lg (Z.of_nat j)) index Hx) as Hs.
  destruct (decide _) as [Hd|Hd]; [apply Hs in Hd as [? ->]; done|].
  destruct (entry (lg (Z.of_nat j)) index); [|done]. exfalso. apply Hd, Hs. by eexists.
Qed.

(** What [nCommitted] knows after the first [j] servers. *)
Definition counted lg index (j : Z) (st : Z * any) : Prop :=
  st.1 = committers j lg index /\ agree j lg index st.2
  /\ (0 < st.1 -> exists i, 0 <= i < j /\ entry (lg i) index = Some st.2).

Lemma count_server_spec n ts lg la index j o st :
  rep n ts lg la -> agreement n lg -> 1 <= index -> t_srvs ts !! j = Some o -> counted lg index (Z.of_nat j) st ->
  exists st', count_server ts index st o = Some st' /\ counted lg index (Z.of_nat (S j)) st'.
Proof.
  intros Hr Ha Hx Ho Hok. destruct (srvs_lookup n ts lg la j o Hr Ho) as (Hj & p & rs & -> & Hp & Hh).
  destruct st as [count cmd]. unfold count_server, deref, Logs. simpl. rewrite Hp. simpl. rewrite (hd_entry _ _ Hh) by done.
  destruct Hok as (Hc & Hag & Hin). simpl in *. pose proof (committers_S j lg index Hx) as Hcnt.
  destruct (entry (lg (Z.of_nat j)) index) as [w|] eqn:Ew.
  - destruct ((0 <? count) && bool_decide (cmd <> w)) eqn:Eb.
    { apply andb_prop in Eb as [Hpos Hne%bool_decide_eq_true]. apply Z.ltb_lt in Hpos.
      destruct (Hin Hpos) as (i & Hi & Hw). exfalso. apply Hne. by eapply (Ha i (Z.of_nat j)); [lia|lia|..]. }
    eexists. split; [done|]. split; [simpl; lia|]. split; simpl.
    + intros i w' Hi Hw'. by eapply (Ha i (Z.of_nat j)); [lia|lia|..].
    + intros _. exists (Z.of_nat j). split; [lia|done].
  - eexists. split; [done|]. split; [simpl; lia|]. split; simpl.
    + intros i w' Hi Hw'. destruct (decide (i = Z.of_nat j)) as [->|]; [congruence|]. apply (Hag i); [lia|done].
    + intros Hpos. destruct (Hin Hpos) as (i & Hi & Hw). exists i. split; [lia|done].
Qed.

Lemma nCommitted_spec n ts lg la index :
  rep n ts lg la -> agreement n lg -> 1 <= index ->
  exists cmd, nCommitted ts index = Some (committers n lg index, cmd) /\ agree n lg index cmd.
Proof.
  intros Hr Ha Hx.
  assert (Hloop : forall srvs j st, (forall k, srvs !! k = t_srvs ts !! (j + k)%nat) -> counted lg index (Z.of_nat j) st ->
    exists st', run_steps (count_server ts index) st srvs = Some st'
      /\ counted lg index (Z.of_nat (j + length srvs)) st').
  { induction srvs as [|o srvs IH]; intros j st Hsub Hok; [exists st; split; [done|]; simpl; by rewrite Nat.add_0_r|].
    pose proof (Hsub 0%nat) as Ho. simpl in Ho. rewrite Nat.add_0_r in Ho. rewrite run_steps_cons.
    destruct (count_server_spec n ts lg la index j o st Hr Ha Hx) as (st1 & -> & Hok1); [done|done|].
    destruct (IH (S j) st1) as (st' & Hrun & Hok'); [|done|].
    { intros k. specialize (Hsub (S k)). simpl in Hsub. rewrite Hsub. f_equal. lia. }
    exists st'. split; [done|]. simpl. by replace (j + S (length srvs))%nat with (S j + length srvs)%nat by lia. }
  destruct (Hloop (t_srvs ts) 0%nat (0, None)) as ([count cmd] & Hrun & Hc & Hag & _); [done| |].
  { split; [done|]. split; simpl; [|lia]. intros i w Hi. lia. }
  simpl in Hc, Hag. pose proof (rp_n _ _ _ _ _ Hr) as Hn. unfold zlen in Hn. rewrite Hn in Hc, Hag.
  exists cmd. split; [|done]. unfold nCommitted. rewrite Hrun. by rewrite Hc.
Qed.

(** ** Tests with snapshots

    [L] is the sequence of committed commands; a server that has delivered [k] of them makes a
    snapshot of the first [k]. *)

Section Snapshots.
Context `{!GobLaws (Z * list (option Cmd))} (n : Z) (L : list any).

Definition first (k : Z) : list any := take (Z.to_nat k) L.
Definition snap_of (k : Z) : bytes := gob_encode (k, None :: first k).

(** The events of servers that deliver [L]: each in order, from its start or from a snapshot
    that a server made; [pos i] is the number of commands server [i] has delivered. *)
Inductive follows : (Z -> Z) -> list (TestEvent (Cmd:=Cmd)) -> Prop :=
  | follows_nil pos : follows pos []
  | follows_command pos i v t es :
      0 <= i < n -> L !! Z.to_nat (pos i) = Some v -> follows (<[i := pos i + 1]> pos) es ->
      follows pos (Applied i (CommandMsg v (pos i + 1) t) :: es)
  | follows_snapshot pos i k t es :
      0 <= i < n -> 0 <= k <= zlen L -> follows (<[i := k]> pos) es ->
      follows pos (Applied i (SnapshotMsg (snap_of k) t k) :: es)
  | follows_restart pos i ps es :
      0 <= i < n -> snapshot ps = [] -> follows (<[i := 0]> pos) es -> follows pos (Restarted i ps :: es)
  | follows_recover pos i ps k es :
      0 <= i < n -> snapshot ps = snap_of k -> 0 <= k <= zlen L -> follows (<[i := k]> pos) es ->
      follows pos (Restarted i ps :: es).

Definition good_snap (s : Z * Z * bytes) : Prop :=
  let '(_, k, b) := s in 0 <= k <= zlen L /\ b = snap_of k.

Record snapped ts (pos : Z -> Z) : Prop := {
  sn_rep : rep n ts (fun i => first (pos i)) pos;
  sn_pos : forall i, 0 <= pos i <= zlen L;
  sn_mode : t_snapshot ts = true;
  sn_snaps : Forall good_snap (t_snaps ts);
}.

Lemma zlen_first k : 0 <= k <= zlen L -> zlen (first k) = k.
Proof. apply zlen_take. Qed.

Lemma entry_first k j w : entry (first k) j = Some w -> 1 <= j /\ L !! Z.to_nat (j - 1) = Some w.
Proof.
  unfold entry, first. destruct (Z.ltb_spec j 1); [done|]. intros Hw. split; [lia|].
  apply lookup_take_Some in Hw. tauto.
Qed.

Lemma first_logged k v : 0 <= k <= zlen L -> L !! Z.to_nat k = Some v -> logged (first k) v (k + 1) = first (k + 1).
Proof.
  intros Hk Hv. unfold logged. rewrite zlen_first by done. rewrite decide_True by done. unfold first.
  replace (Z.to_nat (k + 1)) with (S (Z.to_nat k)) by lia. by rewrite (take_S_r _ _ v).
Qed.

Lemma ingest_lookup (xs : list any) : forall k j, ingest k xs !! j = if j <? k then None else xs !! Z.to_nat (j - k).
Proof.
  induction xs as [|x xs IH]; intros k j; simpl; [by destruct (j <? k); rewrite ?lookup_nil, lookup_empty|].
  destruct (decide (j = k)) as [->|Hne].
  - rewrite lookup_insert_eq, Z.ltb_irrefl, Z.sub_diag. done.
  - rewrite lookup_insert_ne, IH by done. destruct (Z.ltb_spec j (k + 1)), (Z.ltb_spec j k); try lia; [done|].
    by replace (Z.to_nat (j - k)) with (S (Z.to_nat (j - (k + 1)))) by lia.
Qed.

Lemma holds_ingest rs k l : holds (set_lastApplied k (set_logs (ingest 0 (None :: l)) rs)) l.
Proof.
  split; cbn [rs_logs set_logs set_lastApplied]; [by rewrite ingest_lookup|]. intros j Hj. rewrite ingest_lookup.
  unfold entry. destruct (Z.ltb_spec j 0), (Z.ltb_spec j 1); try lia.
  by replace (Z.to_nat (j - 0)) with (S (Z.to_nat (j - 1))) by lia.
Qed.

Lemma collect_holds rs l : holds rs l -> collect (rs_logs rs) (zlen l) = None :: l.
Proof.
  intros [H0 Hh]. apply list_eq. intros j. unfold collect. rewrite list_lookup_fmap, seqZ_cons by (pose proof (zlen_nonneg l); lia).
  destruct j as [|j]; [simpl; by rewrite H0|]. rewrite lookup_cons, lookup_cons.
  destruct (decide (j < length l)%nat) as [Hlt|Hge].
  - rewrite lookup_seqZ_lt by (unfold zlen; lia). cbn [fmap option_fmap option_map]. rewrite Hh by lia. unfold entry.
    destruct (Z.ltb_spec (Z.succ 0 + Z.of_nat j) 1); [lia|]. replace (Z.to_nat _) with j by lia.
    by destruct (lookup_lt_is_Some_2 l j Hlt) as [w ->].
  - rewrite lookup_seqZ_ge by (unfold zlen; lia). simpl. by rewrite lookup_ge_None_2 by lia.
Qed.

Lemma snap_of_nonempty k : snap_of k <> [].
Proof. apply gob_nonempty. Qed.

Lemma snap_of_length k : (0 <? zlen (snap_of k)) = true.
Proof. pose proof (snap_of_nonempty k). unfold zlen. destruct (snap_of k); [done|]. apply Z.ltb_lt. simpl. lia. Qed.

(** A snapshot that a server made is accepted, by any server. *)
Lemma ingestSnap_spec ts p rs k index :
  t_heap ts !! p = Some rs -> index = -1 \/ index = k ->
  ingestSnap ts p (snap_of k) index
  = Some (update ts p (fun rs => set_lastApplied k (set_logs (ingest 0 (None :: first k)) rs)), None).
Proof.
  intros Hp Hx. unfold ingestSnap. rewrite Hp. cbn [mbind option_bind]. rewrite decide_False by apply snap_of_nonempty.
  unfold snap_of. rewrite gob_roundtrip. cbn [mbind option_bind].
  replace (negb (index =? -1) && negb (index =? k)) with false; [done|].
  destruct Hx as [-> | ->]; [done|]. by rewrite Z.eqb_refl, andb_false_r.
Qed.

Lemma pos_insert (pos : Z -> Z) i k : 0 <= k <= zlen L -> (forall j, 0 <= pos j <= zlen L) ->
  forall j, 0 <= (<[i := k]> pos) j <= zlen L.
Proof.
  intros Hk Hpos j. destruct (decide (i = j)) as [<-|]; [by rewrite fn_lookup_insert|by rewrite fn_lookup_insert_ne].
Qed.

Lemma first_insert (pos : Z -> Z) i k l j :
  l = first k -> first ((<[i := k]> pos) j) = (<[i := l]> (fun i => first (pos i))) j.
Proof.
  intros ->. destruct (decide (i = j)) as [<-|]; [by rewrite !fn_lookup_insert|by rewrite !fn_lookup_insert_ne].
Qed.

(** The end of [applierSnap]: the index is recorded, and every tenth entry there is a snapshot. *)
Lemma after_command ts lg la i p rs k :
  rep n ts lg la -> server ts i p rs -> lg i = first k -> 0 <= k <= zlen L -> t_snapshot ts = true ->
  Forall good_snap (t_snaps ts) ->
  let ts1 := update ts p (set_lastApplied k) in
  exists ts', (if Z.rem (k + 1) SnapShotInterval =? 0 then
                 rs ← t_heap ts1 !! p;
                 ts ← raft_Snapshot ts1 p k (gob_encode (k, collect (rs_logs rs) k));
                 Some (ts, None)
               else Some (ts1, None : option (ErrMsg (Cmd:=Cmd)))) = Some (ts', None)
    /\ rep n ts' lg (<[i := k]> la) /\ t_snapshot ts' = true /\ Forall good_snap (t_snaps ts').
Proof.
  intros Hr Hs Hl Hk Hm Hsn ts1.
  assert (Hi : 0 <= i < n).
  { pose proof (slice_get_lt _ _ _ (sv_srvs _ _ _ _ Hs)). pose proof (rp_n _ _ _ _ _ Hr). lia. }
  destruct (rp_server _ _ _ _ _ Hr i Hi I) as (p' & rs' & Hs' & Hh & _).
  destruct (server_inj _ _ _ _ _ _ Hs Hs') as [<- <-].
  assert (Hr1 : rep n ts1 lg (<[i := k]> la)).
  { eapply rep_same; [..|eapply (rep_update n ts lg la i p rs (set_lastApplied k) (lg i) Hr Hs)]; [done|done| |done|done|apply Hs|].
    - intros j. destruct (decide (i = j)) as [<-|]; [by rewrite fn_lookup_insert|by rewrite fn_lookup_insert_ne].
    - by destruct Hh; split. }
  destruct (Z.rem (k + 1) SnapShotInterval =? 0); [|by exists ts1].
  assert (Hp : t_heap ts1 !! p = Some (set_lastApplied k rs)).
  { unfold ts1. simpl. by rewrite list_lookup_alter_eq, (sv_heap _ _ _ _ Hs). }
  rewrite Hp. cbn [mbind option_bind]. unfold raft_Snapshot. rewrite Hp. cbn [mbind option_bind set_lastApplied rs_raft].
  rewrite (sv_raft _ _ _ _ Hs). cbn [mbind option_bind]. eexists. split; [done|].
  split; [by eapply rep_same, Hr1|]. split; [done|]. apply Forall_cons_2; [|done]. split; [done|].
  unfold snap_of. do 2 f_equal. rewrite <- Hl, <- (collect_holds rs (lg i) Hh). by rewrite Hl, zlen_first.
Qed.

Lemma command_step ts pos i v t :
  snapped ts pos -> 0 <= i < n -> L !! Z.to_nat (pos i) = Some v ->
  exists ts', test_step ts (Applied i (CommandMsg v (pos i + 1) t)) = Some ts'
    /\ snapped ts' (<[i := pos i + 1]> pos).
Proof.
  intros [Hr Hpos Hm Hsn] Hi Hv. destruct (rp_server _ _ _ _ _ Hr i Hi I) as (p & rs & Hs & _ & Hla).
  assert (Hlt : pos i < zlen L) by (apply lookup_lt_Some in Hv; specialize (Hpos i); unfold zlen in *; lia).
  specialize (Hpos i) as Hpi.
  destruct (checkLogs_spec n ts _ pos i v (pos i + 1) Hr Hi ltac:(lia)) as (ts1 & err & prevok & Hc & Hm1 & Hsn1 & Hsr1 & Hiff & Hnext).
  assert (Hag : agree n (fun i => first (pos i)) (pos i + 1) v).
  { intros j w _ [_ Hw]%entry_first. rewrite Z.add_simpl_r in Hw. congruence. }
  assert (Hle : pos i + 1 <= zlen (first (pos i)) + 1) by (rewrite zlen_first by done; lia).
  specialize (Hnext Hag Hle). destruct (rp_server _ _ _ _ _ Hnext i Hi I) as (p' & rs1 & Hs1 & _).
  assert (p' = p) as ->.
  { pose proof (sv_srvs _ _ _ _ Hs1) as Hp. rewrite Hsr1, (sv_srvs _ _ _ _ Hs) in Hp. congruence. }
  destruct (after_command ts1 _ pos i p rs1 (pos i + 1) Hnext Hs1) as (ts' & Hend & Hr' & Hm' & Hsn').
  { rewrite fn_lookup_insert. by apply first_logged. }
  { lia. }
  { congruence. }
  { by rewrite Hsn1. }
  exists ts'. split.
  - unfold test_step. rewrite (sv_srvs _ _ _ _ Hs). cbn [mbind option_bind]. unfold reader. rewrite Hm. unfold applierSnap.
    rewrite (sv_heap _ _ _ _ Hs). cbn [mbind option_bind]. rewrite Hla, Z.eqb_refl. cbn [negb].
    rewrite (sv_me _ _ _ _ Hs), Hc. cbn [mbind option_bind]. rewrite (proj2 Hiff) by done. cbn zeta in Hend.
    cbv beta iota zeta. rewrite Hend. done.
  - split; [|apply pos_insert; [lia|done]|done|done]. eapply rep_same; [done|done| |done|exact Hr'].
    intros j. apply first_insert. by apply first_logged.
Qed.

Lemma snapshot_step ts pos i k t :
  snapped ts pos -> 0 <= i < n -> 0 <= k <= zlen L ->
  exists ts', test_step ts (Applied i (SnapshotMsg (snap_of k) t k)) = Some ts' /\ snapped ts' (<[i := k]> pos).
Proof.
  intros [Hr Hpos Hm Hsn] Hi Hk. destruct (rp_server _ _ _ _ _ Hr i Hi I) as (p & rs & Hs & _).
  eexists. split.
  - unfold test_step. rewrite (sv_srvs _ _ _ _ Hs). cbn [mbind option_bind]. unfold reader. rewrite Hm. unfold applierSnap.
    rewrite (ingestSnap_spec ts p rs k k); [done|apply Hs|by right].
  - split; [|by apply pos_insert|done|done].
    eapply rep_same; [done|done| |done|eapply (rep_update n ts _ pos i p rs
      (fun rs => set_lastApplied k (set_logs (ingest 0 (None :: first k)) rs)) (first k) Hr Hs)];
      [by intros j; apply first_insert|done|apply Hs|apply holds_ingest].
Qed.

Lemma restart_step ts pos i ps :
  snapped ts pos -> 0 <= i < n -> snapshot ps = [] ->
  exists ts', test_step ts (Restarted i ps) = Some ts' /\ snapped ts' (<[i := 0]> pos).
Proof.
  intros [Hr Hpos Hm Hsn] Hi Hps. destruct (rp_server _ _ _ _ _ Hr i Hi I) as (p & rs & Hs & _).
  destruct (mksrv_plain _ n (Kill ts p) _ pos i ps (rep_Kill _ _ _ _ _ _ _ Hr Hs) Hi) as (ts' & Hmk & Hm' & Hsn' & Hr').
  { unfold ReadSnapshot, clone. rewrite Hps. by rewrite andb_false_r. }
  exists ts'. split; [unfold test_step; by rewrite (sv_srvs _ _ _ _ Hs)|]. simpl in Hm', Hsn'.
  split; [|apply pos_insert; [pose proof (zlen_nonneg L); lia|done]|congruence|by rewrite Hsn'].
  eapply rep_weaken; [eapply rep_same; [done|done| |done|exact Hr']|].
  - intros j. by apply first_insert.
  - intros j _ _. destruct (decide (j = i)); auto.
Qed.

Lemma recover_step ts pos i ps k :
  snapped ts pos -> 0 <= i < n -> snapshot ps = snap_of k -> 0 <= k <= zlen L ->
  exists ts', test_step ts (Restarted i ps) = Some ts' /\ snapped ts' (<[i := k]> pos).
Proof.
  intros [Hr Hpos Hm Hsn] Hi Hps Hk. destruct (rp_server _ _ _ _ _ Hr i Hi I) as (p & rs & Hs & _).
  pose proof (rep_Kill _ _ _ _ _ _ _ Hr Hs) as Hkl. pose proof (rp_n _ _ _ _ _ Hkl) as Hn.
  unfold test_step. rewrite (sv_srvs _ _ _ _ Hs). cbn [mbind option_bind]. unfold mksrv, newRfsrv, ReadSnapshot, clone.
  rewrite Hps.
  replace (t_snapshot _ && (0 <? zlen (snap_of k))) with true by (simpl; by rewrite Hm, snap_of_length).
  set (q := length (t_heap (Kill ts p))). set (new := mkRfsrv i 0 true ∅).
  set (ts1 := set_heap (Kill ts p) (t_heap (Kill ts p) ++ [new])).
  assert (Hq : t_heap ts1 !! q = Some new) by (by apply list_lookup_middle).
  rewrite (ingestSnap_spec ts1 q new k (-1)) by auto. cbn [mbind option_bind fatal].
  cbn [t_srvs update set_heap ts1]. rewrite slice_set_Some by lia. cbn [mbind option_bind].
  eexists. split; [done|]. split; [|by apply pos_insert|done|done].
  eapply rep_weaken;
    [eapply rep_same; [done|done| |done|eapply (rep_register _ n (Kill ts p) _ _ pos i
       (set_lastApplied k (set_logs (ingest 0 (None :: first k)) new)) (first k) Hkl Hi)];
       [|done|done|apply holds_ingest| |by rewrite slice_set_Some by lia]|].
  - intros j. by apply first_insert.
  - cbn [t_heap update set_heap ts1]. rewrite alter_app_r_alt by done. unfold q. by rewrite Nat.sub_diag.
  - intros j _ _. destruct (decide (j = i)); auto.
Qed.

Lemma follows_run ts pos es :
  snapped ts pos -> follows pos es -> exists ts' pos', run_steps test_step ts es = Some ts' /\ snapped ts' pos'.
Proof.
  intros Hs Hf. revert ts Hs. induction Hf as [pos|pos i v t es Hi Hv _ IH|pos i k t es Hi Hk _ IH|pos i ps es Hi Hps _ IH|pos i ps k es Hi Hps Hk _ IH];
    intros ts Hs; [by exists ts, pos|rewrite run_steps_cons..].
  - destruct (command_step ts pos i v t Hs Hi Hv) as (ts1 & -> & Hs1). by apply IH.
  - destruct (snapshot_step ts pos i k t Hs Hi Hk) as (ts1 & -> & Hs1). by apply IH.
  - destruct (restart_step ts pos i ps Hs Hi Hps) as (ts1 & -> & Hs1). by apply IH.
  - destruct (recover_step ts pos i ps k Hs Hi Hps Hk) as (ts1 & -> & Hs1). by apply IH.
Qed.

Lemma first_agreement pos : agreement n (fun i => first (pos i)).
Proof. intros i j index w w' _ _ [_ Hw]%entry_first [_ Hw']%entry_first. congruence. Qed.
End Snapshots.
End Oracle.

(** ** Leaders *)

(** The connected leaders of term [t], from server [i] on. *)
Fixpoint lead_ids (i : Z) (seen : list Seen) (t : Z) : list Z :=
  match seen with
  | [] => []
  | s :: seen =>
      if s_connected s && s_leader s && (s_term s =? t) then i :: lead_ids (i + 1) seen t else lead_ids (i + 1) seen t
  end.

Lemma leaders_from_lookup seen : forall i acc t,
  leaders_from i seen acc !! t
  = if decide (lead_ids i seen t = []) then acc !! t else Some (default [] (acc !! t) ++ lead_ids i seen t).
Proof.
  induction seen as [|s seen IH]; intros i acc t; [done|]. cbn [leaders_from lead_ids]. rewrite IH.
  destruct (s_connected s && s_leader s); [|done]. cbn [andb]. destruct (Z.eqb_spec (s_term s) t) as [<-|Hne].
  - rewrite lookup_insert_eq. rewrite (decide_False (P := _ :: _ = [])) by done.
    destruct (decide _) as [->|]; [done|]. simpl. by rewrite <- app_assoc.
  - by rewrite lookup_insert_ne.
Qed.

Lemma leaders_lookup seen t ls :
  leaders_from 0 seen ∅ !! t = Some ls <-> ls = lead_ids 0 seen t /\ ls <> [].
Proof.
  rewrite leaders_from_lookup, lookup_empty. simpl. destruct (decide _) as [->|]; naive_solver.
Qed.

(** The loop over the terms: no term may have two leaders, and the last one is found. *)
Lemma last_term (l : list (Z * list Z)) : forall last,
  match run_steps (fun last '(term, ls) => if 1 <? zlen ls then None else Some (if last <? term then term else last)) last l with
  | Some r => (forall t ls, (t, ls) ∈ l -> zlen ls <= 1 /\ t <= r) /\ last <= r /\ (r = last \/ r ∈ l.*1)
  | None => exists t ls, (t, ls) ∈ l /\ 1 < zlen ls
  end.
Proof.
  induction l as [|[t ls] l IH]; intros last; [simpl; split; [set_solver|]; split; [lia|auto]|].
  rewrite run_steps_cons. destruct (Z.ltb_spec 1 (zlen ls)) as [Hgt|Hle].
  { exists t, ls. split; [left|done]. }
  cbn [mbind option_bind]. set (m := if last <? t then t else last).
  assert (Hm : last <= m /\ t <= m /\ (m = last \/ m = t)) by (unfold m; destruct (Z.ltb_spec last t); lia).
  specialize (IH m). destruct (run_steps _ m l) as [r|].
  - destruct IH as (Hall & Hr & Hin). split; [|split; [lia|]].
    + intros t' ls' [[= -> ->]|Hin']%elem_of_cons; [lia|by apply Hall].
    + cbn [fmap list_fmap fst]. rewrite elem_of_cons. destruct Hin as [->|]; [|auto]. destruct Hm as (_ & _ & [|]); auto.
  - destruct IH as (t' & ls' & Hin & ?). exists t', ls'. split; [by right|done].
Qed.

(** One look at the servers: the test fails exactly if two connected servers lead one term, goes
    on if nobody leads, and otherwise finds the leader of the last term that has one. *)
Theorem one_leader_spec (order : gmap Z (list Z) -> list (Z * list Z)) (seen : list Seen) :
  (forall m, order m ≡ₚ map_to_list m) -> Forall (fun s => 0 <= s_term s) seen ->
  match one_leader order seen with
  | None => exists t, 1 < zlen (lead_ids 0 seen t)
  | Some None => forall t, lead_ids 0 seen t = []
  | Some (Some l) =>
      (forall t, zlen (lead_ids 0 seen t) <= 1)
      /\ exists t, lead_ids 0 seen t = [l] /\ forall t', lead_ids 0 seen t' <> [] -> t' <= t
  end.
Proof.
  intros Ho Hpos. unfold one_leader. set (leaders := leaders_from 0 seen ∅).
  assert (Hin : forall t ls, (t, ls) ∈ order leaders <-> ls = lead_ids 0 seen t /\ ls <> []).
  { intros t ls. rewrite Ho, elem_of_map_to_list. apply leaders_lookup. }
  pose proof (last_term (order leaders) (-1)) as Hlast. destruct (run_steps _ (-1) _) as [r|]; cbn [mbind option_bind].
  2:{ destruct Hlast as (t & ls & [-> _]%Hin & Hgt). by exists t. }
  destruct Hlast as (Hall & Hr & Hmax). destruct (decide (leaders = ∅)) as [He|Hne].
  { intros t. destruct (decide (lead_ids 0 seen t = [])) as [|Hne]; [done|].
    pose proof (proj2 (leaders_lookup seen t _) (conj eq_refl Hne)) as Hl. fold leaders in Hl. by rewrite He in Hl. }
  assert (Hone : forall t, zlen (lead_ids 0 seen t) <= 1 /\ (lead_ids 0 seen t <> [] -> t <= r)).
  { intros t. destruct (decide (lead_ids 0 seen t = [])) as [->|Ht]; [done|].
    destruct (Hall t (lead_ids 0 seen t)) as [? ?]; [by apply Hin|done]. }
  assert (Hlead : lead_ids 0 seen r <> []).
  { destruct Hmax as [->|Hr']; [|apply list_elem_of_fmap in Hr' as ([t ls] & -> & [-> ?]%Hin); done].
    exfalso. apply map_choose in Hne as (t & ls & [-> Hls]%leaders_lookup). destruct (Hone t) as [_ Ht].
    specialize (Ht Hls). assert (Ht0 : forall i, lead_ids i seen t = []); [|by rewrite Ht0 in Hls].
    clear -Hpos Ht. induction Hpos as [|s l Hs _ IH]; intros i; [done|]. simpl. rewrite IH.
    destruct (Z.eqb_spec (s_term s) t); [lia|by rewrite andb_false_r]. }
  unfold leaders. rewrite (proj2 (leaders_lookup seen r _) (conj eq_refl Hlead)).
  destruct (Hone r) as [Hr1 _]. destruct (lead_ids 0 seen r) as [|l [|]] eqn:El; [done| |unfold zlen in Hr1; simpl in Hr1; lia].
  cbn. split; [apply Hone|]. exists r. split; [done|]. intros t. apply Hone.
Qed.

(** ** The oracle *)

(** C38.  The oracle of the Raft tests is exact.  In a test without snapshots, in which peers
    deliver entries (from index 1 on) and servers crash and restart, the test goes on exactly if
    every delivered entry is the next one of its server or one it delivered before, and no server
    has another command at its index.  While it goes on, of the logs of any two servers one is a
    prefix of the other, and [nCommitted] never fails: it counts the servers that have the entry and
    returns their command. *)
Theorem raft_oracle_exact {Cmd} `{!EqDecision Cmd} `{Gob (Z * list (option Cmd))}
    (n : nat) (es : list (TestEvent (Cmd:=Cmd))) :
  Forall (event_ok (Z.of_nat n)) es ->
  (is_Some (test_run n false es) <-> legal (Z.of_nat n) es)
  /\ forall ts, test_run n false es = Some ts ->
     (forall i j, 0 <= i < Z.of_nat n -> 0 <= j < Z.of_nat n ->
        log_of es i `prefix_of` log_of es j \/ log_of es j `prefix_of` log_of es i)
     /\ forall index, 1 <= index ->
        exists cmd, nCommitted ts index = Some (committers (Z.of_nat n) (log_of es) index, cmd)
          /\ agree (Z.of_nat n) (log_of es) index cmd.
Proof.
  intros Hok. destruct (test_run_spec n es Hok) as [Hiff Hrep]. split; [done|]. intros ts Hts.
  assert (Ha : agreement (Z.of_nat n) (log_of es)).
  { apply legal_agreement; [done|]. apply Hiff. by eexists. }
  destruct (Hrep ts Hts) as (_ & la & Hr). split.
  - intros i j Hi Hj. by eapply agreement_prefix.
  - intros index Hx. by eapply nCommitted_spec.
Qed.

(** In a test with snapshots, servers that deliver one sequence [L], in order, from their start
    or from snapshots, pass: nothing fails, every snapshot they hand to Raft is one of a prefix
    of [L] (so that it may be installed later), and [nCommitted] returns entries of [L]. *)
Theorem raft_oracle_accepts_snapshots {Cmd} `{!EqDecision Cmd} `{Gob (Z * list (option Cmd))}
    `{!GobLaws (Z * list (option Cmd))} (n : nat) (L : list (option Cmd)) (es : list (TestEvent (Cmd:=Cmd))) :
  follows (Z.of_nat n) L (fun _ => 0) es ->
  exists ts, test_run n true es = Some ts /\ Forall (good_snap L) (t_snaps ts)
    /\ forall index, 1 <= index -> exists count cmd, nCommitted ts index = Some (count, cmd)
       /\ (0 < count -> L !! Z.to_nat (index - 1) = Some cmd).
Proof.
  intros Hf. destruct (makeTest_spec n true) as (ts0 & Hm & Hmode & Hsn & Hr0).
  destruct (follows_run (Z.of_nat n) L ts0 (fun _ => 0) es) as (ts & pos & Hrun & [Hr Hpos _ Hgood]); [|done|].
  { split; [done|intros _; pose proof (zlen_nonneg L); lia|done|by rewrite Hsn]. }
  exists ts. split; [unfold test_run; by rewrite Hm|]. split; [done|]. intros index Hx.
  destruct (nCommitted_spec _ ts _ pos index Hr (first_agreement _ L pos) Hx) as (cmd & Hn & Hag).
  eexists _, cmd. split; [done|]. intros (i & Hi & Hlen)%committers_pos.
  apply entry_is_Some in Hlen as [w Hw]; [|done]. rewrite <- (Hag i w Hi Hw). by apply entry_first in Hw as [_ ?].
Qed.

(** ** Tests that run *)

#[local] Instance test_gob : Gob (Z * list (option Z)) := countable_gob (Z * list (option Z)).
#[local] Instance test_gob_laws : GobLaws (Z * list (option Z)) := countable_gob_laws (Z * list (option Z)).

(** Two of three servers deliver 7 and 8; one crashes and starts again. *)
Definition good_test : list (TestEvent (Cmd:=Z)) :=
  [Applied 0 (CommandMsg (Some 7) 1 1); Applied 1 (CommandMsg (Some 7) 1 1); Applied 0 (CommandMsg (Some 8) 2 1);
   Restarted 0 MakePersister; Applied 0 (CommandMsg (Some 7) 1 1)].

Lemma raft_oracle_exact_witness :
  exists ts, test_run 3 false good_test = Some ts
    /\ (log_of good_test 0 `prefix_of` log_of good_test 1 \/ log_of good_test 1 `prefix_of` log_of good_test 0)
    /\ nCommitted ts 1 = Some (2, Some 7).
Proof.
  destruct (raft_oracle_exact 3 good_test) as [_ Hall].
  - repeat (apply Forall_cons_2; [simpl; lia|]). apply Forall_nil_2.
  - destruct (test_run 3 false good_test) as [ts|] eqn:E; [|vm_compute in E; discriminate E].
    exists ts. split; [reflexivity|]. destruct (Hall ts eq_refl) as [Hp _]. split; [apply Hp; lia|].
    vm_compute in E. injection E as <-. vm_compute. reflexivity.
Defined.

(** Server 0 delivers nine commands and hands Raft a snapshot of them, which server 1
    installs. *)
Definition nine : list (option Z) := Some <$> seqZ 1 10.
Definition snapshot_test : list (TestEvent (Cmd:=Z)) :=
  ((fun k => Applied 0 (CommandMsg (Some k) k 1)) <$> seqZ 1 9)
  ++ [Applied 1 (SnapshotMsg (snap_of nine 9) 1 9); Applied 1 (CommandMsg (Some 10) 10 1)].

Lemma raft_oracle_accepts_snapshots_witness :
  exists ts, test_run 2 true snapshot_test = Some ts /\ Forall (good_snap nine) (t_snaps ts)
    /\ nCommitted ts 9 = Some (2, Some 9) /\ nCommitted ts 10 = Some (1, Some 10).
Proof.
  destruct (raft_oracle_accepts_snapshots 2 nine snapshot_test) as (ts & Hrun & Hgood & _).
  - change snapshot_test with
      (((fun k => Applied 0 (CommandMsg (Some k) k 1)) <$> [1; 2; 3; 4; 5; 6; 7; 8; 9])
       ++ [Applied 1 (SnapshotMsg (snap_of nine 9) 1 9); Applied 1 (CommandMsg (Some 10) 10 1)]).
    cbn [fmap list_fmap app].
    do 9 (refine (follows_command _ _ _ 0 _ _ _ _ _ _); [lia|reflexivity|]).
    refine (follows_snapshot _ _ _ 1 9 _ _ _ _ _); [lia|split; [lia|discriminate]|].
    refine (follows_command _ _ _ 1 _ _ _ _ _ _); [lia|reflexivity|]. constructor.
  - exists ts. split; [exact Hrun|]. split; [exact Hgood|]. vm_compute in Hrun. injection Hrun as <-. split; vm_compute; reflexivity.
Defined.

(** What the servers of a cluster have announced, as events of a test. *)
Definition announcements (c : Cluster Z) : list (TestEvent (Cmd:=Z)) :=
  mjoin (imap (fun i nd => Applied (Z.of_nat i) <$> nd_applied nd) (cl_nodes c)).

(** The oracle stops the test when the two leaders of [RaftFlaws] have committed different
    commands. *)
Lemma divergence_is_caught :
  exists c, steps (init_cluster 3) divergence = Some c /\ test_run 3 false (announcements c) = None.
Proof.
  destruct (steps (init_cluster 3) divergence) as [c|] eqn:E; vm_compute in E; [|discriminate E].
  exists c. split; [done|]. injection E as <-. vm_compute. reflexivity.
Qed.

(** A false alarm: the reader of a server that was replaced ([old]) gets one more message, which
    [checkLogs] compares with, and would write to, the log of its successor.  The same message
    is accepted before the restart. *)
Lemma message_of_replaced_server_fails :
  exists ts old, test_run 3 false [Applied 0 (CommandMsg (Some 7) 1 1)] = Some ts /\ t_srvs ts !! 0%nat = Some (Some old)
    /\ is_Some (reader ts old (CommandMsg (Some 8) 2 1))
    /\ (ts' ← test_step ts (Restarted 0 MakePersister); reader ts' old (CommandMsg (Some 8) 2 1)) = None.
Proof.
  eexists _, _. split; [vm_compute; reflexivity|]. split; [vm_compute; reflexivity|].
  split; [vm_compute; by eexists|vm_compute; reflexivity].
Qed.
