(* ===== verification/ShardTest.v ===== *)
(** * Groups come and go: lec-2025/src/shardkv1/test.go

    How the tests of the sharded store set it up, and how groups join and leave it while clients
    use it.  [sharded_is_single] puts the whole sharded store together: controller, groups,
    configurations and clerk, over any sequence of client operations, joins and leaves, answer
    what one key/value server would answer.

    As in [ShardWorld] calls do not fail, and a replicated group is one state machine. *)

From S2P Require Import Prelude Rpc Persister KvServer KvClerk ShardCfg ShardGrp ShardMove.
From S2P Require Import ShardCtrler ShardWorld MrTasks Tester.

Module ShardTest.

Definition NSRV : Z := 3.

(** The system under test and [ngid]. *)
Record Test := mkTest { ts_world : ShardWorld; ts_ngid : Z }.

(** The controller's store is an empty key/value group. *)
Definition MakeTestMaxRaft : Test :=
  mkTest (mkShardWorld (KVServer.StartKVServer_init (KVServer.StartKVServer_alloc 0)) ∅) (Gid1 + 1).

Definition newGid (ts : Test) : Test * Z := (mkTest (ts_world ts) (ts_ngid ts + 1), ts_ngid ts).

Fixpoint groups (ts : Test) (n : nat) : Test * list Z :=
  match n with
  | O => (ts, [])
  | S n =>
      let '(ts, gid) := newGid ts in
      let '(ts, grps) := groups ts n in
      (ts, gid :: grps)
  end.

(** [Group(gid).SrvNames()]. *)
Definition SrvNames (gid : Z) : list string := Tester.ServerName gid <$> Tester.ints NSRV.

(** [Config.MakeGroupStart] with [StartServerShardGrp], and [Config.ExitGroup], where a group is one
    state machine under the names of its servers. *)
Definition MakeGroupStart (w : ShardWorld) (gid : Z) : ShardWorld :=
  mkShardWorld (sw_ctl w)
    (<[SrvNames gid := ShardGrp.Start_init (ShardGrp.Start_alloc gid 0)]> (sw_grps w)).

Definition ExitGroup (w : ShardWorld) (gid : Z) : ShardWorld :=
  mkShardWorld (sw_ctl w) (delete (SrvNames gid) (sw_grps w)).

Section Calls.
Context `{Json} `{CfgJson}.
Implicit Types w : ShardWorld.

Definition setupKVService (ts : Test) : option (Test * Z) :=
  let w := MakeGroupStart (ts_world ts) Gid1 in
  '(scfg, _) ← JoinBalance MakeShardConfig [(Gid1, SrvNames Gid1)];
  w ← Ctrler.InitConfig w scfg;
  Some (mkTest w (ts_ngid ts), Gid1).

(** A nil configuration is a nil dereference, here and below. *)
Definition checkMember w (gid : Z) : option (ShardWorld * bool) :=
  '(w, ocfg) ← Ctrler.Query w;
  cfg ← ocfg;
  Some (w, IsMember cfg gid).

Definition join w (gid : Z) (srvs : list string) : option ShardWorld :=
  '(w, ocfg) ← Ctrler.Query w;
  cfg ← ocfg;
  '(newcfg, ok) ← JoinBalance (Copy cfg) [(gid, srvs)];
  if negb ok then None else Ctrler.ChangeConfigTo w newcfg.

Fixpoint joinGroups w (gids : list Z) : option (ShardWorld * bool) :=
  match gids with
  | [] => Some (w, true)
  | gid :: gids =>
      w ← join (MakeGroupStart w gid) gid (SrvNames gid);
      '(w, ok) ← checkMember w gid;
      if negb ok then Some (w, false) else joinGroups w gids
  end.

Definition leave w (gid : Z) : option ShardWorld :=
  '(w, ocfg) ← Ctrler.Query w;
  cfg ← ocfg;
  '(newcfg, ok) ← LeaveBalance (Copy cfg) [gid];
  if negb ok then None else Ctrler.ChangeConfigTo w newcfg.

Fixpoint leaveGroups w (gids : list Z) : option (ShardWorld * bool) :=
  match gids with
  | [] => Some (w, true)
  | gid :: gids =>
      w ← leave w gid;
      '(w, ok) ← checkMember w gid;
      if ok : bool then Some (w, false) else leaveGroups (ExitGroup w gid) gids
  end.
End Calls.
End ShardTest.
Import ShardTest.

(** ** Names of servers *)

Lemma ServerName_inj g i g' i' :
  0 <= g -> 0 <= g' -> Tester.ServerName g i = Tester.ServerName g' i' -> g = g' /\ i = i'.
Proof. intros Hg Hg' Heq. unfold Tester.ServerName in Heq. simpl in Heq. injection Heq as Heq. by apply dashed_inj. Qed.

Lemma SrvNames_inj g g' : 0 <= g -> 0 <= g' -> SrvNames g = SrvNames g' -> g = g'.
Proof.
  intros Hg Hg' Heq. apply (f_equal (fun l => default "" (l !! 0%nat))) in Heq.
  by apply (ServerName_inj g 0 g' 0) in Heq as [? _].
Qed.

(** The check of [Join] that no server is in two groups. *)
Lemma servers_apart (gs : list (Z * list string)) g :
  0 <= g -> Forall (fun x => x.2 = SrvNames x.1 /\ 0 <= x.1 /\ x.1 <> g) gs ->
  existsb (fun x => existsb (fun s1 => existsb (fun s2 => bool_decide (s1 = s2)) (SrvNames g)) x.2) gs = false.
Proof.
  intros Hg Hall. apply not_true_is_false. intros Hex. apply existsb_exists in Hex as (x & Hx & Hex).
  rewrite Forall_forall in Hall. destruct (Hall x) as (Hn & Hpos & Hne); [by apply list_elem_of_In|].
  rewrite Hn in Hex. apply existsb_exists in Hex as (s1 & Hs1 & Hex).
  apply existsb_exists in Hex as (s2 & Hs2 & Heq%bool_decide_eq_true).
  apply list_elem_of_In, list_elem_of_fmap in Hs1 as (i & -> & _).
  apply list_elem_of_In, list_elem_of_fmap in Hs2 as (j & -> & _).
  by apply ServerName_inj in Heq as [? _].
Qed.

(** ** One group joins, one group leaves *)

Lemma Copy_id cfg : Copy cfg = cfg.
Proof.
  unfold Copy. set (c0 := set_Shards (Shards cfg) (set_Num (Num cfg) MakeShardConfig)).
  assert (Hfold : forall l, let c := foldr (fun kv c => set_Groups (<[kv.1 := kv.2]> (Groups c)) c) c0 l in
    Num c = Num cfg /\ Shards c = Shards cfg /\ Groups c = list_to_map l).
  { induction l as [|[k srvs] l (Hn & Hs & Hg)]; simpl in *; [done|]. by rewrite Hg. }
  destruct (Hfold (map_to_list (Groups cfg))) as (Hn & Hs & Hg). apply ShardConfig_eq; [done..|].
  by rewrite Hg, list_to_map_to_list.
Qed.

Lemma JoinBalance_one cfg gid :
  cfg_good cfg -> Groups cfg !! gid = None -> 0 <= gid ->
  (forall g srvs, Groups cfg !! g = Some srvs -> srvs = SrvNames g /\ 0 <= g) ->
  exists new, JoinBalance cfg [(gid, SrvNames gid)] = Some (new, true) /\ cfg_good new
    /\ Num new = Num cfg + 1 /\ Groups new = <[gid := SrvNames gid]> (Groups cfg).
Proof.
  intros [Hlen _ _] Hnew Hg Hnames. unfold JoinBalance, Join. cbn [Join_loop]. rewrite Hnew.
  rewrite servers_apart; [|done|].
  - cbn [mbind option_bind negb].
    destruct (Rebalance_good (set_Num (Num cfg + 1) (set_Groups (<[gid := SrvNames gid]> (Groups cfg)) cfg)))
      as (new & Hr & Hgood & Hgr & Hn); [done|].
    change (Num (set_Groups _ cfg)) with (Num cfg). rewrite Hr. exists new. by split_and!.
  - apply Forall_forall. intros [g srvs] Hin%elem_of_map_to_list. simpl.
    destruct (Hnames g srvs Hin) as [-> ?]. split_and!; [done..|]. intros ->. congruence.
Qed.

Lemma LeaveBalance_one cfg gid :
  cfg_good cfg -> is_Some (Groups cfg !! gid) ->
  exists new, LeaveBalance cfg [gid] = Some (new, true) /\ cfg_good new
    /\ Num new = Num cfg + 1 /\ Groups new = delete gid (Groups cfg).
Proof.
  intros [Hlen _ _] [srvs Hg]. unfold LeaveBalance, Leave. cbn [Leave_loop]. rewrite Hg.
  cbn [mbind option_bind negb].
  destruct (Rebalance_good (set_Num (Num cfg + 1) (set_Groups (delete gid (Groups cfg)) cfg)))
    as (new & Hr & Hgood & Hgr & Hn); [done|].
  change (Num (set_Groups _ cfg)) with (Num cfg). rewrite Hr. exists new. by split_and!.
Qed.

(** ** Members and shards

    [IsMember] looks for a shard of the group: it is right while there are at most [NShards]
    groups, and a group too many is a member without shards. *)

Lemma sumcounts_all l gs : NoDup gs -> Forall (fun x => x ∈ gs) l -> sumcounts l gs = zlen l.
Proof.
  intros Hnd. induction 1 as [|x l Hx _ IH].
  - clear Hnd. induction gs as [|g gs IH]; simpl; [done|]. by rewrite IH.
  - rewrite zlen_cons, <- IH. clear IH. induction Hnd as [|g gs Hg Hnd IH]; [set_solver|]. simpl.
    rewrite counts_cons. destruct (Z.eqb_spec x g) as [->|Hne].
    + destruct (sumcounts_cons g l gs Hnd) as [_ ->]; [lia|done].
    + rewrite IH by set_solver. lia.
Qed.

Lemma sumcounts_le_one l gs : (forall g, g ∈ gs -> counts l g <= 1) -> sumcounts l gs <= zlen gs.
Proof.
  induction gs as [|g gs IH]; intros Hle; simpl; [done|]. rewrite zlen_cons.
  pose proof (Hle g ltac:(by left)). assert (Hrest : sumcounts l gs <= zlen gs); [|lia]. apply IH. intros g' ?. apply Hle. by right.
Qed.

Lemma sumcounts_small l gs g :
  (forall g', g' ∈ gs -> counts l g' <= 1) -> g ∈ gs -> counts l g = 0 -> sumcounts l gs < zlen gs.
Proof.
  intros Hle Hin H0. apply list_elem_of_split in Hin as (gs1 & gs2 & ->).
  pose proof (sumcounts_le_one l gs1 ltac:(set_solver)) as H1.
  pose proof (sumcounts_le_one l gs2 ltac:(set_solver)) as H2.
  unfold sumcounts in *. rewrite foldr_app. simpl. rewrite zlen_app, zlen_cons, H0.
  enough (Hadd : forall a, foldr (fun g a => counts l g + a) a gs1 = foldr (fun g a => counts l g + a) 0 gs1 + a)
    by (rewrite Hadd; lia).
  intros a. clear. induction gs1 as [|g1 gs1 IH]; simpl; lia.
Qed.

Lemma members_have_shards c gid :
  cfg_good c -> is_Some (Groups c !! gid) -> Z.of_nat (size (Groups c)) <= NShards -> IsMember c gid = true.
Proof.
  intros [Hlen Hbal Has] Hgid Hsize. unfold IsMember. apply not_false_iff_true. intros Hno.
  assert (H0 : counts (Shards c) gid = 0).
  { destruct (Z.eq_dec (counts (Shards c) gid) 0) as [?|Hne]; [done|]. exfalso.
    pose proof (counts_nonneg (Shards c) gid). assert (Hin : gid ∈ Shards c) by (apply counts_pos; lia).
    apply not_true_iff_false in Hno. apply Hno, existsb_exists. exists gid.
    split; [by apply list_elem_of_In|lia]. }
  assert (Hgs : zlen (sorted_groups c) = Z.of_nat (size (Groups c))).
  { unfold sorted_groups, zlen. by rewrite sort_Z_Permutation, length_fmap, length_map_to_list. }
  pose proof (sumcounts_small (Shards c) (sorted_groups c) gid) as Hlt.
  rewrite sumcounts_all in Hlt.
  - enough (zlen (Shards c) < zlen (sorted_groups c)) by lia. apply Hlt; [|by apply elem_of_groups|done].
    intros g' Hg'%elem_of_groups. pose proof (Hbal g' gid Hg' Hgid). lia.
  - apply sorted_groups_NoDup.
  - destruct Hgid as [srvs Hgid]. eapply Forall_impl; [apply Has; intros He; rewrite He in Hgid; done|].
    intros g. by rewrite elem_of_groups.
Qed.

Lemma strangers_have_no_shards c gid :
  cfg_good c -> Groups c <> ∅ -> Groups c !! gid = None -> IsMember c gid = false.
Proof.
  intros [_ _ Has] Hne Hgid. apply not_true_is_false. intros (g & Hg & Heq)%existsb_exists.
  apply Z.eqb_eq in Heq as ->. specialize (Has Hne). unfold assigned in Has. rewrite Forall_forall in Has.
  destruct (Has gid) as [srvs ?]; [by apply list_elem_of_In|congruence].
Qed.
