(* ===== verification/ShardService.v ===== *)
(** * The sharded store is one store

    The refinement of a single key/value server by the whole sharded service: [ShardTest]'s set-up,
    clients that read and write through the sharded clerk, groups that join and leave in between. *)

From S2P Require Import Prelude Rpc Persister KvServer KvClerk ShardCfg ShardGrp ShardMove.
From S2P Require Import ShardCtrler ShardWorld MrTasks Tester ShardTest.
Import ShardTest.

Inductive ShardOp :=
  | ClientGet (key : string)
  | ClientPut (key value : string) (version : Tversion)
  | JoinNew (n : nat)
  | LeaveGids (gids : list Z).

Inductive Answer :=
  | AnsGet (reply : string * Tversion * Err)
  | AnsPut (err : Err)
  | AnsGroups (ok : bool).

(** ** The service and its specification *)

Section Service.
Context `{Json} `{CfgJson}.

(** A client's first attempt, or a reconfiguration by the tester. *)
Definition shard_step (ts : Test) (op : ShardOp) : option (Test * Answer) :=
  match op with
  | ClientGet key =>
      '(w, r) ← ShardClerk.Get 1 (ts_world ts) key;
      Some (mkTest w (ts_ngid ts), AnsGet r)
  | ClientPut key value version =>
      '(w, err) ← ShardClerk.Put 1 (ts_world ts) key value version;
      Some (mkTest w (ts_ngid ts), AnsPut err)
  | JoinNew n =>
      let '(ts, gids) := groups ts n in
      '(w, ok) ← joinGroups (ts_world ts) gids;
      Some (mkTest w (ts_ngid ts), AnsGroups ok)
  | LeaveGids gids =>
      '(w, ok) ← leaveGroups (ts_world ts) gids;
      Some (mkTest w (ts_ngid ts), AnsGroups ok)
  end.
End Service.

(** One server, which knows nothing of groups. *)
Definition single_step (kv : KVServer.KVServer) (op : ShardOp) : option (KVServer.KVServer * Answer) :=
  match op with
  | ClientGet key =>
      '(kv, rep) ← KVServer.DoOp kv (KVServer.GetVal (mkGetArgs key));
      let r := KVServer.Get OK (Some rep) in Some (kv, AnsGet (gr_Value r, gr_Version r, gr_Err r))
  | ClientPut key value version =>
      '(kv, rep) ← KVServer.DoOp kv (KVServer.PutVal (mkPutArgs key value version));
      Some (kv, AnsPut (pr_Err (KVServer.Put OK (Some rep))))
  | JoinNew _ | LeaveGids _ => Some (kv, AnsGroups true)
  end.

(** The answers to a sequence of operations. *)
Fixpoint answers {S} (step : S -> ShardOp -> option (S * Answer)) (s : S) (ops : list ShardOp)
    : option (list Answer) :=
  match ops with
  | [] => Some []
  | op :: ops =>
      '(s, a) ← step s op;
      l ← answers step s ops;
      Some (a :: l)
  end.

(** Groups that leave are members and leave somebody behind; there are never more groups than
    shards; what clients write survives JSON. *)
Fixpoint may_run (clean : string -> Prop) (members : gset Z) (ngid : Z) (ops : list ShardOp) : Prop :=
  match ops with
  | [] => True
  | ClientGet _ :: ops => may_run clean members ngid ops
  | ClientPut key value _ :: ops => clean key /\ clean value /\ may_run clean members ngid ops
  | JoinNew n :: ops =>
      Z.of_nat (size members + n) <= NShards
      /\ may_run clean (list_to_set (seqZ ngid (Z.of_nat n)) ∪ members) (ngid + Z.of_nat n) ops
  | LeaveGids gids :: ops =>
      NoDup gids /\ list_to_set gids ⊂ members
      /\ may_run clean (members ∖ list_to_set gids) ngid ops
  end.

(** ** The invariant *)

Section Invariant.
Context `{Json} {clean : string -> Prop} `{!JsonLaws clean} `{CfgJson} `{!CfgJsonLaws}.
Implicit Types (w : ShardWorld) (cfg : ShardConfig) (m : gmap string ValueEntry).

(** [m] are the entries of the whole store. *)
Record running w (ngid : Z) cfg m : Prop := {
  rn_stored : stored (sw_ctl w) cfg;
  rn_placed : placed w cfg (ShardGrp.shardData m);
  rn_cfg : cfg_good cfg;
  rn_some : Groups cfg <> ∅;
  rn_names : forall gid srvs, Groups cfg !! gid = Some srvs -> srvs = SrvNames gid /\ 0 < gid < ngid;
  rn_grps : forall gid srvs, Groups cfg !! gid = Some srvs -> is_Some (sw_grps w !! srvs);
  rn_free : forall n, Num cfg < n -> KVServer.lookup (sw_ctl w) (Ctrler.config_key n) = None;
  rn_clean : map_Forall (fun k e => clean k /\ clean (ve_Value e)) m;
}.

Lemma cfg_full cfg :
  cfg_good cfg -> Groups cfg <> ∅ -> Groups cfg !! 0 = None -> full cfg.
Proof.
  intros [Hlen _ Has] Hne Hz. split; [done|]. intros s gid [_ Hs]%slice_get_Some.
  pose proof (Forall_lookup_1 _ _ _ _ (Has Hne) Hs) as [srvs Hg]. simpl in Hg.
  split; [intros ->; congruence|by exists srvs].
Qed.

Lemma no_group_0 cfg ngid :
  (forall gid srvs, Groups cfg !! gid = Some srvs -> srvs = SrvNames gid /\ 0 < gid < ngid) ->
  Groups cfg !! 0 = None.
Proof. intros Hn. destruct (Groups cfg !! 0) as [srvs|] eqn:E; [|done]. apply Hn in E as [_ ?]. lia. Qed.

Lemma running_full w ngid cfg m : running w ngid cfg m -> full cfg.
Proof. intros Hr. apply cfg_full; [apply Hr..|]. eapply no_group_0, Hr. Qed.

(** The current configuration is what controllers and clerks see. *)
Lemma running_query w ngid cfg m : running w ngid cfg m -> Ctrler.Query w = Some (w, Some cfg).
Proof. intros Hr. apply Query_stored, Hr. Qed.

Lemma running_ngid w ngid ngid' cfg m : ngid <= ngid' -> running w ngid cfg m -> running w ngid' cfg m.
Proof.
  intros Hle [? ? ? ? Hn ? ? ?]. constructor; try done.
  intros gid srvs Hg. destruct (Hn gid srvs Hg). split; [done|lia].
Qed.

(** A change to the next configuration. *)
Lemma running_change w ngid cfg m new :
  running w ngid cfg m -> cfg_good new -> Num new = Num cfg + 1 -> Groups new <> ∅ ->
  (forall gid srvs, Groups new !! gid = Some srvs ->
     srvs = SrvNames gid /\ 0 < gid < ngid /\ is_Some (sw_grps w !! srvs)) ->
  exists w', Ctrler.ChangeConfigTo w new = Some w' /\ running w' ngid new m.
Proof.
  intros Hr Hgood Hnum Hne Hnew. pose proof (running_full _ _ _ _ Hr) as Hfull.
  destruct Hr as [Hst Hpl _ _ Hnames _ Hfree Hcl].
  assert (Hnames' : forall gid srvs, Groups new !! gid = Some srvs -> srvs = SrvNames gid /\ 0 < gid < ngid)
    by (intros gid srvs Hg; by destruct (Hnew gid srvs Hg) as (? & ? & _)).
  destruct (ChangeConfigTo_placed w cfg new (ShardGrp.shardData m)) as (w' & Hch & Hst' & Hpl' & Hex & Hsame);
    try done.
  - apply cfg_full; [done..|]. by eapply no_group_0.
  - constructor.
    + intros gid s1 s2 [-> _]%Hnames [-> _]%Hnames'. done.
    + intros g1 g2 srvs [-> ?]%Hnames [Heq ?]%Hnames'. apply SrvNames_inj in Heq; [done|lia..].
  - lia.
  - apply Hfree. lia.
  - intros gid srvs Hg. by apply (Hnew gid).
  - intros s k e Hk. unfold ShardGrp.shardData in Hk. apply map_lookup_filter_Some in Hk as [Hk _].
    by apply (Hcl k).
  - exists w'. split; [done|]. constructor; try done.
    intros n Hn. rewrite Hsame; [apply Hfree; lia|done|]. intros ?%config_key_inj. lia.
Qed.

(** ** Groups start, join, leave and stop *)

Lemma running_other w ngid cfg m gid g srvs :
  running w ngid cfg m -> 0 < gid -> Groups cfg !! gid = None -> Groups cfg !! g = Some srvs ->
  srvs <> SrvNames gid.
Proof.
  intros Hr Hpos Hnone Hg Heq. destruct (rn_names _ _ _ _ Hr g srvs Hg) as [-> ?].
  apply SrvNames_inj in Heq; [|lia..]. congruence.
Qed.

(** Replacing what runs under the names of a group that is no member. *)
Lemma running_grps w ngid cfg m gid grps :
  running w ngid cfg m -> 0 < gid -> Groups cfg !! gid = None ->
  (forall srvs, srvs <> SrvNames gid -> grps !! srvs = sw_grps w !! srvs) ->
  (forall g, grps !! SrvNames gid = Some g -> live g /\ ShardGrp.read g = ShardGrp.no_maps) ->
  running (mkShardWorld (sw_ctl w) grps) ngid cfg m.
Proof.
  intros Hr Hpos Hnone Hsame Hown.
  assert (Hoth : forall g srvs, Groups cfg !! g = Some srvs -> grps !! srvs = sw_grps w !! srvs).
  { intros g srvs Hg. apply Hsame. by eapply running_other. }
  destruct Hr as [Hst [Hserv Hgrp] Hcfg Hne Hn Hex Hfree Hcl]. constructor; try done.
  - constructor; simpl.
    + intros s g Hs Hgs. destruct (Hserv s g Hs Hgs) as (srvs & kv & Hg & Hk & Hh).
      exists srvs, kv. split_and!; [done| |done]. by rewrite (Hoth g srvs Hg).
    + intros srvs kv Hk. destruct (decide (srvs = SrvNames gid)) as [->|Hd]; [|apply (Hgrp srvs); by rewrite <- Hsame].
      destruct (Hown kv Hk) as [Hl Hread]. split; [done|]. intros s. rewrite Hread. simpl. split; [|done].
      unfold ShardGrp.shardData. rewrite map_filter_empty, dom_empty_L. apply empty_subseteq.
  - intros g srvs Hg. simpl. rewrite (Hoth g srvs Hg). by apply (Hex g).
Qed.

Lemma running_start w ngid cfg m gid :
  running w ngid cfg m -> 0 < gid -> Groups cfg !! gid = None ->
  running (MakeGroupStart w gid) ngid cfg m /\ is_Some (sw_grps (MakeGroupStart w gid) !! SrvNames gid).
Proof.
  intros Hr Hpos Hnone. split; [|simpl; by rewrite lookup_insert_eq].
  apply (running_grps w ngid cfg m gid); try done.
  - intros srvs Hd. by rewrite lookup_insert_ne.
  - intros g. rewrite lookup_insert_eq. intros [= <-]. split; [by eexists|done].
Qed.

Lemma running_exit w ngid cfg m gid :
  running w ngid cfg m -> 0 < gid -> Groups cfg !! gid = None -> running (ExitGroup w gid) ngid cfg m.
Proof.
  intros Hr Hpos Hnone. apply (running_grps w ngid cfg m gid); try done.
  - intros srvs Hd. by rewrite lookup_delete_ne.
  - intros g. by rewrite lookup_delete_eq.
Qed.

Lemma join_ok w ngid cfg m gid :
  running w ngid cfg m -> 0 < gid < ngid -> Groups cfg !! gid = None ->
  exists w' new, join (MakeGroupStart w gid) gid (SrvNames gid) = Some w' /\ running w' ngid new m
    /\ Groups new = <[gid := SrvNames gid]> (Groups cfg).
Proof.
  intros Hr Hgid Hnone. destruct (running_start w ngid cfg m gid Hr ltac:(lia) Hnone) as [Hr1 Hex].
  set (w1 := MakeGroupStart w gid) in *. unfold join. rewrite (running_query _ _ _ _ Hr1).
  cbn [mbind option_bind]. rewrite Copy_id.
  destruct (JoinBalance_one cfg gid) as (new & Hj & Hgood & Hnum & Hgr); [apply Hr|done|lia| |].
  { intros g srvs Hg. destruct (rn_names _ _ _ _ Hr g srvs Hg). split; [done|lia]. }
  rewrite Hj. cbn [mbind option_bind negb].
  destruct (running_change w1 ngid cfg m new Hr1 Hgood Hnum) as (w' & Hch & Hr').
  - rewrite Hgr. apply insert_non_empty.
  - intros g srvs. rewrite Hgr. intros [[<- <-]|[_ Hg]]%lookup_insert_Some; [done|].
    destruct (rn_names _ _ _ _ Hr1 g srvs Hg). split_and!; [done|lia|lia|by apply (rn_grps _ _ _ _ Hr1 g)].
  - exists w', new. by split_and!.
Qed.

Lemma leave_ok w ngid cfg m gid :
  running w ngid cfg m -> is_Some (Groups cfg !! gid) -> delete gid (Groups cfg) <> ∅ ->
  exists w' new, leave w gid = Some w' /\ running w' ngid new m /\ Groups new = delete gid (Groups cfg).
Proof.
  intros Hr Hgid Hne. unfold leave. rewrite (running_query _ _ _ _ Hr).
  cbn [mbind option_bind]. rewrite Copy_id.
  destruct (LeaveBalance_one cfg gid) as (new & Hj & Hgood & Hnum & Hgr); [apply Hr|done|].
  rewrite Hj. cbn [mbind option_bind negb].
  destruct (running_change w ngid cfg m new Hr Hgood Hnum) as (w' & Hch & Hr').
  - by rewrite Hgr.
  - intros g srvs. rewrite Hgr. intros [_ Hg]%lookup_delete_Some.
    destruct (rn_names _ _ _ _ Hr g srvs Hg). split_and!; [done|lia|lia|by apply (rn_grps _ _ _ _ Hr g)].
  - exists w', new. by split_and!.
Qed.

Lemma checkMember_ok w ngid cfg m gid :
  running w ngid cfg m -> checkMember w gid = Some (w, IsMember cfg gid).
Proof. intros Hr. unfold checkMember. by rewrite (running_query _ _ _ _ Hr). Qed.

Lemma joinGroups_ok w ngid cfg m gids :
  running w ngid cfg m -> NoDup gids -> Forall (fun g => 0 < g < ngid /\ Groups cfg !! g = None) gids ->
  Z.of_nat (size (Groups cfg) + length gids) <= NShards ->
  exists w' cfg', joinGroups w gids = Some (w', true) /\ running w' ngid cfg' m
    /\ dom (Groups cfg') = list_to_set gids ∪ dom (Groups cfg).
Proof.
  intros Hr Hnd. revert w cfg Hr. induction Hnd as [|gid gids Hnotin _ IH]; intros w cfg Hr Hall Hsize.
  { exists w, cfg. split_and!; [done..|]. simpl. by rewrite (left_id_L ∅ (∪)). }
  apply Forall_cons in Hall as [[Hg Hnone] Hall]. simpl in Hsize.
  destruct (join_ok w ngid cfg m gid Hr Hg Hnone) as (w1 & cfg1 & Hj & Hr1 & Hgr).
  cbn [joinGroups]. rewrite Hj. cbn [mbind option_bind]. rewrite (checkMember_ok _ _ _ _ gid Hr1).
  cbn [mbind option_bind].
  assert (Hs1 : size (Groups cfg1) = S (size (Groups cfg))) by (by rewrite Hgr, map_size_insert_None).
  rewrite members_have_shards; [|apply Hr1|rewrite Hgr, lookup_insert_eq; eauto|lia]. cbn [negb].
  destruct (IH w1 cfg1 Hr1) as (w' & cfg' & Hj' & Hr' & Hdom).
  - rewrite Forall_forall in Hall |- *. intros g Hin. destruct (Hall g Hin). split; [done|].
    rewrite Hgr, lookup_insert_ne; [done|]. intros ->. done.
  - lia.
  - exists w', cfg'. split_and!; [done..|]. rewrite Hdom, Hgr, dom_insert_L. simpl. set_solver.
Qed.

Lemma leaveGroups_ok w ngid cfg m gids :
  running w ngid cfg m -> NoDup gids -> list_to_set gids ⊂ dom (Groups cfg) ->
  exists w' cfg', leaveGroups w gids = Some (w', true) /\ running w' ngid cfg' m
    /\ dom (Groups cfg') = dom (Groups cfg) ∖ list_to_set gids.
Proof.
  intros Hr Hnd. revert w cfg Hr. induction Hnd as [|gid gids Hnotin _ IH]; intros w cfg Hr Hsub.
  { exists w, cfg. split_and!; [done..|]. simpl. by rewrite difference_empty_L. }
  assert (Hin : is_Some (Groups cfg !! gid)) by (apply elem_of_dom; set_solver).
  destruct Hin as [srvs Hsrvs]. destruct (rn_names _ _ _ _ Hr gid srvs Hsrvs) as [_ Hpos].
  destruct (leave_ok w ngid cfg m gid Hr) as (w1 & cfg1 & Hj & Hr1 & Hgr); [by exists srvs| |].
  { intros He. apply (f_equal dom) in He. rewrite dom_delete_L, dom_empty_L in He.
    destruct Hsub as [_ Hsub]. apply Hsub. simpl. intros g Hg. destruct (decide (g = gid)); set_solver. }
  cbn [leaveGroups]. rewrite Hj. cbn [mbind option_bind]. rewrite (checkMember_ok _ _ _ _ gid Hr1).
  cbn [mbind option_bind].
  assert (Hgone : Groups cfg1 !! gid = None) by (by rewrite Hgr, lookup_delete_eq).
  rewrite strangers_have_no_shards; [|apply Hr1|apply Hr1|done].
  pose proof (running_exit w1 ngid cfg1 m gid Hr1 ltac:(lia) Hgone) as Hr2.
  destruct (IH _ cfg1 Hr2) as (w' & cfg' & Hj' & Hr' & Hdom).
  - rewrite Hgr, dom_delete_L. simpl in Hsub. destruct Hsub as [Hin Hno]. split; [set_solver|].
    intros Hall. apply Hno. intros g Hg. destruct (decide (g = gid)) as [->|]; set_solver.
  - exists w', cfg'. split_and!; [done..|]. rewrite Hdom, Hgr, dom_delete_L. simpl. set_solver.
Qed.

(** ** Clients *)

Lemma get_ok w ngid cfg m kv key :
  running w ngid cfg m -> KVServer.KeyValue kv = Some m ->
  exists r, ShardClerk.Get 1 w key = Some (w, r) /\ single_step kv (ClientGet key) = Some (kv, AnsGet r).
Proof.
  intros Hr Hkv. eexists. split.
  - eapply placed_get; [apply Hr|apply Hr|by eapply running_full].
  - unfold read_of. rewrite shardData_own. simpl. unfold KVServer.lookup. rewrite Hkv. simpl.
    by destruct (m !! key).
Qed.

(** A [Put] at a group that serves the shard of the key does what it does at one server. *)
Lemma group_put g m kv key value ver :
  live g -> holds g (Key2Shard key) (ShardGrp.shardData m (Key2Shard key)) -> KVServer.KeyValue kv = Some m ->
  exists g' err kv' m', ShardGrp.DoOp g (ShardGrp.PutVal (mkPutArgs key value ver))
      = Some (g', ShardGrp.RepPut (mkPutReply err))
    /\ single_step kv (ClientPut key value ver) = Some (kv', AnsPut err)
    /\ KVServer.KeyValue kv' = Some m' /\ err <> ErrWrongGroup /\ live g'
    /\ (g' = g /\ m' = m
        \/ exists v, let e := mkValueEntry value v in m' = <[key := e]> m
          /\ ShardGrp.read g' = ShardGrp.set_KeyValue (<[key := e]> (ShardGrp.KeyValue (ShardGrp.read g))) (ShardGrp.read g)).
Proof.
  intros Hl [[Hf Hm] Hd] Hkv. simpl. unfold ShardGrp.doPut. simpl. rewrite Hf, Hm.
  assert (Hk : ShardGrp.KeyValue (ShardGrp.read g) !! key = m !! key).
  { rewrite <- (shardData_own (ShardGrp.KeyValue _)), Hd. apply shardData_own. }
  rewrite Hk. unfold KVServer.lookup, KVServer.store. rewrite Hkv. simpl.
  assert (Hput : forall e, exists g', ShardGrp.store g key e = Some g' /\ live g'
    /\ ShardGrp.read g' = ShardGrp.set_KeyValue (<[key := e]> (ShardGrp.KeyValue (ShardGrp.read g))) (ShardGrp.read g)).
  { intros e. destruct (write_live (fun x => ShardGrp.set_KeyValue (<[key := e]> (ShardGrp.KeyValue x)) x) g Hl)
      as (g' & ? & ? & ?). by exists g'. }
  destruct (m !! key) as [e|].
  - destruct (ver =? ve_Version e); simpl.
    + destruct (Hput (mkValueEntry value (u64 (ve_Version e + 1)))) as (g' & -> & Hl' & Hread). simpl.
      eexists _, _, _, _. split_and!; [done..|]. right. by eexists.
    + eexists _, _, _, _. split_and!; [done..|]. by left.
  - destruct (ver =? 0); simpl.
    + destruct (Hput (mkValueEntry value 1)) as (g' & -> & Hl' & Hread). simpl.
      eexists _, _, _, _. split_and!; [done..|]. right. by eexists.
    + eexists _, _, _, _. split_and!; [done..|]. by left.
Qed.

Lemma shardData_insert_own (m : gmap string ValueEntry) k e :
  ShardGrp.shardData (<[k := e]> m) (Key2Shard k) = <[k := e]> (ShardGrp.shardData m (Key2Shard k)).
Proof. unfold ShardGrp.shardData. by rewrite map_filter_insert_True. Qed.

Lemma shardData_dom_insert (m : gmap string ValueEntry) k e s :
  dom (ShardGrp.shardData m s) ⊆ dom (ShardGrp.shardData (<[k := e]> m) s).
Proof.
  destruct (decide (Key2Shard k = s)) as [<-|Hne]; [|by rewrite shardData_insert].
  rewrite shardData_insert_own, dom_insert. set_solver.
Qed.

(** One entry is written at the group that serves its shard. *)
Lemma placed_put w cfg m gid srvs g g' key e :
  placed w cfg (ShardGrp.shardData m) -> slice_get (Shards cfg) (Key2Shard key) = Some gid ->
  Groups cfg !! gid = Some srvs -> sw_grps w !! srvs = Some g -> live g' ->
  holds g (Key2Shard key) (ShardGrp.shardData m (Key2Shard key)) ->
  ShardGrp.read g' = ShardGrp.set_KeyValue (<[key := e]> (ShardGrp.KeyValue (ShardGrp.read g))) (ShardGrp.read g) ->
  placed (mkShardWorld (sw_ctl w) (<[srvs := g']> (sw_grps w))) cfg (ShardGrp.shardData (<[key := e]> m)).
Proof.
  intros [Hserv Hgrp] Hgid Hsrvs Hg Hl Hh Hread. constructor; simpl.
  - intros s gid' Hs Hgs. destruct (Hserv s gid' Hs Hgs) as (srvs' & kv & Hsrvs' & Hkv & Hh').
    destruct (decide (Key2Shard key = s)) as [<-|Hne].
    + simplify_eq. exists srvs, g'. rewrite lookup_insert_eq. split_and!; [done..|].
      destruct Hh as [[Hf Hm] Hd]. unfold holds, serves. rewrite Hread. simpl.
      split; [done|]. by rewrite !shardData_insert_own, Hd.
    + rewrite shardData_insert by done. destruct (decide (srvs = srvs')) as [<-|Hns].
      * simplify_eq. exists srvs, g'. rewrite lookup_insert_eq. split_and!; [done..|].
        destruct Hh' as [[Hf Hm] Hd]. unfold holds, serves. rewrite Hread. simpl.
        split; [done|]. by rewrite shardData_insert.
      * exists srvs', kv. by rewrite lookup_insert_ne.
  - intros srvs' kv Hkv. apply lookup_insert_Some in Hkv as [[<- <-]|[_ Hkv]].
    + split; [done|]. intros s. destruct (Hgrp srvs g Hg) as [_ Hv]. destruct (Hv s) as [Hdom Hmax].
      rewrite Hread. simpl. split; [|done].
      destruct (decide (Key2Shard key = s)) as [<-|Hne]; [|by rewrite !shardData_insert].
      rewrite !shardData_insert_own, !dom_insert. set_solver.
    + destruct (Hgrp srvs' kv Hkv) as [Hl' Hv]. split; [done|]. intros s. destruct (Hv s) as [Hdom Hmax].
      split; [|done]. etrans; [exact Hdom|]. apply shardData_dom_insert.
Qed.

Lemma put_ok w ngid cfg m kv key value ver :
  running w ngid cfg m -> KVServer.KeyValue kv = Some m -> clean key -> clean value ->
  exists w' err kv' m', ShardClerk.Put 1 w key value ver = Some (w', err)
    /\ single_step kv (ClientPut key value ver) = Some (kv', AnsPut err)
    /\ KVServer.KeyValue kv' = Some m' /\ running w' ngid cfg m'.
Proof.
  intros Hr Hkv Hck Hcv. pose proof (Key2Shard_range key) as Hk.
  destruct (running_full _ _ _ _ Hr) as [Hlen _].
  destruct (slice_get_total (Shards cfg) (Key2Shard key)) as [gid Hgid]; [lia|].
  pose proof (rn_placed _ _ _ _ Hr) as Hpl.
  destruct (pl_serving _ _ _ Hpl _ _ Hk Hgid) as (srvs & g & Hgr & Hg & Hh).
  destruct (pl_groups _ _ _ Hpl srvs g Hg) as [Hl _].
  destruct (group_put g m kv key value ver Hl Hh Hkv) as (g' & err & kv' & m' & Hdo & Hs & Hkv' & Herr & Hl' & Hcase).
  exists (mkShardWorld (sw_ctl w) (<[srvs := g']> (sw_grps w))), err, kv', m'. split_and!; [|done..|].
  - cbn [ShardClerk.Put]. unfold ShardClerk.locate. rewrite (running_query _ _ _ _ Hr).
    cbn [mbind option_bind]. rewrite Hgid. cbn [mbind option_bind]. rewrite Hgr.
    cbn [mbind option_bind default from_option id grp_Put world_groups].
    rewrite (at_group_ok w srvs g _ g' _ Hg Hdo). cbn [mbind option_bind]. simpl.
    by rewrite bool_decide_false.
  - destruct Hcase as [[-> ->]|(v & -> & Hread)].
    + by rewrite insert_id, world_eta.
    + destruct Hr as [Hst _ Hcfg Hne Hn Hex Hfree Hcl]. constructor; try done.
      * by eapply placed_put.
      * intros gid' srvs' Hg'. simpl. destruct (decide (srvs = srvs')) as [<-|Hd].
        { by rewrite lookup_insert_eq. }
        rewrite lookup_insert_ne by done. by apply (Hex gid').
      * by apply map_Forall_insert_2.
Qed.

Lemma groups_seq ts n :
  groups ts n = (mkTest (ts_world ts) (ts_ngid ts + Z.of_nat n), seqZ (ts_ngid ts) (Z.of_nat n)).
Proof.
  revert ts. induction n as [|n IH]; intros [w ngid].
  { simpl. by rewrite Z.add_0_r. }
  cbn [groups newGid ts_world ts_ngid]. rewrite IH. cbn [ts_world ts_ngid]. rewrite (seqZ_cons ngid) by lia.
  replace (Z.pred (Z.of_nat (S n))) with (Z.of_nat n) by lia.
  by replace (ngid + 1 + Z.of_nat n) with (ngid + Z.of_nat (S n)) by lia.
Qed.

(** ** The simulation *)

Lemma shard_step_ok ts cfg m kv op ops :
  running (ts_world ts) (ts_ngid ts) cfg m -> 0 < ts_ngid ts -> KVServer.KeyValue kv = Some m ->
  may_run clean (dom (Groups cfg)) (ts_ngid ts) (op :: ops) ->
  exists ts' a kv' cfg' m', shard_step ts op = Some (ts', a) /\ single_step kv op = Some (kv', a)
    /\ running (ts_world ts') (ts_ngid ts') cfg' m' /\ 0 < ts_ngid ts' /\ KVServer.KeyValue kv' = Some m'
    /\ may_run clean (dom (Groups cfg')) (ts_ngid ts') ops.
Proof.
  intros Hr Hpos Hkv Hrun. destruct op as [key|key value ver|n|gids]; simpl in Hrun.
  - destruct (get_ok _ _ _ _ kv key Hr Hkv) as (r & Hg & Hs).
    eexists _, _, _, _, _. split_and!; [by unfold shard_step; rewrite Hg|exact Hs|done..].
  - destruct Hrun as (Hck & Hcv & Hrun).
    destruct (put_ok _ _ _ _ kv key value ver Hr Hkv Hck Hcv) as (w' & err & kv' & m' & Hp & Hs & Hkv' & Hr').
    eexists _, _, _, _, _. split_and!; [by unfold shard_step; rewrite Hp|exact Hs|done..].
  - destruct Hrun as (Hsize & Hrun). unfold shard_step. rewrite groups_seq.
    destruct (joinGroups_ok (ts_world ts) (ts_ngid ts + Z.of_nat n) cfg m (seqZ (ts_ngid ts) (Z.of_nat n)))
      as (w' & cfg' & Hj & Hr' & Hdom).
    + by eapply running_ngid; [|exact Hr]; lia.
    + apply NoDup_seqZ.
    + apply Forall_forall. intros g Hg%elem_of_seqZ. split; [lia|].
      destruct (Groups cfg !! g) as [srvs|] eqn:E; [|done]. apply (rn_names _ _ _ _ Hr) in E as [_ ?]. lia.
    + rewrite length_seqZ, Nat2Z.id, <- size_dom. done.
    + cbn [ts_world ts_ngid]. rewrite Hj. eexists _, _, kv, cfg', m.
      split_and!; [done|done|done|simpl; lia|done|]. by rewrite Hdom.
  - destruct Hrun as (Hnd & Hsub & Hrun). unfold shard_step.
    destruct (leaveGroups_ok (ts_world ts) (ts_ngid ts) cfg m gids Hr Hnd Hsub) as (w' & cfg' & Hj & Hr' & Hdom).
    rewrite Hj. eexists _, _, kv, cfg', m. split_and!; [done..|]. by rewrite Hdom.
Qed.

Lemma shard_run_ok ops : forall ts cfg m kv,
  running (ts_world ts) (ts_ngid ts) cfg m -> 0 < ts_ngid ts -> KVServer.KeyValue kv = Some m ->
  may_run clean (dom (Groups cfg)) (ts_ngid ts) ops ->
  exists l, answers shard_step ts ops = Some l /\ answers single_step kv ops = Some l.
Proof.
  induction ops as [|op ops IH]; intros ts cfg m kv Hr Hpos Hkv Hrun; [by exists []|].
  destruct (shard_step_ok ts cfg m kv op ops Hr Hpos Hkv Hrun) as (ts' & a & kv' & cfg' & m' & Hs & Hs' & Hr' & Hp' & Hkv' & Hrun').
  destruct (IH ts' cfg' m' kv' Hr' Hp' Hkv' Hrun') as (l & Hl & Hl').
  exists (a :: l). cbn [answers]. rewrite Hs, Hs'. cbn [mbind option_bind]. rewrite Hl, Hl'. done.
Qed.

(** The service as the tests set it up: one group with all shards, and no keys. *)
Lemma setup_ok :
  exists ts cfg, setupKVService MakeTestMaxRaft = Some (ts, Gid1) /\ ts_ngid ts = Gid1 + 1
    /\ running (ts_world ts) (ts_ngid ts) cfg ∅ /\ dom (Groups cfg) = {[Gid1]}.
Proof.
  destruct (JoinBalance_one MakeShardConfig Gid1) as (cfg & Hj & Hgood & Hnum & Hgr);
    [apply MakeShardConfig_good|done..|].
  simpl in Hgr. change (Num cfg = 1) in Hnum. unfold setupKVService. rewrite Hj. cbn [mbind option_bind].
  clear Hj.
  set (w0 := MakeGroupStart (ts_world MakeTestMaxRaft) Gid1). unfold Ctrler.InitConfig. rewrite Hnum.
  destruct (world_put w0 (Ctrler.config_key 1) (cfg_String cfg) 0) as (ctl1 & Hp1 & Hl1 & Hk1 & Hn1);
    [by eexists|done|].
  rewrite Hp1. cbn [mbind option_bind].
  destruct (world_put (mkShardWorld ctl1 (sw_grps w0)) "latest" (Sprint 1) 0) as (ctl2 & Hp2 & Hl2 & Hk2 & Hn2);
    [done|unfold KvServer.abs; simpl; by rewrite Hn1|].
  rewrite Hp2. cbn [mbind option_bind].
  eexists _, cfg. split; [done|]. split; [done|]. split; [|by rewrite Hgr, dom_insert_L, dom_empty_L, (right_id_L ∅ (∪))].
  assert (Hone : forall g srvs, Groups cfg !! g = Some srvs -> g = Gid1 /\ srvs = SrvNames Gid1).
  { intros g srvs. rewrite Hgr. by intros [[<- <-]|[_ ?]]%lookup_insert_Some. }
  assert (Hne : Groups cfg <> ∅) by (rewrite Hgr; apply insert_non_empty).
  constructor; simpl; [constructor| |done|done| | | |done].
  - done.
  - eexists. by rewrite Hnum.
  - eexists. rewrite Hnum, Hn2 by done. exact Hk1.
  - constructor; simpl.
    + intros s gid Hs [_ Hgid]%slice_get_Some.
      destruct (Forall_lookup_1 _ _ _ _ (cg_assigned _ Hgood Hne) Hgid) as [srvs Hsrvs]. simpl in Hsrvs.
      destruct (Hone _ _ Hsrvs) as [-> ->]. eexists _, _. rewrite lookup_insert_eq. split_and!; [done..|].
      done.
    + intros srvs g [[<- <-]|[_ ?]]%lookup_insert_Some; [|done]. split; [by eexists|]. done.
  - intros g srvs [-> ->]%Hone. done.
  - intros g srvs [-> ->]%Hone. by rewrite lookup_insert_eq.
  - intros n Hn. rewrite Hn2, Hn1; [done| |done]. intros ?%config_key_inj. lia.
Qed.
End Invariant.


(** ** Concrete runs *)

(** Two groups join, the first one leaves, and a key is written before and after. *)
Definition service_run : list ShardOp :=
  [ ClientPut "a" "v" 0; JoinNew 2; ClientGet "a"; ClientPut "a" "w" 1; ClientPut "a" "x" 1;
    LeaveGids [1]; ClientGet "a"; ClientGet "b" ].


(** The thirteenth group gets no shard, and [IsMember], by which [joinGroups] goes, denies it. *)
Example one_group_too_many :
  match run_steps (fun c g => fst <$> JoinBalance c [(g, SrvNames g)]) MakeShardConfig (seqZ 1 13) with
  | Some c => Groups c !! 13 = Some (SrvNames 13) /\ IsMember c 13 = false
  | None => False
  end.
Proof. vm_compute. split; reflexivity. Qed.
