(* ===== verification/KvTest.v ===== *)
(** * The key/value tests: lec-2025/src/kvtest1

    What the tests of the replicated and of the sharded store run as clients, what they record for
    the linearizability checker, and what they check afterwards ([kvtest.go], [porcupine.go]).
    The system under test is any implementation of [IKVClerk], which the tests call through an
    operation log; [KvTestProps] lets many clients run against one store.

    A test failure ([Fatalf]) and a panic are [None].  The annotations that some of the functions add
    to the timeline are those of [Annot] and left out here. *)

From S2P Require Import Prelude Rpc KvServer Porcupine.

(** [json.Marshal], here of values for which it cannot fail, and [json.Unmarshal]. *)
Class JsonOf (A : Type) := {
  Marshal : A -> string;
  Unmarshal : string -> option A;
}.

(** The documented behaviour of [encoding/json] on structs of integers and slices of them. *)
Class JsonOfLaws (A : Type) `{JsonOf A} : Prop := {
  Unmarshal_Marshal : forall a : A, Unmarshal (Marshal a) = Some a;
}.

(** The clock a test reads, as part of the state of the system. *)
Class Clock (S : Type) := since_t0 : S -> Z.

Module KvTest.
Import KvModel.

Abbreviation Operation := (@Porcupine.Operation KvInput KvOutput).

Record ClntRes := mkClntRes { Nok : Z; Nmaybe : Z }.

Record EntryV := mkEntryV { ev_Id : Z; ev_V : Tversion }.

(** [entry] of the clients and [EntryN] of the check: the same JSON. *)
Record EntryN := mkEntryN { en_Id : Z; en_N : Z }.

(** The system, the counter of [Op], and the log; [randomkeys] is an argument of its user. *)
Record Test (S : Type) := mkTest { t_sys : S; t_ops : Z; oplog : list Operation }.
Arguments mkTest {S}.
Arguments t_sys {S}.
Arguments t_ops {S}.
Arguments oplog {S}.

Definition MakeTest {S} (sys : S) : Test S := mkTest sys 0 [].

(** [RandValue]: the letters by the numbers drawn. *)
Definition letterBytes : string := "abcdefghijklmnopqrstuvwxyzABCDEFGHIJKLMNOPQRSTUVWXYZ".

Definition RandValue (draws : list Z) : string :=
  String.concat "" ((fun r => String.substring (Z.to_nat (r mod 52)) 1 letterBytes) <$> draws).

(** ** porcupine.go: the operation log *)

Definition Append {S} (ts : Test S) (op : Operation) : Test S :=
  mkTest (t_sys ts) (t_ops ts) (oplog ts ++ [op]).

Definition Op {S} (ts : Test S) : Test S := mkTest (t_sys ts) (t_ops ts + 1) (oplog ts).

Definition set_sys {S} (sys : S) (ts : Test S) : Test S := mkTest sys (t_ops ts) (oplog ts).

Section Calls.
Context {S : Type} `{IKVClerk S} `{Clock S}.
Implicit Types ts : Test S.

(** [Get] and [Put], the functions and the methods of [Test]. *)
Definition Get ts (key : string) (cli : Z) : option (Test S * (string * Tversion * Err)) :=
  let start := since_t0 (t_sys ts) in
  '(sys, (val, ver, err)) ← ck_Get (t_sys ts) key;
  let end_ := since_t0 sys in
  let ts := Op (set_sys sys ts) in
  Some (Append ts (Porcupine.mkOperation cli (mkKvInput 0 key "" 0) start
                     (mkKvOutput val ver (err_string err)) end_),
        (val, ver, err)).

Definition Put ts (key value : string) (version : Tversion) (cli : Z) : option (Test S * Err) :=
  let start := since_t0 (t_sys ts) in
  '(sys, err) ← ck_Put (t_sys ts) key value version;
  let end_ := since_t0 sys in
  let ts := Op (set_sys sys ts) in
  Some (Append ts (Porcupine.mkOperation cli (mkKvInput 1 key value version) start
                     (mkKvOutput "" 0 (err_string err)) end_),
        err).

(** ** kvtest.go: puts and gets that check *)

(** The loop of [PutAtLeastOnce]; one unit of fuel per [Put]. *)
Fixpoint PutAtLeastOnce (fuel : nat) ts (key value : string) (ver : Tversion) (me : Z)
    : option (Test S * Tversion) :=
  match fuel with
  | O => None
  | Datatypes.S fuel =>
      '(ts, err) ← Put ts key value ver me;
      if decide (err = OK) then Some (ts, u64 (ver + 1))
      else if decide (err = ErrMaybe \/ err = ErrVersion) then
        PutAtLeastOnce fuel ts key value (u64 (ver + 1)) me
      else if negb (ver =? 0) then None
      else PutAtLeastOnce fuel ts key value ver me
  end.

Definition CheckGet ts (key value : string) (version : Tversion) : option (Test S) :=
  '(ts, (val, ver, err)) ← Get ts key 0;
  if decide (err <> OK) then None
  else if decide (val <> value) then None
  else if negb (ver =? version) then None
  else Some ts.

Definition GetJson {A} `{JsonOf A} ts (key : string) (me : Z) : option (Test S * (Tversion * A)) :=
  '(ts, (val, ver, err)) ← Get ts key me;
  if decide (err = OK) then
    v ← Unmarshal val;
    Some (ts, (ver, v))
  else None.

Definition PutJson {A} `{JsonOf A} ts (key : string) (v : A) (ver : Tversion) (me : Z)
    : option (Test S * Err) :=
  Put ts key (Marshal v) ver me.

(** Every attempt is for version 0, whatever [ver] is. *)
Fixpoint PutAtLeastOnceJson {A} `{JsonOf A} (fuel : nat) ts (key : string) (value : A)
    (ver : Tversion) (me : Z) : option (Test S * Tversion) :=
  match fuel with
  | O => None
  | Datatypes.S fuel =>
      '(ts, err) ← PutJson ts key value 0 me;
      if decide (err <> ErrMaybe) then Some (ts, ver)
      else PutAtLeastOnceJson fuel ts key value (u64 (ver + 1)) me
  end.

Section OnePut.
Context `{JsonOf EntryV}.

Definition CheckPutConcurrent ts (key : string) (rs : list ClntRes) (res : ClntRes) (reliable : bool)
    : option (Test S * ClntRes) :=
  '(ts, (ver0, _)) ← GetJson (A:=EntryV) ts key (-1);
  let res := foldl (fun res r => mkClntRes (Nok res + Nok r) (Nmaybe res + Nmaybe r)) res rs in
  if reliable : bool then
    if negb (ver0 =? u64 (Nok res)) then None else Some (ts, res)
  else if u64 (Nok res + Nmaybe res) <? ver0 then None
  else Some (ts, res).

(** The body of the loop of [OnePut] is cut after its [Put], where other clients may act. *)
Definition OnePut_put (me : Z) ts (key : string) (ver : Tversion) : option (Test S * Err) :=
  '(ts, err) ← PutJson ts key (mkEntryV me ver) ver me;
  if decide (err = OK \/ err = ErrVersion \/ err = ErrMaybe) then Some (ts, err) else None.

(** The new version, and what [OnePut] returns next to it unless it goes on. *)
Definition OnePut_get (me : Z) ts (key : string) (ver : Tversion) (err : Err)
    : option (Test S * (Tversion * option bool)) :=
  '(ts, (ver0, e)) ← GetJson (A:=EntryV) ts key me;
  if bool_decide (err = OK) && (ver0 =? u64 (ver + 1))
     && (negb (ev_Id e =? me) && negb (ev_V e =? ver)) then None
  else Some (ts, (ver0, if decide (err = OK \/ err = ErrMaybe) then Some (bool_decide (err = OK)) else None)).

Fixpoint OnePut (fuel : nat) (me : Z) ts (key : string) (ver : Tversion)
    : option (Test S * (Tversion * bool)) :=
  match fuel with
  | O => None
  | Datatypes.S fuel =>
      '(ts, err) ← OnePut_put me ts key ver;
      '(ts, (ver, res)) ← OnePut_get me ts key ver err;
      match res with
      | Some ok => Some (ts, (ver, ok))
      | None => OnePut fuel me ts key ver
      end
  end.
End OnePut.

Definition MakeKeys (n : Z) : list string := (fun i => String.append "k" (Sprint i)) <$> seqZ 0 n.

(** The first loop of [SpreadPutsSize], past the log; the answers are dropped. *)
Fixpoint spread_put ts (kvs : list (string * string)) : option (Test S) :=
  match kvs with
  | [] => Some ts
  | (k, v) :: kvs =>
      '(sys, _) ← ck_Put (t_sys ts) k v 0;
      spread_put (set_sys sys ts) kvs
  end.

Definition spread_check ts (kvs : list (string * string)) : option (Test S) :=
  run_steps (fun ts '(k, v) => CheckGet ts k v 1) ts kvs.

(** [va] are the random strings. *)
Definition SpreadPutsSize ts (n : Z) (va : list string) : option (Test S * (list string * list string)) :=
  let ka := MakeKeys n in
  ts ← spread_put ts (zip ka va);
  ts ← spread_check ts (zip ka va);
  Some (ts, (ka, va)).
End Calls.

(** The two sides that [Partitioner] makes of [n] servers, by the numbers drawn for them. *)
Definition partition_sides (draws : list Z) : list Z * list Z :=
  let a := (fun r => r mod 2) <$> draws in
  let side i := (filter (fun p => p.2 = i) (zip (seqZ 0 (zlen a)) a)).*1 in
  (side 0, side 1).

(** ** The clients, cut where others may act

    A client that has not been told to stop is at the [select], before a [Get] or before a [Put]. *)

Section PutClient.
Context {S : Type} `{IKVClerk S} `{Clock S} `{JsonOf EntryV}.

Inductive PutPc :=
  | PutSelect
  | PutAt (key : string) (ver : Tversion)
  | PutCheck (key : string) (ver : Tversion) (err : Err)
  | PutDone.

Record PutClient := mkPutClient {
  pc_cli : Z; pc_ka : list string; pc_verm : gmap string Tversion; pc_pc : PutPc; pc_res : ClntRes }.

Definition OneClientPut_init (cli : Z) (ka : list string) : PutClient :=
  mkPutClient cli ka (foldr (fun k m => <[k := 0]> m) ∅ ka) PutSelect (mkClntRes 0 0).

Definition set_pc (pc : PutPc) (c : PutClient) : PutClient :=
  mkPutClient (pc_cli c) (pc_ka c) (pc_verm c) pc (pc_res c).

(** [done]: there is something to receive; [rand] is drawn if keys are random. *)
Definition OneClientPut (c : PutClient) (randomkeys done : bool) (rand : Z) (ts : Test S)
    : option (Test S * PutClient) :=
  match pc_pc c with
  | PutSelect =>
      if done : bool then Some (ts, set_pc PutDone c)
      else
        k ← slice_get (pc_ka c) (if randomkeys : bool then rand mod zlen (pc_ka c) else 0);
        Some (ts, set_pc (PutAt k (default 0 (pc_verm c !! k))) c)
  | PutAt k ver =>
      '(ts, err) ← OnePut_put (pc_cli c) ts k ver;
      Some (ts, set_pc (PutCheck k ver err) c)
  | PutCheck k ver err =>
      '(ts, (ver0, res)) ← OnePut_get (pc_cli c) ts k ver err;
      Some (ts,
        match res with
        | None => set_pc (PutAt k ver0) c
        | Some ok =>
            mkPutClient (pc_cli c) (pc_ka c) (<[k := ver0]> (pc_verm c)) PutSelect
              (if ok : bool then mkClntRes (Nok (pc_res c) + 1) (Nmaybe (pc_res c))
               else mkClntRes (Nok (pc_res c)) (Nmaybe (pc_res c) + 1))
        end)
  | PutDone => Some (ts, c)
  end.
End PutClient.

Section AppendClient.
Context {S : Type} `{IKVClerk S} `{Clock S} `{JsonOf (list EntryN)}.

Inductive AppendPc :=
  | AppSelect
  | AppGet
  | AppPut (es : list EntryN) (ver : Tversion)
  | AppDone.

Record AppendClient := mkAppendClient { ac_me : Z; ac_i : Z; ac_pc : AppendPc; ac_res : ClntRes }.

Definition OneClientAppend_init (me : Z) : AppendClient := mkAppendClient me 0 AppSelect (mkClntRes 0 0).

Definition set_apc (pc : AppendPc) (c : AppendClient) : AppendClient :=
  mkAppendClient (ac_me c) (ac_i c) pc (ac_res c).

Definition OneClientAppend (c : AppendClient) (done : bool) (ts : Test S)
    : option (Test S * AppendClient) :=
  match ac_pc c with
  | AppSelect => Some (ts, set_apc (if done : bool then AppDone else AppGet) c)
  | AppGet =>
      '(ts, (ver, es)) ← GetJson (A:=list EntryN) ts "k" (ac_me c);
      Some (ts, set_apc (AppPut (es ++ [mkEntryN (ac_me c) (ac_i c)]) ver) c)
  | AppPut es ver =>
      '(ts, err) ← PutJson ts "k" es ver (ac_me c);
      Some (ts,
        if decide (err = OK) then
          mkAppendClient (ac_me c) (ac_i c + 1) AppSelect (mkClntRes (Nok (ac_res c) + 1) (Nmaybe (ac_res c)))
        else if decide (err = ErrMaybe) then
          mkAppendClient (ac_me c) (ac_i c + 1) AppSelect (mkClntRes (Nok (ac_res c)) (Nmaybe (ac_res c) + 1))
        else set_apc AppGet c)
  | AppDone => Some (ts, c)
  end.
End AppendClient.

(** ** [CheckAppends] *)

(** The maps [expect] and [skipped]. *)
Abbreviation Counts := (gmap Z Z * gmap Z Z)%type.

Definition get0 (m : gmap Z Z) (c : Z) : Z := default 0 (m !! c).

Definition check_entry (st : Counts) (e : EntryN) : option Counts :=
  let '(expect, skipped) := st in
  if en_N e <? get0 expect (en_Id e) then None
  else if get0 expect (en_Id e) =? en_N e then
    Some (<[en_Id e := get0 expect (en_Id e) + 1]> expect, skipped)
  else
    let s := en_N e - get0 expect (en_Id e) in
    Some (<[en_Id e := en_N e + 1]> expect, <[en_Id e := get0 skipped (en_Id e) + s]> skipped).

(** One iteration of the last loop; [rs[c]] may be out of range. *)
Definition check_client (skipped : gmap Z Z) (rs : list ClntRes) (c n : Z) : option unit :=
  r ← slice_get rs c;
  if Nmaybe r <? get0 skipped c then None
  else if Nok r + Nmaybe r <? n then None
  else Some tt.

(** [int] of a [uint64]. *)
Definition int_of (v : Tversion) : Z := if v <? 2 ^ 63 then v else v - 2 ^ 64.

(** Whether the test goes on does not depend on the order in which [expect] is listed. *)
Definition CheckAppends (es : list EntryN) (nclnt : Z) (rs : list ClntRes) (ver : Tversion) : option unit :=
  let zeros := foldr (fun i m => <[i := 0]> m) ∅ (seqZ 0 nclnt) in
  '(expect, skipped) ← run_steps check_entry (zeros, zeros) es;
  if negb (zlen es + 1 =? int_of ver) then None
  else run_steps (fun _ '(c, n) => check_client skipped rs c n) tt (map_to_list expect).

End KvTest.
