(* ===== verification/KvTestProps.v ===== *)
(** * The key/value tests raise no false alarm

    Any number of clients of [KvTest] run in any interleaving against one store, whose server is
    [KVServer.DoOp] and whose clerks sometimes cannot tell whether a [Put] took effect
    ([clerk_put_correct] is about such clerks).  No check of a client fails, and the check of the
    whole run passes afterwards. *)

From S2P Require Import Prelude Rpc KvServer Porcupine KvTest.
Import KVServer KvTest.

(** ** The shared store *)

(** [sh_maybe]: for each of the next calls of [Put] whether its clerk loses an answer. *)
Record Shared := mkShared { sh_kv : KVServer; sh_maybe : list bool; sh_time : Z }.

Definition maybe_now (s : Shared) : bool := default false (head (sh_maybe s)).

#[export] Instance shared_clock : Clock Shared := sh_time.

#[export] Instance shared_clerk : IKVClerk Shared := {|
  ck_Get s key :=
    match DoOp (sh_kv s) (GetVal (mkGetArgs key)) with
    | Some (kv, RepGet r) =>
        Some (mkShared kv (sh_maybe s) (sh_time s + 1), (gr_Value r, gr_Version r, gr_Err r))
    | _ => None
    end;
  ck_Put s key value version :=
    match DoOp (sh_kv s) (PutVal (mkPutArgs key value version)) with
    | Some (kv, RepPut r) =>
        Some (mkShared kv (tail (sh_maybe s)) (sh_time s + 1), if maybe_now s then ErrMaybe else pr_Err r)
    | _ => None
    end |}.

Abbreviation TS := (Test Shared).
Implicit Types (ts : TS) (kv : KVServer).

Definition kv_of ts : KVServer := sh_kv (t_sys ts).

Definition version kv (k : string) : Z :=
  match lookup kv k with Some e => ve_Version e | None => 0 end.

Definition set_maybe (b : bool) ts : TS := set_sys (mkShared (kv_of ts) [b] (sh_time (t_sys ts))) ts.

(** The store went from [kv] to [kv']: versions grow, and a value changes only with its version. *)
Definition grown kv kv' : Prop :=
  forall k, version kv k <= version kv' k /\ (version kv k = version kv' k -> lookup kv k = lookup kv' k).

Lemma grown_refl kv : grown kv kv.
Proof. intros k. split; [lia|done]. Qed.

(** Every key that exists has a version from 1 on and a value that [P] accepts. *)
Definition store_ok (P : string -> Prop) kv : Prop :=
  live kv /\ forall k e, lookup kv k = Some e -> 1 <= ve_Version e /\ P (ve_Value e).

Lemma version_pos P kv k : store_ok P kv -> 1 <= version kv k ->
  exists e, lookup kv k = Some e /\ ve_Version e = version kv k /\ P (ve_Value e).
Proof.
  intros [_ Hok] Hv. unfold version in *. destruct (lookup kv k) as [e|] eqn:He; [|lia].
  exists e. split_and!; [done..|]. by apply (Hok k).
Qed.

Lemma version_nonneg P kv k : store_ok P kv -> 0 <= version kv k.
Proof.
  intros [_ Hok]. unfold version. destruct (lookup kv k) as [e|] eqn:He; [|lia].
  apply Hok in He. lia.
Qed.

(** ** One call *)

Lemma Get_shared P ts key cli :
  store_ok P (kv_of ts) -> 1 <= version (kv_of ts) key ->
  exists ts' e, Get ts key cli = Some (ts', (ve_Value e, ve_Version e, OK)) /\ kv_of ts' = kv_of ts
    /\ lookup (kv_of ts) key = Some e /\ P (ve_Value e).
Proof.
  intros Hok Hv. destruct (version_pos P _ _ Hok Hv) as (e & He & _ & HP).
  unfold Get. simpl. unfold kv_of in *. rewrite He. simpl. eauto 10.
Qed.

Lemma store_grown (P : string -> Prop) kv key value :
  store_ok P kv -> P value ->
  exists kv', store kv key (mkValueEntry value (version kv key + 1)) = Some kv'
    /\ store_ok P kv' /\ grown kv kv' /\ lookup kv' key = Some (mkValueEntry value (version kv key + 1))
    /\ (forall k, k <> key -> lookup kv' k = lookup kv k).
Proof.
  intros Hok HP. pose proof (version_nonneg P kv key Hok) as Hnn. destruct Hok as [[m Hm] Hok].
  destruct (store kv key (mkValueEntry value (version kv key + 1))) as [kv'|] eqn:Hs;
    [|unfold store in Hs; by rewrite Hm in Hs].
  exists kv'. split; [done|]. apply lookup_store in Hs as (Hk & Hne & Hl).
  split; [split; [done|]|split; [|done]].
  - intros k e He. destruct (decide (k = key)) as [->|Hn]; [|apply (Hok k); by rewrite <- Hne].
    rewrite Hk in He. simplify_eq/=. split; [lia|done].
  - intros k. unfold version at 2 4. destruct (decide (k = key)) as [->|Hn].
    + rewrite Hk. simpl. split; [lia|lia].
    + rewrite (Hne k Hn). split; [unfold version; lia|done].
Qed.

(** What the server answers, and does, on a [Put]. *)
Lemma DoOp_put_answer kv key value ver :
  DoOp kv (PutVal (mkPutArgs key value ver))
  = if ver =? version kv key
    then kv ← store kv key (mkValueEntry value (match lookup kv key with None => 1 | Some e => u64 (ve_Version e + 1) end));
         Some (kv, RepPut (mkPutReply OK))
    else Some (kv, RepPut (mkPutReply ErrVersion)).
Proof.
  unfold DoOp, version. simpl. destruct (lookup kv key) as [e|]; [|done].
  by destruct (ver =? ve_Version e).
Qed.

(** A [Put] takes effect exactly if its version is the current one, whatever the answer. *)
Lemma Put_shared (P : string -> Prop) ts key value ver cli :
  store_ok P (kv_of ts) -> P value -> 0 <= ver -> version (kv_of ts) key + 1 < 2 ^ 64 ->
  exists ts' err, Put ts key value ver cli = Some (ts', err) /\ store_ok P (kv_of ts')
    /\ sh_maybe (t_sys ts') = tail (sh_maybe (t_sys ts))
    /\ grown (kv_of ts) (kv_of ts')
    /\ (err = OK /\ maybe_now (t_sys ts) = false \/ err = ErrVersion \/ err = ErrMaybe /\ maybe_now (t_sys ts) = true)
    /\ (ver = version (kv_of ts) key /\ err <> ErrVersion
          /\ lookup (kv_of ts') key = Some (mkValueEntry value (ver + 1))
          /\ (forall k, k <> key -> lookup (kv_of ts') k = lookup (kv_of ts) k)
        \/ ver <> version (kv_of ts) key /\ err <> OK /\ kv_of ts' = kv_of ts).
Proof.
  intros Hok HP Hver Hbound. unfold Put. cbn [ck_Put shared_clerk]. rewrite DoOp_put_answer.
  change (sh_kv (t_sys ts)) with (kv_of ts). destruct (Z.eqb_spec ver (version (kv_of ts) key)) as [->|Hne].
  - replace (match lookup (kv_of ts) key with None => 1 | Some e => u64 (ve_Version e + 1) end)
      with (version (kv_of ts) key + 1).
    2: { unfold version in *. destruct (lookup (kv_of ts) key) as [e|]; [|done].
         rewrite u64_small; [done|lia]. }
    destruct (store_grown P (kv_of ts) key value Hok HP) as (kv' & -> & Hok' & Hg & Hk & Hne). simpl.
    do 2 eexists. split; [done|]. split; [done|]. split; [done|]. split; [done|]. split; [destruct (maybe_now _); auto|].
    left. split_and!; [done|by destruct (maybe_now _)|done|done].
  - simpl. do 2 eexists. split; [done|]. split; [done|]. split; [done|]. split; [apply grown_refl|]. split; [destruct (maybe_now _); auto|].
    right. split_and!; [done|by destruct (maybe_now _)|done].
Qed.

(** ** [PutAtLeastOnce]

    One client alone with a key, as in the tests that use it. *)

Lemma PutAtLeastOnce_stored fuel ts key value ver me :
  let n := version (kv_of ts) key - ver + zlen (sh_maybe (t_sys ts)) in
  store_ok (fun _ => True) (kv_of ts) -> 0 <= ver <= version (kv_of ts) key ->
  n < Z.of_nat fuel -> version (kv_of ts) key + zlen (sh_maybe (t_sys ts)) + 1 < 2 ^ 64 ->
  exists ts' ver', PutAtLeastOnce fuel ts key value ver me = Some (ts', ver')
    /\ store_ok (fun _ => True) (kv_of ts') /\ lookup (kv_of ts') key = Some (mkValueEntry value ver').
Proof.
  revert ts ver. induction fuel as [|fuel IH]; intros ts ver n Hok Hver Hfuel Hb; subst n.
  { pose proof (zlen_nonneg (sh_maybe (t_sys ts))). lia. }
  cbn [PutAtLeastOnce]. pose proof (zlen_nonneg (sh_maybe (t_sys ts))) as Hnn.
  destruct (Put_shared (fun _ => True) ts key value ver me Hok) as
    (ts' & err & -> & Hok' & Hl & Hg & Herr & Hcase); [done|lia|lia|]. simpl.
  assert (Htail : zlen (sh_maybe (t_sys ts')) <= zlen (sh_maybe (t_sys ts))
    /\ (maybe_now (t_sys ts) = true -> zlen (sh_maybe (t_sys ts')) + 1 <= zlen (sh_maybe (t_sys ts)))).
  { rewrite Hl. unfold maybe_now. destruct (sh_maybe (t_sys ts)) as [|b l]; simpl; [done|].
    rewrite zlen_cons. split; lia. }
  rewrite (u64_small (ver + 1)) by lia.
  destruct Hcase as [(Hv & Hne & Hk & _)|(Hv & Hne & Hkv)].
  - assert (Hv' : version (kv_of ts') key = ver + 1) by (unfold version; by rewrite Hk).
    destruct Herr as [[-> _]|[->|[-> Hm]]]; simpl; [by exists ts', (ver + 1)|done|].
    apply (proj2 Htail) in Hm. apply (IH ts' (ver + 1)); [done|lia..].
  - destruct Herr as [[-> _]|[->|[-> Hm]]]; simpl; [done| |]; apply (IH ts' (ver + 1)); try done;
      rewrite ?Hkv; lia.
Qed.

(** [PutAtLeastOnce] ends, whatever answers are lost, once each lost answer and each old version
    has cost one attempt, and the [CheckGet] that the tests run next passes with the version it
    returned. *)
Theorem PutAtLeastOnce_checked (fuel : nat) ts (key value : string) (ver me : Z) :
  store_ok (fun _ => True) (kv_of ts) -> 0 <= ver <= version (kv_of ts) key ->
  version (kv_of ts) key - ver + zlen (sh_maybe (t_sys ts)) < Z.of_nat fuel ->
  version (kv_of ts) key + zlen (sh_maybe (t_sys ts)) + 1 < 2 ^ 64 ->
  exists ts' ver' ts'', PutAtLeastOnce fuel ts key value ver me = Some (ts', ver')
    /\ CheckGet ts' key value ver' = Some ts''.
Proof.
  intros Hok Hver Hfuel Hb.
  destruct (PutAtLeastOnce_stored fuel ts key value ver me Hok Hver Hfuel Hb) as (ts' & ver' & -> & Hok' & Hk).
  destruct (Get_shared (fun _ => True) ts' key 0 Hok') as (ts'' & e & Hg & _ & He & _).
  { unfold version. rewrite Hk. by apply (proj2 Hok' key). }
  exists ts', ver', ts''. split; [done|]. unfold CheckGet. rewrite Hg. simpl.
  rewrite Hk in He. simplify_eq/=. rewrite Z.eqb_refl. by rewrite !decide_False by auto.
Qed.

(** ** Sums over clients *)

Definition zsum {A} (f : A -> Z) (l : list A) : Z := foldr (fun x s => f x + s) 0 l.

Lemma zsum_insert {A} (f : A -> Z) l i (x y : A) :
  l !! i = Some x -> zsum f (<[i := y]> l) = zsum f l - f x + f y.
Proof.
  revert i. induction l as [|z l IH]; intros [|i] Hi; simplify_eq/=; [lia|].
  rewrite (IH i Hi). lia.
Qed.

Lemma zsum_nonneg {A} (f : A -> Z) l : (forall x, x ∈ l -> 0 <= f x) -> 0 <= zsum f l.
Proof.
  induction l as [|x l IH]; intros Hl; simpl; [lia|].
  assert (0 <= f x) by (apply Hl; left). assert (0 <= zsum f l) by (apply IH; intros; apply Hl; by right).
  lia.
Qed.

Lemma zsum_ext {A} (f g : A -> Z) l : (forall x, x ∈ l -> f x = g x) -> zsum f l = zsum g l.
Proof.
  induction l as [|x l IH]; intros Hl; simpl; [done|]. rewrite (Hl x), IH; [done| |left].
  intros y Hy. apply Hl. by right.
Qed.

Lemma zsum_zero {A} (f : A -> Z) l : (forall x, x ∈ l -> f x = 0) -> zsum f l = 0.
Proof.
  intros Hl. rewrite (zsum_ext _ (fun _ => 0)) by done. clear. induction l; simpl; lia.
Qed.

Lemma zsum_add {A} (f g : A -> Z) l : zsum (fun x => f x + g x) l = zsum f l + zsum g l.
Proof. induction l as [|x l IH]; simpl; [done|]. rewrite IH. lia. Qed.

Lemma zsum_fmap {A B} (f : B -> Z) (g : A -> B) l : zsum f (g <$> l) = zsum (fun x => f (g x)) l.
Proof. induction l as [|x l IH]; simpl; [done|]. by rewrite <- IH. Qed.

(** ** Clients that put *)

Section PutClients.
Context `{JsonOf EntryV} `{!JsonOfLaws EntryV}.
Implicit Type c : PutClient.

Record PutWorld := mkPutWorld { pw_ts : TS; pw_clients : list PutClient }.

(** Client [pe_c] takes a step; the other fields are what it finds: a signal to stop, a random
    number, a lost answer. *)
Record PutEvent := mkPutEvent { pe_c : nat; pe_done : bool; pe_rand : Z; pe_maybe : bool }.

Definition put_step (randomkeys : bool) (w : PutWorld) (ev : PutEvent) : option PutWorld :=
  match pw_clients w !! pe_c ev with
  | None => Some w
  | Some c =>
      '(ts, c) ← OneClientPut c randomkeys (pe_done ev) (pe_rand ev) (set_maybe (pe_maybe ev) (pw_ts w));
      Some (mkPutWorld ts (<[pe_c ev := c]> (pw_clients w)))
  end.

Definition put_run (randomkeys : bool) (w : PutWorld) (evs : list PutEvent) : option PutWorld :=
  run_steps (put_step randomkeys) w evs.

(** The value of a key is the JSON of an [EntryV]. *)
Definition is_entry (v : string) : Prop := exists e : EntryV, v = Marshal e.

(** What a client knows about the store. *)
Definition pc_ok kv (cli : Z) (pc : PutPc) : Prop :=
  match pc with
  | PutAt k ver => 0 <= ver <= version kv k
  | PutCheck k ver err =>
      0 <= ver <= version kv k /\ 1 <= version kv k /\ (err = OK \/ err = ErrVersion \/ err = ErrMaybe)
      /\ (err = OK -> ver + 1 <= version kv k
          /\ (version kv k = ver + 1 -> lookup kv k = Some (mkValueEntry (Marshal (mkEntryV cli ver)) (ver + 1))))
  | _ => True
  end.

Definition client_ok kv c : Prop :=
  pc_ka c <> [] /\ (forall k, 0 <= default 0 (pc_verm c !! k) <= version kv k) /\ pc_ok kv (pc_cli c) (pc_pc c).

Lemma client_ok_grown kv kv' c : grown kv kv' -> client_ok kv c -> client_ok kv' c.
Proof.
  intros Hg (Hka & Hv & Hpc). split; [done|]. split.
  - intros k. specialize (Hv k). destruct (Hg k). lia.
  - destruct (pc_pc c) as [|k ver|k ver err|]; simpl in *; [done| | |done]; destruct (Hg k) as [Hle Heq].
    + lia.
    + destruct Hpc as (? & ? & ? & Hok). split_and!; [lia..|done|]. intros He.
      destruct (Hok He) as [? Hl]. split; [lia|]. intros Hv'. rewrite <- Heq by lia. apply Hl. lia.
Qed.

(** The [Put] of [OnePut]. *)
Lemma OnePut_put_ok me ts k ver :
  store_ok is_entry (kv_of ts) -> 0 <= ver <= version (kv_of ts) k -> version (kv_of ts) k + 1 < 2 ^ 64 ->
  exists ts' err, OnePut_put me ts k ver = Some (ts', err)
    /\ store_ok is_entry (kv_of ts') /\ grown (kv_of ts) (kv_of ts')
    /\ pc_ok (kv_of ts') me (PutCheck k ver err)
    /\ (forall k', k' <> k -> version (kv_of ts') k' = version (kv_of ts) k')
    /\ (err = ErrMaybe -> maybe_now (t_sys ts) = true)
    /\ (version (kv_of ts') k = version (kv_of ts) k + 1 /\ err <> ErrVersion
        \/ version (kv_of ts') k = version (kv_of ts) k /\ err <> OK).
Proof.
  intros Hok Hver Hb. unfold OnePut_put, PutJson.
  destruct (Put_shared is_entry ts k (Marshal (mkEntryV me ver)) ver me Hok) as
    (ts' & err & -> & Hok' & _ & Hg & Herr & Hcase); [by eexists|lia|done|]. simpl.
  rewrite decide_True by naive_solver. exists ts', err.
  split; [done|]. split; [done|]. split; [done|].
  destruct Hcase as [(Hv & Hne & Hk & Hoth)|(Hv & Hne & Hkv)].
  - assert (Hv' : version (kv_of ts') k = ver + 1) by (unfold version; by rewrite Hk).
    split; [split_and!; [lia|lia|lia|naive_solver|split; [lia|done]]|].
    split; [intros k' Hk'; unfold version; by rewrite (Hoth k' Hk')|].
    split; [naive_solver|]. left. split; [lia|done].
  - rewrite Hkv. split; [split_and!; [lia|lia|lia|naive_solver|done]|].
    split; [done|]. split; [naive_solver|]. by right.
Qed.

(** The [Get] of [OnePut] and its check. *)
Lemma OnePut_get_ok me ts k ver err :
  store_ok is_entry (kv_of ts) -> pc_ok (kv_of ts) me (PutCheck k ver err) ->
  version (kv_of ts) k + 1 < 2 ^ 64 ->
  exists ts', OnePut_get me ts k ver err
      = Some (ts', (version (kv_of ts) k,
                    if decide (err = OK \/ err = ErrMaybe) then Some (bool_decide (err = OK)) else None))
    /\ kv_of ts' = kv_of ts.
Proof.
  intros Hok (Hver & Hpos & Herr & Hmine) Hb. unfold OnePut_get, GetJson.
  destruct (Get_shared is_entry ts k me Hok Hpos) as (ts' & e & -> & Hkv & He & [x Hx]).
  simpl. rewrite Hx, Unmarshal_Marshal. simpl. exists ts'. split; [|done].
  assert (Hve : version (kv_of ts) k = ve_Version e) by (unfold version; by rewrite He).
  rewrite Hve in *. case_match eqn:Hc; [|done]. exfalso.
  repeat (rewrite andb_true_iff in Hc || rewrite negb_true_iff in Hc || rewrite bool_decide_eq_true in Hc
          || rewrite Z.eqb_eq in Hc || rewrite Z.eqb_neq in Hc).
  destruct Hc as ((-> & Hv0) & Hid & _). rewrite u64_small in Hv0 by lia.
  destruct (Hmine eq_refl) as [_ Hl]. rewrite He in Hl. specialize (Hl Hv0). simplify_eq/=.
  assert (Hm : @Unmarshal EntryV _ (Marshal x) = Unmarshal (Marshal (mkEntryV me ver))) by congruence.
  rewrite !Unmarshal_Marshal in Hm. by simplify_eq/=.
Qed.

(** What has been put, counting the calls of [OnePut] that have not read back yet. *)
Definition oks c : Z :=
  Nok (pc_res c) + match pc_pc c with PutCheck _ _ OK => 1 | _ => 0 end.

Definition maybes c : Z :=
  Nmaybe (pc_res c) + match pc_pc c with PutCheck _ _ ErrMaybe => 1 | _ => 0 end.

(** The client is busy with key [k] and no other. *)
Definition on_key k c : Prop :=
  (exists ka, pc_ka c = k :: ka)
  /\ match pc_pc c with PutAt k' _ | PutCheck k' _ _ => k' = k | _ => True end.

(** What a step of a client does to the counts and to the version of its key. *)
Definition counted k kv c kv' c' (maybe : bool) : Prop :=
  on_key k c'
  /\ version kv k + (oks c' - oks c) <= version kv' k
       <= version kv k + (oks c' - oks c) + (maybes c' - maybes c)
  /\ oks c <= oks c' /\ maybes c <= maybes c' /\ oks c' + maybes c' <= oks c + maybes c + 1
  /\ (maybe = false -> maybes c' <= maybes c)
  /\ (oks c' + maybes c' <= oks c + maybes c \/ 1 <= version kv' k).

(** One step of a client: it does not fail; either nothing happens to the store, or a [Put] does. *)
Lemma OneClientPut_ok c randomkeys done rand ts :
  store_ok is_entry (kv_of ts) -> client_ok (kv_of ts) c ->
  (forall k, version (kv_of ts) k + 1 < 2 ^ 64) ->
  exists ts' c', OneClientPut c randomkeys done rand ts = Some (ts', c')
    /\ store_ok is_entry (kv_of ts') /\ grown (kv_of ts) (kv_of ts') /\ client_ok (kv_of ts') c'
    /\ (forall k, version (kv_of ts') k <= version (kv_of ts) k + 1)
    /\ (forall k, randomkeys = false -> on_key k c ->
          counted k (kv_of ts) c (kv_of ts') c' (maybe_now (t_sys ts))).
Proof.
  intros Hok Hcl Hb. pose proof Hcl as (Hka & Hverm & Hpc). unfold OneClientPut, counted, on_key, oks, maybes.
  destruct (pc_pc c) as [|k ver|k ver err|] eqn:Epc.
  - destruct done.
    { exists ts, (set_pc PutDone c). split; [done|]. split; [done|]. split; [apply grown_refl|].
      split; [done|]. split; [intros k; lia|]. intros k _ [Hk _]. simpl. split_and!; auto; lia. }
    assert (Hlen : 0 < zlen (pc_ka c)).
    { destruct (pc_ka c) as [|x l]; [done|]. rewrite zlen_cons. pose proof (zlen_nonneg l). lia. }
    destruct (slice_get_total (pc_ka c) (if randomkeys then rand mod zlen (pc_ka c) else 0)) as [k Hk].
    { destruct randomkeys; [by apply Z.mod_pos_bound|lia]. }
    rewrite Hk. simpl. do 2 eexists. split; [done|]. split; [done|]. split; [apply grown_refl|].
    split; [split; [done|]; split; [done|apply Hverm]|]. split; [intros k'; lia|].
    intros k' -> [[ka Heq] _]. simpl. rewrite Heq in Hk. unfold slice_get in Hk. simplify_eq/=.
    split_and!; eauto; lia.
  - destruct (OnePut_put_ok (pc_cli c) ts k ver Hok Hpc (Hb k)) as
      (ts' & err & -> & Hok' & Hg & Hpc' & Hoth & Hmay & Hv).
    simpl. do 2 eexists. split; [done|]. split; [done|]. split; [done|].
    split; [by apply (client_ok_grown _ _ _ Hg) in Hcl as (? & ? & _)|].
    split; [intros k'; destruct (decide (k' = k)) as [->|Hn]; [|rewrite (Hoth k' Hn)]; lia|].
    intros k' _ [Hka' ->]. simpl. destruct Hpc' as (_ & Hpos & Herr & _).
    split; [done|].
    destruct Hv as [[Hv Hn]|[Hv Hn]], Herr as [-> |[-> | ->]]; try done;
      (split_and!; [lia..|intros Hf; first [lia|rewrite Hmay in Hf; done]|lia]).
  - destruct (OnePut_get_ok (pc_cli c) ts k ver err Hok Hpc (Hb k)) as (ts' & -> & Hkv).
    simpl. do 2 eexists. split; [done|]. rewrite Hkv. split; [done|]. split; [apply grown_refl|].
    pose proof (version_nonneg _ _ k Hok) as Hnn. destruct Hpc as (_ & _ & Herr & _).
    assert (Hins : forall k0, 0 <= default 0 (<[k := version (kv_of ts) k]> (pc_verm c) !! k0)
                              <= version (kv_of ts) k0).
    { intros k0. destruct (decide (k0 = k)) as [->|Hn];
        [rewrite lookup_insert_eq|rewrite lookup_insert_ne by done; apply Hverm]. simpl. lia. }
    split; [|split; [intros k'; lia|]].
    + destruct Herr as [-> |[-> | ->]]; simpl; (split; [done|]; split; [done|]); simpl; try done; lia.
    + intros k' _ [Hka' ->]. destruct Herr as [-> |[-> | ->]]; simpl; split_and!; try done; lia.
  - exists ts, c. split; [done|]. split; [done|]. split; [apply grown_refl|]. split; [done|].
    split; [intros k; lia|]. intros k _ [Hk _]. rewrite Epc. split_and!; auto; lia.
Qed.

(** ** All clients *)

(** After [s] steps, with [n] to go: [v0] is the version of key [k] at the start. *)
Record put_inv (k : string) (v0 : Z) (reliable : bool) (s n : Z) (w : PutWorld) : Prop := {
  pi_store : store_ok is_entry (kv_of (pw_ts w));
  pi_clients : Forall (client_ok (kv_of (pw_ts w))) (pw_clients w);
  pi_bound : forall k', version (kv_of (pw_ts w)) k' + n < 2 ^ 64;
  pi_keys : Forall (on_key k) (pw_clients w);
  pi_count : v0 + zsum oks (pw_clients w) <= version (kv_of (pw_ts w)) k
             <= v0 + zsum oks (pw_clients w) + zsum maybes (pw_clients w);
  pi_nonneg : 0 <= zsum oks (pw_clients w) /\ 0 <= zsum maybes (pw_clients w);
  pi_steps : zsum oks (pw_clients w) + zsum maybes (pw_clients w) <= s;
  pi_exists : zsum oks (pw_clients w) + zsum maybes (pw_clients w) <= 0 \/ 1 <= version (kv_of (pw_ts w)) k;
  pi_reliable : reliable = true -> zsum maybes (pw_clients w) = 0;
}.

Lemma put_step_inv k v0 reliable s n w ev :
  put_inv k v0 reliable s (n + 1) w -> 0 <= n -> (reliable = true -> pe_maybe ev = false) ->
  exists w', put_step false w ev = Some w' /\ put_inv k v0 reliable (s + 1) n w'.
Proof.
  intros [Hst Hcl Hb Hk Hcount Hnn Hsteps Hex Hrel] Hn Hev. unfold put_step.
  destruct (pw_clients w !! pe_c ev) as [c|] eqn:Hc.
  2: { exists w. split; [done|]. constructor; try done; [|lia].
       intros k'. specialize (Hb k'). lia. }
  pose proof (Forall_lookup_1 _ _ _ _ Hcl Hc) as Hc1. pose proof (Forall_lookup_1 _ _ _ _ Hk Hc) as Hc2.
  destruct (OneClientPut_ok c false (pe_done ev) (pe_rand ev) (set_maybe (pe_maybe ev) (pw_ts w)))
    as (ts' & c' & -> & Hst' & Hg & Hcl' & Hb' & Hcnt); [done|done|intros k'; specialize (Hb k'); cbn; lia|].
  change (kv_of (set_maybe (pe_maybe ev) (pw_ts w))) with (kv_of (pw_ts w)) in *.
  destruct (Hcnt k eq_refl Hc2) as (Hk' & Hv & Ho & Hm & Ht & Hf & He). simpl in Hf.
  eexists. split; [done|]. constructor; simpl; rewrite ?(zsum_insert _ _ _ _ _ Hc).
  - done.
  - apply Forall_insert; [|done]. eapply Forall_impl; [exact Hcl|]. intros d. by apply client_ok_grown.
  - intros k'. specialize (Hb k'). specialize (Hb' k'). lia.
  - by apply Forall_insert.
  - lia.
  - lia.
  - lia.
  - destruct (Hg k). lia.
  - intros Hr. specialize (Hrel Hr). specialize (Hf (Hev Hr)). lia.
Qed.

Lemma put_run_inv k v0 reliable s w evs :
  put_inv k v0 reliable s (zlen evs) w -> (reliable = true -> Forall (fun ev => pe_maybe ev = false) evs) ->
  exists w', put_run false w evs = Some w' /\ put_inv k v0 reliable (s + zlen evs) 0 w'.
Proof.
  revert s w. induction evs as [|ev evs IH]; intros s w Hinv Hev.
  { exists w. split; [done|]. rewrite zlen_nil in *. by rewrite Z.add_0_r. }
  rewrite zlen_cons in *. unfold put_run. rewrite run_steps_cons.
  destruct (put_step_inv k v0 reliable s (zlen evs) w ev) as (w1 & -> & Hinv1).
  { by rewrite Z.add_comm. }
  { apply zlen_nonneg. }
  { intros Hr. specialize (Hev Hr). by apply Forall_cons in Hev as [? _]. }
  simpl. destruct (IH (s + 1) w1 Hinv1) as (w' & Hr' & Hinv').
  { intros Hr. specialize (Hev Hr). by apply Forall_cons in Hev as [_ ?]. }
  exists w'. split; [done|]. by replace (s + (1 + zlen evs)) with (s + 1 + zlen evs) by lia.
Qed.

Lemma foldl_res rs res :
  foldl (fun res r => mkClntRes (Nok res + Nok r) (Nmaybe res + Nmaybe r)) res rs
  = mkClntRes (Nok res + zsum Nok rs) (Nmaybe res + zsum Nmaybe rs).
Proof.
  revert res. induction rs as [|r rs IH]; intros [a b]; simpl; [by rewrite !Z.add_0_r|].
  rewrite IH. simpl. f_equal; lia.
Qed.

(** The clients of a test, before their first step. *)
Definition put_start (ts : TS) (nclnt : Z) (ka : list string) : PutWorld :=
  mkPutWorld ts ((fun i => OneClientPut_init i ka) <$> seqZ 0 nclnt).

Lemma verm_zeros (ka : list string) k : default 0 (foldr (fun k m => <[k := 0]> m) (∅ : gmap string Z) ka !! k) = 0.
Proof.
  induction ka as [|k' ka IH]; simpl; [done|]. destruct (decide (k = k')) as [->|Hn];
    [by rewrite lookup_insert_eq|by rewrite lookup_insert_ne].
Qed.

Lemma put_start_inv ts nclnt k ka reliable n :
  store_ok is_entry (kv_of ts) -> (forall k', version (kv_of ts) k' + n < 2 ^ 64) ->
  put_inv k (version (kv_of ts) k) reliable 0 n (put_start ts nclnt (k :: ka)).
Proof.
  intros Hok Hb.
  assert (Hc : forall c, c ∈ pw_clients (put_start ts nclnt (k :: ka)) -> exists i, c = OneClientPut_init i (k :: ka)).
  { intros c Hc. apply list_elem_of_fmap in Hc as (i & -> & _). by exists i. }
  assert (Ho : zsum oks (pw_clients (put_start ts nclnt (k :: ka))) = 0).
  { apply zsum_zero. by intros c (i & ->)%Hc. }
  assert (Hm : zsum maybes (pw_clients (put_start ts nclnt (k :: ka))) = 0).
  { apply zsum_zero. by intros c (i & ->)%Hc. }
  constructor; rewrite ?Ho, ?Hm; try done; change (pw_ts _) with ts; try lia.
  - apply Forall_forall. intros c (i & ->)%Hc. split; [done|]. split; [|done].
    intros k'. unfold OneClientPut_init, pc_verm. rewrite verm_zeros.
    pose proof (version_nonneg _ _ k' Hok). lia.
  - apply Forall_forall. intros c (i & ->)%Hc. split; [by exists ka|done].
Qed.

(** [CheckPutConcurrent] passes when all clients are done. *)
Lemma check_passes k v0 reliable s w res :
  put_inv k v0 reliable s 0 w -> Forall (fun c => pc_pc c = PutDone) (pw_clients w) ->
  0 < zsum oks (pw_clients w) + zsum maybes (pw_clients w) ->
  0 <= Nok res -> 0 <= Nmaybe res -> Nok res <= v0 <= Nok res + Nmaybe res ->
  (reliable = true -> Nmaybe res = 0) -> Nok res + Nmaybe res + s < 2 ^ 64 ->
  exists ts' res', CheckPutConcurrent (pw_ts w) k (pc_res <$> pw_clients w) res reliable = Some (ts', res')
    /\ kv_of ts' = kv_of (pw_ts w)
    /\ Nok res' <= version (kv_of ts') k <= Nok res' + Nmaybe res' /\ (reliable = true -> Nmaybe res' = 0).
Proof.
  intros [Hst Hcl Hb Hk Hcount Hnn Hsteps Hex Hrel] Hdone Hsome Hr1 Hr2 Hr3 Hr4 Hr5.
  unfold CheckPutConcurrent, GetJson.
  destruct (Get_shared is_entry (pw_ts w) k (-1) Hst) as (ts' & e & -> & Hkv & He & [x Hx]); [lia|].
  simpl. rewrite Hx, Unmarshal_Marshal. simpl. rewrite foldl_res, !zsum_fmap. simpl.
  assert (Ho : zsum (fun c => Nok (pc_res c)) (pw_clients w) = zsum oks (pw_clients w)).
  { apply zsum_ext. intros c Hc. rewrite Forall_forall in Hdone. unfold oks. rewrite (Hdone c Hc). lia. }
  assert (Hm : zsum (fun c => Nmaybe (pc_res c)) (pw_clients w) = zsum maybes (pw_clients w)).
  { apply zsum_ext. intros c Hc. rewrite Forall_forall in Hdone. unfold maybes. rewrite (Hdone c Hc). lia. }
  assert (Hve : version (kv_of (pw_ts w)) k = ve_Version e) by (unfold version; by rewrite He).
  rewrite Ho, Hm. rewrite Hve in Hcount. rewrite !u64_small by lia. exists ts'. eexists. split.
  - destruct reliable.
    + specialize (Hrel eq_refl). specialize (Hr4 eq_refl).
      replace (ve_Version e =? Nok res + zsum oks (pw_clients w)) with true by lia. done.
    + destruct (Z.ltb_spec (Nok res + zsum oks (pw_clients w) + (Nmaybe res + zsum maybes (pw_clients w)))
                  (ve_Version e)); [lia|done].
  - simpl. split; [done|]. rewrite Hkv, Hve. split; [lia|]. intros Hr. rewrite Hrel, Hr4 by done. done.
Qed.

(** C39.  No false alarm from the clients that put: however [nclnt] clients of [OneClientPut] on one key
    interleave, with answers lost at will unless the network is [reliable], no check of [OnePut]
    fails; and when all have stopped and something was put, [CheckPutConcurrent] accepts, with the
    counts of earlier rounds in [res], and leaves counts for the next round.  On a reliable network
    the version is then exactly the number of puts answered [OK]. *)
Theorem put_clients_pass (ts : TS) (nclnt : Z) (k : string) (ka : list string) (reliable : bool)
    (res : ClntRes) (evs : list PutEvent) :
  store_ok is_entry (kv_of ts) -> (forall k', version (kv_of ts) k' + zlen evs < 2 ^ 64) ->
  (reliable = true -> Nmaybe res = 0 /\ Forall (fun ev => pe_maybe ev = false) evs) ->
  0 <= Nok res -> 0 <= Nmaybe res -> Nok res <= version (kv_of ts) k <= Nok res + Nmaybe res ->
  Nok res + Nmaybe res + zlen evs < 2 ^ 64 ->
  exists w, put_run false (put_start ts nclnt (k :: ka)) evs = Some w
    /\ (Forall (fun c => pc_pc c = PutDone) (pw_clients w) ->
        0 < zsum (fun c => Nok (pc_res c) + Nmaybe (pc_res c)) (pw_clients w) ->
        exists ts' res', CheckPutConcurrent (pw_ts w) k (pc_res <$> pw_clients w) res reliable = Some (ts', res')
          /\ kv_of ts' = kv_of (pw_ts w)
          /\ Nok res' <= version (kv_of ts') k <= Nok res' + Nmaybe res'
          /\ (reliable = true -> Nmaybe res' = 0)).
Proof.
  intros Hok Hb Hrel Hr1 Hr2 Hr3 Hr4.
  pose proof (put_start_inv ts nclnt k ka reliable (zlen evs) Hok Hb) as Hinv.
  destruct (put_run_inv k _ reliable 0 _ evs Hinv) as (w & Hrun & Hinv'); [naive_solver|].
  exists w. split; [done|]. intros Hdone Hsome.
  eapply check_passes; [exact Hinv'|done| |lia..|naive_solver|lia].
  rewrite <- zsum_add, (zsum_ext _ (fun c => Nok (pc_res c) + Nmaybe (pc_res c))); [done|].
  intros c Hc. rewrite Forall_forall in Hdone. unfold oks, maybes. rewrite (Hdone c Hc). lia.
Qed.
End PutClients.

(** ** Concrete runs *)

(** A JSON for evaluation: the number of a value. *)
Definition countable_json (A : Type) `{Countable A} : JsonOf A := {|
  Marshal a := Sprint (Zpos (encode a));
  Unmarshal s := match Atoi s with Zpos p => decode p | _ => None end |}.

Lemma countable_json_laws (A : Type) `{Countable A} : @JsonOfLaws A (countable_json A).
Proof. constructor. intros a. simpl. rewrite Atoi_Sprint. apply decode_encode. Qed.

#[export] Instance EntryV_eq_dec : EqDecision EntryV.
Proof. solve_decision. Defined.
#[export] Instance EntryV_countable : Countable EntryV.
Proof. refine (inj_countable' (fun e => (ev_Id e, ev_V e)) (fun p => mkEntryV p.1 p.2) _). by intros []. Defined.
#[export] Instance EntryN_eq_dec : EqDecision EntryN.
Proof. solve_decision. Defined.
#[export] Instance EntryN_countable : Countable EntryN.
Proof. refine (inj_countable' (fun e => (en_Id e, en_N e)) (fun p => mkEntryN p.1 p.2) _). by intros []. Defined.

#[export] Instance EntryV_json : JsonOf EntryV := countable_json EntryV.
#[export] Instance EntryV_json_laws : JsonOfLaws EntryV := countable_json_laws EntryV.
#[export] Instance EntryNs_json : JsonOf (list EntryN) := countable_json (list EntryN).
#[export] Instance EntryNs_json_laws : JsonOfLaws (list EntryN) := countable_json_laws (list EntryN).

Definition empty_test : TS := MakeTest (mkShared (mkKVServer 0 0 (Some ∅)) [] 0).

Lemma empty_store P : store_ok P (kv_of empty_test).
Proof. split; [by eexists|]. intros k e He. by vm_compute in He. Qed.

(** Two clients race for version 0: the first wins, the second loses, reads, and puts again, not
    told that it succeeds. *)
Definition race : list PutEvent :=
  let act c := mkPutEvent c false 0 false in
  [ act 0%nat; act 1%nat; act 0%nat; act 1%nat; act 0%nat; act 1%nat; mkPutEvent 1 false 0 true;
    act 1%nat; mkPutEvent 0 true 0 false; mkPutEvent 1 true 0 false ].

Lemma put_clients_pass_witness :
  exists w, put_run false (put_start empty_test 2 ["k"]) race = Some w
    /\ pc_res <$> pw_clients w = [mkClntRes 1 0; mkClntRes 0 1]
    /\ exists ts' res', CheckPutConcurrent (pw_ts w) "k" (pc_res <$> pw_clients w) (mkClntRes 0 0) false
         = Some (ts', res') /\ Nok res' <= version (kv_of ts') "k" <= Nok res' + Nmaybe res'.
Proof.
  destruct (put_clients_pass empty_test 2 "k" [] false (mkClntRes 0 0) race) as (w & Hr & Hcheck).
  - apply empty_store.
  - intros k'. vm_compute. reflexivity.
  - discriminate.
  - simpl. lia.
  - simpl. lia.
  - vm_compute. split; discriminate.
  - vm_compute. reflexivity.
  - exists w. split; [exact Hr|]. split; [vm_compute in Hr; injection Hr as <-; reflexivity|].
    destruct Hcheck as (ts' & res' & Hc & _ & Hv & _).
    + clear -Hr. vm_compute in Hr. injection Hr as <-. repeat constructor.
    + clear -Hr. vm_compute in Hr. injection Hr as <-. vm_compute. reflexivity.
    + exists ts', res'. split; [exact Hc|exact Hv].
Defined.

(** An entry of another client under the version this client was told it wrote: [OnePut] only
    objects if both fields are wrong. *)
Example OnePut_accepts_foreign_entry :
  let ts := set_sys (mkShared (mkKVServer 0 0
    (Some {["k" := mkValueEntry (Marshal (mkEntryV 7 0)) 1]})) [] 0) empty_test in
  option_map snd (OnePut_get 1 ts "k" 0 OK) = Some (1, Some true).
Proof. vm_compute. reflexivity. Qed.
