(* ===== verification/KvAppends.v ===== *)
(** * The tests that append

    [CheckAppends] of [kvtest.go] exactly: which lists of entries it accepts; and that it accepts
    whatever the clients of [OneClientAppend] produce against one store, in any interleaving. *)

From S2P Require Import Prelude Rpc KvServer Porcupine KvTest KvTestProps.
Import KVServer KvTest.

(** ** What [CheckAppends] accepts *)

Implicit Types (es : list EntryN) (rs : list ClntRes) (c : Z).

(** The numbers a client appended, in the order of the list. *)
Definition numbers c es : list Z := en_N <$> filter (fun e => en_Id e = c) es.

(** Increasing from [n] on. *)
Fixpoint increasing (n : Z) (l : list Z) : Prop :=
  match l with [] => True | x :: l => n <= x /\ increasing (x + 1) l end.

(** One more than the last number. *)
Definition next (l : list Z) : Z := match last l with Some x => x + 1 | None => 0 end.

Lemma increasing_snoc n l x :
  increasing n (l ++ [x]) <-> increasing n l /\ match last l with Some y => y + 1 | None => n end <= x.
Proof.
  revert n. induction l as [|y l IH]; intros n; [simpl; tauto|].
  rewrite last_cons, <- app_comm_cons. cbn [increasing]. rewrite IH. destruct (last l); tauto.
Qed.

Lemma next_snoc l x : next (l ++ [x]) = x + 1.
Proof. unfold next. by rewrite last_snoc. Qed.

Lemma increasing0_snoc l x : increasing 0 (l ++ [x]) <-> increasing 0 l /\ next l <= x.
Proof. apply increasing_snoc. Qed.

Lemma numbers_snoc c es e :
  numbers c (es ++ [e]) = numbers c es ++ (if decide (en_Id e = c) then [en_N e] else []).
Proof.
  unfold numbers. rewrite filter_app, fmap_app, filter_cons, filter_nil. by case_decide.
Qed.

(** Among increasing numbers, those that are missing below [next]. *)
Lemma increasing_length n l :
  increasing n l -> zlen l <= match last l with Some y => y + 1 | None => n end - n.
Proof.
  revert n. induction l as [|x l IH]; intros n; cbn [increasing]; [rewrite zlen_nil; simpl; lia|].
  intros [Hx Hl]. specialize (IH _ Hl). rewrite zlen_cons, last_cons. destruct (last l); lia.
Qed.

(** A run with one more event. *)
Lemma run_steps_snoc {S E} (f : S -> E -> option S) s evs ev :
  run_steps f s (evs ++ [ev]) = x ← run_steps f s evs; f x ev.
Proof.
  rewrite run_steps_app. destruct (run_steps f s evs) as [x|]; simpl; [|done].
  rewrite run_steps_cons. by destruct (f x ev).
Qed.

(** The maps agree with the numbers seen so far. *)
Definition counts_ok es (st : Counts) : Prop :=
  forall c, get0 st.1 c = next (numbers c es)
    /\ get0 st.2 c = next (numbers c es) - zlen (numbers c es).

Lemma get0_insert (m : gmap Z Z) i x c : get0 (<[i := x]> m) c = if decide (i = c) then x else get0 m c.
Proof. unfold get0. rewrite lookup_insert. by case_decide. Qed.

Lemma check_entry_spec es st e :
  counts_ok es st ->
  match check_entry st e with
  | Some st' => next (numbers (en_Id e) es) <= en_N e /\ counts_ok (es ++ [e]) st'
                /\ dom st'.1 = {[en_Id e]} ∪ dom st.1
  | None => en_N e < next (numbers (en_Id e) es)
  end.
Proof.
  destruct st as [ex sk]. intros Hok. destruct (Hok (en_Id e)) as [Hex Hsk]. simpl in *.
  rewrite Hex. destruct (Z.ltb_spec (en_N e) (next (numbers (en_Id e) es))) as [?|Hle]; [done|].
  destruct (Z.eqb_spec (next (numbers (en_Id e) es)) (en_N e)) as [Heq|Hne];
    (split; [done|]; split; [|simpl; by rewrite dom_insert_L]);
    intros c; simpl; rewrite ?get0_insert, numbers_snoc; case_decide as Hc; subst;
    rewrite ?app_nil_r, ?next_snoc; try apply Hok.
  - rewrite zlen_app, zlen_cons, zlen_nil. simpl in Hsk. lia.
  - rewrite zlen_app, zlen_cons, zlen_nil. simpl in Hsk. lia.
Qed.

(** The loop over the entries. *)
Lemma check_entries_spec es st :
  counts_ok [] st ->
  match run_steps check_entry st es with
  | Some st' => (forall c, increasing 0 (numbers c es)) /\ counts_ok es st'
                /\ dom st'.1 = list_to_set (en_Id <$> es) ∪ dom st.1
  | None => exists c, ~ increasing 0 (numbers c es)
  end.
Proof.
  intros H0. induction es as [|e es IH] using rev_ind.
  { split; [done|]. split; [done|]. simpl. set_solver. }
  rewrite run_steps_snoc. destruct (run_steps check_entry st es) as [st1|]; simpl.
  - destruct IH as (Hinc & Hok & Hdom). pose proof (check_entry_spec es st1 e Hok) as He.
    destruct (check_entry st1 e) as [st2|].
    + destruct He as (Hle & Hok' & Hd'). split; [|split; [done|]].
      * intros c. rewrite numbers_snoc. case_decide as Hc; [|by rewrite app_nil_r].
        subst. apply increasing0_snoc. done.
      * rewrite Hd', Hdom, fmap_app, list_to_set_app_L. simpl. set_solver.
    + exists (en_Id e). rewrite numbers_snoc, decide_True by done. rewrite increasing0_snoc. lia.
  - destruct IH as [c Hc]. exists c. rewrite numbers_snoc. case_decide; [|by rewrite app_nil_r].
    rewrite increasing0_snoc. tauto.
Qed.

Lemma run_checks {A} (g : A -> option unit) (l : list A) :
  run_steps (fun _ x => g x) tt l = Some tt <-> Forall (fun x => g x = Some tt) l.
Proof.
  induction l as [|x l IH]; [by split|]. rewrite run_steps_cons, Forall_cons.
  destruct (g x) as [[]|]; simpl; [rewrite IH; by split; [intros|intros []]|]. by split; [|intros []].
Qed.

Lemma zeros_lookup (l : list Z) c :
  foldr (fun i m => <[i := 0]> m) (∅ : gmap Z Z) l !! c = if decide (c ∈ l) then Some 0 else None.
Proof.
  induction l as [|i l IH]; simpl; [done|]. rewrite lookup_insert, IH.
  repeat case_decide; set_solver.
Qed.

(** What the tests promise about client [c] with result [r]. *)
Definition client_accepted es c (r : ClntRes) : Prop :=
  next (numbers c es) - zlen (numbers c es) <= Nmaybe r /\ next (numbers c es) <= Nok r + Nmaybe r.

(** [CheckAppends] accepts exactly if the numbers of each client increase, there is one version
    per entry, every client is known, has lost no more entries below its last one than it had
    doubts, and has not more than it tried. *)
Theorem CheckAppends_exact es (nclnt : Z) rs (ver : Tversion) :
  CheckAppends es nclnt rs ver = Some tt <->
  (forall c, increasing 0 (numbers c es)) /\ zlen es + 1 = int_of ver
  /\ forall c, 0 <= c < nclnt \/ c ∈ en_Id <$> es ->
       exists r, slice_get rs c = Some r /\ client_accepted es c r.
Proof.
  unfold CheckAppends. set (zeros := foldr _ _ _).
  assert (Hz : forall c, zeros !! c = if decide (0 <= c < nclnt) then Some 0 else None).
  { intros c. unfold zeros. rewrite zeros_lookup. pose proof (elem_of_seqZ 0 nclnt c).
    repeat case_decide; try done; exfalso; lia || (rewrite H in *; lia). }
  pose proof (check_entries_spec es (zeros, zeros)) as Hspec.
  destruct (run_steps check_entry (zeros, zeros) es) as [[expect skipped]|]; simpl.
  - destruct Hspec as (Hinc & Hok & Hdom).
    { intros c. unfold get0. simpl. rewrite Hz. by case_decide. }
    simpl in Hdom. destruct (Z.eqb_spec (zlen es + 1) (int_of ver)) as [Hv|Hv]; simpl; [|naive_solver].
    rewrite run_checks, Forall_forall.
    assert (Hcl : forall c n, expect !! c = Some n ->
      check_client skipped rs c n = Some tt <-> exists r, slice_get rs c = Some r /\ client_accepted es c r).
    { intros c n Hn. destruct (Hok c) as [He Hs]. simpl in *. unfold get0 in He. rewrite Hn in He. simpl in He.
      unfold check_client, client_accepted. rewrite Hs, <- He. destruct (slice_get rs c) as [r|]; simpl; [|naive_solver].
      destruct (Z.ltb_spec (Nmaybe r) (n - zlen (numbers c es))), (Z.ltb_spec (Nok r + Nmaybe r) n);
        split; try done; try (intros (? & [= <-] & ? & ?); lia). eauto with lia. }
    assert (Hex : forall c, is_Some (expect !! c) <-> 0 <= c < nclnt \/ c ∈ en_Id <$> es).
    { intros c. rewrite <- elem_of_dom, Hdom, elem_of_union, elem_of_list_to_set, elem_of_dom, Hz.
      case_decide as Hc; (split; [intros [?|[? Hs]]; [by right|simplify_eq; auto]|intros [?|?]; [|by left]]);
        [right; by eexists|tauto]. }
    split.
    + intros Hall. split; [done|]. split; [done|]. intros c Hc. apply Hex in Hc as [n Hn].
      apply (Hcl c n Hn), (Hall (c, n)). by apply elem_of_map_to_list.
    + intros (_ & _ & Hall) [c n] Hcn. apply elem_of_map_to_list in Hcn. apply (Hcl c n Hcn), Hall, Hex. by eexists.
  - destruct Hspec as [c Hc].
    { intros c. unfold get0. simpl. rewrite Hz. by case_decide. }
    naive_solver.
Qed.

(** ** The clients *)

Section AppendClients.
Context `{JsonOf (list EntryN)} `{!JsonOfLaws (list EntryN)}.
Implicit Types (cl : AppendClient) (ts : TS).

Record AppWorld := mkAppWorld { aw_ts : TS; aw_clients : list AppendClient }.

Record AppEvent := mkAppEvent { ae_c : nat; ae_done : bool; ae_maybe : bool }.

Definition app_step (w : AppWorld) (ev : AppEvent) : option AppWorld :=
  match aw_clients w !! ae_c ev with
  | None => Some w
  | Some cl =>
      '(ts, cl) ← OneClientAppend cl (ae_done ev) (set_maybe (ae_maybe ev) (aw_ts w));
      Some (mkAppWorld ts (<[ae_c ev := cl]> (aw_clients w)))
  end.

Definition app_run (w : AppWorld) (evs : list AppEvent) : option AppWorld := run_steps app_step w evs.

Definition app_start ts (nclnt : Z) : AppWorld := mkAppWorld ts (OneClientAppend_init <$> seqZ 0 nclnt).

(** The key holds the list [es]. *)
Definition holds ts es : Prop :=
  store_ok (fun _ => True) (kv_of ts)
  /\ lookup (kv_of ts) "k" = Some (mkValueEntry (Marshal es) (zlen es + 1)).

Lemma holds_version ts es : holds ts es -> version (kv_of ts) "k" = zlen es + 1.
Proof. intros [_ Hl]. unfold version. by rewrite Hl. Qed.

(** Client [i] and its entries. *)
Definition append_ok es (i : Z) cl : Prop :=
  ac_me cl = i /\ increasing 0 (numbers i es) /\ next (numbers i es) <= ac_i cl
  /\ ac_i cl = Nok (ac_res cl) + Nmaybe (ac_res cl) /\ Nok (ac_res cl) <= zlen (numbers i es)
  /\ match ac_pc cl with
     | AppPut es' ver => 0 <= ver <= zlen es + 1
                         /\ (ver = zlen es + 1 -> es' = es ++ [mkEntryN i (ac_i cl)])
     | _ => True
     end.

(** An entry of somebody else. *)
Lemma append_ok_other es i cl e : en_Id e <> i -> append_ok es i cl -> append_ok (es ++ [e]) i cl.
Proof.
  intros Hne (Hme & Hinc & Hnext & Hi & Hok & Hpc). unfold append_ok.
  assert (Hnum : numbers i (es ++ [e]) = numbers i es)
    by (by rewrite numbers_snoc, decide_False, app_nil_r).
  assert (Hlen : zlen (es ++ [e]) = zlen es + 1) by apply zlen_app.
  rewrite Hnum, Hlen. split_and!; try done. destruct (ac_pc cl); try done. lia.
Qed.

(** One step of a client: it appends at most one entry, its own. *)
Lemma OneClientAppend_ok es i cl done ts :
  holds ts es -> append_ok es i cl -> zlen es + 2 < 2 ^ 64 ->
  exists ts' cl' es', OneClientAppend cl done ts = Some (ts', cl') /\ holds ts' es' /\ append_ok es' i cl'
    /\ (es' = es \/ es' = es ++ [mkEntryN i (ac_i cl)]).
Proof.
  intros Hts Hcl Hb. pose proof (holds_version ts es Hts) as Hv. pose proof Hts as [Hst Hl].
  pose proof Hcl as (Hme & Hinc & Hnext & Hi & Hok & Hpc). pose proof (zlen_nonneg es) as Hnn.
  unfold OneClientAppend. destruct (ac_pc cl) as [| |es1 ver|] eqn:Epc.
  - exists ts, (set_apc (if done then AppDone else AppGet) cl), es. split; [done|]. split; [done|].
    split; [|by left]. unfold append_ok. simpl. split_and!; try done. by destruct done.
  - unfold GetJson. destruct (Get_shared (fun _ => True) ts "k" (ac_me cl) Hst) as (ts' & e & -> & Hkv & He & _); [lia|].
    simpl. rewrite Hl in He. simplify_eq/=. rewrite Unmarshal_Marshal. simpl.
    do 3 eexists. split; [done|]. split; [split; by rewrite Hkv|]. split; [|by left].
    unfold append_ok. simpl. split_and!; try done; lia.
  - destruct Hpc as [Hver Hes]. unfold PutJson.
    destruct (Put_shared (fun _ => True) ts "k" (Marshal es1) ver (ac_me cl) Hst) as
      (ts' & err & -> & Hst' & _ & _ & Herr & Hcase); [done|lia|lia|]. simpl. rewrite Hv in Hcase.
    destruct Hcase as [(-> & Hne & Hk & _)|(Hne & Hnok & Hkv)].
    + specialize (Hes eq_refl). subst es1. exists ts'. eexists. exists (es ++ [mkEntryN i (ac_i cl)]).
      split; [done|]. split.
      { split; [done|]. rewrite Hk, zlen_app, zlen_cons, zlen_nil. do 2 f_equal. }
      split; [|by right]. unfold append_ok.
      assert (Hnum : numbers i (es ++ [mkEntryN i (ac_i cl)]) = numbers i es ++ [ac_i cl])
        by (by rewrite numbers_snoc, decide_True).
      assert (Hlen : zlen (numbers i es ++ [ac_i cl]) = zlen (numbers i es) + 1) by apply zlen_app.
      rewrite Hnum, next_snoc, increasing0_snoc, Hlen.
      destruct Herr as [[-> _]|[->|[-> _]]]; try done; simpl; (split_and!; [done|done|done|lia|lia|lia|done]).
    + exists ts'. eexists. exists es. split; [done|]. split; [split; by rewrite Hkv|].
      split; [|by left]. unfold append_ok.
      destruct Herr as [[-> _]|[->|[-> _]]]; try done; simpl; (split_and!; try done; lia).
  - exists ts, cl, es. split; [done|]. split; [done|]. split; [|by left]. done.
Qed.

Record app_inv (nclnt n : Z) (w : AppWorld) es : Prop := {
  ai_holds : holds (aw_ts w) es;
  ai_bound : zlen es + 1 + n < 2 ^ 63;
  ai_len : zlen (aw_clients w) = Z.max 0 nclnt;
  ai_ids : Forall (fun e => 0 <= en_Id e < nclnt) es;
  ai_clients : forall i cl, aw_clients w !! i = Some cl -> append_ok es (Z.of_nat i) cl;
}.

Lemma app_step_inv nclnt n w es ev :
  app_inv nclnt (n + 1) w es -> 0 <= n ->
  exists w' es', app_step w ev = Some w' /\ app_inv nclnt n w' es'.
Proof.
  intros [Hh Hb Hlen Hids Hcl] Hn. unfold app_step.
  destruct (aw_clients w !! ae_c ev) as [cl|] eqn:Hc.
  2: { exists w, es. split; [done|]. constructor; try done. lia. }
  pose proof (lookup_lt_Some _ _ _ Hc) as Hlt.
  destruct (OneClientAppend_ok es (Z.of_nat (ae_c ev)) cl (ae_done ev) (set_maybe (ae_maybe ev) (aw_ts w)))
    as (ts' & cl' & es' & -> & Hh' & Hcl' & Hes'); [done|by apply Hcl|lia|].
  simpl. eexists _, es'. split; [done|]. constructor; simpl.
  - done.
  - destruct Hes' as [->| ->]; rewrite ?zlen_app, ?zlen_cons, ?zlen_nil; lia.
  - by rewrite zlen_insert.
  - destruct Hes' as [->| ->]; [done|]. apply Forall_app. split; [done|]. apply Forall_singleton. simpl.
    unfold zlen in Hlen. lia.
  - intros j cl1 Hj. destruct (decide (j = ae_c ev)) as [->|Hne].
    + rewrite list_lookup_insert_eq in Hj by done. by simplify_eq.
    + rewrite list_lookup_insert_ne in Hj by done. destruct Hes' as [->| ->]; [by apply Hcl|].
      apply append_ok_other; [simpl; lia|by apply Hcl].
Qed.

Lemma app_run_inv nclnt w es evs :
  app_inv nclnt (zlen evs) w es -> exists w' es', app_run w evs = Some w' /\ app_inv nclnt 0 w' es'.
Proof.
  revert w es. induction evs as [|ev evs IH]; intros w es Hinv; [by exists w, es|].
  rewrite zlen_cons, Z.add_comm in Hinv.
  destruct (app_step_inv nclnt _ w es ev Hinv (zlen_nonneg _)) as (w1 & es1 & Hs & Hinv1).
  destruct (IH w1 es1 Hinv1) as (w' & es' & Hr & Hinv').
  exists w', es'. split; [|done]. unfold app_run. by rewrite run_steps_cons, Hs.
Qed.

Lemma app_start_inv ts nclnt n :
  holds ts [] -> 1 + n < 2 ^ 63 -> app_inv nclnt n (app_start ts nclnt) [].
Proof.
  intros Hh Hn. constructor; simpl; [done|rewrite zlen_nil; lia| |done|].
  - unfold zlen. rewrite length_fmap, length_seqZ. lia.
  - intros i cl Hi. rewrite list_lookup_fmap in Hi. apply fmap_Some in Hi as (j & Hj & ->).
    apply lookup_seqZ in Hj as [-> _]. unfold append_ok. simpl. split_and!; done.
Qed.

Lemma app_inv_check nclnt n w es :
  app_inv nclnt n w es -> 0 <= n ->
  CheckAppends es nclnt (ac_res <$> aw_clients w) (zlen es + 1) = Some tt.
Proof.
  intros [Hh Hb Hlen Hids Hcl] Hn. pose proof (zlen_nonneg es).
  assert (Hall : forall c, 0 <= c < nclnt -> exists cl, aw_clients w !! Z.to_nat c = Some cl /\ append_ok es c cl).
  { intros c Hc. destruct (lookup_lt_is_Some_2 (aw_clients w) (Z.to_nat c)) as [cl Hl]; [unfold zlen in Hlen; lia|].
    exists cl. split; [done|]. specialize (Hcl _ _ Hl). by rewrite Z2Nat.id in Hcl by lia. }
  assert (Hin : forall c, c ∈ en_Id <$> es -> 0 <= c < nclnt).
  { intros c (e & -> & He)%list_elem_of_fmap. rewrite Forall_forall in Hids. by apply Hids. }
  apply CheckAppends_exact. split; [|split].
  - intros c. destruct (decide (0 <= c < nclnt)) as [Hc|Hc].
    { destruct (Hall c Hc) as (cl & _ & _ & Hinc & _). done. }
    replace (numbers c es) with (@nil Z); [done|]. unfold numbers.
    destruct (filter _ es) as [|e l] eqn:He; [done|]. destruct Hc.
    assert (Hin' : e ∈ filter (fun e => en_Id e = c) es) by (rewrite He; left).
    apply list_elem_of_filter in Hin' as [<- ?]. apply Hin. by apply list_elem_of_fmap_2.
  - unfold int_of. destruct (Z.ltb_spec (zlen es + 1) (2 ^ 63)); lia.
  - intros c Hc. assert (Hc' : 0 <= c < nclnt) by (destruct Hc; auto).
    destruct (Hall c Hc') as (cl & Hl & Hme & _ & Hnext & Hi & Hok & _). exists (ac_res cl). split.
    + apply slice_get_Some. split; [lia|]. by rewrite list_lookup_fmap, Hl.
    + unfold client_accepted. lia.
Qed.

(** No false alarm from the clients that append: however [nclnt] clients of [OneClientAppend]
    interleave, with answers lost at will, no client fails, and at any time what [GetJson] reads
    passes [CheckAppends] with the results so far. *)
Theorem append_clients_pass (ts : TS) (nclnt : Z) (evs : list AppEvent) :
  holds ts [] -> 1 + zlen evs < 2 ^ 63 ->
  exists w ts' ver es, app_run (app_start ts nclnt) evs = Some w
    /\ GetJson (A:=list EntryN) (aw_ts w) "k" (-1) = Some (ts', (ver, es))
    /\ CheckAppends es nclnt (ac_res <$> aw_clients w) ver = Some tt.
Proof.
  intros Hh Hb.
  destruct (app_run_inv nclnt _ [] evs (app_start_inv ts nclnt (zlen evs) Hh Hb)) as (w & es & Hr & Hinv).
  pose proof (ai_holds _ _ _ _ Hinv) as [Hst Hl].
  destruct (Get_shared (fun _ => True) (aw_ts w) "k" (-1) Hst) as (ts' & e & Hg & _ & He & _).
  { unfold version. rewrite Hl. simpl. pose proof (zlen_nonneg es). lia. }
  rewrite Hl in He. simplify_eq/=. exists w, ts', (zlen es + 1), es. split; [done|]. split.
  - unfold GetJson. rewrite Hg. simpl. by rewrite Unmarshal_Marshal.
  - by apply (app_inv_check nclnt 0).
Qed.
End AppendClients.

(** ** Concrete runs *)

Definition test_k : TS :=
  set_sys (mkShared (mkKVServer 0 0 (Some {["k" := mkValueEntry (Marshal (@nil EntryN)) 1]})) [] 0) empty_test.

(** Both read the empty list, client 0 appends, client 1 fails and retries, not told of its success. *)
Definition append_race : list AppEvent :=
  let act (i : nat) := mkAppEvent i false false in
  [ act 0%nat; act 1%nat; act 0%nat; act 1%nat; act 0%nat; act 1%nat; act 1%nat;
    mkAppEvent 1 false true; act 1%nat; act 1%nat; act 1%nat; mkAppEvent 0 true false;
    mkAppEvent 1 true false ].

Lemma append_clients_pass_witness :
  exists w ts' ver es, app_run (app_start test_k 2) append_race = Some w
    /\ GetJson (A:=list EntryN) (aw_ts w) "k" (-1) = Some (ts', (ver, es))
    /\ CheckAppends es 2 (ac_res <$> aw_clients w) ver = Some tt.
Proof.
  apply (append_clients_pass test_k 2 append_race).
  - split; [|vm_compute; reflexivity]. split; [by eexists|]. intros k e He. split; [|exact I].
    unfold KVServer.lookup in He. simpl in He. apply lookup_singleton_Some in He as [_ <-]. simpl. lia.
  - vm_compute. reflexivity.
Defined.

(** Appends that were answered [OK] may be missing from the end of the list. *)
Example CheckAppends_accepts_lost_tail :
  CheckAppends [mkEntryN 0 0] 1 [mkClntRes 5 0] 2 = Some tt.
Proof. reflexivity. Qed.
