(* ===== verification/Annot.v ===== *)
(** * The annotations of a test run: lec-2025/src/tester1/annotation.go

    The timeline that a test writes for the visualization of a run: points, intervals and
    annotations that last until the next one with their tag, among them the state of the network
    and of the servers.  [AnnotProps] shows when the timeline tells the truth.

    The two global variables are the state; [timestamp] is an argument of each operation.  A
    method of [finfo] before [AnnotateTest] is a nil dereference, hence [None]. *)

From S2P Require Import Prelude.

Module Annot.

(** [porcupine.Annotation]; the fields that are not set stay zero. *)
Record Annotation := mkAnnotation {
  a_Tag : string; a_Start : Z; a_End : Z; a_Description : string; a_Details : string;
  a_BackgroundColor : string }.

Record Continuous := mkContinuous {
  co_start : Z; co_desp : string; co_details : string; co_bgcolor : string }.

Record CheckerBegin := mkCheckerBegin { cb_ts : Z; cb_details : string }.

Record FrameworkInfo := mkFrameworkInfo_ {
  fi_nservers : Z; fi_connected : list bool; fi_crashed : list bool; fi_ckbegin : CheckerBegin }.

(** The variables [annotation] and [finfo]. *)
Record Globals := mkGlobals {
  annotations : list Annotation; continuous : gmap string Continuous; finalized : bool;
  finfo : option FrameworkInfo }.

Definition COLOR_INFO : string := "#FAFAFA".
Definition COLOR_NEUTRAL : string := "#FFECB3".
Definition COLOR_SUCCESS : string := "#C8E6C9".
Definition COLOR_FAILURE : string := "#FFCDD2".
Definition COLOR_FAULT : string := "#B3E5FC".
Definition COLOR_USER : string := "#FFF176".

Definition TAG_CHECKER : string := "$ Checker".
Definition TAG_PARTITION : string := "$ Failure".
Definition TAG_INFO : string := "$ Test Info".

Implicit Types (g : Globals) (t : Z) (tag desp details bgcolor : string).

(** [mkAnnotation] and a nil [finfo]. *)
Definition initial : Globals := mkGlobals [] ∅ false None.

Definition mkFrameworkInfo (nservers : Z) : FrameworkInfo :=
  mkFrameworkInfo_ nservers (replicate (Z.to_nat nservers) true) (replicate (Z.to_nat nservers) false)
    (mkCheckerBegin 0 "").

Definition set_finfo (f : FrameworkInfo) g : Globals :=
  mkGlobals (annotations g) (continuous g) (finalized g) (Some f).

(** ** The methods of [Annotation] *)

Definition clear g : Globals := mkGlobals [] ∅ false (finfo g).

Definition add (a : Annotation) g : Globals :=
  mkGlobals (annotations g ++ [a]) (continuous g) (finalized g) (finfo g).

Definition annotatePointColor t g tag desp details bgcolor : Globals :=
  add (mkAnnotation tag t 0 desp details bgcolor) g.

Definition annotateIntervalColor t g tag (start : Z) desp details bgcolor : Globals :=
  add (mkAnnotation tag start t desp details bgcolor) g.

(** The on-going annotation [cont] of [tag], ended at [t]. *)
Definition concretize tag (cont : Continuous) t : Annotation :=
  mkAnnotation tag (co_start cont) t (co_desp cont) (co_details cont) (co_bgcolor cont).

Definition annotateContinuousColor t g tag desp details bgcolor : Globals :=
  match continuous g !! tag with
  | None =>
      mkGlobals (annotations g) (<[tag := mkContinuous t desp details bgcolor]> (continuous g))
        (finalized g) (finfo g)
  | Some cont =>
      mkGlobals (annotations g ++ [concretize tag cont t])
        (<[tag := mkContinuous t desp details bgcolor]> (continuous g)) (finalized g) (finfo g)
  end.

(** Without an on-going annotation, [cont] is the zero [Continuous]: there is no [return]. *)
Definition annotateContinuousEnd t g tag : Globals :=
  let cont := default (mkContinuous 0 "" "" "") (continuous g !! tag) in
  mkGlobals (annotations g ++ [concretize tag cont t]) (delete tag (continuous g)) (finalized g) (finfo g).

(** The map is listed in any order. *)
Definition finalize t g : Globals * list Annotation :=
  (mkGlobals (annotations g) (continuous g) true (finfo g),
   annotations g ++ ((fun '(tag, cont) => concretize tag cont t) <$> map_to_list (continuous g))).

Definition end_annotation t (end_ : string) : Annotation := mkAnnotation TAG_INFO t 0 end_ end_ COLOR_INFO.

(** [enabled] is the environment variable [VIS_ENABLE]; the annotations are what goes into the
    file, if it can be opened. *)
Definition cleanup t1 t2 g (enabled : string) (failed : bool) (end_ : string)
    : Globals * option (list Annotation) :=
  if bool_decide (enabled = "never") || (negb failed && bool_decide (enabled <> "always")) || finalized g
  then (clear g, None)
  else
    let '(g, l) := finalize t1 g in
    match l with
    | [] => (g, None)
    | _ => (g, Some (l ++ [end_annotation t2 end_]))
    end.

(** ** The public functions *)

Definition FinalizeAnnotations t1 t2 g (end_ : string) : Globals * list Annotation :=
  let '(g, l) := finalize t1 g in (g, l ++ [end_annotation t2 end_]).

Definition Annotate t g tag desp details : Globals := annotatePointColor t g tag desp details COLOR_USER.

Definition AnnotateInterval t g tag (start : Z) desp details : Globals :=
  annotateIntervalColor t g tag start desp details COLOR_USER.

Definition AnnotateContinuous t g tag desp details : Globals :=
  annotateContinuousColor t g tag desp details COLOR_USER.

Definition AnnotateInfo t g desp details : Globals := annotatePointColor t g TAG_INFO desp details COLOR_INFO.

Definition AnnotateInfoInterval t g (start : Z) desp details : Globals :=
  annotateIntervalColor t g TAG_INFO start desp details COLOR_INFO.

Definition AnnotateTest t g desp (nservers : Z) : Globals :=
  let details := (desp +:+ " (" +:+ Sprint nservers +:+ " servers)")%string in
  AnnotateInfo t (clear (set_finfo (mkFrameworkInfo nservers) g)) details details.

Definition AnnotateCheckerBegin t g details : option Globals :=
  f ← finfo g;
  Some (set_finfo (mkFrameworkInfo_ (fi_nservers f) (fi_connected f) (fi_crashed f) (mkCheckerBegin t details)) g).

(** The assignment to [ckbegin.ts] at the end changes a copy. *)
Definition AnnotateCheckerEnd t g desp details color : option Globals :=
  f ← finfo g;
  let ckbegin := fi_ckbegin f in
  if cb_ts ckbegin =? 0 then Some (annotatePointColor t g TAG_CHECKER desp details color)
  else
    let d := (cb_details ckbegin +:+ ": " +:+ details)%string in
    Some (annotateIntervalColor t g TAG_CHECKER (cb_ts ckbegin) desp d color).

Definition AnnotateCheckerSuccess t g desp details := AnnotateCheckerEnd t g desp details COLOR_SUCCESS.
Definition AnnotateCheckerFailure t g desp details := AnnotateCheckerEnd t g desp details COLOR_FAILURE.
Definition AnnotateCheckerNeutral t g desp details := AnnotateCheckerEnd t g desp details COLOR_NEUTRAL.

Definition SetAnnotationFinalized g : Globals :=
  mkGlobals (annotations g) (continuous g) true (finfo g).

Definition GetAnnotationFinalized g : bool := finalized g.

Definition AnnotateCheckerFailureBeforeExit t t1 t2 g (enabled : string) desp details
    : option (Globals * option (list Annotation)) :=
  g ← AnnotateCheckerFailure t g desp details;
  Some (cleanup t1 t2 g enabled true "test failed").

(** ** The state of the network and of the servers *)

(** [%v] of an [[]int]. *)
Definition Sprint_ints (l : list Z) : string := ("[" +:+ String.concat " " (Sprint <$> l) +:+ "]")%string.

(** The loop of [annotateFault] from server [id] on: the text so far, [conn] and [crashes]. *)
Fixpoint fault_scan (id : Z) (connected crashed : list bool) (text : string) (conn crashes : list Z)
    : option (string * list Z * list Z) :=
  match connected with
  | [] => Some (text, conn, crashes)
  | c :: connected =>
      match crashed with
      | [] => None
      | true :: crashed => fault_scan (id + 1) connected crashed text conn (crashes ++ [id])
      | false :: crashed =>
          if c : bool then fault_scan (id + 1) connected crashed text (conn ++ [id]) crashes
          else fault_scan (id + 1) connected crashed (text +:+ "[" +:+ Sprint id +:+ "] ")%string conn crashes
      end
  end.

(** Lines 256 to 274. *)
Definition fault_text (f : FrameworkInfo) : option string :=
  '(text, conn, crashes) ← fault_scan 0 (fi_connected f) (fi_crashed f) "partition = " [] [];
  let text := if 0 <? zlen conn then (text +:+ Sprint_ints conn)%string else text in
  Some (if 0 <? zlen crashes then (text +:+ " / crash = " +:+ Sprint_ints crashes)%string else text).

(** The condition of line 245. *)
Definition healthy (f : FrameworkInfo) : bool :=
  bool_decide (replicate (Z.to_nat (fi_nservers f)) true = fi_connected f)
  && bool_decide (replicate (Z.to_nat (fi_nservers f)) false = fi_crashed f).

Definition annotateFault t g : option Globals :=
  f ← finfo g;
  if healthy f then Some (annotateContinuousEnd t g TAG_PARTITION)
  else
    text ← fault_text f;
    Some (annotateContinuousColor t g TAG_PARTITION text text COLOR_FAULT).

(** [copy]: as much as fits. *)
Definition copy_into {A} (dst src : list A) : list A := take (length dst) src ++ drop (length src) dst.

Definition AnnotateConnection t g (connection : list bool) : option Globals :=
  f ← finfo g;
  if bool_decide (fi_connected f = connection) then Some g
  else
    annotateFault t (set_finfo (mkFrameworkInfo_ (fi_nservers f) (copy_into (fi_connected f) connection)
                                  (fi_crashed f) (fi_ckbegin f)) g).

Definition AnnotateTwoPartitions t g (p1 p2 : list Z) : Globals :=
  let text := ("partition = " +:+ Sprint_ints p1 +:+ " " +:+ Sprint_ints p2)%string in
  annotateContinuousColor t g TAG_PARTITION text text COLOR_FAULT.

Definition AnnotateClearFailure t g : option Globals :=
  f ← finfo g;
  let f := mkFrameworkInfo_ (fi_nservers f) ((fun _ => true) <$> fi_connected f)
             ((fun _ => false) <$> fi_crashed f) (fi_ckbegin f) in
  Some (annotateContinuousEnd t (set_finfo f g) TAG_PARTITION).

(** The loops of [AnnotateShutdown] and [AnnotateRestart]: [to] is the new state of the servers. *)
Fixpoint set_crashed (to : bool) (crashed : list bool) (changed : bool) (servers : list Z)
    : option (list bool * bool) :=
  match servers with
  | [] => Some (crashed, changed)
  | id :: servers =>
      was ← slice_get crashed id;
      crashed ← slice_set crashed id to;
      set_crashed to crashed (changed || negb (Bool.eqb was to)) servers
  end.

Definition AnnotateCrashes (to : bool) t g (servers : list Z) : option Globals :=
  f ← finfo g;
  '(crashed, changed) ← set_crashed to (fi_crashed f) false servers;
  let g := set_finfo (mkFrameworkInfo_ (fi_nservers f) (fi_connected f) crashed (fi_ckbegin f)) g in
  if changed : bool then annotateFault t g else Some g.

Definition AnnotateShutdown t g (servers : list Z) := AnnotateCrashes true t g servers.
Definition AnnotateRestart t g (servers : list Z) := AnnotateCrashes false t g servers.

Definition AnnotateShutdownAll t g : option Globals :=
  f ← finfo g;
  AnnotateShutdown t g (seqZ 0 (fi_nservers f)).

Definition AnnotateRestartAll t g : option Globals :=
  f ← finfo g;
  AnnotateRestart t g (seqZ 0 (fi_nservers f)).

End Annot.
