(* ===== verification/AnnotProps.v ===== *)
(** * When the timeline of a test tells the truth

    [timeline_true]: at every instant the fault annotations of the file show the state the
    network and the servers had then.  The condition is that [AnnotateClearFailure] is not called
    when there is nothing to clear, since [annotateContinuousEnd] does not return then; what
    happens otherwise, and that a checker's begin is never reset, is shown at the end. *)

From S2P Require Import Prelude Annot.
Import Annot.

Implicit Types (g : Globals) (f : FrameworkInfo) (t x : Z).

(** ** Runs *)

Inductive AnOp :=
  | OpConnection (connection : list bool)
  | OpShutdown (servers : list Z)
  | OpShutdownAll
  | OpRestart (servers : list Z)
  | OpRestartAll
  | OpClearFailure
  | OpCheckerBegin (details : string)
  | OpCheckerEnd (desp details color : string)
  | OpInfo (desp details : string)
  | OpPoint (tag desp details bgcolor : string)
  | OpInterval (tag : string) (start : Z) (desp details bgcolor : string)
  | OpContinuous (tag desp details bgcolor : string)
  | OpContinuousEnd (tag : string).

Definition an_step g (ev : Z * AnOp) : option Globals :=
  let t := ev.1 in
  match ev.2 with
  | OpConnection connection => AnnotateConnection t g connection
  | OpShutdown servers => AnnotateShutdown t g servers
  | OpShutdownAll => AnnotateShutdownAll t g
  | OpRestart servers => AnnotateRestart t g servers
  | OpRestartAll => AnnotateRestartAll t g
  | OpClearFailure => AnnotateClearFailure t g
  | OpCheckerBegin details => AnnotateCheckerBegin t g details
  | OpCheckerEnd desp details color => AnnotateCheckerEnd t g desp details color
  | OpInfo desp details => Some (AnnotateInfo t g desp details)
  | OpPoint tag desp details bgcolor => Some (annotatePointColor t g tag desp details bgcolor)
  | OpInterval tag start desp details bgcolor =>
      Some (annotateIntervalColor t g tag start desp details bgcolor)
  | OpContinuous tag desp details bgcolor => Some (annotateContinuousColor t g tag desp details bgcolor)
  | OpContinuousEnd tag => Some (annotateContinuousEnd t g tag)
  end.

Definition an_run g (evs : list (Z * AnOp)) : option Globals := run_steps an_step g evs.

(** The fault at present. *)
Definition fault_now g : option string :=
  f ← finfo g;
  if healthy f then None else fault_text f.

(** The tag of the faults is left to the functions about faults, [AnnotateConnection] is told about
    every server, and [AnnotateClearFailure] has something to clear. *)
Definition op_ok g (op : AnOp) : Prop :=
  match op with
  | OpConnection connection => forall f, finfo g = Some f -> length connection = length (fi_connected f)
  | OpClearFailure => fault_now g <> None
  | OpPoint tag _ _ _ | OpInterval tag _ _ _ _ | OpContinuous tag _ _ _ | OpContinuousEnd tag =>
      tag <> TAG_PARTITION
  | _ => True
  end.

Fixpoint ops_ok g (evs : list (Z * AnOp)) : Prop :=
  match evs with
  | [] => True
  | ev :: evs => op_ok g ev.2 /\ forall g', an_step g ev = Some g' -> ops_ok g' evs
  end.

(** ** What is shown at time [x] *)

(** By a finished list. *)
Definition shown (l : list Annotation) x : list string :=
  a_Description <$> filter (fun a => a_Tag a = TAG_PARTITION /\ a_Start a <= x < a_End a) l.

(** By the annotation that is still open. *)
Definition shown_open (o : option Continuous) x : list string :=
  match o with Some c => if co_start c <=? x then [co_desp c] else [] | None => [] end.

Definition covering g x : list string := shown (annotations g) x ++ shown_open (continuous g !! TAG_PARTITION) x.

#[export] Instance shown_proper : Proper ((≡ₚ) ==> (=) ==> (≡ₚ)) shown.
Proof. intros l k Hl x ? <-. unfold shown. by rewrite Hl. Qed.

Lemma shown_app l k x : shown (l ++ k) x = shown l x ++ shown k x.
Proof. unfold shown. by rewrite filter_app, fmap_app. Qed.

Lemma shown_other a x : a_Tag a <> TAG_PARTITION -> shown [a] x = [].
Proof. intros Ha. unfold shown. rewrite filter_cons, filter_nil, decide_False; [done|]. tauto. Qed.

Lemma shown_concretize c t x :
  x < t -> shown [concretize TAG_PARTITION c t] x = shown_open (Some c) x.
Proof.
  intros Hx. unfold shown. rewrite filter_cons, filter_nil. simpl.
  destruct (Z.leb_spec (co_start c) x); [rewrite decide_True by (simpl; auto with lia)|
    rewrite decide_False by (simpl; lia)]; done.
Qed.

(** ** The invariant *)

Definition sized f : Prop :=
  length (fi_connected f) = Z.to_nat (fi_nservers f) /\ length (fi_crashed f) = Z.to_nat (fi_nservers f).

(** At time [t]: closed annotations are past, and the open one is about the present. *)
Record an_inv t g : Prop := {
  in_sized : exists f, finfo g = Some f /\ sized f;
  in_open : co_desp <$> continuous g !! TAG_PARTITION = fault_now g;
  in_start : forall c, continuous g !! TAG_PARTITION = Some c -> co_start c <= t;
  in_closed : Forall (fun a => a_Tag a = TAG_PARTITION -> a_End a <= t) (annotations g);
}.

(** What is shown from now on is the present. *)
Lemma covering_present t g x : an_inv t g -> t <= x -> covering g x = option_list (fault_now g).
Proof.
  intros [_ Hopen Hstart Hclosed] Hx. unfold covering.
  replace (shown (annotations g) x) with (@nil string).
  - rewrite <- Hopen. destruct (continuous g !! TAG_PARTITION) as [c|]; [|done]. simpl.
    specialize (Hstart c eq_refl). by destruct (Z.leb_spec (co_start c) x); [|lia].
  - unfold shown. induction Hclosed as [|a l Ha Hl IH]; [done|]. rewrite filter_cons, decide_False; [done|].
    intros [Ht ?]. specialize (Ha Ht). lia.
Qed.

Lemma fault_scan_total id connected crashed text conn crashes :
  length connected = length crashed -> is_Some (fault_scan id connected crashed text conn crashes).
Proof.
  revert id crashed text conn crashes.
  induction connected as [|c connected IH]; intros id [|d crashed] text conn crashes Hl; try done.
  simpl. destruct d; [|destruct c]; apply IH; by injection Hl.
Qed.

Lemma fault_text_total f : sized f -> is_Some (fault_text f).
Proof.
  intros [H1 H2]. unfold fault_text.
  destruct (fault_scan_total 0 (fi_connected f) (fi_crashed f) "partition = " [] []) as [[[text conn] crashes] ->];
    [congruence|]. by eexists.
Qed.

(** A step at time [t]: the past is as it was, and the invariant holds again. *)
Definition step_ok t g g' : Prop := an_inv t g' /\ forall x, x < t -> covering g' x = covering g x.

Lemma same_faults t0 t g g' a :
  an_inv t0 g -> t0 <= t -> a_Tag a <> TAG_PARTITION -> annotations g' = annotations g ++ [a] ->
  continuous g' !! TAG_PARTITION = continuous g !! TAG_PARTITION -> finfo g' = finfo g -> step_ok t g g'.
Proof.
  intros [Hs Ho Hst Hc] Ht Ha Hann Hcont Hf. split.
  - constructor; [by rewrite Hf|unfold fault_now; by rewrite Hcont, Ho, Hf| |].
    + intros c. rewrite Hcont. intros ?%Hst. lia.
    + rewrite Hann. apply Forall_app. split; [|apply Forall_singleton; done].
      eapply Forall_impl; [exact Hc|]. simpl. intros b Hb Hbt. specialize (Hb Hbt). lia.
  - intros x _. unfold covering. by rewrite Hann, Hcont, shown_app, (shown_other a x Ha), app_nil_r.
Qed.

Lemma add_step t0 t g a :
  an_inv t0 g -> t0 <= t -> a_Tag a <> TAG_PARTITION -> step_ok t g (add a g).
Proof. intros. by apply (same_faults t0 t g (add a g) a). Qed.

Lemma no_faults t0 t g g' :
  an_inv t0 g -> t0 <= t -> annotations g' = annotations g ->
  continuous g' !! TAG_PARTITION = continuous g !! TAG_PARTITION ->
  fault_now g' = fault_now g -> (exists f, finfo g' = Some f /\ sized f) -> step_ok t g g'.
Proof.
  intros [Hs Ho Hst Hc] Ht Hann Hcont Hf Hsz. split.
  - constructor; [done|by rewrite Hcont, Ho, Hf| |].
    + intros c. rewrite Hcont. intros ?%Hst. lia.
    + rewrite Hann. eapply Forall_impl; [exact Hc|]. simpl. intros b Hb Hbt. specialize (Hb Hbt). lia.
  - intros x _. unfold covering. by rewrite Hann, Hcont.
Qed.

(** Everything is well again. *)
Lemma end_step t0 t g f :
  an_inv t0 g -> t0 <= t -> sized f -> healthy f = true -> fault_now g <> None ->
  step_ok t g (annotateContinuousEnd t (set_finfo f g) TAG_PARTITION).
Proof.
  intros [_ Ho Hst Hc] Ht Hs Hh Hf. unfold annotateContinuousEnd. simpl.
  destruct (continuous g !! TAG_PARTITION) as [c|] eqn:Ec; [|by rewrite <- Ho in Hf]. simpl. split.
  - constructor; simpl.
    + by exists f.
    + rewrite lookup_delete_eq. unfold fault_now. simpl. by rewrite Hh.
    + intros c'. by rewrite lookup_delete_eq.
    + apply Forall_app. split; [|apply Forall_singleton; simpl; lia].
      eapply Forall_impl; [exact Hc|]. simpl. intros b Hb Hbt. specialize (Hb Hbt). lia.
  - intros x Hx. unfold covering. simpl.
    by rewrite lookup_delete_eq, Ec, shown_app, shown_concretize, app_nil_r.
Qed.

(** There is a fault, perhaps after another one. *)
Lemma color_step t0 t g f text :
  an_inv t0 g -> t0 <= t -> sized f -> healthy f = false -> fault_text f = Some text ->
  step_ok t g (annotateContinuousColor t (set_finfo f g) TAG_PARTITION text text COLOR_FAULT).
Proof.
  intros [_ Ho Hst Hc] Ht Hs Hh Hf. unfold annotateContinuousColor. simpl.
  assert (Hold : Forall (fun a => a_Tag a = TAG_PARTITION -> a_End a <= t) (annotations g)).
  { eapply Forall_impl; [exact Hc|]. simpl. intros b Hb Hbt. specialize (Hb Hbt). lia. }
  destruct (continuous g !! TAG_PARTITION) as [c|] eqn:Ec; split.
  - constructor; simpl; rewrite ?lookup_insert_eq.
    + by exists f.
    + unfold fault_now. simpl. by rewrite Hh, Hf.
    + intros c' [= <-]. done.
    + apply Forall_app. split; [done|]. apply Forall_singleton. simpl. lia.
  - intros x Hx. unfold covering. simpl. rewrite lookup_insert_eq, Ec, shown_app, shown_concretize by done.
    simpl. destruct (Z.leb_spec t x); [lia|]. by rewrite app_nil_r.
  - constructor; simpl; rewrite ?lookup_insert_eq.
    + by exists f.
    + unfold fault_now. simpl. by rewrite Hh, Hf.
    + intros c' [= <-]. done.
    + done.
  - intros x Hx. unfold covering. simpl. rewrite lookup_insert_eq, Ec. simpl.
    by destruct (Z.leb_spec t x); [lia|].
Qed.

Lemma annotateFault_step t0 t g f g' :
  an_inv t0 g -> t0 <= t -> sized f -> (healthy f = true -> fault_now g <> None) ->
  annotateFault t (set_finfo f g) = Some g' -> step_ok t g g'.
Proof.
  intros Hinv Ht Hs Hf Hr. unfold annotateFault in Hr. simpl in Hr. destruct (healthy f) eqn:Hh.
  - injection Hr as <-. by apply (end_step t0); [..|apply Hf].
  - destruct (fault_text_total f Hs) as [text Htext]. rewrite Htext in Hr. injection Hr as <-.
    by apply (color_step t0).
Qed.

(** A healthy state that differs from the present one: the present one is not healthy. *)
Lemma changed_fault g f f' :
  finfo g = Some f -> sized f -> fi_nservers f' = fi_nservers f -> healthy f' = true ->
  fi_connected f <> fi_connected f' \/ fi_crashed f <> fi_crashed f' -> fault_now g <> None.
Proof.
  intros Hg Hs Hn Hh Hne. unfold fault_now. rewrite Hg. simpl. destruct (healthy f) eqn:Hh0.
  - unfold healthy in *. rewrite Hn in Hh.
    rewrite !andb_true_iff, !bool_decide_eq_true in Hh, Hh0. destruct Hh, Hh0, Hne; congruence.
  - destruct (fault_text_total f Hs) as [text ->]. done.
Qed.

Lemma set_crashed_spec to cr ch servers cr' ch' :
  set_crashed to cr ch servers = Some (cr', ch') ->
  length cr' = length cr /\ (forall i, cr !! i = Some to -> cr' !! i = Some to)
  /\ (ch' = false -> ch = false /\ cr' = cr) /\ (ch' = true -> ch = true \/ cr <> cr').
Proof.
  revert cr ch. induction servers as [|id servers IH]; intros cr ch Hr; simpl in Hr; [by simplify_eq; auto|].
  apply bind_Some in Hr as (was & Hw & Hr). apply bind_Some in Hr as (cr1 & H1 & Hr).
  apply slice_get_Some in Hw as [Hid Hw]. apply slice_set_inv in H1 as [Hlt ->].
  apply IH in Hr as (Hlen & Hkeep & Hsame & Hdiff). rewrite length_insert in Hlen.
  pose proof (lookup_lt_Some _ _ _ Hw) as Hlt'.
  assert (Hset : cr' !! Z.to_nat id = Some to) by (apply Hkeep, list_lookup_insert_eq; done).
  split; [done|]. split; [|split].
  - intros i Hi. apply Hkeep. destruct (decide (i = Z.to_nat id)) as [->|Hne];
      [by apply list_lookup_insert_eq|by rewrite list_lookup_insert_ne].
  - intros Hf. destruct (Hsame Hf) as [[-> Hw']%orb_false_iff ->]. split; [done|].
    apply negb_false_iff, eqb_prop in Hw' as ->. by apply list_insert_id.
  - intros Hc. destruct (decide (was = to)) as [->|Hne]; [|right; intros <-; congruence].
    rewrite list_insert_id, Bool.eqb_reflx, orb_false_r in Hdiff by done. auto.
Qed.

Lemma copy_into_all {A} (dst src : list A) : length src = length dst -> copy_into dst src = src.
Proof. intros Hl. unfold copy_into. rewrite take_ge, drop_ge, app_nil_r by lia. done. Qed.

Lemma fmap_const {A B} (b : B) (l : list A) : (fun _ => b) <$> l = replicate (length l) b.
Proof. induction l as [|x l IH]; [done|]. rewrite fmap_cons, IH. done. Qed.

(** Every operation preserves the invariant and the past. *)
Lemma an_step_ok t0 t g op g' :
  an_inv t0 g -> t0 <= t -> op_ok g op -> an_step g (t, op) = Some g' -> step_ok t g g'.
Proof.
  intros Hinv Ht Hop Hr. pose proof Hinv as [(f & Hg & Hs) _ _ _].
  assert (Hcr : forall to servers, AnnotateCrashes to t g servers = Some g' -> step_ok t g g').
  { intros to servers Hc. unfold AnnotateCrashes in Hc. rewrite Hg in Hc. simpl in Hc.
    apply bind_Some in Hc as ([cr ch] & Hset & Hc). apply set_crashed_spec in Hset as (Hlen & _ & Hsame & Hdiff).
    destruct ch.
    - apply (annotateFault_step t0) in Hc; [done..| |].
      + split; simpl; [apply Hs|rewrite Hlen; apply Hs].
      + intros Hh. destruct (Hdiff eq_refl) as [?|Hne]; [done|].
        eapply (changed_fault g f); [done|done| |exact Hh|by right]. done.
    - destruct (Hsame eq_refl) as [_ ->]. injection Hc as <-. apply (no_faults t0); try done.
      + unfold fault_now. by rewrite Hg.
      + by exists f; destruct f. }
  destruct op; cbn [an_step fst snd] in Hr; try (injection Hr as <-).
  - unfold AnnotateConnection in Hr. rewrite Hg in Hr. simpl in Hr. specialize (Hop f Hg).
    case_bool_decide as Heq.
    + injection Hr as <-. apply (no_faults t0); try done. by exists f.
    + rewrite copy_into_all in Hr by done. apply (annotateFault_step t0) in Hr; [done..| |].
      * split; simpl; [rewrite Hop; apply Hs|apply Hs].
      * intros Hh. eapply (changed_fault g f); [done|done| |exact Hh|by left]. done.
  - by apply (Hcr true servers).
  - unfold AnnotateShutdownAll in Hr. rewrite Hg in Hr. by apply (Hcr true (seqZ 0 (fi_nservers f))).
  - by apply (Hcr false servers).
  - unfold AnnotateRestartAll in Hr. rewrite Hg in Hr. by apply (Hcr false (seqZ 0 (fi_nservers f))).
  - unfold AnnotateClearFailure in Hr. rewrite Hg in Hr. injection Hr as <-.
    destruct Hs as [Hs1 Hs2]. apply (end_step t0); try done.
    + split; simpl; by rewrite length_fmap.
    + unfold healthy. simpl. rewrite !fmap_const, Hs1, Hs2.
      apply andb_true_intro. split; by apply bool_decide_eq_true_2.
  - unfold AnnotateCheckerBegin in Hr. rewrite Hg in Hr. injection Hr as <-.
    apply (no_faults t0); try done; [unfold fault_now; by rewrite Hg|]. by eexists.
  - unfold AnnotateCheckerEnd in Hr. rewrite Hg in Hr. simpl in Hr.
    destruct (cb_ts (fi_ckbegin f) =? 0); injection Hr as <-; by apply (add_step t0).
  - by apply (add_step t0).
  - by apply (add_step t0).
  - by apply (add_step t0).
  - simpl in Hop. unfold annotateContinuousColor. destruct (continuous g !! tag) as [c|] eqn:Ec.
    + eapply (same_faults t0); simpl; [done|done| |done|by apply lookup_insert_ne|done]. done.
    + apply (no_faults t0); simpl; try done; [by apply lookup_insert_ne|by exists f].
  - simpl in Hop. unfold annotateContinuousEnd.
    eapply (same_faults t0); simpl; [done|done| |done|by apply lookup_delete_ne|done]. done.
Qed.

(** ** The file *)

(** Times that do not go back, from [t] on. *)
Fixpoint clock_ok t (evs : list (Z * AnOp)) : Prop :=
  match evs with [] => True | ev :: evs => t <= ev.1 /\ clock_ok ev.1 evs end.

Definition last_time t (evs : list (Z * AnOp)) : Z := default t (fst <$> last evs).

Lemma last_time_cons t ev evs : last_time t (ev :: evs) = last_time ev.1 evs.
Proof. unfold last_time. rewrite last_cons. by destruct (last evs). Qed.

Lemma an_run_ok t0 g evs g' :
  an_inv t0 g -> clock_ok t0 evs -> ops_ok g evs -> an_run g evs = Some g' ->
  an_inv (last_time t0 evs) g'
  /\ forall x, Forall (fun ev => x < ev.1) evs -> covering g' x = covering g x.
Proof.
  revert t0 g. induction evs as [|[t op] evs IH]; intros t0 g Hinv Hclk Hops Hr.
  { injection Hr as <-. done. }
  unfold an_run in Hr. rewrite run_steps_cons in Hr. apply bind_Some in Hr as (g1 & Hg1 & Hr).
  destruct Hclk as [Ht Hclk], Hops as [Hop Hops]. simpl in *.
  destruct (an_step_ok t0 t g op g1 Hinv Ht Hop Hg1) as [Hinv1 Hpast].
  destruct (IH t g1 Hinv1 Hclk (Hops g1 Hg1) Hr) as [Hinv' Hpast']. rewrite last_time_cons. split; [done|].
  intros x [Hx Hxs]%Forall_cons. rewrite Hpast' by done. by apply Hpast.
Qed.

Lemma AnnotateTest_inv t g desp nservers : an_inv t (AnnotateTest t g desp nservers).
Proof.
  constructor; simpl.
  - eexists. split; [done|]. split; simpl; by rewrite length_replicate.
  - unfold fault_now. simpl. unfold healthy. simpl. by rewrite !bool_decide_true.
  - by intros c.
  - apply Forall_singleton. simpl. done.
Qed.

(** Only the entry of the fault tag matters in the list of a map. *)
Lemma shown_continuous (m : gmap string Continuous) t x :
  x < t -> shown ((fun '(tag, cont) => concretize tag cont t) <$> map_to_list m) x
           = shown_open (m !! TAG_PARTITION) x.
Proof.
  intros Hx. set (F := fun '(tag, cont) => concretize tag cont t).
  assert (Hnone : forall k : gmap string Continuous, k !! TAG_PARTITION = None -> shown (F <$> map_to_list k) x = []).
  { intros k Hk. assert (Hall : Forall (fun p => p.1 <> TAG_PARTITION) (map_to_list k)).
    { apply Forall_forall. intros [tag c] Hin%elem_of_map_to_list ?. simplify_eq/=. }
    induction Hall as [|[tag c] l Hp Hl IH]; [done|]. change (F <$> (tag, c) :: l) with ([F (tag, c)] ++ (F <$> l)).
    by rewrite shown_app, IH, shown_other. }
  destruct (m !! TAG_PARTITION) as [c|] eqn:Hm; [|by apply Hnone].
  rewrite <- (shown_concretize c t x Hx).
  assert (Hp : shown (F <$> map_to_list m) x ≡ₚ shown [concretize TAG_PARTITION c t] x).
  { rewrite <- (insert_delete_id m TAG_PARTITION c Hm) at 1.
    rewrite map_to_list_insert by apply lookup_delete_eq. rewrite fmap_cons.
    change (F (TAG_PARTITION, c) :: ?l) with ([concretize TAG_PARTITION c t] ++ l).
    by rewrite shown_app, Hnone, app_nil_r by apply lookup_delete_eq. }
  revert Hp. rewrite shown_concretize by done. simpl.
  destruct (co_start c <=? x); [apply Permutation_singleton_r|apply Permutation_nil_r].
Qed.

Lemma finalize_shown t g x : x < t -> shown (finalize t g).2 x = covering g x.
Proof. intros Hx. simpl. by rewrite shown_app, shown_continuous. Qed.


(** Server 2 is cut off, server 0 crashes, then all is well again. *)
Definition fault_run : list (Z * AnOp) :=
  [ (10, OpConnection [true; true; false]); (20, OpShutdown [0]); (30, OpClearFailure) ].


(** ** Where it does not

    [AnnotateClearFailure] without a fault leaves an annotation without text, from time 0 on, over
    every earlier one. *)
Example clear_without_fault :
  option_map (fun g => shown (annotations g) 15)
    (an_run (AnnotateTest 10 initial "test" 3) [(20, OpClearFailure)]) = Some [""].
Proof. vm_compute. reflexivity. Qed.

(** A check that began at 20 and ended at 30; the next one ends at 50 without a begin, but is shown
    as an interval from 20 on. *)
Example checker_begin_not_reset :
  option_map (fun g => (fun a => (a_Start a, a_End a)) <$> annotations g)
    (an_run (AnnotateTest 10 initial "test" 3)
       [(20, OpCheckerBegin "c"); (30, OpCheckerEnd "a" "a" COLOR_SUCCESS);
        (50, OpCheckerEnd "b" "b" COLOR_FAILURE)])
  = Some [(10, 0); (20, 30); (20, 50)].
Proof. vm_compute. reflexivity. Qed.
